(** * Network -> lowered graph conversion (NetworkToGraphConverter.cpp)

    A shallow embedding of the rewrite rules of the support library's
    [NetworkToGraphConverter] and of the helper [CreateTransposeConv],
    together with the properties the specification states about them.

    Conventions.
    - [uint32_t] values are integers of [Z]; every arithmetic operation of
      the source on them is followed by its reduction modulo 2^32.
    - [std::vector<uint8_t>] is a [list Z] of bytes, [std::vector<int32_t>]
      a [list Z].
    - [float] is IEEE binary32, taken from the Standard Library's
      [SpecFloat] at precision 24 and maximal exponent 128.
    - The converter mutates its graph and operand map in place and may
      throw: rewrite rules are computations in a state-and-exception monad
      whose state survives a throw. *)

From Stdlib Require Import ZArith List Lia Bool String.
From Stdlib Require Import Floats.SpecFloat.
From stdpp Require Import base option list gmap.

Open Scope Z_scope.

(* ================================================================== *)
(** ** Machine arithmetic *)

Definition u32 (z : Z) : Z := z mod 2 ^ 32.
Definition u8 (z : Z) : Z := z mod 2 ^ 8.

Definition add32 (a b : Z) : Z := u32 (a + b).
Definition sub32 (a b : Z) : Z := u32 (a - b).
Definition mul32 (a b : Z) : Z := u32 (a * b).

Definition is_u32 (z : Z) : Prop := 0 <= z < 2 ^ 32.

(** binary32 *)
Definition float := spec_float.
Definition f32_mul : float -> float -> float := SFmul 24 128.
Definition f32_div : float -> float -> float := SFdiv 24 128.
Definition f32_eqb : float -> float -> bool := SFeqb.
(** The literals [0.5f] and [1.0f]. *)
Definition f32_half : float := S754_finite false (2 ^ 23) (-24).
Definition f32_one : float := S754_finite false (2 ^ 23) (-23).

(* ================================================================== *)
(** ** Tensor descriptors (Support.hpp) *)

(** [TensorShape] is [std::array<uint32_t, 4>]: exactly four extents. *)
Record TensorShape := Shape { dim0 : Z; dim1 : Z; dim2 : Z; dim3 : Z }.

(** [shape[axis]] with a run-time axis; the source is undefined outside
    0..3, which is [None] here. *)
Definition shape_get (s : TensorShape) (axis : Z) : option Z :=
  if axis =? 0 then Some (dim0 s)
  else if axis =? 1 then Some (dim1 s)
  else if axis =? 2 then Some (dim2 s)
  else if axis =? 3 then Some (dim3 s)
  else None.

Definition shape_set (s : TensorShape) (axis : Z) (v : Z) : option TensorShape :=
  if axis =? 0 then Some (Shape v (dim1 s) (dim2 s) (dim3 s))
  else if axis =? 1 then Some (Shape (dim0 s) v (dim2 s) (dim3 s))
  else if axis =? 2 then Some (Shape (dim0 s) (dim1 s) v (dim3 s))
  else if axis =? 3 then Some (Shape (dim0 s) (dim1 s) (dim2 s) v)
  else None.

Inductive DataType := UINT8_QUANTIZED | INT32_QUANTIZED.
Inductive DataFormat := DF_NHWC | DF_NHWCB | DF_HWIO | DF_HWIM.
Inductive CompilerDataFormat := NHWC | NHWCB.

Definition CompilerDataFormat_eqb (a b : CompilerDataFormat) : bool :=
  match a, b with
  | NHWC, NHWC | NHWCB, NHWCB => true
  | _, _ => false
  end.

Record QuantizationInfo := QInfo { m_ZeroPoint : Z; m_Scale : float }.

(** Modelled from the spec: [QuantizationInfo::operator==] (Support.hpp is
    not part of the sources). The spec compares quantizations for being
    equal; here that is equality of the zero points and the C++ [==] of the
    two [float] scales. *)
Definition QuantizationInfo_eqb (a b : QuantizationInfo) : bool :=
  (m_ZeroPoint a =? m_ZeroPoint b) && f32_eqb (m_Scale a) (m_Scale b).

Record TensorInfo := TInfo {
  m_Dimensions : TensorShape;
  m_DataType : DataType;
  m_DataFormat : DataFormat;
  m_QuantizationInfo : QuantizationInfo }.

Record Stride := MkStride { m_X : Z; m_Y : Z }.

(** Modelled from the spec: the default-constructed [Stride()] of
    Support.hpp, which the spec calls "stride = default". *)
Definition Stride_default : Stride := MkStride 1 1.

Record Padding := MkPadding { m_Top : Z; m_Bottom : Z; m_Left : Z; m_Right : Z }.

(** Modelled from the spec: the two-argument constructor
    [Padding(topAndBottom, leftAndRight)]; depth-to-space passes
    "padding = 0". *)
Definition Padding2 (topAndBottom leftAndRight : Z) : Padding :=
  MkPadding topAndBottom topAndBottom leftAndRight leftAndRight.

Definition Padding_eqb (a b : Padding) : bool :=
  (m_Top a =? m_Top b) && (m_Bottom a =? m_Bottom b) &&
  (m_Left a =? m_Left b) && (m_Right a =? m_Right b).

Inductive PoolingType := AVG | MAX.

Definition PoolingType_eqb (a b : PoolingType) : bool :=
  match a, b with
  | AVG, AVG | MAX, MAX => true
  | _, _ => false
  end.

(** The aggregate [PoolingInfo]; the order of the fields is the order of
    the brace initialisers in [Visit(Pooling&)]. *)
Record PoolingInfo := MkPoolingInfo {
  m_PoolingSizeX : Z;
  m_PoolingSizeY : Z;
  m_PoolingStrideX : Z;
  m_PoolingStrideY : Z;
  m_Padding : Padding;
  m_PoolingType : PoolingType }.

(** Modelled from the spec: [PoolingInfo::operator==], "exact structural
    equality" of all six fields. *)
Definition PoolingInfo_eqb (a b : PoolingInfo) : bool :=
  (m_PoolingSizeX a =? m_PoolingSizeX b) &&
  (m_PoolingSizeY a =? m_PoolingSizeY b) &&
  (m_PoolingStrideX a =? m_PoolingStrideX b) &&
  (m_PoolingStrideY a =? m_PoolingStrideY b) &&
  Padding_eqb (m_Padding a) (m_Padding b) &&
  PoolingType_eqb (m_PoolingType a) (m_PoolingType b).

Inductive SupportedLevel := Unsupported | EstimateOnly | Supported.

(* ================================================================== *)
(** ** Lowered nodes (GraphNodes.hpp, from the spec's data model) *)

Inductive MceOperation := CONVOLUTION | DEPTHWISE_CONVOLUTION | FULLY_CONNECTED.

Inductive PleOperation :=
| MEAN_XY_8X8 | AVGPOOL_3X3_1_1_UDMA | MAXPOOL_2X2_2_2 | MAXPOOL_3X3_2_2
| SIGMOID | ADDITION | ADDITION_RESCALE | INTERLEAVE_2X2_2_2.

(** [ShapeMultiplier]: two fractions (numerator, denominator) and a
    channel factor. *)
Record ShapeMultiplier := MkShapeMultiplier {
  m_H : Z * Z; m_W : Z * Z; m_C : Z }.

Record MceData := MkMce {
  mce_inputShape : TensorShape;
  mce_weightsInfo : TensorInfo;
  mce_weightsData : list Z;
  mce_biasInfo : TensorInfo;
  mce_biasData : list Z;
  mce_stride : Stride;
  mce_upscaleFactor : Z;
  mce_padTop : Z;
  mce_padLeft : Z;
  mce_operation : MceOperation }.

Inductive NodeKind :=
| InputNode
| OutputNode (sourceOutputIndex : Z)
| ConstantNode (info : TensorInfo) (data : list Z)
| FormatConversionNode
| ReinterpretNode
| ExtractSubtensorNode (supertensorOffset : TensorShape)
| ConcatNode (axis : Z)
| RequantizeNode
| McePostProcessOperationNode (lowerBound upperBound : Z)
| MceOperationNode (d : MceData)
| FuseOnlyPleOperationNode (op : PleOperation) (sm : ShapeMultiplier)
| StandalonePleOperationNode (op : PleOperation)
| EstimateOnlyNode.

(** Every node carries its output shape, quantization and layout, and the
    set of ids of the source operations it comes from. *)
Record Node := MkNode {
  n_kind : NodeKind;
  n_shape : TensorShape;
  n_quant : QuantizationInfo;
  n_format : CompilerDataFormat;
  n_ids : gset Z }.

(* ================================================================== *)
(** ** The lowered graph (Graph.hpp, from the spec's data model)

    Modelled from the spec: the graph class is not part of the sources.
    Following the spec, the graph owns two append-only vectors, of nodes
    and of edges; a node or edge reference is its index. The inputs of a
    node are the edges that end in it, in the order of their creation:
    [connect] appends an edge, [split_edge] re-targets the edge in place
    (so it keeps its position among the inputs of its destination) and
    creates one new edge from the old source to the middle node. *)

Record Edge := MkEdge { e_src : nat; e_dst : nat }.

Record Graph := MkGraph { g_nodes : list Node; g_edges : list Edge }.

Definition graph_add_node (nd : Node) (g : Graph) : nat * Graph :=
  (length (g_nodes g), MkGraph (g_nodes g ++ [nd]) (g_edges g)).

Definition graph_connect (s d : nat) (g : Graph) : Graph :=
  MkGraph (g_nodes g) (g_edges g ++ [MkEdge s d]).

Definition graph_split_edge (e m : nat) (g : Graph) : option Graph :=
  match g_edges g !! e with
  | Some ed =>
      Some (MkGraph (g_nodes g)
                    (<[e := MkEdge m (e_dst ed)]> (g_edges g) ++ [MkEdge (e_src ed) m]))
  | None => None
  end.

(** Indices, counted from [off], of the edges of [es] that end in [d]. *)
Fixpoint inputs_from (off : nat) (es : list Edge) (d : nat) : list nat :=
  match es with
  | [] => []
  | e :: es' =>
      if Nat.eqb (e_dst e) d then off :: inputs_from (S off) es' d
      else inputs_from (S off) es' d
  end.

(** [node->GetInputs()] *)
Definition GetInputs (g : Graph) (d : nat) : list nat := inputs_from 0 (g_edges g) d.

(** [node->GetInput(i)] *)
Definition GetInput (g : Graph) (d : nat) (i : nat) : option nat := GetInputs g d !! i.

(** The node an edge comes from. *)
Definition edge_source (g : Graph) (e : nat) : option nat :=
  e_src <$> g_edges g !! e.

(** [node->GetInputFormat(i)]: the layout of the producer of input [i]. *)
Definition GetInputFormat (g : Graph) (d i : nat) : option CompilerDataFormat :=
  e ← GetInput g d i; s ← edge_source g e; n_format <$> g_nodes g !! s.

(** [node->GetInputQuantizationInfo(i)] *)
Definition GetInputQuantizationInfo (g : Graph) (d i : nat) : option QuantizationInfo :=
  e ← GetInput g d i; s ← edge_source g e; n_quant <$> g_nodes g !! s.

(* ================================================================== *)
(** ** The source network (Network.hpp, Operations.hpp) *)

(** An operand is identified by its address in the source; an operand is
    owned by the operation that produces it, so its address is determined
    by the producer's id and the index of the output. *)
Definition OperandKey : Type := Z * nat.

Record Operand := MkOperand {
  opd_producer : Z;
  opd_producerOutputIndex : nat;
  opd_info : TensorInfo;
  opd_consumers : list Z }.

Definition operand_key (o : Operand) : OperandKey :=
  (opd_producer o, opd_producerOutputIndex o).

(** The part common to all operations: id, input operands (pointers to
    operands of other operations) and the output operands it owns. *)
Record Operation := MkOperation {
  op_id : Z;
  op_inputs : list Operand;
  op_outputs : list TensorInfo }.

(** The address of [operation.GetOutput(i)]. *)
Definition output_key (op : Operation) (i : nat) : OperandKey := (op_id op, i).

Record ConvolutionInfo := MkConvolutionInfo {
  ci_Padding : Padding;
  ci_Stride : Stride }.

(** A constant as the rules read it: [GetTensorInfo()], [GetDataVector()]. *)
Record Constant := MkConstant {
  c_info : TensorInfo;
  c_data : list Z }.

Record TransposeConvolution := MkTransposeConvolution {
  tc_op : Operation;
  tc_weights : Constant;
  tc_biasInfo : TensorInfo;
  (** [GetBias().GetDataVectorAs<int32_t>()] *)
  tc_biasData : list Z;
  tc_info : ConvolutionInfo }.

Record DepthToSpace := MkDepthToSpace {
  d2s_op : Operation;
  d2s_BlockSize : Z }.

Record Pooling := MkPooling {
  pool_op : Operation;
  pool_info : PoolingInfo }.

Record FullyConnected := MkFullyConnected {
  fc_op : Operation;
  fc_weights : Constant;
  fc_biasInfo : TensorInfo;
  (** [GetBias().GetDataVectorAs<int32_t>()] *)
  fc_biasData : list Z }.

Record ConcatenationInfo := MkConcatenationInfo {
  ci_Axis : Z;
  ci_OutputQuantizationInfo : QuantizationInfo }.

Record Concatenation := MkConcatenation {
  cat_op : Operation;
  cat_info : ConcatenationInfo }.

Record SplitInfo := MkSplitInfo {
  si_Axis : Z;
  si_Sizes : list Z }.

Record Split := MkSplit {
  split_op : Operation;
  split_info : SplitInfo }.

(** [HardwareCapabilities], as far as the converter reads it. *)
Record Capabilities := MkCapabilities { GetBrickGroupShape : TensorShape }.

(* ================================================================== *)
(** ** State and exceptions *)

Inductive Exception :=
| NotSupportedException (msg : string)
| AssertionFailure (msg : string)
| OutOfRange
| UndefinedBehaviour.

Inductive Outcome (S A : Type) :=
| Ok (a : A) (s : S)
| Throw (e : Exception) (s : S).
Arguments Ok {S A} a s.
Arguments Throw {S A} e s.

Definition M (S A : Type) : Type := S -> Outcome S A.

Definition ret {S A} (a : A) : M S A := fun s => Ok a s.
Definition throw {S A} (e : Exception) : M S A := fun s => Throw e s.
Definition bind {S A B} (m : M S A) (k : A -> M S B) : M S B :=
  fun s => match m s with
           | Ok a s' => k a s'
           | Throw e s' => Throw e s'
           end.

Notation "'let*' x ':=' m 'in' k" := (bind m (fun x => k))
  (at level 10, x name, m at level 100, k at level 200).
Notation "m ';;' k" := (bind m (fun _ => k))
  (at level 100, k at level 200, right associativity).

(** [assert(c)] *)
Definition assert {S} (c : bool) (msg : string) : M S unit :=
  if c then ret tt else throw (AssertionFailure msg).

(** A value the source obtains by an access that is undefined when it
    fails (null pointer, index outside a vector). *)
Definition defined {S A} (o : option A) : M S A :=
  match o with
  | Some a => ret a
  | None => throw UndefinedBehaviour
  end.

Fixpoint for_each {S A} (l : list A) (body : A -> M S unit) : M S unit :=
  match l with
  | [] => ret tt
  | a :: l' => body a ;; for_each l' body
  end.

(** The same loop over a pure body that may be undefined. *)
Fixpoint iterate {St A} (l : list A) (body : A -> St -> option St) (s : St) : option St :=
  match l with
  | [] => Some s
  | a :: l' => match body a s with
               | Some s' => iterate l' body s'
               | None => None
               end
  end.

Record Converter := MkConverter {
  m_Graph : Graph;
  m_OperandToNode : gmap OperandKey nat;
  m_EstimationMode : bool;
  m_Capabilities : Capabilities }.

Definition set_graph (g : Graph) (c : Converter) : Converter :=
  MkConverter g (m_OperandToNode c) (m_EstimationMode c) (m_Capabilities c).

Definition set_operand (k : OperandKey) (n : nat) (c : Converter) : Converter :=
  MkConverter (m_Graph c) (<[k := n]> (m_OperandToNode c)) (m_EstimationMode c)
              (m_Capabilities c).

(** Run a computation on the graph inside the converter. *)
Definition on_graph {A} (m : M Graph A) : M Converter A :=
  fun c => match m (m_Graph c) with
           | Ok a g => Ok a (set_graph g c)
           | Throw e g => Throw e (set_graph g c)
           end.

(** [graph.CreateAndAddNode<...>(...)] *)
Definition CreateAndAddNode (nd : Node) : M Graph nat :=
  fun g => let (r, g') := graph_add_node nd g in Ok r g'.

(** [graph.Connect(source, destination)] *)
Definition Connect (s d : nat) : M Graph unit :=
  fun g => Ok tt (graph_connect s d g).

(** [graph.SplitEdge(edge, node)] *)
Definition SplitEdge (e m : nat) : M Graph unit :=
  fun g => match graph_split_edge e m g with
           | Some g' => Ok tt g'
           | None => Throw UndefinedBehaviour g
           end.

Definition get_graph : M Converter Graph := fun c => Ok (m_Graph c) c.
Definition get_estimation_mode : M Converter bool := fun c => Ok (m_EstimationMode c) c.
Definition get_capabilities : M Converter Capabilities := fun c => Ok (m_Capabilities c) c.

(** [m_OperandToNode[&operand]] followed by a dereference: undefined when
    the operand has no node yet. *)
Definition operand_node (k : OperandKey) : M Converter nat :=
  fun c => defined (m_OperandToNode c !! k) c.

(** [m_OperandToNode.at(&operand)] *)
Definition operand_node_at (k : OperandKey) : M Converter nat :=
  fun c => match m_OperandToNode c !! k with
           | Some n => Ok n c
           | None => Throw OutOfRange c
           end.

(** [m_OperandToNode[&operand] = node] *)
Definition bind_operand (k : OperandKey) (n : nat) : M Converter unit :=
  fun c => Ok tt (set_operand k n c).

(** [node->GetFormat()] *)
Definition GetFormat (r : nat) : M Converter CompilerDataFormat :=
  fun c => defined (n_format <$> g_nodes (m_Graph c) !! r) c.

(** [operation.GetInput(i)], [operation.GetOutput(i).GetTensorInfo()] *)
Definition GetInputOperand {S} (op : Operation) (i : nat) : M S Operand :=
  defined (op_inputs op !! i).
Definition GetOutputInfo {S} (op : Operation) (i : nat) : M S TensorInfo :=
  defined (op_outputs op !! i).

(* ================================================================== *)
(** ** ConnectNode / ConnectNodeChain *)

(** The first loop of [ConnectNodeChain]: [Connect(nodes[i], nodes[i + 1])]
    for every [i + 1 < nodes.size()]. *)
Fixpoint connect_successive (nodes : list nat) : M Graph unit :=
  match nodes with
  | a :: (b :: _) as rest => Connect a b ;; connect_successive rest
  | _ => ret tt
  end.

Definition ConnectNodeChain (op : Operation) (nodes : list nat) : M Converter unit :=
  assert (Nat.leb (length (op_outputs op)) 1) "operation.GetOutputs().size() <= 1" ;;
  (* with no node the loop bound wraps and nodes[0] is read *)
  let* front := defined (head nodes) in
  let* back := defined (last nodes) in
  on_graph (connect_successive nodes) ;;
  for_each (op_inputs op) (fun o =>
    let* p := operand_node_at (operand_key o) in
    on_graph (Connect p front)) ;;
  if Nat.ltb 0 (length (op_outputs op))
  then bind_operand (output_key op 0) back
  else ret tt.

Definition ConnectNode (op : Operation) (node : nat) : M Converter unit :=
  ConnectNodeChain op [node].

(** The branch every rule takes when the verdict is [EstimateOnly]. *)
Definition lower_estimate_only (op : Operation) : M Converter unit :=
  let* outInfo := GetOutputInfo op 0 in
  let* n := on_graph (CreateAndAddNode
              (MkNode EstimateOnlyNode (m_Dimensions outInfo) (m_QuantizationInfo outInfo)
                      NHWCB {[ op_id op ]})) in
  ConnectNode op n.

(* ================================================================== *)
(** ** Tensor data helpers (Utils.hpp) *)

(** Modelled from the spec: [TensorData::GetElementRef(a, b, c, d)] of
    Utils.hpp addresses a tensor of the given shape in row-major order, so
    that "the trailing two dimensions move as a contiguous block". *)
Definition element_offset (shape : TensorShape) (a b c d : nat) : nat :=
  (((a * Z.to_nat (dim1 shape) + b) * Z.to_nat (dim2 shape) + c)
     * Z.to_nat (dim3 shape) + d)%nat.

(** [weights.SetElement(a, b, c, d, v)]; undefined outside the buffer. *)
Definition SetElement (shape : TensorShape) (a b c d : nat) (v : Z) (data : list Z)
  : option (list Z) :=
  let off := element_offset shape a b c d in
  if Nat.ltb off (length data) then Some (<[off := v]> data) else None.

(** Modelled from the spec: [utils::GetNumElements], the product of the
    four extents, as a [uint32_t]. *)
Definition GetNumElements (s : TensorShape) : Z :=
  mul32 (mul32 (mul32 (dim0 s) (dim1 s)) (dim2 s)) (dim3 s).

(** [std::copy_n(&src[so], n, &dst[to])]; undefined when either block
    leaves its buffer. *)
Definition copy_n (src : list Z) (so n : nat) (dst : list Z) (to : nat) : option (list Z) :=
  if Nat.leb (so + n) (length src) && Nat.leb (to + n) (length dst)
  then Some (take to dst ++ take n (drop so src) ++ drop (to + n) dst)
  else None.

(** [static_cast<uint8_t>(f)] of a finite, non-negative [float]. *)
Definition f32_to_u8 (f : float) : Z :=
  match f with
  | S754_finite false m e =>
      u8 (if 0 <=? e then Z.pos m * 2 ^ e else Z.pos m / 2 ^ (- e))
  | _ => 0
  end.

(* ================================================================== *)
(** ** CreateTransposeConv *)

(** The body of the two nested loops that rotate the weights. *)
Definition rotate_block (weightsShape : TensorShape) (originalWeights : list Z)
    (y x : nat) (flippedWeights : list Z) : option (list Z) :=
  let n := Z.to_nat (mul32 (dim2 weightsShape) (dim3 weightsShape)) in
  let fy := Z.to_nat (sub32 (sub32 (dim0 weightsShape) 1) (Z.of_nat y)) in
  let fx := Z.to_nat (sub32 (sub32 (dim1 weightsShape) 1) (Z.of_nat x)) in
  copy_n originalWeights (element_offset weightsShape y x 0 0) n
         flippedWeights (element_offset weightsShape fy fx 0 0).

(** "Rotate weights by 180 in the XY plane." *)
Definition rotate_weights (weightsShape : TensorShape) (weightsData : list Z)
  : option (list Z) :=
  iterate (seq 0 (Z.to_nat (dim0 weightsShape)))
    (fun y => iterate (seq 0 (Z.to_nat (dim1 weightsShape)))
                (fun x => rotate_block weightsShape weightsData y x))
    (replicate (length weightsData) 0).

Definition CreateTransposeConv (stride : Stride) (weightsInfo : TensorInfo)
    (weightsData : list Z) (biasInfo : TensorInfo) (biasData : list Z)
    (padding : Padding) (inputInfo outputInfo : TensorInfo) (sourceOperationId : Z)
  : M Graph (list nat) :=
  assert (m_X stride =? m_Y stride) "stride.m_X == stride.m_Y" ;;
  let upscaleFactor := m_X stride in
  let weightsShape := m_Dimensions weightsInfo in
  let topMcePadding := sub32 (sub32 (dim0 weightsShape) 1) (m_Top padding) in
  let leftMcePadding := sub32 (sub32 (dim1 weightsShape) 1) (m_Left padding) in
  let inputShape := m_Dimensions inputInfo in
  let* split :=
    (if (7 <? dim0 weightsShape) || (7 <? dim1 weightsShape) then
       let intermediateOutputShape :=
         Shape (dim0 inputShape) (mul32 (dim1 inputShape) upscaleFactor)
               (mul32 (dim2 inputShape) upscaleFactor) (dim3 inputShape) in
       let numIfm := dim3 inputShape in
       let weightScale := f32_half in
       let biasScale := f32_mul weightScale (m_Scale (m_QuantizationInfo inputInfo)) in
       let weightsData' := replicate (Z.to_nat numIfm) 2 in
       let biasData' := replicate (Z.to_nat numIfm) 0 in
       let weightInfo := TInfo (Shape 1 1 numIfm 1) UINT8_QUANTIZED DF_HWIM
                               (QInfo 0 weightScale) in
       let biasInfo' := TInfo (Shape 1 1 1 numIfm) INT32_QUANTIZED DF_NHWC
                              (QInfo 0 biasScale) in
       let* identityDepthwiseNode :=
         CreateAndAddNode
           (MkNode (MceOperationNode
                      (MkMce inputShape weightInfo weightsData' biasInfo' biasData'
                             (MkStride 1 1) upscaleFactor 0 0 DEPTHWISE_CONVOLUTION))
                   intermediateOutputShape (m_QuantizationInfo inputInfo) NHWCB
                   {[ sourceOperationId ]}) in
       ret ([identityDepthwiseNode], 1, intermediateOutputShape)
     else ret ([], upscaleFactor, inputShape)) in
  let '(nodes, upscaleFactor, inputShape) := split in
  let* flippedWeightsData := defined (rotate_weights weightsShape weightsData) in
  let* convNode :=
    CreateAndAddNode
      (MkNode (MceOperationNode
                 (MkMce inputShape weightsInfo flippedWeightsData biasInfo biasData
                        (MkStride 1 1) upscaleFactor topMcePadding leftMcePadding
                        CONVOLUTION))
              (m_Dimensions outputInfo) (m_QuantizationInfo outputInfo) NHWCB
              {[ sourceOperationId ]}) in
  ret (nodes ++ [convNode]).

Section Rules.

(** The support queries (Support.cpp) are external to the converter. *)
Variable IsTransposeConvolutionSupported :
  TensorInfo -> TensorInfo -> ConvolutionInfo -> TensorInfo -> SupportedLevel.
Variable IsPoolingSupported : PoolingInfo -> TensorInfo -> SupportedLevel.
Variable IsConcatenationSupported : list TensorInfo -> ConcatenationInfo -> SupportedLevel.
Variable IsSplitSupported : TensorInfo -> SplitInfo -> SupportedLevel.

(* ================================================================== *)
(** ** Visit(TransposeConvolution&) *)

Definition Visit_TransposeConvolution (tc : TransposeConvolution) : M Converter unit :=
  let op := tc_op tc in
  let stride := ci_Stride (tc_info tc) in
  let weightsInfo := c_info (tc_weights tc) in
  let weightsData := c_data (tc_weights tc) in
  let biasInfo := tc_biasInfo tc in
  let biasData := tc_biasData tc in
  let padding := ci_Padding (tc_info tc) in
  let* input := GetInputOperand op 0 in
  let inputInfo := opd_info input in
  let* outputInfo := GetOutputInfo op 0 in
  let supportedLevel :=
    IsTransposeConvolutionSupported biasInfo weightsInfo (tc_info tc) inputInfo in
  match supportedLevel with
  | EstimateOnly => lower_estimate_only op
  | _ =>
      let* transposeConvNodes :=
        on_graph (CreateTransposeConv stride weightsInfo weightsData biasInfo biasData
                                      padding inputInfo outputInfo (op_id op)) in
      ConnectNodeChain op transposeConvNodes
  end.

(* ================================================================== *)
(** ** Visit(DepthToSpace&) *)

(** The one-hot selector weights of the 2x2 kernel. *)
Definition d2s_weights (blockSize : Z) (inputShape outputShape : TensorShape)
    (weightsScale : float) : TensorInfo * option (list Z) :=
  let ifmChannelsPerOfm := mul32 blockSize blockSize in
  let weightsInfo :=
    TInfo (Shape blockSize blockSize (dim3 inputShape) (dim3 outputShape))
          UINT8_QUANTIZED DF_HWIO (QInfo 0 weightsScale) in
  let dims := m_Dimensions weightsInfo in
  (weightsInfo,
   iterate (seq 0 (Z.to_nat (dim3 outputShape)))
     (fun ofmIdx =>
        let ifmBase := Z.of_nat ofmIdx in
        let ifmStride := dim3 inputShape / ifmChannelsPerOfm in
        iterate (seq 0 (Z.to_nat blockSize))
          (fun v =>
             iterate (seq 0 (Z.to_nat blockSize))
               (fun u =>
                  let ifmWithinBlock := add32 (mul32 (Z.of_nat v) blockSize) (Z.of_nat u) in
                  let ifmIdx := add32 ifmBase (mul32 ifmWithinBlock ifmStride) in
                  SetElement dims v u (Z.to_nat ifmIdx) ofmIdx
                             (f32_to_u8 (f32_div f32_one weightsScale)))))
     (replicate (Z.to_nat (GetNumElements dims)) 0)).

Definition Visit_DepthToSpace (d : DepthToSpace) : M Converter unit :=
  let op := d2s_op d in
  let blockSize := d2s_BlockSize d in
  assert (blockSize =? 2) "blockSize == 2" ;;
  let* input := GetInputOperand op 0 in
  let* outputInfo := GetOutputInfo op 0 in
  let inputShape := m_Dimensions (opd_info input) in
  let outputShape := m_Dimensions outputInfo in
  let weightsScale := f32_half in
  let '(weightsInfo, weights) := d2s_weights blockSize inputShape outputShape weightsScale in
  let* weightsData := defined weights in
  let biasScale := f32_mul weightsScale (m_Scale (m_QuantizationInfo (opd_info input))) in
  let biasInfo := TInfo (Shape 1 1 1 (dim3 outputShape)) UINT8_QUANTIZED DF_NHWC
                        (QInfo 0 biasScale) in
  let biasData := replicate (Z.to_nat (GetNumElements (m_Dimensions biasInfo))) 0 in
  let* transposeConvNodes :=
    on_graph (CreateTransposeConv (MkStride blockSize blockSize) weightsInfo weightsData
                                  biasInfo biasData (Padding2 0 0) (opd_info input)
                                  outputInfo (op_id op)) in
  ConnectNodeChain op transposeConvNodes.

(* ================================================================== *)
(** ** Visit(Pooling&) *)

Definition createFuseOnlyPleNode (p : Pooling) (op : PleOperation) : M Converter nat :=
  let shapeMultiplier :=
    MkShapeMultiplier (1, m_PoolingStrideY (pool_info p))
                      (1, m_PoolingStrideX (pool_info p)) 1 in
  let* outInfo := GetOutputInfo (pool_op p) 0 in
  on_graph (CreateAndAddNode
    (MkNode (FuseOnlyPleOperationNode op shapeMultiplier) (m_Dimensions outInfo)
            (m_QuantizationInfo outInfo) NHWCB {[ op_id (pool_op p) ]})).

Definition createStandalonePleNode (p : Pooling) (op : PleOperation) : M Converter nat :=
  let* outInfo := GetOutputInfo (pool_op p) 0 in
  on_graph (CreateAndAddNode
    (MkNode (StandalonePleOperationNode op) (m_Dimensions outInfo)
            (m_QuantizationInfo outInfo) NHWCB {[ op_id (pool_op p) ]})).

Definition Visit_Pooling (p : Pooling) : M Converter unit :=
  let op := pool_op p in
  let* input := GetInputOperand op 0 in
  let inputHeight := dim1 (m_Dimensions (opd_info input)) in
  let inputWidth := dim2 (m_Dimensions (opd_info input)) in
  let poolingInfo := pool_info p in
  let poolingInfoIfMean :=
    MkPoolingInfo inputWidth inputHeight (m_PoolingStrideX poolingInfo)
                  (m_PoolingStrideY poolingInfo) (MkPadding 0 0 0 0) AVG in
  let supportedLevel := IsPoolingSupported poolingInfo (opd_info input) in
  match supportedLevel with
  | EstimateOnly => lower_estimate_only op
  | _ =>
      let* n :=
        (if PoolingInfo_eqb poolingInfo poolingInfoIfMean then
           createFuseOnlyPleNode p MEAN_XY_8X8
         else if PoolingInfo_eqb poolingInfo
                   (MkPoolingInfo 3 3 1 1 (m_Padding poolingInfo) AVG) then
           createStandalonePleNode p AVGPOOL_3X3_1_1_UDMA
         else if PoolingInfo_eqb poolingInfo
                   (MkPoolingInfo 2 2 2 2 (m_Padding poolingInfo) MAX) then
           createFuseOnlyPleNode p MAXPOOL_2X2_2_2
         else if PoolingInfo_eqb poolingInfo
                   (MkPoolingInfo 3 3 2 2 (m_Padding poolingInfo) MAX) then
           createFuseOnlyPleNode p MAXPOOL_3X3_2_2
         else throw (AssertionFailure "Unsupported")) in
      ConnectNode op n
  end.

(* ================================================================== *)
(** ** Visit(FullyConnected&) *)

(** Modelled from the spec: [utils::DivRoundUp] of Utils.hpp, the quotient
    rounded up ("num_patches = ceil(N / 16)"). *)
Definition DivRoundUp (numerator denominator : Z) : Z :=
  (numerator + denominator - 1) / denominator.

(** Modelled from the spec: [utils::RoundUpToNearestMultiple] of Utils.hpp
    ("up to a multiple of 1024"). *)
Definition RoundUpToNearestMultiple (num nearestMultiple : Z) : Z :=
  DivRoundUp num nearestMultiple * nearestMultiple.

(** Modelled from the spec: [utils::TotalSizeBytes] of Utils.hpp, the
    number of elements times the size of one element. *)
Definition TotalSizeBytes (info : TensorInfo) : Z :=
  mul32 (GetNumElements (m_Dimensions info))
        (match m_DataType info with UINT8_QUANTIZED => 1 | INT32_QUANTIZED => 4 end).

(** [result = input; result.resize(newSize, padValue)] *)
Definition Pad (input : list Z) (newSize : nat) (padValue : Z) : list Z :=
  take newSize input ++ replicate (newSize - length input) padValue.

(** The lambda of [Visit(FullyConnected&)]; the division and the remainder
    by [patchesPerBrickGroup] are undefined when it is zero. *)
Definition GetShapeContainingLinearElements (brickGroupShape : TensorShape)
    (numElements : Z) : option TensorShape :=
  let brickGroupHeight := dim1 brickGroupShape in
  let brickGroupWidth := dim2 brickGroupShape in
  let brickGroupChannels := dim3 brickGroupShape in
  let patchHeight := 4 in
  let patchWidth := 4 in
  let patchesPerBrickGroupHeight := brickGroupHeight / patchHeight in
  let patchesPerBrickGroupWidth := brickGroupWidth / patchWidth in
  let patchesPerBrickGroup :=
    mul32 (mul32 patchesPerBrickGroupHeight patchesPerBrickGroupWidth) brickGroupChannels in
  let numPatches := DivRoundUp numElements (mul32 patchWidth patchHeight) in
  let reinterpretedWidth :=
    if numPatches <=? mul32 brickGroupChannels patchesPerBrickGroupHeight
    then patchWidth else brickGroupWidth in
  let reinterpretedHeight :=
    if numPatches <=? brickGroupChannels then patchHeight else brickGroupHeight in
  if patchesPerBrickGroup =? 0 then None
  else
    let numFullBrickGroups := numPatches / patchesPerBrickGroup in
    let reinterpretedChannels :=
      add32 (mul32 brickGroupChannels numFullBrickGroups)
            (Z.min brickGroupChannels (numPatches mod patchesPerBrickGroup)) in
    Some (Shape 1 reinterpretedHeight reinterpretedWidth reinterpretedChannels).

(** The weights of a fully connected layer as the weight encoder wants
    them: input channels rounded up to a multiple of 1024. *)
Definition fc_padded_weights (weights : Constant) : TensorInfo * list Z :=
  let weightsInfo0 := c_info weights in
  let d := m_Dimensions weightsInfo0 in
  let weightsInfo :=
    TInfo (Shape (dim0 d) (dim1 d) (u32 (RoundUpToNearestMultiple (dim2 d) 1024)) (dim3 d))
          (m_DataType weightsInfo0) (m_DataFormat weightsInfo0)
          (m_QuantizationInfo weightsInfo0) in
  let paddedWeightsData :=
    Pad (c_data weights) (Z.to_nat (TotalSizeBytes weightsInfo))
        (u8 (m_ZeroPoint (m_QuantizationInfo weightsInfo))) in
  (weightsInfo, paddedWeightsData).

Definition Visit_FullyConnected (fc : FullyConnected) : M Converter unit :=
  let op := fc_op fc in
  let* input := GetInputOperand op 0 in
  let inInfo := opd_info input in
  let* producer := operand_node (operand_key input) in
  let* producerFormat := GetFormat producer in
  let* nodes :=
    (if CompilerDataFormat_eqb producerFormat NHWC then ret []
     else
       let* conversionNode :=
         on_graph (CreateAndAddNode
           (MkNode FormatConversionNode (m_Dimensions inInfo) (m_QuantizationInfo inInfo)
                   NHWC {[ op_id op ]})) in
       ret [conversionNode]) in
  let* caps := get_capabilities in
  let* reinterpretedInput :=
    defined (GetShapeContainingLinearElements (GetBrickGroupShape caps)
                                              (dim3 (m_Dimensions inInfo))) in
  let* reinterpretNode :=
    on_graph (CreateAndAddNode
      (MkNode ReinterpretNode reinterpretedInput (m_QuantizationInfo inInfo) NHWCB
              {[ op_id op ]})) in
  let '(weightsInfo, paddedWeightsData) := fc_padded_weights (fc_weights fc) in
  let* outInfo := GetOutputInfo op 0 in
  let* fcNode :=
    on_graph (CreateAndAddNode
      (MkNode (MceOperationNode
                 (MkMce (m_Dimensions inInfo) weightsInfo paddedWeightsData
                        (fc_biasInfo fc) (fc_biasData fc) Stride_default 1 0 0
                        FULLY_CONNECTED))
              (m_Dimensions outInfo) (m_QuantizationInfo outInfo) NHWCB
              {[ op_id op ]})) in
  ConnectNodeChain op (nodes ++ [reinterpretNode; fcNode]).

(* ================================================================== *)
(** ** Visit(Concatenation&) *)

(** The loop that chooses the layout: NHWC as soon as one extent along
    [axis] is not a multiple of the brick group's. Indexing outside the
    shape and the remainder by zero are undefined. *)
Fixpoint choose_format (axis : Z) (brickGroupShape : TensorShape)
    (infos : list TensorInfo) : option CompilerDataFormat :=
  match infos with
  | [] => Some NHWCB
  | t :: rest =>
      match shape_get (m_Dimensions t) axis, shape_get brickGroupShape axis with
      | Some d, Some b =>
          if b =? 0 then None
          else if negb (d mod b =? 0) then Some NHWC
          else choose_format axis brickGroupShape rest
      | _, _ => None
      end
  end.

(** First phase for the layout: one [FormatConversionNode] per input whose
    producer has another layout, remembered with the edge it goes on. *)
Fixpoint collect_conversions (n : nat) (format : CompilerDataFormat) (id : Z)
    (i : nat) (inputs : list Operand) : M Converter (list (nat * nat)) :=
  match inputs with
  | [] => ret []
  | input :: rest =>
      let* g := get_graph in
      let* inputFormat := defined (GetInputFormat g n i) in
      if negb (CompilerDataFormat_eqb inputFormat format) then
        let* reformat :=
          on_graph (CreateAndAddNode
            (MkNode FormatConversionNode (m_Dimensions (opd_info input))
                    (m_QuantizationInfo (opd_info input)) format {[ id ]})) in
        let* g' := get_graph in
        let* e := defined (GetInput g' n i) in
        let* more := collect_conversions n format id (S i) rest in
        ret ((e, reformat) :: more)
      else collect_conversions n format id (S i) rest
  end.

(** First phase for the quantization. *)
Fixpoint collect_requantizes (n : nat) (format : CompilerDataFormat) (id : Z)
    (outputQuantInfo : QuantizationInfo) (i : nat) (inputs : list Operand)
  : M Converter (list (nat * nat)) :=
  match inputs with
  | [] => ret []
  | input :: rest =>
      let* g := get_graph in
      let* inputQuant := defined (GetInputQuantizationInfo g n i) in
      if negb (QuantizationInfo_eqb inputQuant outputQuantInfo) then
        let* requant :=
          on_graph (CreateAndAddNode
            (MkNode RequantizeNode (m_Dimensions (opd_info input)) outputQuantInfo
                    format {[ id ]})) in
        let* g' := get_graph in
        let* e := defined (GetInput g' n i) in
        let* more := collect_requantizes n format id outputQuantInfo (S i) rest in
        ret ((e, requant) :: more)
      else collect_requantizes n format id outputQuantInfo (S i) rest
  end.

(** Second phase: splice every remembered node onto its edge. *)
Definition splice_all (edges : list (nat * nat)) : M Converter unit :=
  for_each edges (fun en => on_graph (SplitEdge (fst en) (snd en))).

Definition shared_inputs_message : string :=
  "Inputs to Concatentation cannot be connected to multiple operations".

Definition Visit_Concatenation (cat : Concatenation) : M Converter unit :=
  let op := cat_op cat in
  let axis := ci_Axis (cat_info cat) in
  let inputInfos := map opd_info (op_inputs op) in
  let supportedLevel := IsConcatenationSupported inputInfos (cat_info cat) in
  for_each (op_inputs op) (fun it =>
    let* estimationMode := get_estimation_mode in
    if Nat.ltb 1 (length (opd_consumers it)) && negb estimationMode
    then throw (NotSupportedException shared_inputs_message)
    else ret tt) ;;
  match supportedLevel with
  | EstimateOnly => lower_estimate_only op
  | _ =>
      let* caps := get_capabilities in
      let* format := defined (choose_format axis (GetBrickGroupShape caps) inputInfos) in
      let* outInfo := GetOutputInfo op 0 in
      let* n :=
        on_graph (CreateAndAddNode
          (MkNode (ConcatNode axis) (m_Dimensions outInfo)
                  (ci_OutputQuantizationInfo (cat_info cat)) format {[ op_id op ]})) in
      ConnectNode op n ;;
      let* edgeToAddConversion := collect_conversions n format (op_id op) 0 (op_inputs op) in
      splice_all edgeToAddConversion ;;
      let outputQuantInfo := m_QuantizationInfo outInfo in
      let* edgeToAddRequantize :=
        collect_requantizes n format (op_id op) outputQuantInfo 0 (op_inputs op) in
      splice_all edgeToAddRequantize
  end.

(* ================================================================== *)
(** ** Visit(Split&) *)

(** The loop that creates one [ExtractSubtensorNode] per output, with the
    running offset into the input. *)
Fixpoint create_subtensors (id : Z) (inputTensorInfo : TensorInfo) (info : SplitInfo)
    (format : CompilerDataFormat) (outputIdxs : list nat)
    (supertensorOffset : TensorShape) : M Converter (list nat) :=
  match outputIdxs with
  | [] => ret []
  | outputIdx :: rest =>
      let* size := defined (si_Sizes info !! outputIdx) in
      let* outputShape :=
        defined (shape_set (m_Dimensions inputTensorInfo) (si_Axis info) size) in
      let* node :=
        on_graph (CreateAndAddNode
          (MkNode (ExtractSubtensorNode supertensorOffset) outputShape
                  (m_QuantizationInfo inputTensorInfo) format {[ id ]})) in
      let* current := defined (shape_get supertensorOffset (si_Axis info)) in
      let* advanced :=
        defined (shape_set supertensorOffset (si_Axis info) (add32 current size)) in
      let* more := create_subtensors id inputTensorInfo info format rest advanced in
      ret (node :: more)
  end.

(** The loop that connects the subtensor nodes and binds the outputs. *)
Fixpoint bind_subtensors (op : Operation) (inputNode : nat) (outputIdx : nat)
    (extractSubtensorNodes : list nat) : M Converter unit :=
  match extractSubtensorNodes with
  | [] => ret tt
  | node :: rest =>
      on_graph (Connect inputNode node) ;;
      bind_operand (output_key op outputIdx) node ;;
      bind_subtensors op inputNode (S outputIdx) rest
  end.

(** The [EstimateOnly] branch of the split: one node per output. *)
Fixpoint split_estimate_only (op : Operation) (inputNode : nat) (outputIdx : nat)
    (outputs : list TensorInfo) : M Converter unit :=
  match outputs with
  | [] => ret tt
  | tensorInfo :: rest =>
      let* estimateOnlyNode :=
        on_graph (CreateAndAddNode
          (MkNode EstimateOnlyNode (m_Dimensions tensorInfo)
                  (m_QuantizationInfo tensorInfo) NHWCB {[ op_id op ]})) in
      bind_operand (output_key op outputIdx) estimateOnlyNode ;;
      on_graph (Connect inputNode estimateOnlyNode) ;;
      split_estimate_only op inputNode (S outputIdx) rest
  end.

Definition Visit_Split (sp : Split) : M Converter unit :=
  let op := split_op sp in
  let splitInfo := split_info sp in
  let* input := GetInputOperand op 0 in
  let inputTensorInfo := opd_info input in
  let supportedLevel := IsSplitSupported inputTensorInfo splitInfo in
  match supportedLevel with
  | EstimateOnly =>
      let* inputNode := operand_node (operand_key input) in
      split_estimate_only op inputNode 0 (op_outputs op)
  | _ =>
      let* caps := get_capabilities in
      let* format :=
        defined (choose_format (si_Axis splitInfo) (GetBrickGroupShape caps)
                               (op_outputs op)) in
      let* inputNode := operand_node (operand_key input) in
      let* inputFormat := GetFormat inputNode in
      let* inputNode :=
        (if negb (CompilerDataFormat_eqb inputFormat format) then
           let* conversionNode :=
             on_graph (CreateAndAddNode
               (MkNode FormatConversionNode (m_Dimensions inputTensorInfo)
                       (m_QuantizationInfo inputTensorInfo) format {[ op_id op ]})) in
           on_graph (Connect inputNode conversionNode) ;;
           ret conversionNode
         else ret inputNode) in
      let* extractSubtensorNodes :=
        create_subtensors (op_id op) inputTensorInfo splitInfo format
                          (seq 0 (length (op_outputs op))) (Shape 0 0 0 0) in
      bind_subtensors op inputNode 0 extractSubtensorNodes
  end.

End Rules.

(* ================================================================== *)
(** ** Definitions used to state the properties *)

(** The edges [connect_successive] adds. *)
Fixpoint successive_edges (nodes : list nat) : list Edge :=
  match nodes with
  | a :: (b :: _) as rest => MkEdge a b :: successive_edges rest
  | _ => []
  end.

(** The nodes that currently produce the given operands, if all have one. *)
Fixpoint producers_of (m : gmap OperandKey nat) (inputs : list Operand) : option (list nat) :=
  match inputs with
  | [] => Some []
  | o :: rest =>
      match m !! operand_key o, producers_of m rest with
      | Some p, Some ps => Some (p :: ps)
      | _, _ => None
      end
  end.

(** The state [ConnectNodeChain] leaves when it succeeds. *)
Definition chain_connected (op : Operation) (nodes : list nat) (front back : nat)
    (ps : list nat) (c : Converter) : Converter :=
  MkConverter
    (MkGraph (g_nodes (m_Graph c))
             (g_edges (m_Graph c) ++ successive_edges nodes
                ++ map (fun p => MkEdge p front) ps))
    (if Nat.ltb 0 (length (op_outputs op))
     then <[output_key op 0 := back]> (m_OperandToNode c)
     else m_OperandToNode c)
    (m_EstimationMode c) (m_Capabilities c).

(** The node the converter has bound to an operand. *)
Definition node_of_operand (c : Converter) (k : OperandKey) : option Node :=
  r ← m_OperandToNode c !! k; g_nodes (m_Graph c) !! r.

(** A list of block copies [(source offset, target offset)], all of [n]
    bytes, run in order. *)
Definition write_all (src : list Z) (n : nat) (W : list (nat * nat)) (dst : list Z)
  : option (list Z) :=
  iterate W (fun w d => copy_n src (fst w) n d (snd w)) dst.

(** No two copies of the list write to overlapping blocks. *)
Definition separated (n : nat) (W : list (nat * nat)) : Prop :=
  forall i j w w', W !! i = Some w -> W !! j = Some w' -> i <> j ->
    (snd w + n <= snd w' \/ snd w' + n <= snd w)%nat.

(** The copies of the rotation of a [KH] x [KW] kernel whose trailing
    block has [n] bytes: block [(y, x)] goes to block
    [(KH - 1 - y, KW - 1 - x)]. *)
Definition rot_writes (KH KW n : nat) : list (nat * nat) :=
  map (fun p => (((fst p * KW + snd p) * n)%nat,
                 (((KH - 1 - fst p) * KW + (KW - 1 - snd p)) * n)%nat))
      (list_prod (seq 0 KH) (seq 0 KW)).

(** A weights tensor whose extents and size fit the buffer it comes with. *)
Definition weights_wf (shape : TensorShape) (data : list Z) : Prop :=
  is_u32 (dim0 shape) /\ is_u32 (dim1 shape) /\ is_u32 (dim2 shape) /\
  is_u32 (dim3 shape) /\
  dim0 shape * dim1 shape * dim2 shape * dim3 shape < 2 ^ 32 /\
  Z.of_nat (length data) = dim0 shape * dim1 shape * dim2 shape * dim3 shape.

(** ** Concrete inputs used to exercise the statements *)

Definition q_unit : QuantizationInfo := QInfo 0 f32_one.
Definition q_half : QuantizationInfo := QInfo 0 f32_half.

Definition tinfo (s : TensorShape) : TensorInfo := TInfo s UINT8_QUANTIZED DF_NHWC q_unit.

Definition empty_graph : Graph := MkGraph [] [].

(** A 2x2 kernel with one input and one output channel. *)
Definition weights_2x2 : Constant :=
  MkConstant (TInfo (Shape 2 2 1 1) UINT8_QUANTIZED DF_HWIO q_unit) [1; 2; 3; 4].

(** An 8x8 kernel with one input and one output channel. *)
Definition weights_8x8 : Constant :=
  MkConstant (TInfo (Shape 8 8 1 1) UINT8_QUANTIZED DF_HWIO q_unit) (replicate 64 7).

Definition bias_1 : TensorInfo := TInfo (Shape 1 1 1 1) INT32_QUANTIZED DF_NHWC q_unit.

(** The padding the support query leaves to a transpose convolution: top
    and left do not exceed the kernel extent minus one, so that the
    internal padding is not negative. *)
Definition padding_supported (weightsShape : TensorShape) (padding : Padding) : Prop :=
  0 <= m_Top padding <= dim0 weightsShape - 1 /\
  0 <= m_Left padding <= dim1 weightsShape - 1.

(** What C1 says of the last node [nd] of a chain of the builder. *)
Definition is_transpose_conv_node (nd : Node) (KH KW top left : Z) (upscale : option Z)
    (outputInfo : TensorInfo) : Prop :=
  exists d,
    n_kind nd = MceOperationNode d /\
    mce_operation d = CONVOLUTION /\
    mce_stride d = MkStride 1 1 /\
    (forall s, upscale = Some s -> mce_upscaleFactor d = s) /\
    mce_padTop d = KH - 1 - top /\
    mce_padLeft d = KW - 1 - left /\
    n_shape nd = m_Dimensions outputInfo /\
    n_quant nd = m_QuantizationInfo outputInfo.

(** The upscale factor C1 promises: the stride, unless the kernel is large. *)
Definition promised_upscale (weightsShape : TensorShape) (stride : Stride) : option Z :=
  if (dim0 weightsShape <=? 7) && (dim1 weightsShape <=? 7) then Some (m_X stride) else None.

(** A converter that has lowered one network input, operation 1, whose
    node is in the layout [fmt]. *)
Definition input_operand (s : TensorShape) (consumers : list Z) : Operand :=
  MkOperand 1 0 (tinfo s) consumers.

Definition after_input (s : TensorShape) (fmt : CompilerDataFormat) (estimation : bool)
  : Converter :=
  MkConverter (MkGraph [MkNode InputNode s q_unit fmt {[ 1 ]}] [])
              {[ (1, 0%nat) := 0%nat ]} estimation
              (MkCapabilities (Shape 1 8 8 16)).

Definition transpose_conv_2x2 : TransposeConvolution :=
  MkTransposeConvolution
    (MkOperation 5 [input_operand (Shape 1 4 4 1) [5]] [tinfo (Shape 1 8 8 1)])
    weights_2x2 bias_1 [0] (MkConvolutionInfo (Padding2 0 0) (MkStride 2 2)).

Definition depth_to_space_4 : DepthToSpace :=
  MkDepthToSpace
    (MkOperation 6 [input_operand (Shape 1 4 4 4) [6]] [tinfo (Shape 1 8 8 1)]) 2.

(** The weights of a fully connected layer as the network holds them:
    bytes, one per element, with a zero point that is a byte; the tensor
    with its input channels rounded up to [r] is still representable. *)
Definition fc_weights_wf (w : Constant) (r : Z) : Prop :=
  let d := m_Dimensions (c_info w) in
  m_DataType (c_info w) = UINT8_QUANTIZED /\
  is_u32 (dim0 d) /\ is_u32 (dim1 d) /\ is_u32 (dim2 d) /\ is_u32 (dim3 d) /\
  Z.of_nat (length (c_data w)) = dim0 d * dim1 d * dim2 d * dim3 d /\
  is_u32 r /\ dim0 d * dim1 d * r * dim3 d < 2 ^ 32 /\
  0 <= m_ZeroPoint (m_QuantizationInfo (c_info w)) < 256.

Definition fully_connected_1024 : FullyConnected :=
  MkFullyConnected
    (MkOperation 7 [input_operand (Shape 1 1 1 3) [7]] [tinfo (Shape 1 1 1 2)])
    (MkConstant (TInfo (Shape 1 1 3 2) UINT8_QUANTIZED DF_HWIO (QInfo 128 f32_one))
                [1; 2; 3; 4; 5; 6])
    (TInfo (Shape 1 1 1 2) INT32_QUANTIZED DF_NHWC q_unit) [10; 20].

(** The "mean" pattern of the pooling rule: the kernel covers the whole
    input, there is no padding and the pooling is an average. *)
Definition is_mean_pooling (info : PoolingInfo) (inputHeight inputWidth : Z) : Prop :=
  m_PoolingSizeX info = inputWidth /\ m_PoolingSizeY info = inputHeight /\
  m_Padding info = MkPadding 0 0 0 0 /\ m_PoolingType info = AVG.

(** Kernel size, strides and kind of a pooling, whatever its padding. *)
Definition pooling_config (info : PoolingInfo) (kx ky sx sy : Z) (t : PoolingType) : Prop :=
  m_PoolingSizeX info = kx /\ m_PoolingSizeY info = ky /\
  m_PoolingStrideX info = sx /\ m_PoolingStrideY info = sy /\
  m_PoolingType info = t.

(** The rule succeeded on [c] with a single new node of the given kind,
    which carries the declared output and is bound to the output. *)
Definition lowered_to (result : Outcome Converter unit) (c : Converter) (op : Operation)
    (oi : TensorInfo) (kind : NodeKind) : Prop :=
  let nd := MkNode kind (m_Dimensions oi) (m_QuantizationInfo oi) NHWCB {[ op_id op ]} in
  exists c',
    result = Ok tt c' /\
    g_nodes (m_Graph c') = g_nodes (m_Graph c) ++ [nd] /\
    node_of_operand c' (output_key op 0) = Some nd.

Definition pooling_of (s : TensorShape) (info : PoolingInfo) : Pooling :=
  MkPooling (MkOperation 8 [input_operand s [8]] [tinfo (Shape 1 1 1 16)]) info.

(** ** Exceptions a computation can raise *)

Definition is_not_supported (e : Exception) : bool :=
  match e with
  | NotSupportedException _ => true
  | _ => false
  end.

(** A computation that never throws [NotSupportedException]. *)
Definition never_not_supported {S A} (m : M S A) : Prop :=
  forall s e s', m s = Throw e s' -> is_not_supported e = false.

(** Some input operand of the operation has more than one consumer. *)
Definition has_shared_input (op : Operation) : Prop :=
  exists it, it ∈ op_inputs op /\ (1 < length (opd_consumers it))%nat.

(** The loop of [Visit(Concatenation&)] that rejects shared inputs. *)
Definition reject_shared_inputs (inputs : list Operand) : M Converter unit :=
  for_each inputs (fun it =>
    let* estimationMode := get_estimation_mode in
    if Nat.ltb 1 (length (opd_consumers it)) && negb estimationMode
    then throw (NotSupportedException shared_inputs_message)
    else ret tt).

Definition concat_of (inputs : list Operand) (axis : Z) : Concatenation :=
  MkConcatenation (MkOperation 9 inputs [tinfo (Shape 1 8 8 32)])
                  (MkConcatenationInfo axis q_unit).

(** An input operand of the concatenation 9 that operation 10 reads too. *)
Definition shared_operand : Operand :=
  MkOperand 1 0 (tinfo (Shape 1 8 8 16)) [9; 10].

(** ** Split: the subtensors a split describes *)

Definition sum_sizes (l : list Z) : Z := fold_right Z.add 0 l.

(** The offset [(0,0,0,0)] moved by [v] along [axis]. *)
Definition offset_along (axis : Z) (v : Z) : TensorShape :=
  default (Shape 0 0 0 0) (shape_set (Shape 0 0 0 0) axis v).

(** The shape [s] with the extent along [axis] replaced by [v]. *)
Definition with_extent (s : TensorShape) (axis : Z) (v : Z) : TensorShape :=
  default s (shape_set s axis v).

(** The subtensor of [inputTensorInfo] that starts at [start] along the
    axis and has [size] entries there. *)
Definition subtensor_node (id : Z) (inputTensorInfo : TensorInfo) (axis : Z)
    (format : CompilerDataFormat) (start size : Z) : Node :=
  MkNode (ExtractSubtensorNode (offset_along axis start))
         (with_extent (m_Dimensions inputTensorInfo) axis size)
         (m_QuantizationInfo inputTensorInfo) format {[ id ]}.

(** The subtensors for consecutive sizes, the first one starting at [start]. *)
Fixpoint subtensor_nodes (id : Z) (inputTensorInfo : TensorInfo) (axis : Z)
    (format : CompilerDataFormat) (sizes : list Z) (start : Z) : list Node :=
  match sizes with
  | [] => []
  | s :: rest =>
      subtensor_node id inputTensorInfo axis format start s
        :: subtensor_nodes id inputTensorInfo axis format rest (start + s)
  end.

(** A split the support query admits: the axis is one of the four, there
    is one size per output, no size is negative and the sizes add up to the
    extent of the input along the axis. *)
Definition split_wf (sp : Split) (input : Operand) : Prop :=
  let info := split_info sp in
  0 <= si_Axis info <= 3 /\
  length (op_outputs (split_op sp)) = length (si_Sizes info) /\
  Forall (fun s => 0 <= s) (si_Sizes info) /\
  Some (sum_sizes (si_Sizes info))
  = shape_get (m_Dimensions (opd_info input)) (si_Axis info) /\
  sum_sizes (si_Sizes info) < 2 ^ 32.

Definition split_3_5 : Split :=
  MkSplit (MkOperation 11 [input_operand (Shape 1 8 8 8) [11]]
                       [tinfo (Shape 1 8 8 3); tinfo (Shape 1 8 8 5)])
          (MkSplitInfo 3 [3; 5]).

(** ** Concatenation: the splices *)

(** The producers of the inputs of node [d], in the order of its inputs. *)
Definition input_sources (g : Graph) (d : nat) : list nat :=
  e_src <$> filter (fun e => e_dst e = d) (g_edges g).

(** From a node [s], follow single inputs upstream through the nodes
    created after node [limit] until a node that was there before;
    the nodes passed and the node reached. *)
Fixpoint walk_back (g : Graph) (limit : nat) (fuel : nat) (s : nat)
  : option (list Node * nat) :=
  match fuel with
  | O => None
  | S fuel' =>
      if Nat.ltb s limit then Some ([], s)
      else
        match g_nodes g !! s, input_sources g s with
        | Some nd, [s'] =>
            match walk_back g limit fuel' s' with
            | Some (l, p) => Some (nd :: l, p)
            | None => None
            end
        | _, _ => None
        end
  end.

(** What lies on input [i] of node [n]: the nodes spliced in by the rule
    that created [n], nearest first, and the earlier node behind them. *)
Definition input_chain (g : Graph) (n i : nat) : option (list Node * nat) :=
  match input_sources g n !! i with
  | Some s => walk_back g n 3 s
  | None => None
  end.

(** The edges into node [n] from the given sources. *)
Definition slot_edges (n : nat) (srcs : list nat) : list Edge :=
  map (fun s => MkEdge s n) srcs.

(** The nodes a collecting loop creates, per input: the flagged inputs get
    consecutive new nodes from [next] on. *)
Fixpoint assign (next : nat) (flags : list bool) : list (option nat) :=
  match flags with
  | [] => []
  | true :: rest => Some next :: assign (S next) rest
  | false :: rest => None :: assign next rest
  end.

(** The pairs (edge, node) a collecting loop remembers, the inputs being
    the edges from [e] on. *)
Fixpoint plan_of (e : nat) (assigned : list (option nat)) : list (nat * nat) :=
  match assigned with
  | [] => []
  | Some m :: rest => (e, m) :: plan_of (S e) rest
  | None :: rest => plan_of (S e) rest
  end.

(** The sources of the inputs once the remembered nodes are spliced in. *)
Fixpoint spliced_srcs (assigned : list (option nat)) (srcs : list nat) : list nat :=
  match assigned, srcs with
  | a :: ar, s :: sr => default s a :: spliced_srcs ar sr
  | _, _ => srcs
  end.

(** The edges the splices add: from the old source to the new node. *)
Fixpoint spliced_edges (assigned : list (option nat)) (srcs : list nat) : list Edge :=
  match assigned, srcs with
  | Some m :: ar, s :: sr => MkEdge s m :: spliced_edges ar sr
  | None :: ar, _ :: sr => spliced_edges ar sr
  | _, _ => []
  end.

(** The elements of [l] whose flag is set. *)
Fixpoint selected {A} (flags : list bool) (l : list A) : list A :=
  match flags, l with
  | true :: fr, x :: lr => x :: selected fr lr
  | false :: fr, _ :: lr => selected fr lr
  | _, _ => []
  end.

Definition count_true (flags : list bool) : nat := length (filter (fun b => b = true) flags).

(** The test of the first collecting loop, per source node. *)
Definition needs_conversion (nodes : list Node) (format : CompilerDataFormat)
    (srcs : list nat) : list bool :=
  map (fun s => match nodes !! s with
                | Some nd => negb (CompilerDataFormat_eqb (n_format nd) format)
                | None => false
                end) srcs.

(** The test of the second collecting loop, per source node. *)
Definition needs_requantize (nodes : list Node) (q : QuantizationInfo)
    (srcs : list nat) : list bool :=
  map (fun s => match nodes !! s with
                | Some nd => negb (QuantizationInfo_eqb (n_quant nd) q)
                | None => false
                end) srcs.

Definition conversion_node (format : CompilerDataFormat) (id : Z) (input : Operand) : Node :=
  MkNode FormatConversionNode (m_Dimensions (opd_info input))
         (m_QuantizationInfo (opd_info input)) format {[ id ]}.

Definition requantize_node (format : CompilerDataFormat) (id : Z)
    (outputQuantInfo : QuantizationInfo) (input : Operand) : Node :=
  MkNode RequantizeNode (m_Dimensions (opd_info input)) outputQuantInfo format {[ id ]}.

(** Every edge of the graph ends in one of its nodes. *)
Definition graph_wf (g : Graph) : Prop :=
  Forall (fun e => (e_dst e < length (g_nodes g))%nat) (g_edges g).

(** Invariant 1 of the specification, for an input operand: the node that
    produces it exists and has the quantization of the operand. *)
Definition producer_matches (g : Graph) (input : Operand) (p : nat) : Prop :=
  exists pn, g_nodes g !! p = Some pn /\
             n_quant pn = m_QuantizationInfo (opd_info input).

(** Every input extent along [axis] is a multiple of [b]. *)
Definition all_multiples (axis : Z) (b : Z) (infos : list TensorInfo) : Prop :=
  forall t, t ∈ infos ->
    exists d, shape_get (m_Dimensions t) axis = Some d /\ d mod b = 0.

(** The graph [Visit(Concatenation&)] leaves, in closed form: the nodes
    [g] had, the concat node, the conversion nodes and the requantize nodes
    of the flagged inputs; the edges [g] had, one edge per input into the
    concat node, and one edge into every spliced node. *)
Definition concat_graph (g : Graph) (cat : Concatenation) (oi : TensorInfo)
    (format : CompilerDataFormat) (ps : list nat) : Graph :=
  let op := cat_op cat in
  let n := length (g_nodes g) in
  let outQ := m_QuantizationInfo oi in
  let nodes1 :=
    g_nodes g ++ [MkNode (ConcatNode (ci_Axis (cat_info cat))) (m_Dimensions oi)
                         (ci_OutputQuantizationInfo (cat_info cat)) format
                         {[ op_id op ]}] in
  let flags1 := needs_conversion nodes1 format ps in
  let a1 := assign (length nodes1) flags1 in
  let nodes2 :=
    nodes1 ++ selected flags1 (map (conversion_node format (op_id op)) (op_inputs op)) in
  let srcs1 := spliced_srcs a1 ps in
  let flags2 := needs_requantize nodes2 outQ srcs1 in
  let a2 := assign (length nodes2) flags2 in
  let nodes3 :=
    nodes2 ++ selected flags2 (map (requantize_node format (op_id op) outQ) (op_inputs op)) in
  MkGraph nodes3
          (g_edges g ++ slot_edges n (spliced_srcs a2 srcs1)
             ++ spliced_edges a1 ps ++ spliced_edges a2 srcs1).

(** The converter once the concat node is created and connected to the
    producers [ps] of its inputs. *)
Definition concat_connected (c : Converter) (cat : Concatenation) (oi : TensorInfo)
    (format : CompilerDataFormat) (ps : list nat) : Converter :=
  let n := length (g_nodes (m_Graph c)) in
  MkConverter
    (MkGraph (g_nodes (m_Graph c)
                ++ [MkNode (ConcatNode (ci_Axis (cat_info cat))) (m_Dimensions oi)
                           (ci_OutputQuantizationInfo (cat_info cat)) format
                           {[ op_id (cat_op cat) ]}])
             (g_edges (m_Graph c) ++ slot_edges n ps))
    (<[output_key (cat_op cat) 0 := n]> (m_OperandToNode c))
    (m_EstimationMode c) (m_Capabilities c).

(** What the rule splices onto an input whose producer node is [pn]:
    nearest to the concat node a requantize node when the quantization of
    the input is not that of the output, then a format conversion when the
    layout of the producer is not the chosen one. *)
Definition expected_splices (cat : Concatenation) (oi : TensorInfo)
    (format : CompilerDataFormat) (input : Operand) (pn : Node) : list Node :=
  (if negb (QuantizationInfo_eqb (m_QuantizationInfo (opd_info input))
                                 (m_QuantizationInfo oi))
   then [requantize_node format (op_id (cat_op cat)) (m_QuantizationInfo oi) input]
   else [])
  ++ (if negb (CompilerDataFormat_eqb (n_format pn) format)
      then [conversion_node format (op_id (cat_op cat)) input]
      else []).

(** Two inputs of 3 and 5 channels with different quantizations, produced
    by nodes 0 and 1 in the layout NHWCB. *)
Definition concat_inputs : list Operand :=
  [MkOperand 1 0 (tinfo (Shape 1 8 8 3)) [9];
   MkOperand 2 0 (TInfo (Shape 1 8 8 5) UINT8_QUANTIZED DF_NHWC q_half) [9]].

Definition concat_3_5 : Concatenation :=
  MkConcatenation (MkOperation 9 concat_inputs [tinfo (Shape 1 8 8 8)])
                  (MkConcatenationInfo 3 q_unit).

Definition after_two_inputs : Converter :=
  MkConverter (MkGraph [MkNode InputNode (Shape 1 8 8 3) q_unit NHWCB {[ 1 ]};
                        MkNode InputNode (Shape 1 8 8 5) q_half NHWCB {[ 2 ]}] [])
              (<[ (2, 0%nat) := 1%nat ]> {[ (1, 0%nat) := 0%nat ]}) false
              (MkCapabilities (Shape 1 8 8 16)).


(* ================================================================== *)
(** ** The remaining rules of the converter *)

Record ReluInfo := MkReluInfo { m_LowerBound : Z; m_UpperBound : Z }.

Record Relu := MkRelu {
  relu_op : Operation;
  relu_info : ReluInfo }.

Record Convolution := MkConvolution {
  conv_op : Operation;
  conv_weights : Constant;
  conv_biasInfo : TensorInfo;
  (** [GetBias().GetDataVectorAs<int32_t>()] *)
  conv_biasData : list Z;
  conv_info : ConvolutionInfo }.

Record DepthwiseConvolution := MkDepthwiseConvolution {
  dw_op : Operation;
  dw_weights : Constant;
  dw_biasInfo : TensorInfo;
  dw_biasData : list Z;
  dw_info : ConvolutionInfo }.

(** A network input: the operation and its own [GetTensorInfo()]. *)
Record Input := MkInput {
  input_op : Operation;
  input_info : TensorInfo }.

(** A network output: the operation and its own [GetTensorInfo()], which
    carries the layout the caller asked for. *)
Record Output := MkOutput {
  output_op : Operation;
  output_info : TensorInfo }.

(** Modelled from the spec: [g_IdentityShapeMultiplier] of Utils.hpp, the
    "identity shape multiplier". *)
Definition g_IdentityShapeMultiplier : ShapeMultiplier :=
  MkShapeMultiplier (1, 1) (1, 1) 1.

Section OtherRules.

(** The remaining support queries (Support.cpp). *)
Variable IsSoftmaxSupported : TensorInfo -> SupportedLevel.
Variable IsAdditionSupported : TensorInfo -> TensorInfo -> QuantizationInfo -> SupportedLevel.
Variable IsConvolutionSupported :
  TensorInfo -> TensorInfo -> ConvolutionInfo -> TensorInfo -> SupportedLevel.
Variable IsDepthwiseConvolutionSupported :
  TensorInfo -> TensorInfo -> ConvolutionInfo -> TensorInfo -> SupportedLevel.

(** [utils::GetNumSubmapChannels] (Utils.hpp), which asks the hardware
    capabilities. *)
Variable GetNumSubmapChannels : Z -> Z -> Z -> Capabilities -> Z.

(** [ConvertExternalToCompilerDataFormat] (Utils.hpp). *)
Variable ConvertExternalToCompilerDataFormat : DataFormat -> CompilerDataFormat.

(** An [OutputNode] has no tensor of its own; what its constructor
    (GraphNodes.cpp) hands to [Node] for the shape, the quantization and the
    layout is not visible to the converter. *)
Variable OutputNode_shape : TensorShape.
Variable OutputNode_quant : QuantizationInfo.
Variable OutputNode_format : CompilerDataFormat.

(* ------------------------------------------------------------------ *)
(** *** Visit(Reshape&) *)

Definition Visit_Reshape (reshape : Operation) : M Converter unit :=
  let* input := GetInputOperand reshape 0 in
  let* producer := operand_node (operand_key input) in
  let* producerFormat := GetFormat producer in
  let* nodes :=
    (if negb (CompilerDataFormat_eqb producerFormat NHWC) then
       let* conversionNode :=
         on_graph (CreateAndAddNode
           (MkNode FormatConversionNode (m_Dimensions (opd_info input))
                   (m_QuantizationInfo (opd_info input)) NHWC {[ op_id reshape ]})) in
       ret [conversionNode]
     else ret []) in
  let* outInfo := GetOutputInfo reshape 0 in
  let* reinterpretNode :=
    on_graph (CreateAndAddNode
      (MkNode ReinterpretNode (m_Dimensions outInfo) (m_QuantizationInfo outInfo) NHWC
              {[ op_id reshape ]})) in
  let* conversionNode :=
    on_graph (CreateAndAddNode
      (MkNode FormatConversionNode (m_Dimensions outInfo) (m_QuantizationInfo outInfo)
              NHWCB {[ op_id reshape ]})) in
  ConnectNodeChain reshape (nodes ++ [reinterpretNode; conversionNode]).

(* ------------------------------------------------------------------ *)
(** *** Visit(Sigmoid&), Visit(Softmax&), Visit(Relu&) *)

Definition Visit_Sigmoid (sigmoid : Operation) : M Converter unit :=
  let* outInfo := GetOutputInfo sigmoid 0 in
  let* pleSigmoid :=
    on_graph (CreateAndAddNode
      (MkNode (FuseOnlyPleOperationNode SIGMOID g_IdentityShapeMultiplier)
              (m_Dimensions outInfo) (m_QuantizationInfo outInfo) NHWCB
              {[ op_id sigmoid ]})) in
  ConnectNode sigmoid pleSigmoid.

Definition Visit_Softmax (softmax : Operation) : M Converter unit :=
  let* input := GetInputOperand softmax 0 in
  let supportedLevel := IsSoftmaxSupported (opd_info input) in
  match supportedLevel with
  | EstimateOnly => lower_estimate_only softmax
  | _ => throw (AssertionFailure "Not implemented")
  end.

Definition Visit_Relu (relu : Relu) : M Converter unit :=
  let op := relu_op relu in
  let* outInfo := GetOutputInfo op 0 in
  let* n :=
    on_graph (CreateAndAddNode
      (MkNode (McePostProcessOperationNode (m_LowerBound (relu_info relu))
                                           (m_UpperBound (relu_info relu)))
              (m_Dimensions outInfo) (m_QuantizationInfo outInfo) NHWCB
              {[ op_id op ]})) in
  ConnectNode op n.

(* ------------------------------------------------------------------ *)
(** *** Visit(Addition&) *)

Definition Visit_Addition (addition : Operation) : M Converter unit :=
  let* input0 := GetInputOperand addition 0 in
  let* input1 := GetInputOperand addition 1 in
  let* outputInfo := GetOutputInfo addition 0 in
  let quantInfoInput0 := m_QuantizationInfo (opd_info input0) in
  let quantInfoInput1 := m_QuantizationInfo (opd_info input1) in
  let quantInfoOutput := m_QuantizationInfo outputInfo in
  let supportedLevel :=
    IsAdditionSupported (opd_info input0) (opd_info input1) quantInfoOutput in
  match supportedLevel with
  | EstimateOnly => lower_estimate_only addition
  | _ =>
      let isQuantInfoIdentical :=
        QuantizationInfo_eqb quantInfoInput0 quantInfoInput1
        && QuantizationInfo_eqb quantInfoInput0 quantInfoOutput in
      let pleOp := if isQuantInfoIdentical then ADDITION else ADDITION_RESCALE in
      let* n :=
        on_graph (CreateAndAddNode
          (MkNode (StandalonePleOperationNode pleOp) (m_Dimensions outputInfo)
                  (m_QuantizationInfo outputInfo) NHWCB {[ op_id addition ]})) in
      ConnectNode addition n
  end.

(* ------------------------------------------------------------------ *)
(** *** Visit(Constant&) *)

(** Modelled from the spec: the constructor of [ConstantNode]
    (GraphNodes.cpp) gives the node the shape and the quantization of its
    [TensorInfo] and the layout its external format stands for. *)
Definition constant_node (info : TensorInfo) (data : list Z) (id : Z) : Node :=
  MkNode (ConstantNode info data) (m_Dimensions info) (m_QuantizationInfo info)
         (ConvertExternalToCompilerDataFormat (m_DataFormat info)) {[ id ]}.

Definition Visit_Constant (op : Operation) (constant : Constant) : M Converter unit :=
  let* constantNode :=
    on_graph (CreateAndAddNode (constant_node (c_info constant) (c_data constant) (op_id op))) in
  ConnectNode op constantNode.

(* ------------------------------------------------------------------ *)
(** *** Visit(Convolution&), Visit(DepthwiseConvolution&) *)

(** "Create additional layer before strided convolution": the part the
    two rules have word for word in common. *)
Definition strided_head (op : Operation) (convInfo : ConvolutionInfo) (inputInfo : TensorInfo)
  : M Converter (list nat) :=
  let stride := ci_Stride convInfo in
  if (1 <? m_X stride) || (1 <? m_Y stride) then
    assert ((m_X stride =? 2) && (m_Y stride =? 2))
           "convInfo.m_Stride.m_X == 2 && convInfo.m_Stride.m_Y == 2" ;;
    let* caps := get_capabilities in
    let h := DivRoundUp (dim1 (m_Dimensions inputInfo)) (m_Y stride) in
    let w := DivRoundUp (dim2 (m_Dimensions inputInfo)) (m_X stride) in
    let c := GetNumSubmapChannels (dim3 (m_Dimensions inputInfo)) (m_X stride) (m_Y stride)
                                  caps in
    let interleaveOutput :=
      TInfo (Shape (dim0 (m_Dimensions inputInfo)) h w c) (m_DataType inputInfo)
            (m_DataFormat inputInfo) (m_QuantizationInfo inputInfo) in
    let* interleaveNode :=
      on_graph (CreateAndAddNode
        (MkNode (FuseOnlyPleOperationNode INTERLEAVE_2X2_2_2
                   (MkShapeMultiplier (1, m_Y stride) (1, m_X stride)
                                      (mul32 (m_X stride) (m_Y stride))))
                (m_Dimensions interleaveOutput) (m_QuantizationInfo interleaveOutput)
                NHWCB {[ op_id op ]})) in
    ret [interleaveNode]
  else ret [].

Definition Visit_Convolution (convolution : Convolution) : M Converter unit :=
  let op := conv_op convolution in
  let weights := conv_weights convolution in
  let convInfo := conv_info convolution in
  let* input := GetInputOperand op 0 in
  let supportedLevel :=
    IsConvolutionSupported (conv_biasInfo convolution) (c_info weights) convInfo
                           (opd_info input) in
  match supportedLevel with
  | EstimateOnly => lower_estimate_only op
  | _ =>
      let* nodes := strided_head op convInfo (opd_info input) in
      let* outInfo := GetOutputInfo op 0 in
      let* convNode :=
        on_graph (CreateAndAddNode
          (MkNode (MceOperationNode
                     (MkMce (m_Dimensions (opd_info input)) (c_info weights) (c_data weights)
                            (conv_biasInfo convolution) (conv_biasData convolution)
                            (ci_Stride convInfo) 1 (m_Top (ci_Padding convInfo))
                            (m_Left (ci_Padding convInfo)) CONVOLUTION))
                  (m_Dimensions outInfo) (m_QuantizationInfo outInfo) NHWCB
                  {[ op_id op ]})) in
      ConnectNodeChain op (nodes ++ [convNode])
  end.

Definition Visit_DepthwiseConvolution (depthwiseConvolution : DepthwiseConvolution)
  : M Converter unit :=
  let op := dw_op depthwiseConvolution in
  let weights := dw_weights depthwiseConvolution in
  let convInfo := dw_info depthwiseConvolution in
  let* input := GetInputOperand op 0 in
  let supportedLevel :=
    IsDepthwiseConvolutionSupported (dw_biasInfo depthwiseConvolution) (c_info weights)
                                    convInfo (opd_info input) in
  match supportedLevel with
  | EstimateOnly => lower_estimate_only op
  | _ =>
      let* nodes := strided_head op convInfo (opd_info input) in
      let* selected :=
        (if 1 <? dim3 (m_Dimensions (c_info weights)) then
           assert (dim2 (m_Dimensions (c_info weights)) =? 1)
                  "GetWeights().GetTensorInfo().m_Dimensions[2] == 1" ;;
           ret (TInfo (m_Dimensions (c_info weights)) (m_DataType (c_info weights)) DF_HWIO
                      (m_QuantizationInfo (c_info weights)),
                CONVOLUTION)
         else ret (c_info weights, DEPTHWISE_CONVOLUTION)) in
      let '(weightInfo, operation) := selected in
      let* outInfo := GetOutputInfo op 0 in
      let* convNode :=
        on_graph (CreateAndAddNode
          (MkNode (MceOperationNode
                     (MkMce (m_Dimensions (opd_info input)) weightInfo (c_data weights)
                            (dw_biasInfo depthwiseConvolution)
                            (dw_biasData depthwiseConvolution)
                            (ci_Stride convInfo) 1 (m_Top (ci_Padding convInfo))
                            (m_Left (ci_Padding convInfo)) operation))
                  (m_Dimensions outInfo) (m_QuantizationInfo outInfo) NHWCB
                  {[ op_id op ]})) in
      ConnectNodeChain op (nodes ++ [convNode])
  end.

(* ------------------------------------------------------------------ *)
(** *** Visit(Output&), Visit(Input&) *)

Definition Visit_Output (output : Output) : M Converter unit :=
  let op := output_op output in
  let info := output_info output in
  let* input := GetInputOperand op 0 in
  let* producer := operand_node (operand_key input) in
  let* producerFormat := GetFormat producer in
  let format := ConvertExternalToCompilerDataFormat (m_DataFormat info) in
  let* nodes :=
    (if negb (CompilerDataFormat_eqb producerFormat format) then
       let* conversionNode :=
         on_graph (CreateAndAddNode
           (MkNode FormatConversionNode (m_Dimensions info) (m_QuantizationInfo info)
                   format {[ opd_producer input ]})) in
       ret [conversionNode]
     else ret []) in
  let* outputNode :=
    on_graph (CreateAndAddNode
      (MkNode (OutputNode (Z.of_nat (opd_producerOutputIndex input)))
              OutputNode_shape OutputNode_quant OutputNode_format
              {[ opd_producer input ]})) in
  ConnectNodeChain op (nodes ++ [outputNode]).

(** Modelled from the spec: the constructor of [InputNode] (GraphNodes.cpp)
    gives the node the shape and the quantization of its [TensorInfo] and
    its "declared external layout". *)
Definition input_node (info : TensorInfo) (id : Z) : Node :=
  MkNode InputNode (m_Dimensions info) (m_QuantizationInfo info)
         (ConvertExternalToCompilerDataFormat (m_DataFormat info)) {[ id ]}.

Definition Visit_Input (input : Input) : M Converter unit :=
  let op := input_op input in
  let* n := on_graph (CreateAndAddNode (input_node (input_info input) (op_id op))) in
  let* nFormat := GetFormat n in
  let* nodes :=
    (if negb (CompilerDataFormat_eqb nFormat NHWCB) then
       let* outInfo := GetOutputInfo op 0 in
       let* conversionNode :=
         on_graph (CreateAndAddNode
           (MkNode FormatConversionNode (m_Dimensions outInfo) (m_QuantizationInfo outInfo)
                   NHWCB {[ op_id op ]})) in
       ret [n; conversionNode]
     else ret [n]) in
  ConnectNodeChain op nodes.

(* ------------------------------------------------------------------ *)
(** *** Visit(EstimateOnly&) *)

(** The loop over the outputs; "each output is connected to each input". *)
Fixpoint estimate_only_outputs (op : Operation) (outputIdx : nat)
    (outputs : list TensorInfo) : M Converter unit :=
  match outputs with
  | [] => ret tt
  | tensorInfo :: rest =>
      let* estimateOnlyNode :=
        on_graph (CreateAndAddNode
          (MkNode EstimateOnlyNode (m_Dimensions tensorInfo)
                  (m_QuantizationInfo tensorInfo) NHWCB {[ op_id op ]})) in
      bind_operand (output_key op outputIdx) estimateOnlyNode ;;
      for_each (op_inputs op) (fun input =>
        let* inputNode := operand_node (operand_key input) in
        on_graph (Connect inputNode estimateOnlyNode)) ;;
      estimate_only_outputs op (S outputIdx) rest
  end.

Definition Visit_EstimateOnly (estimateOnly : Operation) : M Converter unit :=
  estimate_only_outputs estimateOnly 0 (op_outputs estimateOnly).

End OtherRules.

(* ================================================================== *)
(** ** Definitions used to state the properties of the remaining rules *)

(** The converter after a rule for [op] has appended the nodes [new] to the
    graph of [c] as one chain: each new node feeds the next one, the
    producers [ps] of the inputs of [op] feed the first one, and the last
    one produces the output of [op], if it has one. *)
Definition chain_lowered (c : Converter) (op : Operation) (new : list Node)
    (ps : list nat) : Converter :=
  let n := length (g_nodes (m_Graph c)) in
  MkConverter
    (MkGraph (g_nodes (m_Graph c) ++ new)
             (g_edges (m_Graph c) ++ successive_edges (seq n (length new))
                ++ map (fun p => MkEdge p n) ps))
    (if Nat.ltb 0 (length (op_outputs op))
     then <[output_key op 0 := (n + length new - 1)%nat]> (m_OperandToNode c)
     else m_OperandToNode c)
    (m_EstimationMode c) (m_Capabilities c).

(** The producers of the inputs that come before the first input without
    a node. *)
Fixpoint producers_until_unbound (m : gmap OperandKey nat) (inputs : list Operand)
  : list nat :=
  match inputs with
  | [] => []
  | o :: rest =>
      match m !! operand_key o with
      | Some p => p :: producers_until_unbound m rest
      | None => []
      end
  end.

(** The state an outcome ends in, whether it returns or throws. *)
Definition final_state {S A} (o : Outcome S A) : S :=
  match o with
  | Ok _ s => s
  | Throw _ s => s
  end.

(** The node of the "additional layer before strided convolution". *)
Definition interleave_node (submapChannels : Z) (id : Z) (stride : Stride)
    (inputInfo : TensorInfo) : Node :=
  MkNode (FuseOnlyPleOperationNode INTERLEAVE_2X2_2_2
            (MkShapeMultiplier (1, m_Y stride) (1, m_X stride)
                               (mul32 (m_X stride) (m_Y stride))))
         (Shape (dim0 (m_Dimensions inputInfo))
                (DivRoundUp (dim1 (m_Dimensions inputInfo)) (m_Y stride))
                (DivRoundUp (dim2 (m_Dimensions inputInfo)) (m_X stride))
                submapChannels)
         (m_QuantizationInfo inputInfo) NHWCB {[ id ]}.

(** A stride is above one in some direction. *)
Definition is_strided (stride : Stride) : Prop := 1 < m_X stride \/ 1 < m_Y stride.

(** The MCE node the two convolution rules end their chain with. *)
Definition convolution_node (op : Operation) (input : Operand) (oi : TensorInfo)
    (weightInfo : TensorInfo) (weightsData : list Z) (biasInfo : TensorInfo)
    (biasData : list Z) (convInfo : ConvolutionInfo) (operation : MceOperation) : Node :=
  MkNode (MceOperationNode
            (MkMce (m_Dimensions (opd_info input)) weightInfo weightsData biasInfo biasData
                   (ci_Stride convInfo) 1 (m_Top (ci_Padding convInfo))
                   (m_Left (ci_Padding convInfo)) operation))
         (m_Dimensions oi) (m_QuantizationInfo oi) NHWCB {[ op_id op ]}.

(** The placeholder of an operation that can only be estimated. *)
Definition estimate_only_node (id : Z) (info : TensorInfo) : Node :=
  MkNode EstimateOnlyNode (m_Dimensions info) (m_QuantizationInfo info) NHWCB {[ id ]}.

(** The nodes of the strided head: none without a stride above one. *)
Definition strided_head_nodes (submapChannels : Z) (id : Z) (stride : Stride)
    (inputInfo : TensorInfo) : list Node :=
  if (1 <? m_X stride) || (1 <? m_Y stride)
  then [interleave_node submapChannels id stride inputInfo]
  else [].

(** The strides the two convolution rules accept. *)
Definition stride_accepted (stride : Stride) : Prop :=
  ~ is_strided stride \/ stride = MkStride 2 2.

(** The graph of [c] with the nodes [new] appended. *)
Definition with_nodes (c : Converter) (new : list Node) : Converter :=
  set_graph (MkGraph (g_nodes (m_Graph c) ++ new) (g_edges (m_Graph c))) c.

(** The edges from each of the producers [ps] to each of [count]
    consecutive nodes from [first] on, node by node. *)
Fixpoint fan_in (ps : list nat) (first count : nat) : list Edge :=
  match count with
  | O => []
  | S k => map (fun p => MkEdge p first) ps ++ fan_in ps (S first) k
  end.

(** The operand map with the outputs [idx], [idx + 1], ... of [op] bound to
    [count] consecutive nodes from [first] on. *)
Fixpoint bind_outputs (op : Operation) (idx first count : nat)
    (m : gmap OperandKey nat) : gmap OperandKey nat :=
  match count with
  | O => m
  | S k => bind_outputs op (S idx) (S first) k (<[output_key op idx := first]> m)
  end.

(** No input of the operation is one of its own outputs. *)
Definition no_self_input (op : Operation) : Prop :=
  Forall (fun o => opd_producer o <> op_id op) (op_inputs op).

(* ================================================================== *)
(** ** The visitor *)

(** What the converter takes from the rest of the support library: the
    support queries, the two helpers of Utils.hpp and the tags an
    [OutputNode] is constructed with. *)
Record Environment := MkEnvironment {
  env_IsTransposeConvolutionSupported :
    TensorInfo -> TensorInfo -> ConvolutionInfo -> TensorInfo -> SupportedLevel;
  env_IsPoolingSupported : PoolingInfo -> TensorInfo -> SupportedLevel;
  env_IsConcatenationSupported : list TensorInfo -> ConcatenationInfo -> SupportedLevel;
  env_IsSplitSupported : TensorInfo -> SplitInfo -> SupportedLevel;
  env_IsSoftmaxSupported : TensorInfo -> SupportedLevel;
  env_IsAdditionSupported : TensorInfo -> TensorInfo -> QuantizationInfo -> SupportedLevel;
  env_IsConvolutionSupported :
    TensorInfo -> TensorInfo -> ConvolutionInfo -> TensorInfo -> SupportedLevel;
  env_IsDepthwiseConvolutionSupported :
    TensorInfo -> TensorInfo -> ConvolutionInfo -> TensorInfo -> SupportedLevel;
  env_GetNumSubmapChannels : Z -> Z -> Z -> Capabilities -> Z;
  env_ConvertExternalToCompilerDataFormat : DataFormat -> CompilerDataFormat;
  env_OutputNode_shape : TensorShape;
  env_OutputNode_quant : QuantizationInfo;
  env_OutputNode_format : CompilerDataFormat }.

(** The kinds of operation the converter has a [Visit] overload for. *)
Inductive AnyOperation :=
| OpReshape (reshape : Operation)
| OpPooling (pooling : Pooling)
| OpSigmoid (sigmoid : Operation)
| OpSoftmax (softmax : Operation)
| OpRelu (relu : Relu)
| OpFullyConnected (fullyConnected : FullyConnected)
| OpAddition (addition : Operation)
| OpConcatenation (concatenation : Concatenation)
| OpSplit (split : Split)
| OpConstant (op : Operation) (constant : Constant)
| OpDepthwiseConvolution (depthwiseConvolution : DepthwiseConvolution)
| OpConvolution (convolution : Convolution)
| OpTransposeConvolution (transposeConvolution : TransposeConvolution)
| OpOutput (output : Output)
| OpInput (input : Input)
| OpDepthToSpace (depthToSpace : DepthToSpace)
| OpEstimateOnly (estimateOnly : Operation).

Definition operation_of (o : AnyOperation) : Operation :=
  match o with
  | OpReshape op | OpSigmoid op | OpSoftmax op | OpAddition op | OpConstant op _
  | OpEstimateOnly op => op
  | OpPooling p => pool_op p
  | OpRelu r => relu_op r
  | OpFullyConnected fc => fc_op fc
  | OpConcatenation cat => cat_op cat
  | OpSplit sp => split_op sp
  | OpDepthwiseConvolution dw => dw_op dw
  | OpConvolution conv => conv_op conv
  | OpTransposeConvolution tc => tc_op tc
  | OpOutput output => output_op output
  | OpInput input => input_op input
  | OpDepthToSpace d => d2s_op d
  end.

(** The overload of [Visit] an operation is dispatched to. *)
Definition Visit (env : Environment) (o : AnyOperation) : M Converter unit :=
  match o with
  | OpReshape reshape => Visit_Reshape reshape
  | OpPooling pooling => Visit_Pooling (env_IsPoolingSupported env) pooling
  | OpSigmoid sigmoid => Visit_Sigmoid sigmoid
  | OpSoftmax softmax => Visit_Softmax (env_IsSoftmaxSupported env) softmax
  | OpRelu relu => Visit_Relu relu
  | OpFullyConnected fullyConnected => Visit_FullyConnected fullyConnected
  | OpAddition addition => Visit_Addition (env_IsAdditionSupported env) addition
  | OpConcatenation concatenation =>
      Visit_Concatenation (env_IsConcatenationSupported env) concatenation
  | OpSplit split => Visit_Split (env_IsSplitSupported env) split
  | OpConstant op constant =>
      Visit_Constant (env_ConvertExternalToCompilerDataFormat env) op constant
  | OpDepthwiseConvolution depthwiseConvolution =>
      Visit_DepthwiseConvolution (env_IsDepthwiseConvolutionSupported env)
                                 (env_GetNumSubmapChannels env) depthwiseConvolution
  | OpConvolution convolution =>
      Visit_Convolution (env_IsConvolutionSupported env) (env_GetNumSubmapChannels env)
                        convolution
  | OpTransposeConvolution transposeConvolution =>
      Visit_TransposeConvolution (env_IsTransposeConvolutionSupported env)
                                 transposeConvolution
  | OpOutput output =>
      Visit_Output (env_ConvertExternalToCompilerDataFormat env) (env_OutputNode_shape env)
                   (env_OutputNode_quant env) (env_OutputNode_format env) output
  | OpInput input => Visit_Input (env_ConvertExternalToCompilerDataFormat env) input
  | OpDepthToSpace depthToSpace => Visit_DepthToSpace depthToSpace
  | OpEstimateOnly estimateOnly => Visit_EstimateOnly estimateOnly
  end.

(* ================================================================== *)
(** ** Invariants of the converter *)

(** Every edge of [es] is still at its position in [es'] and still ends
    in the same node. *)
Definition edges_kept (es es' : list Edge) : Prop :=
  forall i e, es !! i = Some e -> exists e', es' !! i = Some e' /\ e_dst e' = e_dst e.

(** What the rule for the operation [id] may do to the converter: append
    nodes, append edges and move the source of an edge, bind operands of
    the operation [id]. *)
Definition grows (id : Z) (c c' : Converter) : Prop :=
  g_nodes (m_Graph c) `prefix_of` g_nodes (m_Graph c') /\
  edges_kept (g_edges (m_Graph c)) (g_edges (m_Graph c')) /\
  (forall k, k.1 <> id -> m_OperandToNode c' !! k = m_OperandToNode c !! k) /\
  (forall k, is_Some (m_OperandToNode c !! k) -> is_Some (m_OperandToNode c' !! k)) /\
  m_EstimationMode c' = m_EstimationMode c /\
  m_Capabilities c' = m_Capabilities c.

(** [r] refers to a node of the graph. *)
Definition valid (r : nat) (c : Converter) : Prop :=
  (r < length (g_nodes (m_Graph c)))%nat.

(** [r] refers to the node [nd]. *)
Definition has_node (r : nat) (nd : Node) (c : Converter) : Prop :=
  g_nodes (m_Graph c) !! r = Some nd.

(** No reference of the converter dangles: every edge joins two nodes of
    the graph and every operand is bound to a node of the graph. *)
Definition closed (c : Converter) : Prop :=
  Forall (fun e => valid (e_src e) c /\ valid (e_dst e) c) (g_edges (m_Graph c)) /\
  map_Forall (fun _ r => valid r c) (m_OperandToNode c).

(** The nodes from [n0] on all come from the operation [pid] alone. *)
Definition provenance (pid : Z) (n0 : nat) (c : Converter) : Prop :=
  forall r nd, (n0 <= r)%nat -> has_node r nd c -> n_ids nd = {[ pid ]}.

(** A property [I] of converters that the steps of a rule keep, given
    that the nodes they add come from the operation [pid] and that the
    references [V] they use are good. *)
Record Invariant (pid : Z) (I : Converter -> Prop) (V : nat -> Converter -> Prop)
  : Prop := MkInvariant {
  inv_V_grows : forall id c c' r, grows id c c' -> V r c -> V r c';
  inv_V_node : forall c r nd, has_node r nd c -> V r c;
  inv_V_bound : forall c k r, I c -> m_OperandToNode c !! k = Some r -> V r c;
  inv_add : forall c nd, n_ids nd = {[ pid ]} -> I c -> I (with_nodes c [nd]);
  inv_connect : forall c s d, V s c -> V d c -> I c ->
    I (set_graph (graph_connect s d (m_Graph c)) c);
  inv_split : forall c e m g', V m c -> graph_split_edge e m (m_Graph c) = Some g' ->
    I c -> I (set_graph g' c);
  inv_bind : forall c k r, V r c -> I c -> I (set_operand k r c) }.

(** All references of a list are good. *)
Definition all_good (V : nat -> Converter -> Prop) (l : list nat) (c : Converter) : Prop :=
  Forall (fun r => V r c) l.

(** What holds when a computation started from a converter that [grows]
    from [c0] ends: the invariant, also when it throws, and [Q] of the
    result when it returns. *)
Definition post (I : Converter -> Prop) (id : Z) {A} (c0 : Converter)
    (o : Outcome Converter A) (Q : A -> Converter -> Prop) : Prop :=
  match o with
  | Ok a c' => I c' /\ grows id c0 c' /\ Q a c'
  | Throw _ c' => I c' /\ grows id c0 c'
  end.

Definition triple (I : Converter -> Prop) (id : Z) {A} (c0 : Converter)
    (m : M Converter A) (Q : A -> Converter -> Prop) : Prop :=
  forall c, I c -> grows id c0 c -> post I id c0 (m c) Q.

(** The operation whose id the nodes of a rule carry: the operation
    itself, except for an output, whose nodes carry the id of the producer
    of its input. *)
Definition provenance_id (o : AnyOperation) : Z :=
  match o with
  | OpOutput output =>
      match op_inputs (output_op output) !! 0%nat with
      | Some input => opd_producer input
      | None => op_id (output_op output)
      end
  | _ => op_id (operation_of o)
  end.

(** The first output of [op], if it has one, is bound to a node that
    satisfies [good] of the declared tensor info. *)
Definition output_bound (op : Operation) (good : TensorInfo -> Node -> Prop)
    (c : Converter) : Prop :=
  forall oi, op_outputs op !! 0%nat = Some oi ->
    exists nd, node_of_operand c (output_key op 0) = Some nd /\ good oi nd.

(** The node carries the shape and the quantization the operation
    declares for its output, in the layout the rules leave their result
    in. *)
Definition declared (oi : TensorInfo) (nd : Node) : Prop :=
  n_shape nd = m_Dimensions oi /\ n_quant nd = m_QuantizationInfo oi /\
  n_format nd = NHWCB.

(** The kinds of operation whose rule ends by binding the output to the
    last node of one chain that carries the declared output. *)
Definition lowers_to_declared_chain (o : AnyOperation) : bool :=
  match o with
  | OpReshape _ | OpPooling _ | OpSigmoid _ | OpSoftmax _ | OpRelu _
  | OpFullyConnected _ | OpAddition _ | OpDepthwiseConvolution _ | OpConvolution _
  | OpTransposeConvolution _ | OpDepthToSpace _ => true
  | _ => false
  end.

(** ** More concrete inputs *)

(** An operation with id [id] that reads the network input of
    [after_input] and declares one output. *)
Definition unary_op (id : Z) (s out : TensorShape) : Operation :=
  MkOperation id [input_operand s [id]] [tinfo out].

(** The node [after_input] holds. *)
Definition the_input_node (s : TensorShape) (fmt : CompilerDataFormat) : Node :=
  MkNode InputNode s q_unit fmt {[ 1 ]}.

(** A 3x3 convolution of 16 channels into 32 with the given stride. *)
Definition convolution_3x3 (stride : Stride) : Convolution :=
  MkConvolution (unary_op 12 (Shape 1 8 8 16) (Shape 1 8 8 32))
    (MkConstant (TInfo (Shape 3 3 16 32) UINT8_QUANTIZED DF_HWIO q_unit) [])
    (TInfo (Shape 1 1 1 32) INT32_QUANTIZED DF_NHWC q_unit) []
    (MkConvolutionInfo (MkPadding 1 1 1 1) stride).

(** A depthwise convolution whose weights have the given shape. *)
Definition depthwise_3x3 (weightsShape : TensorShape) (stride : Stride)
  : DepthwiseConvolution :=
  MkDepthwiseConvolution (unary_op 13 (Shape 1 8 8 16) (Shape 1 8 8 16))
    (MkConstant (TInfo weightsShape UINT8_QUANTIZED DF_HWIM q_unit) [])
    (TInfo (Shape 1 1 1 16) INT32_QUANTIZED DF_NHWC q_unit) []
    (MkConvolutionInfo (MkPadding 1 1 1 1) stride).

Definition always (level : SupportedLevel)
  : TensorInfo -> TensorInfo -> ConvolutionInfo -> TensorInfo -> SupportedLevel :=
  fun _ _ _ _ => level.

(** The sub-map channels of a tensor interleaved with stride 2x2, for the
    examples: four times the channels. *)
Definition four_submaps : Z -> Z -> Z -> Capabilities -> Z := fun c _ _ _ => 4 * c.

(** The external layouts NHWC and NHWCB as compiler layouts, for the
    examples. *)
Definition external_layout (f : DataFormat) : CompilerDataFormat :=
  match f with
  | DF_NHWCB => NHWCB
  | _ => NHWC
  end.

(** An addition of the two inputs of [after_two_inputs]. *)
Definition addition_3_5 : Operation :=
  MkOperation 14 concat_inputs [tinfo (Shape 1 8 8 8)].

(** An estimate-only operation with the two inputs of [after_two_inputs]
    and two outputs. *)
Definition estimate_only_2x2 : Operation :=
  MkOperation 15 concat_inputs [tinfo (Shape 1 8 8 8); tinfo (Shape 1 4 4 8)].

(** An environment for the examples. *)
Definition example_environment : Environment :=
  MkEnvironment (always Supported) (fun _ _ => Supported) (fun _ _ => Supported)
                (fun _ _ => Supported) (fun _ => EstimateOnly) (fun _ _ _ => Supported)
                (always Supported) (always Supported) four_submaps external_layout
                (Shape 0 0 0 0) q_unit NHWC.

Definition network_input (f : DataFormat) : Input :=
  MkInput (MkOperation 1 [] [TInfo (Shape 1 8 8 16) UINT8_QUANTIZED f q_unit])
          (TInfo (Shape 1 8 8 16) UINT8_QUANTIZED f q_unit).

Definition network_output : Output :=
  MkOutput (MkOperation 20 [input_operand (Shape 1 8 8 16) [20]] [])
           (tinfo (Shape 1 8 8 16)).

(** A converter that has lowered nothing yet. *)
Definition empty_converter : Converter :=
  MkConverter empty_graph ∅ false (MkCapabilities (Shape 1 8 8 16)).

(** The input channel that the selector of depth-to-space at kernel
    position [(v, u)] picks for the output channel [o]. *)
Definition selected_channel (OC v u o : nat) : nat := (o + (v * 2 + u) * OC)%nat.

(** A buffer with the value [x] written at each of the positions [ps]. *)
Definition written (x : Z) (ps : list nat) (d : list Z) : list Z :=
  foldl (fun d p => <[p := x]> d) d ps.

(** The positions the loops of depth-to-space write, in their order. *)
Definition selector_positions (dims : TensorShape) (OC : nat) : list nat :=
  map (fun t => element_offset dims (fst (snd t)) (snd (snd t))
                               (selected_channel OC (fst (snd t)) (snd (snd t)) (fst t))
                               (fst t))
      (list_prod (seq 0 OC) (list_prod (seq 0 2) (seq 0 2))).
(* ================================================================== *)
(** * Properties *)

(** ** The monad *)

Lemma bind_Ok {S A B} (m : M S A) (k : A -> M S B) s a s' :
  m s = Ok a s' -> bind m k s = k a s'.
Proof. intros H. unfold bind. now rewrite H. Qed.

Lemma bind_Throw {S A B} (m : M S A) (k : A -> M S B) s e s' :
  m s = Throw e s' -> bind m k s = Throw e s'.
Proof. intros H. unfold bind. now rewrite H. Qed.

Lemma on_graph_Ok {A} (m : M Graph A) c a g :
  m (m_Graph c) = Ok a g -> on_graph m c = Ok a (set_graph g c).
Proof. intros H. unfold on_graph. now rewrite H. Qed.

Lemma create_node_eq nd c :
  on_graph (CreateAndAddNode nd) c
  = Ok (length (g_nodes (m_Graph c)))
       (set_graph (MkGraph (g_nodes (m_Graph c) ++ [nd]) (g_edges (m_Graph c))) c).
Proof. reflexivity. Qed.

Lemma connect_eq s d c :
  on_graph (Connect s d) c
  = Ok tt (set_graph (MkGraph (g_nodes (m_Graph c)) (g_edges (m_Graph c) ++ [MkEdge s d])) c).
Proof. reflexivity. Qed.

(** ** ConnectNodeChain *)

Lemma connect_successive_eq nodes g :
  connect_successive nodes g
  = Ok tt (MkGraph (g_nodes g) (g_edges g ++ successive_edges nodes)).
Proof.
  revert g. induction nodes as [|a [|b rest] IH]; intros [ns es].
  - cbn. now rewrite app_nil_r.
  - cbn. now rewrite app_nil_r.
  - change (connect_successive (a :: b :: rest))
      with (Connect a b ;; connect_successive (b :: rest)).
    unfold bind at 1. cbn [Connect graph_connect g_nodes g_edges].
    rewrite IH.
    change (successive_edges (a :: b :: rest))
      with (MkEdge a b :: successive_edges (b :: rest)).
    unfold graph_connect. cbn [g_nodes g_edges]. now rewrite <- app_assoc.
Qed.

Lemma connect_inputs_eq front inputs : forall c ps,
  producers_of (m_OperandToNode c) inputs = Some ps ->
  for_each inputs (fun o =>
    let* p := operand_node_at (operand_key o) in on_graph (Connect p front)) c
  = Ok tt (set_graph (MkGraph (g_nodes (m_Graph c))
                              (g_edges (m_Graph c) ++ map (fun p => MkEdge p front) ps)) c).
Proof.
  induction inputs as [|o rest IH]; intros c ps Hps.
  - injection Hps as <-. destruct c as [[ns es] m em cp]. cbn. now rewrite app_nil_r.
  - cbn [producers_of] in Hps.
    destruct (m_OperandToNode c !! operand_key o) as [p|] eqn:Hp; [|discriminate].
    destruct (producers_of (m_OperandToNode c) rest) as [ps'|] eqn:Hr; [|discriminate].
    injection Hps as <-.
    cbn [for_each]. unfold bind at 1. unfold bind at 1.
    unfold operand_node_at at 1. rewrite Hp. rewrite connect_eq.
    rewrite (IH _ ps') by (destruct c; exact Hr).
    destruct c as [[ns es] m em cp]. cbn. now rewrite <- app_assoc.
Qed.

Lemma ConnectNodeChain_eq op nodes front back ps c :
  (length (op_outputs op) <= 1)%nat ->
  head nodes = Some front ->
  last nodes = Some back ->
  producers_of (m_OperandToNode c) (op_inputs op) = Some ps ->
  ConnectNodeChain op nodes c = Ok tt (chain_connected op nodes front back ps c).
Proof.
  intros Hout Hf Hb Hps. unfold ConnectNodeChain.
  assert (Hle : Nat.leb (length (op_outputs op)) 1 = true) by now apply Nat.leb_le.
  rewrite Hle, Hf, Hb. cbn [assert defined].
  unfold bind at 1. cbn [ret]. unfold bind at 1. cbn [ret]. unfold bind at 1. cbn [ret].
  unfold bind at 1. erewrite on_graph_Ok by apply connect_successive_eq.
  unfold bind at 1. erewrite connect_inputs_eq by (destruct c; exact Hps).
  destruct c as [[ns es] m em cp]. unfold chain_connected. cbn.
  rewrite <- app_assoc. now destruct (length (op_outputs op)).
Qed.

(** ** Loops over pure bodies *)

Lemma iterate_app {St A} (l1 l2 : list A) (body : A -> St -> option St) s :
  iterate (l1 ++ l2) body s
  = match iterate l1 body s with
    | Some s' => iterate l2 body s'
    | None => None
    end.
Proof.
  revert s. induction l1 as [|a l1 IH]; intros s; cbn; [reflexivity|].
  destruct (body a s); [apply IH | reflexivity].
Qed.

Lemma iterate_map {St A B} (f : A -> B) (l : list A) (body : B -> St -> option St) s :
  iterate (map f l) body s = iterate l (fun a => body (f a)) s.
Proof.
  revert s. induction l as [|a l IH]; intros s; cbn; [reflexivity|].
  destruct (body (f a) s); [apply IH | reflexivity].
Qed.

Lemma iterate_ext {St A} (l : list A) (f g : A -> St -> option St) s :
  (forall a s', a ∈ l -> f a s' = g a s') ->
  iterate l f s = iterate l g s.
Proof.
  revert s. induction l as [|a l IH]; intros s H; cbn; [reflexivity|].
  rewrite (H a s) by constructor.
  destruct (g a s); [|reflexivity]. apply IH. intros b s' Hb. apply H. now constructor.
Qed.

(** Two nested loops are one loop over the pairs of indices. *)
Lemma iterate_nested {St A B} (l1 : list A) (l2 : list B)
    (body : A -> B -> St -> option St) s :
  iterate l1 (fun a => iterate l2 (body a)) s
  = iterate (list_prod l1 l2) (fun p => body (fst p) (snd p)) s.
Proof.
  revert s. induction l1 as [|a l1 IH]; intros s; cbn [iterate list_prod]; [reflexivity|].
  rewrite iterate_app, iterate_map. cbn [fst snd].
  destruct (iterate l2 (body a) s); [apply IH | reflexivity].
Qed.

Lemma NoDup_list_prod {A B} (l1 : list A) (l2 : list B) :
  NoDup l1 -> NoDup l2 -> NoDup (list_prod l1 l2).
Proof.
  intros H1 H2. induction H1 as [|a l1 Ha H1 IH]; cbn [list_prod]; [constructor|].
  apply NoDup_app. split; [|split].
  - apply NoDup_fmap_2_strong; [|exact H2]. intros x y _ _ Hxy. now injection Hxy.
  - intros [x y] Hin Hin'. apply list_elem_of_fmap in Hin as (z & Hz & _).
    injection Hz as -> _. apply list_elem_of_In, in_prod_iff in Hin' as [Hin' _].
    apply Ha. now apply list_elem_of_In.
  - exact IH.
Qed.

Section BlockWrites.
Local Open Scope nat_scope.

(** ** Block copies *)

Lemma copy_n_Some src so n dst to :
  so + n <= length src -> to + n <= length dst ->
  copy_n src so n dst to
  = Some (take to dst ++ take n (drop so src) ++ drop (to + n) dst).
Proof.
  intros H1 H2. unfold copy_n.
  apply Nat.leb_le in H1, H2. now rewrite H1, H2.
Qed.

Lemma copy_n_inv src so n dst to dst' :
  copy_n src so n dst to = Some dst' ->
  so + n <= length src /\ to + n <= length dst /\
  dst' = take to dst ++ take n (drop so src) ++ drop (to + n) dst.
Proof.
  unfold copy_n. intros H.
  destruct (Nat.leb (so + n) (length src)) eqn:H1; [|discriminate].
  destruct (Nat.leb (to + n) (length dst)) eqn:H2; [|discriminate].
  apply Nat.leb_le in H1, H2. cbn in H. now injection H as <-.
Qed.

Lemma copy_n_length src so n dst to dst' :
  copy_n src so n dst to = Some dst' -> length dst' = length dst.
Proof.
  intros H. apply copy_n_inv in H as (H1 & H2 & ->).
  rewrite !length_app, !length_take, length_drop, length_drop. lia.
Qed.

Lemma copy_n_lookup_in src so n dst to dst' j :
  copy_n src so n dst to = Some dst' -> j < n ->
  dst' !! (to + j) = src !! (so + j).
Proof.
  intros H Hj. apply copy_n_inv in H as (H1 & H2 & ->).
  rewrite lookup_app_r by (rewrite length_take; lia).
  rewrite length_take, Nat.min_l by lia.
  replace (to + j - to) with j by lia.
  rewrite lookup_app_l by (rewrite length_take, length_drop; lia).
  rewrite lookup_take_lt by lia. now rewrite lookup_drop.
Qed.

Lemma copy_n_lookup_out src so n dst to dst' p :
  copy_n src so n dst to = Some dst' -> ~ (to <= p < to + n) ->
  dst' !! p = dst !! p.
Proof.
  intros H Hp. apply copy_n_inv in H as (H1 & H2 & ->).
  destruct (decide (p < to)) as [Hlt|Hge].
  - rewrite lookup_app_l by (rewrite length_take; lia). now rewrite lookup_take_lt.
  - rewrite lookup_app_r by (rewrite length_take; lia).
    rewrite length_take, Nat.min_l by lia.
    rewrite lookup_app_r by (rewrite length_take, length_drop; lia).
    rewrite length_take, length_drop, Nat.min_l by lia.
    rewrite lookup_drop. f_equal. lia.
Qed.

Lemma separated_cons n w W :
  separated n (w :: W) ->
  separated n W /\
  (forall w', w' ∈ W -> snd w + n <= snd w' \/ snd w' + n <= snd w).
Proof.
  intros H. split.
  - intros i j a b Ha Hb Hij. apply (H (S i) (S j)); cbn; auto.
  - intros w' Hin. apply list_elem_of_lookup in Hin as [j Hj].
    apply (H 0 (S j)); cbn; auto.
Qed.

(** Running separated, in-range copies succeeds; every target block holds
    its source block, and nothing else is touched. *)
Lemma write_all_spec src n W : forall dst,
  (forall w, w ∈ W -> fst w + n <= length src /\ snd w + n <= length dst) ->
  separated n W ->
  exists dst',
    write_all src n W dst = Some dst' /\
    length dst' = length dst /\
    (forall w j, w ∈ W -> j < n -> dst' !! (snd w + j) = src !! (fst w + j)) /\
    (forall p, (forall w, w ∈ W -> ~ (snd w <= p < snd w + n)) -> dst' !! p = dst !! p).
Proof.
  induction W as [|w W IH]; intros dst Hrange Hsep.
  - exists dst. repeat split; auto. intros w j Hin. inversion Hin.
  - apply separated_cons in Hsep as [Hsep Hw].
    destruct (Hrange w) as [Hs Ht]; [constructor|].
    pose proof (copy_n_Some src (fst w) n dst (snd w) Hs Ht) as Hc.
    set (d1 := take (snd w) dst ++ take n (drop (fst w) src) ++ drop (snd w + n) dst) in Hc.
    pose proof (copy_n_length _ _ _ _ _ _ Hc) as Hlen.
    destruct (IH d1) as (dst' & Hrun & Hlen' & Hin & Hout); [|exact Hsep|].
    { intros w' Hw'. rewrite Hlen. apply Hrange. now constructor. }
    exists dst'. split; [|split; [|split]].
    + unfold write_all in *. cbn [iterate]. now rewrite Hc.
    + congruence.
    + intros w' j Hw' Hj. apply elem_of_cons in Hw' as [->|Hw'].
      * rewrite Hout; [now apply (copy_n_lookup_in _ _ _ _ _ _ _ Hc)|].
        intros w' Hw'. specialize (Hw w' Hw'). lia.
      * now apply Hin.
    + intros p Hp. rewrite Hout.
      * apply (copy_n_lookup_out _ _ _ _ _ _ _ Hc). apply Hp. constructor.
      * intros w' Hw'. apply Hp. now constructor.
Qed.

End BlockWrites.

Section Rotation.
Local Open Scope nat_scope.

(** ** The rotation as a list of block copies *)

Lemma rot_writes_elem KH KW n w :
  w ∈ rot_writes KH KW n ->
  exists y x, y < KH /\ x < KW /\
    w = ((y * KW + x) * n, ((KH - 1 - y) * KW + (KW - 1 - x)) * n).
Proof.
  unfold rot_writes. intros H. apply list_elem_of_fmap in H as ([y x] & -> & Hin).
  apply list_elem_of_In, in_prod_iff in Hin as [Hy Hx].
  apply in_seq in Hy, Hx. exists y, x. cbn [fst snd]. repeat split; lia.
Qed.

Lemma elem_rot_writes KH KW n y x :
  y < KH -> x < KW ->
  ((y * KW + x) * n, ((KH - 1 - y) * KW + (KW - 1 - x)) * n) ∈ rot_writes KH KW n.
Proof.
  intros Hy Hx. unfold rot_writes. apply list_elem_of_fmap. exists (y, x). split; [reflexivity|].
  apply list_elem_of_In, in_prod_iff. split; apply in_seq; lia.
Qed.

Lemma block_index_inj KW y x y' x' :
  x < KW -> x' < KW -> y * KW + x = y' * KW + x' -> y = y' /\ x = x'.
Proof. intros Hx Hx' H. assert (y = y') by nia. subst. lia. Qed.

Lemma rot_writes_separated KH KW n : separated n (rot_writes KH KW n).
Proof.
  intros i j w w' Hi Hj Hij.
  destruct (Nat.eq_dec n 0) as [->|Hn]; [lia|].
  unfold rot_writes in Hi, Hj.
  apply list_lookup_fmap_Some in Hi as ([y x] & -> & Hi).
  apply list_lookup_fmap_Some in Hj as ([y' x'] & -> & Hj).
  assert (Hne : (y, x) <> (y', x')).
  { intros Heq. rewrite Heq in Hi. apply Hij.
    eapply NoDup_lookup; [|exact Hi|exact Hj].
    apply NoDup_list_prod; apply NoDup_seq. }
  apply list_elem_of_lookup_2, list_elem_of_In, in_prod_iff in Hi as [Hy Hx].
  apply list_elem_of_lookup_2, list_elem_of_In, in_prod_iff in Hj as [Hy' Hx'].
  apply in_seq in Hy, Hx, Hy', Hx'. cbn [fst snd].
  set (b := (KH - 1 - y) * KW + (KW - 1 - x)).
  set (b' := (KH - 1 - y') * KW + (KW - 1 - x')).
  assert (Hb : b <> b').
  { intros Hbb. apply Hne. subst b b'.
    apply block_index_inj in Hbb as [E1 E2]; [|lia|lia].
    f_equal; lia. }
  destruct (Nat.lt_ge_cases b b') as [Hlt|Hge]; [left|right]; nia.
Qed.

Lemma rot_writes_range KH KW n w :
  w ∈ rot_writes KH KW n ->
  fst w + n <= KH * KW * n /\ snd w + n <= KH * KW * n.
Proof.
  intros H. apply rot_writes_elem in H as (y & x & Hy & Hx & ->). cbn [fst snd].
  assert (y * KW + x + 1 <= KH * KW) by nia.
  assert ((KH - 1 - y) * KW + (KW - 1 - x) + 1 <= KH * KW) by nia.
  split; nia.
Qed.

(** The rotation of a buffer of [KH * KW] blocks succeeds and moves block
    [(y, x)] to block [(KH - 1 - y, KW - 1 - x)]. *)
Lemma rotation_spec KH KW n (data : list Z) :
  length data = KH * KW * n ->
  exists flipped,
    write_all data n (rot_writes KH KW n) (replicate (length data) 0%Z) = Some flipped /\
    length flipped = length data /\
    forall y x j, y < KH -> x < KW -> j < n ->
      flipped !! (((KH - 1 - y) * KW + (KW - 1 - x)) * n + j)
      = data !! ((y * KW + x) * n + j).
Proof.
  intros Hlen.
  destruct (write_all_spec data n (rot_writes KH KW n) (replicate (length data) 0%Z))
    as (flipped & Hrun & Hl & Hin & _).
  - intros w Hw. rewrite length_replicate, Hlen. now apply rot_writes_range.
  - apply rot_writes_separated.
  - exists flipped. split; [exact Hrun|]. split; [now rewrite Hl, length_replicate|].
    intros y x j Hy Hx Hj.
    apply (Hin _ j (elem_rot_writes KH KW n y x Hy Hx) Hj).
Qed.

(** Rotating twice gives the buffer back. *)
Lemma rotation_twice KH KW n (data flipped : list Z) :
  length data = KH * KW * n ->
  write_all data n (rot_writes KH KW n) (replicate (length data) 0%Z) = Some flipped ->
  write_all flipped n (rot_writes KH KW n) (replicate (length flipped) 0%Z) = Some data.
Proof.
  intros Hlen Hrun.
  destruct (rotation_spec KH KW n data Hlen) as (f1 & Hrun1 & Hl1 & Hspec1).
  rewrite Hrun in Hrun1. injection Hrun1 as <-.
  destruct (rotation_spec KH KW n flipped) as (back & Hrun2 & Hl2 & Hspec2); [congruence|].
  rewrite Hrun2. f_equal. apply list_eq. intros p.
  destruct (Nat.lt_ge_cases p (length data)) as [Hp|Hp].
  - assert (Hn : n <> 0) by (intros ->; lia).
    assert (HKW : KW <> 0) by (intros ->; lia).
    pose proof (Nat.div_mod_eq p n) as Ep.
    pose proof (Nat.mod_upper_bound p n Hn) as Hj.
    set (b := p / n) in *. set (j := p mod n) in *.
    assert (Hb : b < KH * KW) by nia.
    pose proof (Nat.div_mod_eq b KW) as Eb.
    pose proof (Nat.mod_upper_bound b KW HKW) as Hx'.
    set (y' := b / KW) in *. set (x' := b mod KW) in *.
    assert (Hy' : y' < KH) by nia.
    specialize (Hspec2 (KH - 1 - y') (KW - 1 - x') j ltac:(lia) ltac:(lia) Hj).
    specialize (Hspec1 y' x' j Hy' Hx' Hj).
    replace (KH - 1 - (KH - 1 - y')) with y' in Hspec2 by lia.
    replace (KW - 1 - (KW - 1 - x')) with x' in Hspec2 by lia.
    replace p with ((y' * KW + x') * n + j) by lia.
    now rewrite Hspec2, Hspec1.
  - rewrite (lookup_ge_None_2 data) by lia. apply lookup_ge_None_2. lia.
Qed.

(** ** The rotation as written in [CreateTransposeConv] *)

Lemma rotate_weights_eq ws (data : list Z) :
  weights_wf ws data ->
  rotate_weights ws data
  = write_all data (Z.to_nat (dim2 ws) * Z.to_nat (dim3 ws))
      (rot_writes (Z.to_nat (dim0 ws)) (Z.to_nat (dim1 ws))
                  (Z.to_nat (dim2 ws) * Z.to_nat (dim3 ws)))
      (replicate (length data) 0%Z).
Proof.
  intros (H0 & H1 & H2 & H3 & Hprod & Hlen). unfold is_u32 in *.
  unfold rotate_weights, write_all, rot_writes.
  rewrite iterate_nested, iterate_map. apply iterate_ext.
  intros [y x] s Hin. cbn [fst snd].
  apply list_elem_of_In, in_prod_iff in Hin as [Hy Hx]. apply in_seq in Hy, Hx.
  unfold rotate_block.
  assert (E23 : (dim2 ws * dim3 ws < 2 ^ 32)%Z) by nia.
  assert (En : Z.to_nat (mul32 (dim2 ws) (dim3 ws))
               = Z.to_nat (dim2 ws) * Z.to_nat (dim3 ws)).
  { unfold mul32, u32. rewrite Z.mod_small by nia. apply Z2Nat.inj_mul; lia. }
  assert (Ey : Z.to_nat (sub32 (sub32 (dim0 ws) 1) (Z.of_nat y))
               = Z.to_nat (dim0 ws) - 1 - y).
  { unfold sub32, u32. rewrite (Z.mod_small (dim0 ws - 1)) by lia.
    rewrite Z.mod_small by lia. lia. }
  assert (Ex : Z.to_nat (sub32 (sub32 (dim1 ws) 1) (Z.of_nat x))
               = Z.to_nat (dim1 ws) - 1 - x).
  { unfold sub32, u32. rewrite (Z.mod_small (dim1 ws - 1)) by lia.
    rewrite Z.mod_small by lia. lia. }
  rewrite En, Ey, Ex. unfold element_offset. f_equal; lia.
Qed.

Lemma weights_wf_length ws (data : list Z) :
  weights_wf ws data ->
  length data
  = Z.to_nat (dim0 ws) * Z.to_nat (dim1 ws) * (Z.to_nat (dim2 ws) * Z.to_nat (dim3 ws)).
Proof.
  intros (H0 & H1 & H2 & H3 & Hprod & Hlen). unfold is_u32 in *.
  rewrite <- !Z2Nat.inj_mul by nia. lia.
Qed.

Lemma rotate_weights_Some ws (data : list Z) :
  weights_wf ws data ->
  exists flipped, rotate_weights ws data = Some flipped /\ length flipped = length data.
Proof.
  intros Hwf. rewrite rotate_weights_eq by exact Hwf.
  destruct (rotation_spec _ _ _ data (weights_wf_length ws data Hwf)) as (f & Hf & Hl & _).
  eauto.
Qed.

End Rotation.

(** ** CreateTransposeConv, evaluated *)

Lemma CreateTransposeConv_small stride wi wd bi bd pad ii oi id g flipped :
  m_X stride = m_Y stride ->
  dim0 (m_Dimensions wi) <= 7 -> dim1 (m_Dimensions wi) <= 7 ->
  rotate_weights (m_Dimensions wi) wd = Some flipped ->
  CreateTransposeConv stride wi wd bi bd pad ii oi id g
  = Ok [length (g_nodes g)]
       (MkGraph
          (g_nodes g ++
           [MkNode (MceOperationNode
                      (MkMce (m_Dimensions ii) wi flipped bi bd (MkStride 1 1) (m_X stride)
                             (sub32 (sub32 (dim0 (m_Dimensions wi)) 1) (m_Top pad))
                             (sub32 (sub32 (dim1 (m_Dimensions wi)) 1) (m_Left pad))
                             CONVOLUTION))
                   (m_Dimensions oi) (m_QuantizationInfo oi) NHWCB {[ id ]}])
          (g_edges g)).
Proof.
  intros Hs H0 H1 Hrot. unfold CreateTransposeConv.
  apply Z.eqb_eq in Hs. rewrite Hs. cbn [assert]. unfold bind at 1. cbn [ret].
  apply Z.ltb_ge in H0, H1. rewrite H0, H1. cbn [orb].
  unfold bind at 1. cbn [ret]. rewrite Hrot. reflexivity.
Qed.

Lemma CreateTransposeConv_large stride wi wd bi bd pad ii oi id g flipped :
  m_X stride = m_Y stride ->
  7 < dim0 (m_Dimensions wi) \/ 7 < dim1 (m_Dimensions wi) ->
  rotate_weights (m_Dimensions wi) wd = Some flipped ->
  let upscaled :=
    Shape (dim0 (m_Dimensions ii)) (mul32 (dim1 (m_Dimensions ii)) (m_X stride))
          (mul32 (dim2 (m_Dimensions ii)) (m_X stride)) (dim3 (m_Dimensions ii)) in
  let numIfm := dim3 (m_Dimensions ii) in
  CreateTransposeConv stride wi wd bi bd pad ii oi id g
  = Ok [length (g_nodes g); S (length (g_nodes g))]
       (MkGraph
          (g_nodes g ++
           [MkNode (MceOperationNode
                      (MkMce (m_Dimensions ii)
                             (TInfo (Shape 1 1 numIfm 1) UINT8_QUANTIZED DF_HWIM
                                    (QInfo 0 f32_half))
                             (replicate (Z.to_nat numIfm) 2)
                             (TInfo (Shape 1 1 1 numIfm) INT32_QUANTIZED DF_NHWC
                                    (QInfo 0 (f32_mul f32_half
                                                (m_Scale (m_QuantizationInfo ii)))))
                             (replicate (Z.to_nat numIfm) 0)
                             (MkStride 1 1) (m_X stride) 0 0 DEPTHWISE_CONVOLUTION))
                   upscaled (m_QuantizationInfo ii) NHWCB {[ id ]};
            MkNode (MceOperationNode
                      (MkMce upscaled wi flipped bi bd (MkStride 1 1) 1
                             (sub32 (sub32 (dim0 (m_Dimensions wi)) 1) (m_Top pad))
                             (sub32 (sub32 (dim1 (m_Dimensions wi)) 1) (m_Left pad))
                             CONVOLUTION))
                   (m_Dimensions oi) (m_QuantizationInfo oi) NHWCB {[ id ]}])
          (g_edges g)).
Proof.
  intros Hs Hk Hrot. unfold CreateTransposeConv.
  apply Z.eqb_eq in Hs. rewrite Hs. cbn [assert]. unfold bind at 1. cbn [ret].
  assert (Hb : (7 <? dim0 (m_Dimensions wi)) || (7 <? dim1 (m_Dimensions wi)) = true).
  { apply orb_true_iff. destruct Hk; [left|right]; now apply Z.ltb_lt. }
  rewrite Hb. unfold bind at 1. unfold bind at 1.
  cbn [CreateAndAddNode graph_add_node ret]. rewrite Hrot.
  unfold bind, defined, ret, CreateAndAddNode, graph_add_node.
  cbn [g_nodes g_edges]. rewrite length_app, Nat.add_1_r, <- app_assoc. reflexivity.
Qed.

(* ================================================================== *)
(** * The transpose-convolution builder *)

(** The last node of the builder's chain, for any kernel size. *)
Lemma CreateTransposeConv_final stride wi wd bi bd pad ii oi id g :
  m_X stride = m_Y stride ->
  weights_wf (m_Dimensions wi) wd ->
  exists nodes g' conv inShape flipped up,
    CreateTransposeConv stride wi wd bi bd pad ii oi id g = Ok nodes g' /\
    head nodes = Some (length (g_nodes g)) /\
    last nodes = Some conv /\
    g_edges g' = g_edges g /\
    (forall r, (r < length (g_nodes g))%nat -> g_nodes g' !! r = g_nodes g !! r) /\
    (dim0 (m_Dimensions wi) <= 7 -> dim1 (m_Dimensions wi) <= 7 -> up = m_X stride) /\
    g_nodes g' !! conv
    = Some (MkNode (MceOperationNode
                      (MkMce inShape wi flipped bi bd (MkStride 1 1) up
                             (sub32 (sub32 (dim0 (m_Dimensions wi)) 1) (m_Top pad))
                             (sub32 (sub32 (dim1 (m_Dimensions wi)) 1) (m_Left pad))
                             CONVOLUTION))
                   (m_Dimensions oi) (m_QuantizationInfo oi) NHWCB {[ id ]}).
Proof.
  intros Hs Hwf.
  destruct (rotate_weights_Some _ _ Hwf) as (flipped & Hrot & _).
  destruct (Z.le_gt_cases (dim0 (m_Dimensions wi)) 7) as [H0|H0];
    [destruct (Z.le_gt_cases (dim1 (m_Dimensions wi)) 7) as [H1|H1]|].
  - eexists _, _, _, _, _, _. split.
    { apply (CreateTransposeConv_small _ _ _ _ _ _ _ _ _ _ _ Hs H0 H1 Hrot). }
    cbn [head last g_nodes g_edges].
    refine (conj eq_refl (conj eq_refl (conj eq_refl (conj _ (conj _ _))))).
    + intros r Hr. now apply lookup_app_l.
    + reflexivity.
    + now rewrite list_lookup_middle.
  - eexists _, _, _, _, _, _. split.
    { apply (CreateTransposeConv_large _ _ _ _ _ _ _ _ _ _ _ Hs (or_intror H1) Hrot). }
    cbn [head last g_nodes g_edges].
    refine (conj eq_refl (conj eq_refl (conj eq_refl (conj _ (conj _ _))))).
    + intros r Hr. now apply lookup_app_l.
    + lia.
    + rewrite lookup_app_r by lia. now replace (S _ - _)%nat with 1%nat by lia.
  - eexists _, _, _, _, _, _. split.
    { apply (CreateTransposeConv_large _ _ _ _ _ _ _ _ _ _ _ Hs (or_introl H0) Hrot). }
    cbn [head last g_nodes g_edges].
    refine (conj eq_refl (conj eq_refl (conj eq_refl (conj _ (conj _ _))))).
    + intros r Hr. now apply lookup_app_l.
    + lia.
    + rewrite lookup_app_r by lia. now replace (S _ - _)%nat with 1%nat by lia.
Qed.

(** C2: the chain of the builder has two nodes exactly when the kernel is
    higher or wider than 7. Then the first node is a depthwise convolution
    with a 1x1 kernel whose weights are all 2 at scale 0.5, an all-zero bias
    at scale 0.5 * input scale, the stride as upscale factor, no top or left
    padding and the output shape (N, H * upscale, W * upscale, C); the
    convolution after it has upscale 1 and the upscaled shape as its input
    shape. Otherwise the chain is the convolution alone, with the stride as
    its upscale factor. *)
Theorem large_kernel_split stride wi wd bi bd pad ii oi id g :
  m_X stride = m_Y stride ->
  weights_wf (m_Dimensions wi) wd ->
  is_u32 (dim1 (m_Dimensions ii) * m_X stride) ->
  is_u32 (dim2 (m_Dimensions ii) * m_X stride) ->
  let KH := dim0 (m_Dimensions wi) in
  let KW := dim1 (m_Dimensions wi) in
  let N := dim0 (m_Dimensions ii) in
  let H := dim1 (m_Dimensions ii) in
  let W := dim2 (m_Dimensions ii) in
  let C := dim3 (m_Dimensions ii) in
  let upscale := m_X stride in
  exists nodes g',
    CreateTransposeConv stride wi wd bi bd pad ii oi id g = Ok nodes g' /\
    (length nodes = 2%nat <-> (KH > 7 \/ KW > 7)) /\
    (KH > 7 \/ KW > 7 ->
     exists n1 n2 nd1 nd2 d1 d2,
       nodes = [n1; n2] /\
       g_nodes g' !! n1 = Some nd1 /\ g_nodes g' !! n2 = Some nd2 /\
       n_kind nd1 = MceOperationNode d1 /\
       mce_operation d1 = DEPTHWISE_CONVOLUTION /\
       m_Dimensions (mce_weightsInfo d1) = Shape 1 1 C 1 /\
       mce_weightsData d1 = replicate (Z.to_nat C) 2 /\
       m_Scale (m_QuantizationInfo (mce_weightsInfo d1)) = f32_half /\
       mce_biasData d1 = replicate (Z.to_nat C) 0 /\
       m_Scale (m_QuantizationInfo (mce_biasInfo d1))
       = f32_mul f32_half (m_Scale (m_QuantizationInfo ii)) /\
       mce_upscaleFactor d1 = upscale /\
       mce_padTop d1 = 0 /\ mce_padLeft d1 = 0 /\
       n_shape nd1 = Shape N (H * upscale) (W * upscale) C /\
       n_kind nd2 = MceOperationNode d2 /\
       mce_operation d2 = CONVOLUTION /\
       mce_upscaleFactor d2 = 1 /\
       mce_inputShape d2 = Shape N (H * upscale) (W * upscale) C) /\
    (KH <= 7 /\ KW <= 7 ->
     exists n1 nd1 d1,
       nodes = [n1] /\
       g_nodes g' !! n1 = Some nd1 /\
       n_kind nd1 = MceOperationNode d1 /\
       mce_operation d1 = CONVOLUTION /\
       mce_upscaleFactor d1 = upscale).
Proof.
  intros Hs Hwf HH HW KH KW N H W C upscale.
  destruct (rotate_weights_Some _ _ Hwf) as (flipped & Hrot & _).
  assert (EH : mul32 H upscale = H * upscale)
    by (unfold mul32, u32; apply Z.mod_small, HH).
  assert (EW : mul32 W upscale = W * upscale)
    by (unfold mul32, u32; apply Z.mod_small, HW).
  destruct (Z.le_gt_cases KH 7) as [H0|H0];
    [destruct (Z.le_gt_cases KW 7) as [H1|H1]|].
  - eexists _, _. split; [|split; [|split]].
    + apply (CreateTransposeConv_small _ _ _ _ _ _ _ _ _ _ _ Hs H0 H1 Hrot).
    + cbn [length]. subst KH KW. split; [discriminate | lia].
    + subst KH KW. lia.
    + intros _. eexists _, _, _. split; [reflexivity|]. cbn [g_nodes].
      split; [now rewrite list_lookup_middle|]. cbn. auto.
  - eexists _, _. split; [|split; [|split]].
    + apply (CreateTransposeConv_large _ _ _ _ _ _ _ _ _ _ _ Hs (or_intror H1) Hrot).
    + cbn [length]. subst KH KW. split; [lia | reflexivity].
    + intros _. eexists _, _, _, _, _, _. split; [reflexivity|]. cbn [g_nodes].
      split; [now rewrite list_lookup_middle|].
      split; [rewrite lookup_app_r by lia;
              now replace (S _ - _)%nat with 1%nat by lia|].
      cbn. fold H W upscale. rewrite EH, EW. repeat split; reflexivity.
    + subst KH KW. lia.
  - eexists _, _. split; [|split; [|split]].
    + apply (CreateTransposeConv_large _ _ _ _ _ _ _ _ _ _ _ Hs (or_introl H0) Hrot).
    + cbn [length]. subst KH KW. split; [lia | reflexivity].
    + intros _. eexists _, _, _, _, _, _. split; [reflexivity|]. cbn [g_nodes].
      split; [now rewrite list_lookup_middle|].
      split; [rewrite lookup_app_r by lia;
              now replace (S _ - _)%nat with 1%nat by lia|].
      cbn. fold H W upscale. rewrite EH, EW. repeat split; reflexivity.
    + subst KH KW. lia.
Qed.

(** C8: the rotation of the weights succeeds on every well-formed weights
    tensor; it puts original[y, x, i, o] at flipped[KH-1-y, KW-1-x, i, o],
    moving the [in_channels * out_channels] trailing bytes of each (y, x)
    as one contiguous block, and rotating the result again gives the
    original bytes back. *)
Theorem rotate_weights_involution ws (data : list Z) :
  weights_wf ws data ->
  let KH := Z.to_nat (dim0 ws) in
  let KW := Z.to_nat (dim1 ws) in
  let IC := Z.to_nat (dim2 ws) in
  let OC := Z.to_nat (dim3 ws) in
  exists flipped,
    rotate_weights ws data = Some flipped /\
    length flipped = length data /\
    (forall y x i o, (y < KH)%nat -> (x < KW)%nat -> (i < IC)%nat -> (o < OC)%nat ->
       flipped !! element_offset ws (KH - 1 - y) (KW - 1 - x) i o
       = data !! element_offset ws y x i o) /\
    (forall y x, (y < KH)%nat -> (x < KW)%nat ->
       take (IC * OC) (drop (element_offset ws (KH - 1 - y) (KW - 1 - x) 0 0) flipped)
       = take (IC * OC) (drop (element_offset ws y x 0 0) data)) /\
    rotate_weights ws flipped = Some data.
Proof.
  intros Hwf KH KW IC OC.
  pose proof (weights_wf_length ws data Hwf) as Hlen. fold KH KW IC OC in Hlen.
  pose proof (rotate_weights_eq ws data Hwf) as Heq. fold KH KW IC OC in Heq.
  destruct (rotation_spec KH KW (IC * OC) data Hlen) as (flipped & Hrun & Hl & Hspec).
  exists flipped. split; [congruence|]. split; [exact Hl|]. split; [|split].
  - intros y x i o Hy Hx Hi Ho. unfold element_offset. fold KW IC OC.
    assert (Hj : (i * OC + o < IC * OC)%nat) by nia.
    specialize (Hspec y x (i * OC + o)%nat Hy Hx Hj).
    replace ((((KH - 1 - y) * KW + (KW - 1 - x)) * IC + i) * OC + o)%nat
      with (((KH - 1 - y) * KW + (KW - 1 - x)) * (IC * OC) + (i * OC + o))%nat by lia.
    replace (((y * KW + x) * IC + i) * OC + o)%nat
      with ((y * KW + x) * (IC * OC) + (i * OC + o))%nat by lia.
    exact Hspec.
  - intros y x Hy Hx. apply list_eq. intros j. rewrite !lookup_take, !lookup_drop.
    destruct (decide (j < IC * OC)%nat) as [Hj|Hj]; [|reflexivity].
    unfold element_offset. fold KW IC OC.
    replace ((((KH - 1 - y) * KW + (KW - 1 - x)) * IC + 0) * OC + 0 + j)%nat
      with (((KH - 1 - y) * KW + (KW - 1 - x)) * (IC * OC) + j)%nat by lia.
    replace (((y * KW + x) * IC + 0) * OC + 0 + j)%nat
      with ((y * KW + x) * (IC * OC) + j)%nat by lia.
    now apply Hspec.
  - assert (Hwf' : weights_wf ws flipped).
    { destruct Hwf as (H0 & H1 & H2 & H3 & Hp & Hd). repeat split; try tauto; try lia.
      all: try apply H0; try apply H1; try apply H2; try apply H3. }
    rewrite (rotate_weights_eq ws flipped Hwf'). fold KH KW IC OC.
    apply rotation_twice; [exact Hlen|exact Hrun].
Qed.

Lemma large_kernel_split_witness :
  exists nodes g',
    CreateTransposeConv (MkStride 2 2) (c_info weights_8x8) (c_data weights_8x8)
      bias_1 [0] (Padding2 0 0) (tinfo (Shape 1 4 4 1)) (tinfo (Shape 1 15 15 1)) 5
      empty_graph = Ok nodes g' /\
    length nodes = 2%nat.
Proof.
  assert (Hwf : weights_wf (m_Dimensions (c_info weights_8x8)) (c_data weights_8x8)).
  { unfold weights_wf, is_u32. cbn. repeat split; lia. }
  assert (H1 : is_u32 (dim1 (m_Dimensions (tinfo (Shape 1 4 4 1))) * m_X (MkStride 2 2))).
  { unfold is_u32. cbn. lia. }
  assert (H2 : is_u32 (dim2 (m_Dimensions (tinfo (Shape 1 4 4 1))) * m_X (MkStride 2 2))).
  { unfold is_u32. cbn. lia. }
  destruct (large_kernel_split (MkStride 2 2) (c_info weights_8x8) (c_data weights_8x8)
              bias_1 [0] (Padding2 0 0) (tinfo (Shape 1 4 4 1)) (tinfo (Shape 1 15 15 1))
              5 empty_graph eq_refl Hwf H1 H2)
    as (nodes & g' & Hrun & Hlen & _).
  exists nodes, g'. split; [exact Hrun|]. apply Hlen. left. cbn. lia.
Defined.

Lemma rotate_weights_involution_witness :
  weights_wf (Shape 2 2 1 1) [1; 2; 3; 4] /\
  exists flipped,
    rotate_weights (Shape 2 2 1 1) [1; 2; 3; 4] = Some flipped /\
    rotate_weights (Shape 2 2 1 1) flipped = Some [1; 2; 3; 4].
Proof.
  assert (Hwf : weights_wf (Shape 2 2 1 1) [1; 2; 3; 4]).
  { unfold weights_wf, is_u32. cbn. repeat split; lia. }
  split; [exact Hwf|].
  destruct (rotate_weights_involution (Shape 2 2 1 1) [1; 2; 3; 4] Hwf)
    as (flipped & H1 & _ & _ & _ & H5).
  exists flipped. split; [exact H1 | exact H5].
Defined.

(** The rotation of a 2x2 kernel reverses the four blocks. *)
Example rotate_weights_2x2 :
  rotate_weights (Shape 2 2 1 1) [1; 2; 3; 4] = Some [4; 3; 2; 1].
Proof. reflexivity. Qed.

(** With two input channels and one output channel the blocks of two bytes
    move as they are. *)
Example rotate_weights_2x1x2 :
  rotate_weights (Shape 2 1 2 1) [1; 2; 3; 4] = Some [3; 4; 1; 2].
Proof. reflexivity. Qed.

(** ** From the builder to the rule *)

Lemma iterate_invariant {St A} (P : St -> Prop) (l : list A)
    (body : A -> St -> option St) :
  (forall a s, a ∈ l -> P s -> exists s', body a s = Some s' /\ P s') ->
  forall s, P s -> exists s', iterate l body s = Some s' /\ P s'.
Proof.
  induction l as [|a l IH]; intros Hbody s Hs; cbn [iterate]; [eauto|].
  destruct (Hbody a s) as (s1 & -> & Hs1); [constructor|exact Hs|].
  apply IH; [|exact Hs1]. intros b s' Hb. apply Hbody. now constructor.
Qed.

(** What both rules do with the chain of the builder: it is connected to
    the producer of the input, and its last node becomes the producer of
    the output. *)
Lemma builder_then_connect stride wi wd bi bd pad ii oi id op c input p :
  m_X stride = m_Y stride ->
  weights_wf (m_Dimensions wi) wd ->
  op_inputs op = [input] ->
  op_outputs op = [oi] ->
  m_OperandToNode c !! operand_key input = Some p ->
  exists c' conv inShape flipped up,
    (let* ns := on_graph (CreateTransposeConv stride wi wd bi bd pad ii oi id) in
     ConnectNodeChain op ns) c = Ok tt c' /\
    m_OperandToNode c' !! output_key op 0 = Some conv /\
    (dim0 (m_Dimensions wi) <= 7 -> dim1 (m_Dimensions wi) <= 7 -> up = m_X stride) /\
    g_nodes (m_Graph c') !! conv
    = Some (MkNode (MceOperationNode
                      (MkMce inShape wi flipped bi bd (MkStride 1 1) up
                             (sub32 (sub32 (dim0 (m_Dimensions wi)) 1) (m_Top pad))
                             (sub32 (sub32 (dim1 (m_Dimensions wi)) 1) (m_Left pad))
                             CONVOLUTION))
                   (m_Dimensions oi) (m_QuantizationInfo oi) NHWCB {[ id ]}).
Proof.
  intros Hs Hwf Hin Hout Hp.
  destruct (CreateTransposeConv_final stride wi wd bi bd pad ii oi id (m_Graph c) Hs Hwf)
    as (nodes & g' & conv & inShape & flipped & up & Hrun & Hfront & Hback & _ & _ & Hup & Hnode).
  exists (chain_connected op nodes (length (g_nodes (m_Graph c))) conv [p] (set_graph g' c)),
    conv, inShape, flipped, up.
  split; [|split; [|split]].
  - unfold bind. rewrite (on_graph_Ok _ _ _ _ Hrun).
    apply ConnectNodeChain_eq; [rewrite Hout; cbn; lia|exact Hfront|exact Hback|].
    rewrite Hin. cbn. now rewrite Hp.
  - unfold chain_connected. rewrite Hout. cbn. apply lookup_insert_eq.
  - exact Hup.
  - exact Hnode.
Qed.

(** The selector weights of depth-to-space fill their buffer. *)
Lemma d2s_weights_wf inShape outShape :
  0 <= dim3 outShape ->
  dim3 inShape = 4 * dim3 outShape ->
  4 * dim3 inShape * dim3 outShape < 2 ^ 32 ->
  exists data,
    d2s_weights 2 inShape outShape f32_half
    = (TInfo (Shape 2 2 (dim3 inShape) (dim3 outShape)) UINT8_QUANTIZED DF_HWIO
             (QInfo 0 f32_half), Some data) /\
    weights_wf (Shape 2 2 (dim3 inShape) (dim3 outShape)) data.
Proof.
  intros Hout Hin Hsz. unfold d2s_weights. cbn [m_Dimensions].
  set (dims := Shape 2 2 (dim3 inShape) (dim3 outShape)).
  assert (Enum : GetNumElements dims = 4 * dim3 inShape * dim3 outShape).
  { unfold GetNumElements, mul32, u32, dims. cbn [dim0 dim1 dim2 dim3].
    rewrite (Z.mod_small (2 * 2)) by lia.
    rewrite (Z.mod_small (2 * 2 * dim3 inShape)) by nia.
    rewrite Z.mod_small by nia. lia. }
  set (P := fun d : list Z => length d = Z.to_nat (4 * dim3 inShape * dim3 outShape)).
  match goal with
  | |- exists data, (_, iterate ?l ?body ?init) = _ /\ _ =>
      destruct (iterate_invariant P l body) with (s := init) as (data & Hrun & Hlen)
  end.
  - intros ofmIdx s Hofm Hs. apply list_elem_of_In, in_seq in Hofm.
    apply (iterate_invariant P); [|exact Hs]. clear s Hs.
    intros v s Hv Hs. apply list_elem_of_In, in_seq in Hv.
    apply (iterate_invariant P); [|exact Hs]. clear s Hs.
    intros u s Hu Hs. apply list_elem_of_In, in_seq in Hu.
    change (Z.to_nat 2) with 2%nat in Hv, Hu.
    unfold SetElement.
    assert (E4 : mul32 2 2 = 4) by reflexivity. rewrite E4.
    assert (Ediv : dim3 inShape / 4 = dim3 outShape).
    { rewrite Hin, Z.mul_comm. apply Z.div_mul. lia. }
    rewrite Ediv.
    set (w := Z.of_nat v * 2 + Z.of_nat u).
    assert (Hw : 0 <= w <= 3) by (subst w; lia).
    assert (Ew : add32 (mul32 (Z.of_nat v) 2) (Z.of_nat u) = w).
    { unfold add32, mul32, u32. rewrite (Z.mod_small (Z.of_nat v * 2)) by lia.
      rewrite Z.mod_small by lia. reflexivity. }
    rewrite Ew.
    assert (Eidx : add32 (Z.of_nat ofmIdx) (mul32 w (dim3 outShape))
                   = Z.of_nat ofmIdx + w * dim3 outShape).
    { unfold add32, mul32, u32. rewrite (Z.mod_small (w * dim3 outShape)) by nia.
      rewrite Z.mod_small by nia. reflexivity. }
    rewrite Eidx.
    assert (Hoff : (element_offset dims v u
                      (Z.to_nat (Z.of_nat ofmIdx + w * dim3 outShape)) ofmIdx
                    < length s)%nat).
    { rewrite Hs. unfold element_offset, dims. cbn [dim1 dim2 dim3].
      apply Nat2Z.inj_lt. rewrite Z2Nat.id by nia.
      rewrite Nat2Z.inj_add, !Nat2Z.inj_mul, Nat2Z.inj_add, Nat2Z.inj_mul, Nat2Z.inj_add,
        Nat2Z.inj_mul, !Z2Nat.id by nia.
      change (Z.of_nat (Z.to_nat 2)) with 2. fold w. nia. }
    apply Nat.ltb_lt in Hoff. rewrite Hoff. eexists. split; [reflexivity|].
    unfold P. now rewrite length_insert.
  - unfold P. now rewrite length_replicate, Enum.
  - exists data. rewrite Hrun. split; [reflexivity|].
    unfold weights_wf, is_u32, dims. cbn [dim0 dim1 dim2 dim3].
    unfold P in Hlen. rewrite Hlen, Z2Nat.id by nia.
    repeat split; nia.
Qed.

Lemma internal_padding ws pad :
  weights_wf ws [] \/ (is_u32 (dim0 ws) /\ is_u32 (dim1 ws)) ->
  padding_supported ws pad ->
  sub32 (sub32 (dim0 ws) 1) (m_Top pad) = dim0 ws - 1 - m_Top pad /\
  sub32 (sub32 (dim1 ws) 1) (m_Left pad) = dim1 ws - 1 - m_Left pad.
Proof.
  intros Hu [Ht Hl].
  assert (H : is_u32 (dim0 ws) /\ is_u32 (dim1 ws)).
  { destruct Hu as [(H0 & H1 & _)|H]; tauto. }
  destruct H as [H0 H1]. unfold is_u32 in *. unfold sub32, u32.
  rewrite (Z.mod_small (dim0 ws - 1)), (Z.mod_small (dim1 ws - 1)) by lia.
  rewrite !Z.mod_small by lia. auto.
Qed.

Lemma transpose_conv_node_intro inShape wi flipped bi bd up pad oi id stride :
  is_u32 (dim0 (m_Dimensions wi)) -> is_u32 (dim1 (m_Dimensions wi)) ->
  padding_supported (m_Dimensions wi) pad ->
  (dim0 (m_Dimensions wi) <= 7 -> dim1 (m_Dimensions wi) <= 7 -> up = m_X stride) ->
  is_transpose_conv_node
    (MkNode (MceOperationNode
               (MkMce inShape wi flipped bi bd (MkStride 1 1) up
                      (sub32 (sub32 (dim0 (m_Dimensions wi)) 1) (m_Top pad))
                      (sub32 (sub32 (dim1 (m_Dimensions wi)) 1) (m_Left pad))
                      CONVOLUTION))
            (m_Dimensions oi) (m_QuantizationInfo oi) NHWCB {[ id ]})
    (dim0 (m_Dimensions wi)) (dim1 (m_Dimensions wi)) (m_Top pad) (m_Left pad)
    (promised_upscale (m_Dimensions wi) stride) oi.
Proof.
  intros H0 H1 Hpad Hup.
  destruct (internal_padding (m_Dimensions wi) pad (or_intror (conj H0 H1)) Hpad) as [Et El].
  eexists. cbn [n_kind n_shape n_quant mce_operation mce_stride mce_upscaleFactor
                mce_padTop mce_padLeft].
  refine (conj eq_refl (conj eq_refl (conj eq_refl (conj _ (conj Et (conj El
            (conj eq_refl eq_refl))))))).
  intros s Hs. unfold promised_upscale in Hs.
  destruct (dim0 (m_Dimensions wi) <=? 7) eqn:E0; [|discriminate].
  destruct (dim1 (m_Dimensions wi) <=? 7) eqn:E1; [|discriminate].
  injection Hs as <-. apply Hup; now apply Z.leb_le.
Qed.

(** C1: for a transpose convolution with a square stride, well-formed
    weights and a padding the support query admits, the last node of the
    builder's chain is an MceOperation(CONVOLUTION) with stride (1,1), with
    the stride as upscale factor when the kernel is at most 7x7, with top
    padding KH - 1 - pad.top and left padding KW - 1 - pad.left, and with
    the declared output shape and quantization. The rule for
    TransposeConvolution binds that node to the output of the operation,
    and so does the rule for DepthToSpace, whose kernel is 2x2 with stride 2
    and padding 0: upscale factor 2 and top and left padding 1. *)
Theorem transpose_conv_final_node :
  (forall stride wi wd bi bd pad ii oi id g,
     m_X stride = m_Y stride ->
     weights_wf (m_Dimensions wi) wd ->
     padding_supported (m_Dimensions wi) pad ->
     exists nodes g' conv nd,
       CreateTransposeConv stride wi wd bi bd pad ii oi id g = Ok nodes g' /\
       last nodes = Some conv /\
       g_nodes g' !! conv = Some nd /\
       is_transpose_conv_node nd (dim0 (m_Dimensions wi)) (dim1 (m_Dimensions wi))
         (m_Top pad) (m_Left pad) (promised_upscale (m_Dimensions wi) stride) oi) /\
  (forall IsSupported tc c input oi p,
     IsSupported (tc_biasInfo tc) (c_info (tc_weights tc)) (tc_info tc) (opd_info input)
     = Supported ->
     op_inputs (tc_op tc) = [input] ->
     op_outputs (tc_op tc) = [oi] ->
     m_OperandToNode c !! operand_key input = Some p ->
     m_X (ci_Stride (tc_info tc)) = m_Y (ci_Stride (tc_info tc)) ->
     weights_wf (m_Dimensions (c_info (tc_weights tc))) (c_data (tc_weights tc)) ->
     padding_supported (m_Dimensions (c_info (tc_weights tc))) (ci_Padding (tc_info tc)) ->
     exists c' nd,
       Visit_TransposeConvolution IsSupported tc c = Ok tt c' /\
       node_of_operand c' (output_key (tc_op tc) 0) = Some nd /\
       is_transpose_conv_node nd
         (dim0 (m_Dimensions (c_info (tc_weights tc))))
         (dim1 (m_Dimensions (c_info (tc_weights tc))))
         (m_Top (ci_Padding (tc_info tc))) (m_Left (ci_Padding (tc_info tc)))
         (promised_upscale (m_Dimensions (c_info (tc_weights tc)))
                           (ci_Stride (tc_info tc))) oi) /\
  (forall d c input oi p,
     d2s_BlockSize d = 2 ->
     op_inputs (d2s_op d) = [input] ->
     op_outputs (d2s_op d) = [oi] ->
     m_OperandToNode c !! operand_key input = Some p ->
     0 <= dim3 (m_Dimensions oi) ->
     dim3 (m_Dimensions (opd_info input)) = 4 * dim3 (m_Dimensions oi) ->
     4 * dim3 (m_Dimensions (opd_info input)) * dim3 (m_Dimensions oi) < 2 ^ 32 ->
     exists c' nd,
       Visit_DepthToSpace d c = Ok tt c' /\
       node_of_operand c' (output_key (d2s_op d) 0) = Some nd /\
       is_transpose_conv_node nd 2 2 0 0 (Some 2) oi).
Proof.
  split; [|split].
  - intros stride wi wd bi bd pad ii oi id g Hs Hwf Hpad.
    destruct (CreateTransposeConv_final stride wi wd bi bd pad ii oi id g Hs Hwf)
      as (nodes & g' & conv & inShape & flipped & up & Hrun & _ & Hback & _ & _ & Hup & Hnode).
    exists nodes, g', conv. eexists. split; [exact Hrun|]. split; [exact Hback|].
    split; [exact Hnode|].
    destruct Hwf as (H0 & H1 & _). now apply transpose_conv_node_intro.
  - intros IsSupported tc c input oi p Hsup Hin Hout Hp Hs Hwf Hpad.
    destruct (builder_then_connect (ci_Stride (tc_info tc)) (c_info (tc_weights tc))
                (c_data (tc_weights tc)) (tc_biasInfo tc) (tc_biasData tc)
                (ci_Padding (tc_info tc)) (opd_info input) oi (op_id (tc_op tc))
                (tc_op tc) c input p Hs Hwf Hin Hout Hp)
      as (c' & conv & inShape & flipped & up & Hrun & Hbound & Hup & Hnode).
    exists c'. eexists. split; [|split].
    + unfold Visit_TransposeConvolution, GetInputOperand, GetOutputInfo.
      rewrite Hin, Hout. cbn [lookup list_lookup defined].
      unfold bind at 1. cbn [ret]. unfold bind at 1. cbn [ret].
      rewrite Hsup. exact Hrun.
    + unfold node_of_operand. rewrite Hbound. cbn. exact Hnode.
    + destruct Hwf as (H0 & H1 & _). now apply transpose_conv_node_intro.
  - intros d c input oi p Hbs Hin Hout Hp Hoc Hic Hsz.
    destruct (d2s_weights_wf (m_Dimensions (opd_info input)) (m_Dimensions oi) Hoc Hic Hsz)
      as (data & Hw & Hwf).
    set (wi := TInfo (Shape 2 2 (dim3 (m_Dimensions (opd_info input)))
                            (dim3 (m_Dimensions oi)))
                     UINT8_QUANTIZED DF_HWIO (QInfo 0 f32_half)) in *.
    match type of Hwf with weights_wf ?s _ => change s with (m_Dimensions wi) in Hwf end.
    pose (bi := TInfo (Shape 1 1 1 (dim3 (m_Dimensions oi))) UINT8_QUANTIZED DF_NHWC
                  (QInfo 0 (f32_mul f32_half
                              (m_Scale (m_QuantizationInfo (opd_info input)))))).
    destruct (builder_then_connect (MkStride 2 2) wi data bi
                (replicate (Z.to_nat (GetNumElements (m_Dimensions bi))) 0)
                (Padding2 0 0) (opd_info input) oi (op_id (d2s_op d))
                (d2s_op d) c input p eq_refl Hwf Hin Hout Hp)
      as (c' & conv & inShape & flipped & up & Hrun & Hbound & Hup & Hnode).
    exists c'. eexists. split; [|split].
    + unfold Visit_DepthToSpace, GetInputOperand, GetOutputInfo.
      rewrite Hbs, Hin, Hout. cbn [lookup list_lookup defined Z.eqb Pos.eqb assert].
      unfold bind at 1. cbn [ret]. unfold bind at 1. cbn [ret]. unfold bind at 1. cbn [ret].
      rewrite Hw. unfold bind at 1. cbn [defined ret]. exact Hrun.
    + unfold node_of_operand. rewrite Hbound. cbn. exact Hnode.
    + assert (Hpad : padding_supported (m_Dimensions wi) (Padding2 0 0)).
      { unfold padding_supported. cbn. lia. }
      assert (Hn := transpose_conv_node_intro inShape wi flipped bi
                 (replicate (Z.to_nat (GetNumElements (m_Dimensions bi))) 0) up
                 (Padding2 0 0) oi (op_id (d2s_op d)) (MkStride 2 2)
                 ltac:(unfold is_u32; cbn; lia) ltac:(unfold is_u32; cbn; lia) Hpad Hup).
      exact Hn.
Qed.

Lemma transpose_conv_final_node_witness :
  (exists nodes g' conv nd,
     CreateTransposeConv (MkStride 2 2) (c_info weights_2x2) (c_data weights_2x2) bias_1 [0]
       (Padding2 0 0) (tinfo (Shape 1 4 4 1)) (tinfo (Shape 1 8 8 1)) 5 empty_graph
     = Ok nodes g' /\
     last nodes = Some conv /\ g_nodes g' !! conv = Some nd /\
     is_transpose_conv_node nd 2 2 0 0 (Some 2) (tinfo (Shape 1 8 8 1))) /\
  (exists c' nd,
     Visit_TransposeConvolution (fun _ _ _ _ => Supported) transpose_conv_2x2
       (after_input (Shape 1 4 4 1) NHWCB false) = Ok tt c' /\
     node_of_operand c' (output_key (tc_op transpose_conv_2x2) 0) = Some nd /\
     is_transpose_conv_node nd 2 2 0 0 (Some 2) (tinfo (Shape 1 8 8 1))) /\
  (exists c' nd,
     Visit_DepthToSpace depth_to_space_4 (after_input (Shape 1 4 4 4) NHWCB false)
     = Ok tt c' /\
     node_of_operand c' (output_key (d2s_op depth_to_space_4) 0) = Some nd /\
     is_transpose_conv_node nd 2 2 0 0 (Some 2) (tinfo (Shape 1 8 8 1))).
Proof.
  destruct transpose_conv_final_node as (T1 & T2 & T3).
  assert (Hwf : weights_wf (m_Dimensions (c_info weights_2x2)) (c_data weights_2x2)).
  { unfold weights_wf, is_u32. cbn. repeat split; lia. }
  assert (Hpad : padding_supported (m_Dimensions (c_info weights_2x2)) (Padding2 0 0)).
  { unfold padding_supported. cbn. lia. }
  split; [|split].
  - apply (T1 (MkStride 2 2) (c_info weights_2x2) (c_data weights_2x2) bias_1 [0]
              (Padding2 0 0) (tinfo (Shape 1 4 4 1)) (tinfo (Shape 1 8 8 1)) 5 empty_graph
              eq_refl Hwf Hpad).
  - apply (T2 (fun _ _ _ _ => Supported) transpose_conv_2x2
              (after_input (Shape 1 4 4 1) NHWCB false)
              (input_operand (Shape 1 4 4 1) [5]) (tinfo (Shape 1 8 8 1)) 0%nat
              eq_refl eq_refl eq_refl eq_refl eq_refl Hwf Hpad).
  - apply (T3 depth_to_space_4 (after_input (Shape 1 4 4 4) NHWCB false)
              (input_operand (Shape 1 4 4 4) [6]) (tinfo (Shape 1 8 8 1)) 0%nat
              eq_refl eq_refl eq_refl eq_refl); cbn; lia.
Defined.

(** Scenario S3 of the specification: a 3x3 kernel, stride 2, no padding:
    one convolution with upscale 2 and padding 2. *)
Example transpose_conv_3x3 :
  exists nd d,
    CreateTransposeConv (MkStride 2 2) (TInfo (Shape 3 3 1 1) UINT8_QUANTIZED DF_HWIO q_unit)
      [1; 2; 3; 4; 5; 6; 7; 8; 9] bias_1 [0] (Padding2 0 0)
      (tinfo (Shape 1 4 4 1)) (tinfo (Shape 1 8 8 1)) 5 empty_graph
    = Ok [0%nat] (MkGraph [nd] []) /\
    n_kind nd = MceOperationNode d /\
    mce_weightsData d = [9; 8; 7; 6; 5; 4; 3; 2; 1] /\
    mce_upscaleFactor d = 2 /\ mce_padTop d = 2 /\ mce_padLeft d = 2.
Proof. eexists _, _. cbn. repeat split; reflexivity. Qed.

(** Scenario S4 of the specification: depth-to-space of a (1,4,4,4) input.
    The identity weight is 1 / 0.5 = 2; the four one-hot selectors are
    rotated with the kernel. *)
Example d2s_identity_weight : f32_to_u8 (f32_div f32_one f32_half) = 2.
Proof. reflexivity. Qed.

Example d2s_selectors :
  snd (d2s_weights 2 (Shape 1 4 4 4) (Shape 1 8 8 1) f32_half)
  = Some [2; 0; 0; 0;  0; 2; 0; 0;  0; 0; 2; 0;  0; 0; 0; 2].
Proof. reflexivity. Qed.

Example depth_to_space_4_node :
  exists c' nd d,
    Visit_DepthToSpace depth_to_space_4 (after_input (Shape 1 4 4 4) NHWCB false)
    = Ok tt c' /\
    node_of_operand c' (output_key (d2s_op depth_to_space_4) 0) = Some nd /\
    n_kind nd = MceOperationNode d /\
    mce_weightsData d = [0; 0; 0; 2;  0; 0; 2; 0;  0; 2; 0; 0;  2; 0; 0; 0] /\
    m_Scale (m_QuantizationInfo (mce_weightsInfo d)) = f32_half /\
    m_Scale (m_QuantizationInfo (mce_biasInfo d)) = f32_mul f32_half f32_one /\
    mce_upscaleFactor d = 2 /\ mce_padTop d = 1 /\ mce_padLeft d = 1.
Proof.
  eexists _, _, _. split; [vm_compute; reflexivity|].
  split; [vm_compute; reflexivity|]. cbn. repeat split; vm_compute; reflexivity.
Qed.

(* ================================================================== *)
(** * FullyConnected *)

Lemma DivRoundUp_ceil n d :
  0 <= n -> 0 < d ->
  d * (DivRoundUp n d - 1) < n <= d * DivRoundUp n d.
Proof.
  intros Hn Hd. unfold DivRoundUp.
  pose proof (Z.div_mod (n + d - 1) d ltac:(lia)) as E.
  pose proof (Z.mod_pos_bound (n + d - 1) d Hd) as B.
  lia.
Qed.

(** C3: the linear-shape packer. For a brick group (1, BH, BW, BC) with at
    least one patch whose extents and patch count are representable, and N
    elements, the shape is (1, H, W, C) with num_patches = ceil(N / 16),
    H = 4 if num_patches <= BC and BH otherwise, W = 4 if
    num_patches <= BC * (BH / 4) and BW otherwise, and
    C = BC * floor(num_patches / patches_per_bg)
        + min(BC, num_patches mod patches_per_bg),
    where patches_per_bg = (BH / 4) * (BW / 4) * BC. *)
Theorem linear_shape_packer BH BW BC N :
  is_u32 BH -> is_u32 BW -> is_u32 BC -> is_u32 N ->
  let patches_per_bg := (BH / 4) * (BW / 4) * BC in
  0 < patches_per_bg < 2 ^ 32 ->
  exists num_patches,
    16 * (num_patches - 1) < N <= 16 * num_patches /\
    GetShapeContainingLinearElements (Shape 1 BH BW BC) N
    = Some (Shape 1
                  (if num_patches <=? BC then 4 else BH)
                  (if num_patches <=? BC * (BH / 4) then 4 else BW)
                  (BC * (num_patches / patches_per_bg)
                   + Z.min BC (num_patches mod patches_per_bg))).
Proof.
  intros HBH HBW HBC HN ppbg Hp. unfold is_u32 in *.
  exists (DivRoundUp N 16). split; [apply DivRoundUp_ceil; lia|].
  unfold GetShapeContainingLinearElements. cbn [dim1 dim2 dim3].
  change (mul32 4 4) with 16.
  set (np := DivRoundUp N 16).
  assert (Hnp : 0 <= np <= 2 ^ 28).
  { pose proof (DivRoundUp_ceil N 16 ltac:(lia) ltac:(lia)) as Hc. fold np in Hc. lia. }
  assert (Hh : 0 <= BH / 4) by (apply Z.div_pos; lia).
  assert (Hw : 0 <= BW / 4) by (apply Z.div_pos; lia).
  assert (Hh1 : 1 <= BH / 4) by (subst ppbg; nia).
  assert (Hw1 : 1 <= BW / 4) by (subst ppbg; nia).
  assert (Hc1 : 1 <= BC) by (subst ppbg; nia).
  assert (E1 : mul32 (BH / 4) (BW / 4) = BH / 4 * (BW / 4)).
  { unfold mul32, u32. apply Z.mod_small. subst ppbg. nia. }
  assert (E2 : mul32 (mul32 (BH / 4) (BW / 4)) BC = ppbg).
  { rewrite E1. unfold mul32, u32. apply Z.mod_small. subst ppbg. lia. }
  assert (E3 : mul32 BC (BH / 4) = BC * (BH / 4)).
  { unfold mul32, u32. apply Z.mod_small. subst ppbg. nia. }
  rewrite E2, E3.
  destruct (ppbg =? 0) eqn:Ez; [apply Z.eqb_eq in Ez; lia|].
  pose proof (Z.div_mod np ppbg ltac:(lia)) as Ediv.
  pose proof (Z.mod_pos_bound np ppbg ltac:(lia)) as Bmod.
  assert (Hq : 0 <= np / ppbg) by (apply Z.div_pos; lia).
  assert (Hhw : 1 <= BH / 4 * (BW / 4)) by nia.
  assert (Hle : BC <= ppbg) by (subst ppbg; nia).
  assert (E4 : mul32 BC (np / ppbg) = BC * (np / ppbg)).
  { unfold mul32, u32. apply Z.mod_small. nia. }
  assert (E5 : add32 (BC * (np / ppbg)) (Z.min BC (np mod ppbg))
               = BC * (np / ppbg) + Z.min BC (np mod ppbg)).
  { unfold add32, u32. apply Z.mod_small. nia. }
  now rewrite E4, E5.
Qed.

Lemma linear_shape_packer_witness :
  exists num_patches,
    16 * (num_patches - 1) < 1000 <= 16 * num_patches /\
    GetShapeContainingLinearElements (Shape 1 8 8 16) 1000
    = Some (Shape 1
                  (if num_patches <=? 16 then 4 else 8)
                  (if num_patches <=? 16 * (8 / 4) then 4 else 8)
                  (16 * (num_patches / (8 / 4 * (8 / 4) * 16))
                   + Z.min 16 (num_patches mod (8 / 4 * (8 / 4) * 16)))).
Proof.
  apply (linear_shape_packer 8 8 16 1000); unfold is_u32; try lia.
  change (0 < 64 < 2 ^ 32). lia.
Defined.

(** 1000 elements are 63 patches: less than a brick group of 64 patches,
    more than two bricks of 16, so a full 8x8 group with 16 channels. *)
Example packer_1000 :
  GetShapeContainingLinearElements (Shape 1 8 8 16) 1000 = Some (Shape 1 8 8 16).
Proof. reflexivity. Qed.

Example packer_100 :
  GetShapeContainingLinearElements (Shape 1 8 8 16) 100 = Some (Shape 1 4 4 7).
Proof. reflexivity. Qed.

Example packer_2048 :
  GetShapeContainingLinearElements (Shape 1 8 8 16) 2048 = Some (Shape 1 8 8 32).
Proof. reflexivity. Qed.

Lemma Visit_FullyConnected_node fc c input oi p pn shape :
  op_inputs (fc_op fc) = [input] ->
  op_outputs (fc_op fc) = [oi] ->
  m_OperandToNode c !! operand_key input = Some p ->
  g_nodes (m_Graph c) !! p = Some pn ->
  GetShapeContainingLinearElements (GetBrickGroupShape (m_Capabilities c))
    (dim3 (m_Dimensions (opd_info input))) = Some shape ->
  exists c',
    Visit_FullyConnected fc c = Ok tt c' /\
    node_of_operand c' (output_key (fc_op fc) 0)
    = Some (MkNode (MceOperationNode
                      (MkMce (m_Dimensions (opd_info input))
                             (fst (fc_padded_weights (fc_weights fc)))
                             (snd (fc_padded_weights (fc_weights fc)))
                             (fc_biasInfo fc) (fc_biasData fc) Stride_default 1 0 0
                             FULLY_CONNECTED))
                   (m_Dimensions oi) (m_QuantizationInfo oi) NHWCB
                   {[ op_id (fc_op fc) ]}).
Proof.
  intros Hin Hout Hp Hpn Hshape.
  unfold Visit_FullyConnected, GetInputOperand, GetOutputInfo.
  rewrite Hin, Hout. cbn [lookup list_lookup defined].
  unfold bind at 1. cbn [ret].
  unfold bind at 1. unfold operand_node at 1. rewrite Hp. cbn [defined ret].
  unfold bind at 1. unfold GetFormat at 1. rewrite Hpn. cbn [fmap option_fmap option_map defined ret].
  destruct (fc_padded_weights (fc_weights fc)) as [wi' wd'] eqn:Epw. cbn [fst snd].
  destruct (CompilerDataFormat_eqb (n_format pn) NHWC).
  - unfold bind at 1. cbn [ret].
    unfold bind at 1. cbn [get_capabilities].
    unfold bind at 1. rewrite Hshape. cbn [defined ret].
    unfold bind at 1. rewrite create_node_eq.
    unfold bind at 1. cbn [ret].
    unfold bind at 1. rewrite create_node_eq.
    eexists. split.
    + apply ConnectNodeChain_eq with (ps := [p]); [rewrite Hout; cbn; lia|reflexivity|reflexivity|].
      rewrite Hin. cbn. now rewrite Hp.
    + unfold node_of_operand, chain_connected. rewrite Hout.
      cbn [length Nat.ltb Nat.leb m_OperandToNode m_Graph g_nodes set_graph].
      rewrite lookup_insert_eq. cbn [mbind option_bind].
      rewrite length_app, Nat.add_1_r. now rewrite list_lookup_middle by (rewrite length_app; cbn; lia).
  - unfold bind at 1. unfold bind at 1. rewrite create_node_eq. cbn [ret].
    unfold bind at 1. cbn [get_capabilities m_Capabilities set_graph].
    unfold bind at 1. rewrite Hshape. cbn [defined ret].
    unfold bind at 1. rewrite create_node_eq.
    unfold bind at 1. cbn [ret].
    unfold bind at 1. rewrite create_node_eq.
    eexists. split.
    + apply ConnectNodeChain_eq with (ps := [p]); [rewrite Hout; cbn; lia|reflexivity|reflexivity|].
      rewrite Hin. cbn. now rewrite Hp.
    + unfold node_of_operand, chain_connected. rewrite Hout.
      cbn [length Nat.ltb Nat.leb m_OperandToNode m_Graph g_nodes set_graph].
      rewrite lookup_insert_eq. cbn [mbind option_bind].
      rewrite !length_app, !Nat.add_1_r.
      now rewrite list_lookup_middle by (rewrite !length_app; cbn; lia).
Qed.

Lemma RoundUpToNearestMultiple_spec n m :
  0 <= n -> 0 < m ->
  RoundUpToNearestMultiple n m mod m = 0 /\
  n <= RoundUpToNearestMultiple n m < n + m.
Proof.
  intros Hn Hm. unfold RoundUpToNearestMultiple.
  pose proof (DivRoundUp_ceil n m Hn Hm) as Hc.
  split; [apply Z.mod_mul; lia | lia].
Qed.

(** The padded weights, described. *)
Lemma fc_padded_weights_spec w :
  let d := m_Dimensions (c_info w) in
  let r := RoundUpToNearestMultiple (dim2 d) 1024 in
  let zp := m_ZeroPoint (m_QuantizationInfo (c_info w)) in
  fc_weights_wf w r ->
  fst (fc_padded_weights w)
  = TInfo (Shape (dim0 d) (dim1 d) r (dim3 d)) (m_DataType (c_info w))
          (m_DataFormat (c_info w)) (m_QuantizationInfo (c_info w)) /\
  snd (fc_padded_weights w)
  = c_data w ++ replicate (Z.to_nat (dim0 d * dim1 d * r * dim3 d) - length (c_data w)) zp /\
  Z.of_nat (length (snd (fc_padded_weights w))) = dim0 d * dim1 d * r * dim3 d.
Proof.
  intros d r zp (Hty & H0 & H1 & H2 & H3 & Hlen & Hr & Htot & Hzp).
  unfold is_u32 in *. fold d in H0, H1, H2, H3, Hlen, Htot. fold zp in Hzp.
  pose proof (RoundUpToNearestMultiple_spec (dim2 d) 1024 ltac:(lia) ltac:(lia)) as [_ Hge].
  fold r in Hge.
  unfold fc_padded_weights. fold d. fold r. cbn [fst snd m_QuantizationInfo].
  assert (Er : u32 r = r) by (unfold u32; apply Z.mod_small; lia).
  rewrite Er.
  assert (Etot : TotalSizeBytes
                   (TInfo (Shape (dim0 d) (dim1 d) r (dim3 d)) (m_DataType (c_info w))
                          (m_DataFormat (c_info w)) (m_QuantizationInfo (c_info w)))
                 = dim0 d * dim1 d * r * dim3 d).
  { unfold TotalSizeBytes, GetNumElements. cbn [m_Dimensions m_DataType dim0 dim1 dim2 dim3].
    rewrite Hty. unfold mul32, u32.
    assert (0 <= dim0 d * dim1 d) by nia.
    assert (0 <= dim0 d * dim1 d * r) by nia.
    assert (0 <= dim0 d * dim1 d * r * dim3 d) by nia.
    rewrite Z.mul_1_r, Z.mod_mod by lia.
    rewrite (Z.mul_mod_idemp_l (dim0 d * dim1 d) r) by lia.
    rewrite (Z.mul_mod_idemp_l (dim0 d * dim1 d * r) (dim3 d)) by lia.
    apply Z.mod_small. lia. }
  rewrite Etot.
  assert (Ezp : u8 zp = zp) by (unfold u8; apply Z.mod_small; subst zp; lia).
  fold zp. rewrite Ezp.
  assert (Hle : (length (c_data w) <= Z.to_nat (dim0 d * dim1 d * r * dim3 d))%nat).
  { apply Nat2Z.inj_le. rewrite Hlen, Z2Nat.id by nia.
    assert (0 <= dim0 d * dim1 d) by nia.
    apply Z.mul_le_mono_nonneg_r; [lia|]. apply Z.mul_le_mono_nonneg_l; lia. }
  unfold Pad. rewrite take_ge by exact Hle.
  split; [reflexivity|]. split; [reflexivity|].
  rewrite length_app, length_replicate. lia.
Qed.

(** C4: the fully connected rule rounds the input-channel extent of the
    weights (dimension 2) up to the nearest multiple of 1024, extends the
    bytes of the weights to the size of that tensor with bytes equal to the
    zero point of the weights themselves, and emits an
    MceOperation(FULLY_CONNECTED) with those weights, the bias as it is,
    the default stride, upscale factor 1 and no top or left padding. *)
Theorem fully_connected_weights_padded fc c input oi p pn shape :
  op_inputs (fc_op fc) = [input] ->
  op_outputs (fc_op fc) = [oi] ->
  m_OperandToNode c !! operand_key input = Some p ->
  g_nodes (m_Graph c) !! p = Some pn ->
  GetShapeContainingLinearElements (GetBrickGroupShape (m_Capabilities c))
    (dim3 (m_Dimensions (opd_info input))) = Some shape ->
  let w := fc_weights fc in
  let d := m_Dimensions (c_info w) in
  let r := RoundUpToNearestMultiple (dim2 d) 1024 in
  let zp := m_ZeroPoint (m_QuantizationInfo (c_info w)) in
  fc_weights_wf w r ->
  r mod 1024 = 0 /\ dim2 d <= r < dim2 d + 1024 /\
  exists c' nd md,
    Visit_FullyConnected fc c = Ok tt c' /\
    node_of_operand c' (output_key (fc_op fc) 0) = Some nd /\
    n_kind nd = MceOperationNode md /\
    mce_operation md = FULLY_CONNECTED /\
    mce_weightsInfo md
    = TInfo (Shape (dim0 d) (dim1 d) r (dim3 d)) (m_DataType (c_info w))
            (m_DataFormat (c_info w)) (m_QuantizationInfo (c_info w)) /\
    mce_weightsData md
    = c_data w ++ replicate (Z.to_nat (dim0 d * dim1 d * r * dim3 d) - length (c_data w)) zp /\
    Z.of_nat (length (mce_weightsData md)) = dim0 d * dim1 d * r * dim3 d /\
    mce_biasInfo md = fc_biasInfo fc /\
    mce_biasData md = fc_biasData fc /\
    mce_stride md = Stride_default /\
    mce_upscaleFactor md = 1 /\
    mce_padTop md = 0 /\ mce_padLeft md = 0.
Proof.
  intros Hin Hout Hp Hpn Hshape w d r zp Hwf.
  assert (Hd2 : 0 <= dim2 d) by (destruct Hwf as (_ & _ & _ & H2 & _); apply H2).
  destruct (RoundUpToNearestMultiple_spec (dim2 d) 1024 Hd2 ltac:(lia)) as [Hm Hr].
  fold r in Hm, Hr. split; [exact Hm|]. split; [exact Hr|].
  destruct (Visit_FullyConnected_node fc c input oi p pn shape Hin Hout Hp Hpn Hshape)
    as (c' & Hrun & Hnode).
  destruct (fc_padded_weights_spec w Hwf) as (Ei & Ed & El).
  exists c'. eexists _, _. split; [exact Hrun|]. split; [exact Hnode|].
  cbn [n_kind mce_operation mce_weightsInfo mce_weightsData mce_biasInfo mce_biasData
       mce_stride mce_upscaleFactor mce_padTop mce_padLeft].
  fold w. rewrite Ei, Ed.
  refine (conj eq_refl (conj eq_refl (conj eq_refl (conj eq_refl (conj _
          (conj eq_refl (conj eq_refl (conj eq_refl (conj eq_refl
          (conj eq_refl eq_refl)))))))))).
  rewrite <- Ed. exact El.
Qed.

Lemma fully_connected_weights_padded_witness :
  exists c' nd md,
    Visit_FullyConnected fully_connected_1024 (after_input (Shape 1 1 1 3) NHWCB false)
    = Ok tt c' /\
    node_of_operand c' (output_key (fc_op fully_connected_1024) 0) = Some nd /\
    n_kind nd = MceOperationNode md /\
    mce_weightsData md = [1; 2; 3; 4; 5; 6] ++ replicate 2042 128.
Proof.
  assert (Hwf : fc_weights_wf (fc_weights fully_connected_1024)
                  (RoundUpToNearestMultiple 3 1024)).
  { unfold fc_weights_wf, is_u32. cbn. change (RoundUpToNearestMultiple 3 1024) with 1024.
    repeat split; lia. }
  destruct (fully_connected_weights_padded fully_connected_1024
              (after_input (Shape 1 1 1 3) NHWCB false)
              (input_operand (Shape 1 1 1 3) [7]) (tinfo (Shape 1 1 1 2)) 0%nat
              (MkNode InputNode (Shape 1 1 1 3) q_unit NHWCB {[ 1 ]}) (Shape 1 4 4 1)
              eq_refl eq_refl eq_refl eq_refl eq_refl Hwf)
    as (_ & _ & c' & nd & md & Hrun & Hnode & Hkind & _ & _ & Hdata & _).
  exists c', nd, md. repeat split; assumption.
Defined.

(* ================================================================== *)
(** * Pooling *)

Lemma create_then_connect op kind c oi ps :
  op_outputs op = [oi] ->
  producers_of (m_OperandToNode c) (op_inputs op) = Some ps ->
  lowered_to
    ((let* n := on_graph (CreateAndAddNode
                  (MkNode kind (m_Dimensions oi) (m_QuantizationInfo oi) NHWCB
                          {[ op_id op ]})) in
      ConnectNode op n) c)
    c op oi kind.
Proof.
  intros Hout Hps. unfold lowered_to. unfold bind. rewrite create_node_eq.
  eexists. split; [|split].
  - unfold ConnectNode. apply ConnectNodeChain_eq with (ps := ps);
      [rewrite Hout; cbn; lia|reflexivity|reflexivity|exact Hps].
  - reflexivity.
  - unfold node_of_operand, chain_connected. rewrite Hout.
    cbn [length Nat.ltb Nat.leb m_OperandToNode m_Graph g_nodes set_graph].
    rewrite lookup_insert_eq. cbn [mbind option_bind].
    now rewrite list_lookup_middle.
Qed.

Lemma Padding_eqb_eq a b : Padding_eqb a b = true <-> a = b.
Proof.
  unfold Padding_eqb. rewrite !andb_true_iff, !Z.eqb_eq.
  destruct a, b; cbn. split; [intros [[[-> ->] ->] ->]; reflexivity|].
  intros H. injection H as -> -> -> ->. auto.
Qed.

Lemma PoolingType_eqb_eq a b : PoolingType_eqb a b = true <-> a = b.
Proof. destruct a, b; cbn; split; congruence. Qed.

Lemma mean_pooling_eqb info inputHeight inputWidth :
  PoolingInfo_eqb info
    (MkPoolingInfo inputWidth inputHeight (m_PoolingStrideX info) (m_PoolingStrideY info)
                   (MkPadding 0 0 0 0) AVG) = true
  <-> is_mean_pooling info inputHeight inputWidth.
Proof.
  unfold PoolingInfo_eqb, is_mean_pooling. cbn.
  rewrite !andb_true_iff, !Z.eqb_eq, Padding_eqb_eq, PoolingType_eqb_eq. tauto.
Qed.

Lemma pooling_config_eqb info kx ky sx sy t :
  PoolingInfo_eqb info (MkPoolingInfo kx ky sx sy (m_Padding info) t) = true
  <-> pooling_config info kx ky sx sy t.
Proof.
  unfold PoolingInfo_eqb, pooling_config. cbn.
  rewrite !andb_true_iff, !Z.eqb_eq, Padding_eqb_eq, PoolingType_eqb_eq. tauto.
Qed.

(** C5: the pooling rule, for a supported pooling, dispatches on the
    pooling info by equality, first match first: a kernel equal to the
    whole input extent with zero padding and AVG gives
    FuseOnlyPleOperation(MEAN_XY_8X8) with shape multiplier
    ((1, SY), (1, SX), 1); otherwise (3,3,1,1, any padding, AVG) gives
    StandalonePleOperation(AVGPOOL_3X3_1_1_UDMA); (2,2,2,2, any padding,
    MAX) gives FuseOnlyPleOperation(MAXPOOL_2X2_2_2); (3,3,2,2, any padding,
    MAX) gives FuseOnlyPleOperation(MAXPOOL_3X3_2_2); every other
    configuration fails the assertion "Unsupported" and leaves the
    converter as it was. *)
Theorem pooling_dispatch IsPoolingSupported p c input oi ps :
  IsPoolingSupported (pool_info p) (opd_info input) = Supported ->
  op_inputs (pool_op p) = [input] ->
  op_outputs (pool_op p) = [oi] ->
  producers_of (m_OperandToNode c) (op_inputs (pool_op p)) = Some ps ->
  let info := pool_info p in
  let inH := dim1 (m_Dimensions (opd_info input)) in
  let inW := dim2 (m_Dimensions (opd_info input)) in
  let sm := MkShapeMultiplier (1, m_PoolingStrideY info) (1, m_PoolingStrideX info) 1 in
  let result := Visit_Pooling IsPoolingSupported p c in
  (is_mean_pooling info inH inW ->
   lowered_to result c (pool_op p) oi (FuseOnlyPleOperationNode MEAN_XY_8X8 sm)) /\
  (~ is_mean_pooling info inH inW -> pooling_config info 3 3 1 1 AVG ->
   lowered_to result c (pool_op p) oi (StandalonePleOperationNode AVGPOOL_3X3_1_1_UDMA)) /\
  (pooling_config info 2 2 2 2 MAX ->
   lowered_to result c (pool_op p) oi (FuseOnlyPleOperationNode MAXPOOL_2X2_2_2 sm)) /\
  (pooling_config info 3 3 2 2 MAX ->
   lowered_to result c (pool_op p) oi (FuseOnlyPleOperationNode MAXPOOL_3X3_2_2 sm)) /\
  (~ is_mean_pooling info inH inW ->
   ~ pooling_config info 3 3 1 1 AVG ->
   ~ pooling_config info 2 2 2 2 MAX ->
   ~ pooling_config info 3 3 2 2 MAX ->
   result = Throw (AssertionFailure "Unsupported") c).
Proof.
  intros Hsup Hin Hout Hps info inH inW sm result.
  assert (Hrun : result
    = (let* n :=
         (if PoolingInfo_eqb info
               (MkPoolingInfo inW inH (m_PoolingStrideX info) (m_PoolingStrideY info)
                              (MkPadding 0 0 0 0) AVG)
          then createFuseOnlyPleNode p MEAN_XY_8X8
          else if PoolingInfo_eqb info (MkPoolingInfo 3 3 1 1 (m_Padding info) AVG)
          then createStandalonePleNode p AVGPOOL_3X3_1_1_UDMA
          else if PoolingInfo_eqb info (MkPoolingInfo 2 2 2 2 (m_Padding info) MAX)
          then createFuseOnlyPleNode p MAXPOOL_2X2_2_2
          else if PoolingInfo_eqb info (MkPoolingInfo 3 3 2 2 (m_Padding info) MAX)
          then createFuseOnlyPleNode p MAXPOOL_3X3_2_2
          else throw (AssertionFailure "Unsupported")) in
       ConnectNode (pool_op p) n) c).
  { subst result. unfold Visit_Pooling, GetInputOperand. rewrite Hin.
    cbn [lookup list_lookup defined]. unfold bind at 1. cbn [ret]. now rewrite Hsup. }
  assert (Hfuse : forall op,
    lowered_to ((let* n := createFuseOnlyPleNode p op in ConnectNode (pool_op p) n) c)
               c (pool_op p) oi (FuseOnlyPleOperationNode op sm)).
  { intros op.
    pose proof (create_then_connect (pool_op p) (FuseOnlyPleOperationNode op sm) c oi ps
                  Hout Hps) as H.
    unfold createFuseOnlyPleNode, GetOutputInfo. rewrite Hout.
    cbn [lookup list_lookup defined]. exact H. }
  assert (Hstand : forall op,
    lowered_to ((let* n := createStandalonePleNode p op in ConnectNode (pool_op p) n) c)
               c (pool_op p) oi (StandalonePleOperationNode op)).
  { intros op.
    pose proof (create_then_connect (pool_op p) (StandalonePleOperationNode op) c oi ps
                  Hout Hps) as H.
    unfold createStandalonePleNode, GetOutputInfo. rewrite Hout.
    cbn [lookup list_lookup defined]. exact H. }
  pose proof (mean_pooling_eqb info inH inW) as Emean.
  pose proof (pooling_config_eqb info 3 3 1 1 AVG) as Eavg.
  pose proof (pooling_config_eqb info 2 2 2 2 MAX) as Emax2.
  pose proof (pooling_config_eqb info 3 3 2 2 MAX) as Emax3.
  assert (Hmax : m_PoolingType info = MAX -> ~ is_mean_pooling info inH inW).
  { intros Ht (_ & _ & _ & Ha). congruence. }
  rewrite Hrun. clear Hrun.
  destruct (PoolingInfo_eqb info (MkPoolingInfo inW inH _ _ _ AVG)) eqn:B1.
  - assert (Hm : is_mean_pooling info inH inW) by now apply Emean.
    split; [intros _; apply Hfuse|]. split; [tauto|].
    split; [intros (_ & _ & _ & _ & Ht); exfalso; now apply (Hmax Ht)|].
    split; [intros (_ & _ & _ & _ & Ht); exfalso; now apply (Hmax Ht)|]. tauto.
  - assert (Hm : ~ is_mean_pooling info inH inW).
    { intros H. apply Emean in H. congruence. }
    split; [tauto|].
    destruct (PoolingInfo_eqb info (MkPoolingInfo 3 3 1 1 _ AVG)) eqn:B2.
    + assert (Ha : pooling_config info 3 3 1 1 AVG) by now apply Eavg.
      split; [intros _ _; apply Hstand|].
      destruct Ha as (_ & _ & _ & _ & Ht).
      split; [intros (_ & _ & _ & _ & Ht'); congruence|].
      split; [intros (_ & _ & _ & _ & Ht'); congruence|].
      intros _ Hn. exfalso. apply Hn. apply Eavg. reflexivity.
    + assert (Ha : ~ pooling_config info 3 3 1 1 AVG).
      { intros H. apply Eavg in H. congruence. }
      split; [tauto|].
      destruct (PoolingInfo_eqb info (MkPoolingInfo 2 2 2 2 _ MAX)) eqn:B3.
      * assert (H2 : pooling_config info 2 2 2 2 MAX) by now apply Emax2.
        split; [intros _; apply Hfuse|].
        destruct H2 as (Hx & _).
        split; [intros (Hx' & _); lia|]. intros _ _ Hn. exfalso. apply Hn. now apply Emax2.
      * assert (H2 : ~ pooling_config info 2 2 2 2 MAX).
        { intros H. apply Emax2 in H. congruence. }
        split; [tauto|].
        destruct (PoolingInfo_eqb info (MkPoolingInfo 3 3 2 2 _ MAX)) eqn:B4.
        -- assert (H3 : pooling_config info 3 3 2 2 MAX) by now apply Emax3.
           split; [intros _; apply Hfuse|]. tauto.
        -- assert (H3 : ~ pooling_config info 3 3 2 2 MAX).
           { intros H. apply Emax3 in H. congruence. }
           split; [tauto|]. intros _ _ _ _. reflexivity.
Qed.

Lemma pooling_dispatch_witness :
  lowered_to
    (Visit_Pooling (fun _ _ => Supported)
       (pooling_of (Shape 1 8 8 16) (MkPoolingInfo 3 3 1 1 (MkPadding 1 1 1 1) AVG))
       (after_input (Shape 1 8 8 16) NHWCB false))
    (after_input (Shape 1 8 8 16) NHWCB false)
    (pool_op (pooling_of (Shape 1 8 8 16) (MkPoolingInfo 3 3 1 1 (MkPadding 1 1 1 1) AVG)))
    (tinfo (Shape 1 1 1 16)) (StandalonePleOperationNode AVGPOOL_3X3_1_1_UDMA) /\
  lowered_to
    (Visit_Pooling (fun _ _ => Supported)
       (pooling_of (Shape 1 8 8 16) (MkPoolingInfo 8 8 2 2 (MkPadding 0 0 0 0) AVG))
       (after_input (Shape 1 8 8 16) NHWCB false))
    (after_input (Shape 1 8 8 16) NHWCB false)
    (pool_op (pooling_of (Shape 1 8 8 16) (MkPoolingInfo 8 8 2 2 (MkPadding 0 0 0 0) AVG)))
    (tinfo (Shape 1 1 1 16))
    (FuseOnlyPleOperationNode MEAN_XY_8X8 (MkShapeMultiplier (1, 2) (1, 2) 1)) /\
  (* a 3x3 average, stride 1, no padding, over a 3x3 input: the mean
     pattern, which is tried first *)
  lowered_to
    (Visit_Pooling (fun _ _ => Supported)
       (pooling_of (Shape 1 3 3 16) (MkPoolingInfo 3 3 1 1 (MkPadding 0 0 0 0) AVG))
       (after_input (Shape 1 3 3 16) NHWCB false))
    (after_input (Shape 1 3 3 16) NHWCB false)
    (pool_op (pooling_of (Shape 1 3 3 16) (MkPoolingInfo 3 3 1 1 (MkPadding 0 0 0 0) AVG)))
    (tinfo (Shape 1 1 1 16))
    (FuseOnlyPleOperationNode MEAN_XY_8X8 (MkShapeMultiplier (1, 1) (1, 1) 1)).
Proof.
  split; [|split].
  - destruct (pooling_dispatch (fun _ _ => Supported)
                (pooling_of (Shape 1 8 8 16) (MkPoolingInfo 3 3 1 1 (MkPadding 1 1 1 1) AVG))
                (after_input (Shape 1 8 8 16) NHWCB false)
                (input_operand (Shape 1 8 8 16) [8]) (tinfo (Shape 1 1 1 16)) [0%nat]
                eq_refl eq_refl eq_refl eq_refl) as (_ & Havg & _).
    apply Havg.
    + intros (Hx & _). cbn in Hx. discriminate Hx.
    + repeat split.
  - destruct (pooling_dispatch (fun _ _ => Supported)
                (pooling_of (Shape 1 8 8 16) (MkPoolingInfo 8 8 2 2 (MkPadding 0 0 0 0) AVG))
                (after_input (Shape 1 8 8 16) NHWCB false)
                (input_operand (Shape 1 8 8 16) [8]) (tinfo (Shape 1 1 1 16)) [0%nat]
                eq_refl eq_refl eq_refl eq_refl) as (Hmean & _).
    apply Hmean. repeat split.
  - destruct (pooling_dispatch (fun _ _ => Supported)
                (pooling_of (Shape 1 3 3 16) (MkPoolingInfo 3 3 1 1 (MkPadding 0 0 0 0) AVG))
                (after_input (Shape 1 3 3 16) NHWCB false)
                (input_operand (Shape 1 3 3 16) [8]) (tinfo (Shape 1 1 1 16)) [0%nat]
                eq_refl eq_refl eq_refl eq_refl) as (Hmean & _).
    apply Hmean. repeat split.
Defined.

(** A 1x1 pooling matches none of the patterns. *)
Example pooling_1x1_unsupported :
  Visit_Pooling (fun _ _ => Supported)
    (pooling_of (Shape 1 8 8 16) (MkPoolingInfo 1 1 1 1 (MkPadding 0 0 0 0) MAX))
    (after_input (Shape 1 8 8 16) NHWCB false)
  = Throw (AssertionFailure "Unsupported") (after_input (Shape 1 8 8 16) NHWCB false).
Proof. reflexivity. Qed.

(* ================================================================== *)
(** * Concatenation: shared inputs *)

Lemma reject_shared_inputs_throws inputs c :
  m_EstimationMode c = false ->
  (exists it, it ∈ inputs /\ (1 < length (opd_consumers it))%nat) ->
  reject_shared_inputs inputs c = Throw (NotSupportedException shared_inputs_message) c.
Proof.
  intros Hest. unfold reject_shared_inputs.
  induction inputs as [|o rest IH]; intros (it & Hin & Hshared).
  - inversion Hin.
  - cbn [for_each]. unfold bind at 1. unfold bind at 1. cbn [get_estimation_mode].
    rewrite Hest. cbn [negb]. rewrite andb_true_r.
    destruct (Nat.ltb 1 (length (opd_consumers o))) eqn:Hlt.
    + reflexivity.
    + cbn [ret]. apply IH. apply elem_of_cons in Hin as [->|Hin].
      * apply Nat.ltb_lt in Hshared. congruence.
      * eauto.
Qed.

Lemma reject_shared_inputs_passes inputs c :
  m_EstimationMode c = true \/
  (forall it, it ∈ inputs -> (length (opd_consumers it) <= 1)%nat) ->
  reject_shared_inputs inputs c = Ok tt c.
Proof.
  intros H. unfold reject_shared_inputs.
  induction inputs as [|o rest IH]; [reflexivity|].
  cbn [for_each]. unfold bind at 1. unfold bind at 1. cbn [get_estimation_mode].
  assert (E : Nat.ltb 1 (length (opd_consumers o)) && negb (m_EstimationMode c) = false).
  { destruct H as [->|H]; [apply andb_false_r|].
    apply andb_false_iff. left. apply Nat.ltb_ge. apply H. constructor. }
  rewrite E. cbn [ret]. apply IH.
  destruct H as [H|H]; [now left|right]. intros it Hit. apply H. now constructor.
Qed.

Lemma Visit_Concatenation_unfold IsConcatenationSupported cat c :
  Visit_Concatenation IsConcatenationSupported cat c
  = (reject_shared_inputs (op_inputs (cat_op cat)) ;;
     match IsConcatenationSupported (map opd_info (op_inputs (cat_op cat))) (cat_info cat) with
     | EstimateOnly => lower_estimate_only (cat_op cat)
     | _ =>
         let* caps := get_capabilities in
         let* format :=
           defined (choose_format (ci_Axis (cat_info cat)) (GetBrickGroupShape caps)
                                  (map opd_info (op_inputs (cat_op cat)))) in
         let* outInfo := GetOutputInfo (cat_op cat) 0 in
         let* n :=
           on_graph (CreateAndAddNode
             (MkNode (ConcatNode (ci_Axis (cat_info cat))) (m_Dimensions outInfo)
                     (ci_OutputQuantizationInfo (cat_info cat)) format
                     {[ op_id (cat_op cat) ]})) in
         ConnectNode (cat_op cat) n ;;
         let* edgeToAddConversion :=
           collect_conversions n format (op_id (cat_op cat)) 0 (op_inputs (cat_op cat)) in
         splice_all edgeToAddConversion ;;
         let* edgeToAddRequantize :=
           collect_requantizes n format (op_id (cat_op cat)) (m_QuantizationInfo outInfo) 0
                               (op_inputs (cat_op cat)) in
         splice_all edgeToAddRequantize
     end) c.
Proof. reflexivity. Qed.

(** ** Which exceptions the rule can raise *)

Lemma nns_ret {S A} (a : A) : never_not_supported (@ret S A a).
Proof. intros s e s' H. discriminate H. Qed.

Lemma nns_bind {S A B} (m : M S A) (k : A -> M S B) :
  never_not_supported m -> (forall a, never_not_supported (k a)) ->
  never_not_supported (bind m k).
Proof.
  intros Hm Hk s e s' H. unfold bind in H. destruct (m s) as [a s1|e1 s1] eqn:E.
  - apply (Hk a s1 e s' H).
  - injection H as <- <-. apply (Hm s e1 s1 E).
Qed.

Lemma nns_defined {S A} (o : option A) : never_not_supported (@defined S A o).
Proof. intros s e s' H. destruct o; cbn in H; [discriminate|]. now injection H as <- <-. Qed.

Lemma nns_assert {S} b msg : never_not_supported (@assert S b msg).
Proof. intros s e s' H. destruct b; cbn in H; [discriminate|]. now injection H as <- <-. Qed.

Lemma nns_on_graph {A} (m : M Graph A) :
  never_not_supported m -> never_not_supported (on_graph m).
Proof.
  intros Hm c e c' H. unfold on_graph in H.
  destruct (m (m_Graph c)) as [a g|e1 g] eqn:E; [discriminate|].
  injection H as <- <-. apply (Hm _ _ _ E).
Qed.

Lemma nns_for_each {S A} (l : list A) (body : A -> M S unit) :
  (forall a, never_not_supported (body a)) -> never_not_supported (for_each l body).
Proof.
  intros Hb. induction l as [|a l IH]; cbn [for_each]; [apply nns_ret|].
  apply nns_bind; [apply Hb | intros _; exact IH].
Qed.

Lemma nns_CreateAndAddNode nd : never_not_supported (CreateAndAddNode nd).
Proof. intros s e s' H. discriminate H. Qed.

Lemma nns_Connect a b : never_not_supported (Connect a b).
Proof. intros s e s' H. discriminate H. Qed.

Lemma nns_SplitEdge a b : never_not_supported (SplitEdge a b).
Proof.
  intros s e s' H. unfold SplitEdge in H.
  destruct (graph_split_edge a b s); [discriminate|]. now injection H as <- <-.
Qed.

Lemma nns_connect_successive nodes : never_not_supported (connect_successive nodes).
Proof. intros s e s' H. rewrite connect_successive_eq in H. discriminate H. Qed.

Lemma nns_operand_node_at k : never_not_supported (operand_node_at k).
Proof.
  intros s e s' H. unfold operand_node_at in H.
  destruct (m_OperandToNode s !! k); [discriminate|]. now injection H as <- <-.
Qed.

Lemma nns_get_graph : never_not_supported get_graph.
Proof. intros s e s' H. discriminate H. Qed.

Lemma nns_get_capabilities : never_not_supported get_capabilities.
Proof. intros s e s' H. discriminate H. Qed.

Lemma nns_bind_operand k n : never_not_supported (bind_operand k n).
Proof. intros s e s' H. discriminate H. Qed.

Create HintDb nns discriminated.

#[global] Hint Resolve nns_ret nns_defined nns_assert nns_CreateAndAddNode nns_Connect
  nns_SplitEdge nns_connect_successive nns_operand_node_at nns_get_graph
  nns_get_capabilities nns_bind_operand nns_on_graph nns_for_each : nns.

(** Split a sequence of binds, closing each step with the hints. *)
Ltac nns_steps :=
  repeat first [solve [auto with nns] | apply nns_bind; [|intros ?]].

Lemma nns_ConnectNodeChain op nodes : never_not_supported (ConnectNodeChain op nodes).
Proof.
  unfold ConnectNodeChain. nns_steps.
  - apply nns_for_each. intros o. nns_steps.
  - destruct (Nat.ltb 0 (length (op_outputs op))); auto with nns.
Qed.

#[global] Hint Resolve nns_ConnectNodeChain : nns.

Lemma nns_lower_estimate_only op : never_not_supported (lower_estimate_only op).
Proof. unfold lower_estimate_only, GetOutputInfo, ConnectNode. nns_steps. Qed.

Lemma nns_collect_conversions n format id inputs :
  forall i, never_not_supported (collect_conversions n format id i inputs).
Proof.
  induction inputs as [|input rest IH]; intros i; cbn [collect_conversions];
    [apply nns_ret|].
  apply nns_bind; [auto with nns|intros g].
  apply nns_bind; [auto with nns|intros f].
  destruct (negb (CompilerDataFormat_eqb f format)); [|apply IH].
  pose proof (IH (S i)). nns_steps.
Qed.

Lemma nns_collect_requantizes n format id q inputs :
  forall i, never_not_supported (collect_requantizes n format id q i inputs).
Proof.
  induction inputs as [|input rest IH]; intros i; cbn [collect_requantizes];
    [apply nns_ret|].
  apply nns_bind; [auto with nns|intros g].
  apply nns_bind; [auto with nns|intros f].
  destruct (negb (QuantizationInfo_eqb f q)); [|apply IH].
  pose proof (IH (S i)). nns_steps.
Qed.

Lemma nns_splice_all edges : never_not_supported (splice_all edges).
Proof. unfold splice_all. auto with nns. Qed.

#[global] Hint Resolve nns_lower_estimate_only nns_collect_conversions
  nns_collect_requantizes nns_splice_all : nns.

(** C7: outside estimation mode, a concatenation with an input operand
    that has more than one consumer fails with the NotSupportedException
    about shared inputs, whatever the support query says, and the converter
    is left as it was; in estimation mode the rule never raises a
    NotSupportedException. *)
Theorem concat_shared_inputs_rejected IsConcatenationSupported cat c :
  (m_EstimationMode c = false ->
   has_shared_input (cat_op cat) ->
   Visit_Concatenation IsConcatenationSupported cat c
   = Throw (NotSupportedException shared_inputs_message) c) /\
  (m_EstimationMode c = true ->
   forall e c',
     Visit_Concatenation IsConcatenationSupported cat c = Throw e c' ->
     is_not_supported e = false).
Proof.
  rewrite Visit_Concatenation_unfold. split.
  - intros Hest Hshared.
    apply bind_Throw. now apply reject_shared_inputs_throws.
  - intros Hest e c' Hthrow.
    rewrite (bind_Ok _ _ c tt c) in Hthrow
      by (apply reject_shared_inputs_passes; now left).
    revert Hthrow.
    match goal with |- ?m c = _ -> _ => assert (Hn : never_not_supported m) end.
    { unfold GetOutputInfo, ConnectNode.
      destruct (IsConcatenationSupported _ _); nns_steps. }
    apply Hn.
Qed.

(** C10: the check of the consumers comes before the EstimateOnly branch.
    When the support query answers EstimateOnly, a shared input outside
    estimation mode still raises the NotSupportedException and the
    converter, hence its graph, is left as it was: no EstimateOnly node is
    created. Without a shared input, or in estimation mode, the same
    concatenation is lowered to the EstimateOnly node. *)
Theorem concat_shared_check_precedes_estimate IsConcatenationSupported cat c :
  IsConcatenationSupported (map opd_info (op_inputs (cat_op cat))) (cat_info cat)
  = EstimateOnly ->
  (m_EstimationMode c = false ->
   has_shared_input (cat_op cat) ->
   exists c',
     Visit_Concatenation IsConcatenationSupported cat c
     = Throw (NotSupportedException shared_inputs_message) c' /\
     m_Graph c' = m_Graph c /\ m_OperandToNode c' = m_OperandToNode c) /\
  (m_EstimationMode c = true \/ ~ has_shared_input (cat_op cat) ->
   Visit_Concatenation IsConcatenationSupported cat c = lower_estimate_only (cat_op cat) c).
Proof.
  intros Hsup. rewrite Visit_Concatenation_unfold, Hsup. split.
  - intros Hest Hshared. exists c. split; [|split; reflexivity].
    apply bind_Throw. now apply reject_shared_inputs_throws.
  - intros H. rewrite (bind_Ok _ _ c tt c); [reflexivity|].
    apply reject_shared_inputs_passes.
    destruct H as [H|H]; [now left|right].
    intros it Hit. apply Nat.nlt_ge. intros Hlt. apply H. now exists it.
Qed.

Lemma concat_shared_inputs_rejected_witness :
  Visit_Concatenation (fun _ _ => Supported) (concat_of [shared_operand; shared_operand] 3)
    (after_input (Shape 1 8 8 16) NHWCB false)
  = Throw (NotSupportedException shared_inputs_message)
          (after_input (Shape 1 8 8 16) NHWCB false) /\
  (forall e c',
     Visit_Concatenation (fun _ _ => Supported) (concat_of [shared_operand; shared_operand] 3)
       (after_input (Shape 1 8 8 16) NHWCB true) = Throw e c' ->
     is_not_supported e = false).
Proof.
  split.
  - apply (concat_shared_inputs_rejected (fun _ _ => Supported)
             (concat_of [shared_operand; shared_operand] 3)
             (after_input (Shape 1 8 8 16) NHWCB false)); [reflexivity|].
    exists shared_operand. split; [constructor | cbn; lia].
  - apply (concat_shared_inputs_rejected (fun _ _ => Supported)
             (concat_of [shared_operand; shared_operand] 3)
             (after_input (Shape 1 8 8 16) NHWCB true)). reflexivity.
Defined.

Lemma concat_shared_check_precedes_estimate_witness :
  (exists c',
     Visit_Concatenation (fun _ _ => EstimateOnly)
       (concat_of [shared_operand; shared_operand] 3)
       (after_input (Shape 1 8 8 16) NHWCB false)
     = Throw (NotSupportedException shared_inputs_message) c' /\
     m_Graph c' = m_Graph (after_input (Shape 1 8 8 16) NHWCB false) /\
     m_OperandToNode c' = m_OperandToNode (after_input (Shape 1 8 8 16) NHWCB false)) /\
  Visit_Concatenation (fun _ _ => EstimateOnly)
    (concat_of [shared_operand; shared_operand] 3)
    (after_input (Shape 1 8 8 16) NHWCB true)
  = lower_estimate_only (cat_op (concat_of [shared_operand; shared_operand] 3))
      (after_input (Shape 1 8 8 16) NHWCB true).
Proof.
  split.
  - apply (concat_shared_check_precedes_estimate (fun _ _ => EstimateOnly)
             (concat_of [shared_operand; shared_operand] 3)
             (after_input (Shape 1 8 8 16) NHWCB false) eq_refl); [reflexivity|].
    exists shared_operand. split; [constructor | cbn; lia].
  - apply (concat_shared_check_precedes_estimate (fun _ _ => EstimateOnly)
             (concat_of [shared_operand; shared_operand] 3)
             (after_input (Shape 1 8 8 16) NHWCB true) eq_refl). now left.
Defined.

(** In estimation mode the shared concatenation above is estimated: one
    EstimateOnly node, fed twice by the producer of the shared operand. *)
Example concat_shared_estimated :
  Visit_Concatenation (fun _ _ => EstimateOnly)
    (concat_of [shared_operand; shared_operand] 3)
    (after_input (Shape 1 8 8 16) NHWCB true)
  = Ok tt (MkConverter
             (MkGraph [MkNode InputNode (Shape 1 8 8 16) q_unit NHWCB {[ 1 ]};
                       MkNode EstimateOnlyNode (Shape 1 8 8 32) q_unit NHWCB {[ 9 ]}]
                      [MkEdge 0 1; MkEdge 0 1])
             (<[ (9, 0%nat) := 1%nat ]> {[ (1, 0%nat) := 0%nat ]})
             true (MkCapabilities (Shape 1 8 8 16))).
Proof. vm_compute. reflexivity. Qed.

(* ================================================================== *)
(** * Split *)

Lemma axis_cases axis : 0 <= axis <= 3 -> axis = 0 \/ axis = 1 \/ axis = 2 \/ axis = 3.
Proof. lia. Qed.

Lemma offset_along_get axis v :
  0 <= axis <= 3 -> shape_get (offset_along axis v) axis = Some v.
Proof. intros H. destruct (axis_cases axis H) as [->|[->|[->| ->]]]; reflexivity. Qed.

Lemma offset_along_set axis v v' :
  0 <= axis <= 3 -> shape_set (offset_along axis v) axis v' = Some (offset_along axis v').
Proof. intros H. destruct (axis_cases axis H) as [->|[->|[->| ->]]]; reflexivity. Qed.

Lemma with_extent_set s axis v :
  0 <= axis <= 3 -> shape_set s axis v = Some (with_extent s axis v).
Proof. intros H. destruct (axis_cases axis H) as [->|[->|[->| ->]]]; reflexivity. Qed.

Lemma offset_along_0 axis : 0 <= axis <= 3 -> offset_along axis 0 = Shape 0 0 0 0.
Proof. intros H. destruct (axis_cases axis H) as [->|[->|[->| ->]]]; reflexivity. Qed.

Lemma sum_sizes_cons a l : sum_sizes (a :: l) = a + sum_sizes l.
Proof. reflexivity. Qed.

Lemma sum_sizes_app l1 l2 : sum_sizes (l1 ++ l2) = sum_sizes l1 + sum_sizes l2.
Proof. induction l1 as [|a l1 IH]; cbn; [reflexivity|]. unfold sum_sizes in *. lia. Qed.

Lemma sum_sizes_nonneg l : Forall (fun s => 0 <= s) l -> 0 <= sum_sizes l.
Proof. induction 1; cbn; [lia|]. unfold sum_sizes in *. lia. Qed.

(** The loop that creates the subtensor nodes, from output [length done]
    on, when the sizes are [done ++ rest]. *)
Lemma create_subtensors_eq id info sinfo format rest : forall done c,
  0 <= si_Axis sinfo <= 3 ->
  si_Sizes sinfo = done ++ rest ->
  Forall (fun s => 0 <= s) (si_Sizes sinfo) ->
  sum_sizes (si_Sizes sinfo) < 2 ^ 32 ->
  create_subtensors id info sinfo format (seq (length done) (length rest))
                    (offset_along (si_Axis sinfo) (sum_sizes done)) c
  = Ok (seq (length (g_nodes (m_Graph c))) (length rest))
       (set_graph
          (MkGraph (g_nodes (m_Graph c)
                      ++ subtensor_nodes id info (si_Axis sinfo) format rest (sum_sizes done))
                   (g_edges (m_Graph c))) c).
Proof.
  induction rest as [|s rest IH]; intros done c Hax Hsizes Hpos Hsum.
  - cbn. rewrite app_nil_r. now destruct c as [[ns es] m em cp].
  - cbn [length seq create_subtensors].
    assert (Hs : si_Sizes sinfo !! length done = Some s).
    { rewrite Hsizes. now rewrite list_lookup_middle. }
    rewrite Hs. cbn [defined]. unfold bind at 1. cbn [ret].
    rewrite (with_extent_set _ _ _ Hax). cbn [defined]. unfold bind at 1. cbn [ret].
    unfold bind at 1. rewrite create_node_eq.
    rewrite (offset_along_get _ _ Hax). cbn [defined]. unfold bind at 1. cbn [ret].
    rewrite (offset_along_set _ _ _ Hax). cbn [defined]. unfold bind at 1. cbn [ret].
    assert (Hadd : add32 (sum_sizes done) s = sum_sizes (done ++ [s])).
    { pose proof Hpos as Hpos'. pose proof Hsum as Hsum'.
      rewrite Hsizes in Hpos', Hsum'. rewrite sum_sizes_app, sum_sizes_cons in Hsum'.
      apply Forall_app in Hpos' as [Hd Hr].
      apply Forall_cons in Hr as [Hs0 Hr].
      pose proof (sum_sizes_nonneg _ Hd). pose proof (sum_sizes_nonneg _ Hr).
      rewrite sum_sizes_app, sum_sizes_cons. change (sum_sizes []) with 0.
      unfold add32, u32. rewrite Z.mod_small; lia. }
    rewrite Hadd.
    replace (S (length done)) with (length (done ++ [s])) by (rewrite length_app; cbn; lia).
    unfold bind at 1.
    rewrite IH; [|exact Hax|now rewrite <- app_assoc|exact Hpos|exact Hsum].
    cbn [ret set_graph m_Graph g_nodes g_edges m_OperandToNode m_EstimationMode m_Capabilities].
    rewrite length_app. cbn [length]. rewrite Nat.add_1_r, <- app_assoc.
    cbn [app subtensor_nodes]. rewrite sum_sizes_app, sum_sizes_cons.
    change (sum_sizes []) with 0. rewrite Z.add_0_r.
    reflexivity.
Qed.

(** The loop that connects the subtensor nodes and binds the outputs. *)
Lemma bind_subtensors_spec op inputNode ns : forall i0 c,
  exists c',
    bind_subtensors op inputNode i0 ns c = Ok tt c' /\
    g_nodes (m_Graph c') = g_nodes (m_Graph c) /\
    (forall j n, ns !! j = Some n ->
       m_OperandToNode c' !! output_key op (i0 + j) = Some n) /\
    (forall k, (forall j, (j < length ns)%nat -> k <> output_key op (i0 + j)) ->
       m_OperandToNode c' !! k = m_OperandToNode c !! k).
Proof.
  induction ns as [|n ns IH]; intros i0 c.
  - exists c. cbn. split; [reflexivity|]. split; [reflexivity|]. split; [|reflexivity].
    intros j n Hj. inversion Hj.
  - cbn [bind_subtensors]. unfold bind at 1. rewrite connect_eq.
    unfold bind at 1. cbn [bind_operand].
    match goal with
    | |- exists c', bind_subtensors _ _ _ _ ?c1 = _ /\ _ => destruct (IH (S i0) c1)
        as (c' & Hrun & Hnodes & Hbound & Hother)
    end.
    exists c'. split; [exact Hrun|]. split; [rewrite Hnodes; reflexivity|]. split.
    + intros [|j] m Hj.
      * cbn in Hj. injection Hj as <-. rewrite Hother.
        -- cbn. rewrite Nat.add_0_r. apply lookup_insert_eq.
        -- intros j Hj. unfold output_key. intros Heq. injection Heq as Heq. lia.
      * cbn in Hj. replace (i0 + S j)%nat with (S i0 + j)%nat by lia. now apply Hbound.
    + intros k Hk. rewrite Hother.
      * cbn. apply lookup_insert_ne. specialize (Hk 0%nat ltac:(cbn; lia)).
        rewrite Nat.add_0_r in Hk. congruence.
      * intros j Hj. replace (S i0 + j)%nat with (i0 + S j)%nat by lia.
        apply Hk. cbn. lia.
Qed.

Lemma subtensor_nodes_lookup id info axis format sizes : forall start i s,
  sizes !! i = Some s ->
  subtensor_nodes id info axis format sizes start !! i
  = Some (subtensor_node id info axis format (start + sum_sizes (take i sizes)) s).
Proof.
  induction sizes as [|a sizes IH]; intros start i s Hi; [inversion Hi|].
  destruct i as [|i]; cbn in Hi.
  - injection Hi as ->. cbn. now rewrite Z.add_0_r.
  - cbn [subtensor_nodes take]. cbn [lookup list_lookup]. rewrite (IH _ _ _ Hi).
    rewrite sum_sizes_cons. do 2 f_equal. lia.
Qed.

Lemma subtensor_nodes_length id info axis format sizes start :
  length (subtensor_nodes id info axis format sizes start) = length sizes.
Proof. revert start. induction sizes as [|a sizes IH]; intros start; cbn; [|rewrite IH]; reflexivity. Qed.

Lemma sum_sizes_take_S sizes i s :
  sizes !! i = Some s ->
  sum_sizes (take (S i) sizes) = sum_sizes (take i sizes) + s.
Proof.
  intros H. rewrite (take_S_r _ _ _ H), sum_sizes_app, sum_sizes_cons.
  change (sum_sizes []) with 0. lia.
Qed.

Lemma sum_sizes_take_mono sizes :
  Forall (fun s => 0 <= s) sizes ->
  forall i j, (i <= j)%nat -> sum_sizes (take i sizes) <= sum_sizes (take j sizes).
Proof.
  induction 1 as [|a sizes Ha Hs IH]; intros i j Hij.
  - rewrite !take_nil. lia.
  - destruct i as [|i]; destruct j as [|j]; try lia; cbn [take]; rewrite ?sum_sizes_cons.
    + change (sum_sizes []) with 0. pose proof (IH 0%nat j ltac:(lia)) as H0.
      rewrite take_0 in H0. change (sum_sizes []) with 0 in H0. lia.
    + pose proof (IH i j ltac:(lia)). lia.
Qed.

(** C9: a supported split with sizes s_0 .. s_{k-1} along its axis emits k
    ExtractSubtensor nodes (after a format conversion of the input when its
    layout is not the chosen one). Node i starts at the sum of the sizes
    before it along the axis and at 0 elsewhere, has the input's shape with
    the extent s_i along the axis and the input's quantization; the offsets
    start at (0,0,0,0), each advances the previous one by its size, no two
    subtensors overlap and the last one ends at the input's extent; output
    i of the split is bound to node i. *)
Theorem split_subtensors IsSplitSupported sp c input p pn format :
  IsSplitSupported (opd_info input) (split_info sp) = Supported ->
  op_inputs (split_op sp) = [input] ->
  m_OperandToNode c !! operand_key input = Some p ->
  g_nodes (m_Graph c) !! p = Some pn ->
  choose_format (si_Axis (split_info sp)) (GetBrickGroupShape (m_Capabilities c))
                (op_outputs (split_op sp)) = Some format ->
  split_wf sp input ->
  let op := split_op sp in
  let sizes := si_Sizes (split_info sp) in
  let axis := si_Axis (split_info sp) in
  let info := opd_info input in
  let start i := sum_sizes (take i sizes) in
  exists c' conv,
    Visit_Split IsSplitSupported sp c = Ok tt c' /\
    g_nodes (m_Graph c')
    = g_nodes (m_Graph c) ++ conv ++ subtensor_nodes (op_id op) info axis format sizes 0 /\
    (conv = [] \/ exists nd, conv = [nd] /\ n_kind nd = FormatConversionNode) /\
    length (subtensor_nodes (op_id op) info axis format sizes 0) = length (op_outputs op) /\
    (forall i s, sizes !! i = Some s ->
       let r := (length (g_nodes (m_Graph c)) + length conv + i)%nat in
       m_OperandToNode c' !! output_key op i = Some r /\
       g_nodes (m_Graph c') !! r
       = Some (MkNode (ExtractSubtensorNode (offset_along axis (start i)))
                      (with_extent (m_Dimensions info) axis s)
                      (m_QuantizationInfo info) format {[ op_id op ]})) /\
    offset_along axis (start 0%nat) = Shape 0 0 0 0 /\
    (forall i s, sizes !! i = Some s -> start (S i) = start i + s) /\
    (forall i j s, (i < j)%nat -> sizes !! i = Some s -> start i + s <= start j) /\
    shape_get (m_Dimensions info) axis = Some (start (length sizes)).
Proof.
  intros Hsup Hin Hp Hpn Hfmt (Hax & Hlen & Hpos & Hsum & Hlt) op sizes axis info start.
  fold sizes axis in Hax, Hlen, Hpos, Hsum, Hlt, Hfmt. fold op in Hin, Hlen, Hfmt.
  assert (Hcreate : forall c0,
    create_subtensors (op_id op) info (split_info sp) format
                      (seq 0 (length (op_outputs op))) (Shape 0 0 0 0) c0
    = Ok (seq (length (g_nodes (m_Graph c0))) (length sizes))
         (set_graph
            (MkGraph (g_nodes (m_Graph c0)
                        ++ subtensor_nodes (op_id op) info axis format sizes 0)
                     (g_edges (m_Graph c0))) c0)).
  { intros c0. rewrite Hlen, <- (offset_along_0 axis Hax).
    apply (create_subtensors_eq (op_id op) info (split_info sp) format sizes [] c0);
      [exact Hax|reflexivity|exact Hpos|exact Hlt]. }
  assert (Hfinal : forall c1 inputNode conv,
    g_nodes (m_Graph c1) = g_nodes (m_Graph c) ++ conv ->
    m_OperandToNode c1 = m_OperandToNode c ->
    exists c',
      (let* extractSubtensorNodes :=
         create_subtensors (op_id op) info (split_info sp) format
                           (seq 0 (length (op_outputs op))) (Shape 0 0 0 0) in
       bind_subtensors op inputNode 0 extractSubtensorNodes) c1 = Ok tt c' /\
      g_nodes (m_Graph c')
      = g_nodes (m_Graph c) ++ conv ++ subtensor_nodes (op_id op) info axis format sizes 0 /\
      (forall i s, sizes !! i = Some s ->
         let r := (length (g_nodes (m_Graph c)) + length conv + i)%nat in
         m_OperandToNode c' !! output_key op i = Some r /\
         g_nodes (m_Graph c') !! r
         = Some (MkNode (ExtractSubtensorNode (offset_along axis (start i)))
                        (with_extent (m_Dimensions info) axis s)
                        (m_QuantizationInfo info) format {[ op_id op ]}))).
  { intros c1 inputNode conv Hn1 Hm1. unfold bind. rewrite Hcreate.
    match goal with
    | |- exists c', bind_subtensors _ _ _ ?ns ?c2 = _ /\ _ =>
        destruct (bind_subtensors_spec op inputNode ns 0 c2)
          as (c' & Hrun & Hnodes & Hbound & _)
    end.
    exists c'. split; [exact Hrun|].
    cbn [set_graph m_Graph g_nodes] in Hnodes. rewrite Hn1, <- app_assoc in Hnodes.
    split; [exact Hnodes|].
    intros i s Hi.
    set (r := (length (g_nodes (m_Graph c)) + length conv + i)%nat). split.
    - apply (Hbound i r).
      rewrite lookup_seq. rewrite Hn1, length_app.
      assert (i < length sizes)%nat by (eapply lookup_lt_Some; exact Hi).
      subst r. split; [reflexivity | lia].
    - rewrite Hnodes. subst r. rewrite app_assoc.
      rewrite lookup_app_r by (rewrite length_app; lia).
      rewrite length_app.
      replace (length (g_nodes (m_Graph c)) + length conv + i
               - (length (g_nodes (m_Graph c)) + length conv))%nat with i by lia.
      rewrite (subtensor_nodes_lookup _ _ _ _ _ _ _ _ Hi). reflexivity. }
  assert (Hfacts :
    offset_along axis (start 0%nat) = Shape 0 0 0 0 /\
    (forall i s, sizes !! i = Some s -> start (S i) = start i + s) /\
    (forall i j s, (i < j)%nat -> sizes !! i = Some s -> start i + s <= start j) /\
    shape_get (m_Dimensions info) axis = Some (start (length sizes))).
  { split; [apply (offset_along_0 axis Hax)|].
    split; [intros i s Hi; now apply sum_sizes_take_S|].
    split.
    - intros i j s Hij Hi. subst start. cbn beta.
      rewrite <- (sum_sizes_take_S sizes i s Hi).
      apply sum_sizes_take_mono; [exact Hpos | lia].
    - subst start. cbn beta. rewrite firstn_all. symmetry. exact Hsum. }
  unfold Visit_Split, GetInputOperand. fold op. rewrite Hin.
  cbn [lookup list_lookup defined]. unfold bind at 1. cbn [ret]. rewrite Hsup. fold info.
  unfold bind at 1. cbn [get_capabilities].
  unfold bind at 1. fold axis. rewrite Hfmt. cbn [defined ret].
  unfold bind at 1. unfold operand_node at 1. rewrite Hp. cbn [defined ret].
  unfold bind at 1. unfold GetFormat at 1. rewrite Hpn.
  cbn [fmap option_fmap option_map defined ret].
  destruct (negb (CompilerDataFormat_eqb (n_format pn) format)).
  - unfold bind at 1. unfold bind at 1. rewrite create_node_eq.
    unfold bind at 1. rewrite connect_eq. cbn [ret].
    match goal with
    | |- exists c' conv, bind _ _ ?c1 = _ /\ _ =>
        destruct (Hfinal c1 (length (g_nodes (m_Graph c)))
                    [MkNode FormatConversionNode (m_Dimensions info)
                            (m_QuantizationInfo info) format {[ op_id op ]}]
                    eq_refl eq_refl) as (c' & Hrun & Hnodes & Hbound)
    end.
    exists c', [MkNode FormatConversionNode (m_Dimensions info)
                       (m_QuantizationInfo info) format {[ op_id op ]}].
    split; [exact Hrun|]. split; [exact Hnodes|].
    split; [right; eexists; split; reflexivity|].
    split; [rewrite subtensor_nodes_length; now symmetry|].
    split; [exact Hbound | exact Hfacts].
  - unfold bind at 1. cbn [ret].
    destruct (Hfinal c p [] ltac:(now rewrite app_nil_r) eq_refl)
      as (c' & Hrun & Hnodes & Hbound).
    exists c', []. split; [exact Hrun|]. split; [exact Hnodes|].
    split; [now left|].
    split; [rewrite subtensor_nodes_length; now symmetry|].
    split; [exact Hbound | exact Hfacts].
Qed.

Lemma split_subtensors_witness :
  exists c',
    Visit_Split (fun _ _ => Supported) split_3_5 (after_input (Shape 1 8 8 8) NHWCB false)
    = Ok tt c' /\
    node_of_operand c' (output_key (split_op split_3_5) 0)
    = Some (MkNode (ExtractSubtensorNode (Shape 0 0 0 0)) (Shape 1 8 8 3) q_unit NHWC {[ 11 ]}) /\
    node_of_operand c' (output_key (split_op split_3_5) 1)
    = Some (MkNode (ExtractSubtensorNode (Shape 0 0 0 3)) (Shape 1 8 8 5) q_unit NHWC {[ 11 ]}).
Proof.
  assert (Hwf : split_wf split_3_5 (input_operand (Shape 1 8 8 8) [11])).
  { unfold split_wf. cbn. repeat split; try lia. repeat constructor; lia. }
  destruct (split_subtensors (fun _ _ => Supported) split_3_5
              (after_input (Shape 1 8 8 8) NHWCB false)
              (input_operand (Shape 1 8 8 8) [11]) 0%nat
              (MkNode InputNode (Shape 1 8 8 8) q_unit NHWCB {[ 1 ]}) NHWC
              eq_refl eq_refl eq_refl eq_refl eq_refl Hwf)
    as (c' & conv & Hrun & Hnodes & Hconv & _ & Hbound & _).
  exists c'. split; [exact Hrun|].
  destruct (Hbound 0%nat 3 eq_refl) as [Hm0 Hn0].
  destruct (Hbound 1%nat 5 eq_refl) as [Hm1 Hn1].
  unfold node_of_operand. rewrite Hm0, Hm1. cbn [mbind option_bind].
  split; [exact Hn0 | exact Hn1].
Defined.

(** The whole graph of that split: the input, its conversion to NHWC
    (3 is not a multiple of the 16 channels of a brick group) and the two
    subtensors. *)
Example split_3_5_graph :
  exists c',
    Visit_Split (fun _ _ => Supported) split_3_5 (after_input (Shape 1 8 8 8) NHWCB false)
    = Ok tt c' /\
    m_Graph c'
    = MkGraph [MkNode InputNode (Shape 1 8 8 8) q_unit NHWCB {[ 1 ]};
               MkNode FormatConversionNode (Shape 1 8 8 8) q_unit NHWC {[ 11 ]};
               MkNode (ExtractSubtensorNode (Shape 0 0 0 0)) (Shape 1 8 8 3) q_unit NHWC {[ 11 ]};
               MkNode (ExtractSubtensorNode (Shape 0 0 0 3)) (Shape 1 8 8 5) q_unit NHWC {[ 11 ]}]
              [MkEdge 0 1; MkEdge 1 2; MkEdge 1 3].
Proof. eexists. split; vm_compute; reflexivity. Qed.

(* ================================================================== *)
(** * Concatenation: layout and splices *)

Section Splices.
Local Open Scope nat_scope.

(** ** Inputs of a node *)

Lemma inputs_from_app off l1 l2 d :
  inputs_from off (l1 ++ l2) d
  = inputs_from off l1 d ++ inputs_from (off + length l1) l2 d.
Proof.
  revert off. induction l1 as [|e l1 IH]; intros off; cbn [inputs_from app length].
  - now rewrite Nat.add_0_r.
  - rewrite IH. replace (S off + length l1) with (off + S (length l1)) by lia.
    now destruct (Nat.eqb (e_dst e) d).
Qed.

Lemma inputs_from_none off l d :
  Forall (fun e => e_dst e <> d) l -> inputs_from off l d = [].
Proof.
  revert off. induction l as [|e l IH]; intros off H; cbn [inputs_from]; [reflexivity|].
  apply Forall_cons in H as [He Hl]. apply Nat.eqb_neq in He. rewrite He. now apply IH.
Qed.

Lemma inputs_from_slots off n srcs :
  inputs_from off (slot_edges n srcs) n = seq off (length srcs).
Proof.
  revert off. induction srcs as [|s srcs IH]; intros off; cbn; [reflexivity|].
  rewrite Nat.eqb_refl. f_equal. apply IH.
Qed.

Lemma length_slot_edges n srcs : length (slot_edges n srcs) = length srcs.
Proof. unfold slot_edges. apply length_map. Qed.

Lemma GetInput_slot g edges0 n srcs extra i :
  g_edges g = edges0 ++ slot_edges n srcs ++ extra ->
  Forall (fun e => e_dst e <> n) edges0 ->
  i < length srcs ->
  GetInput g n i = Some (length edges0 + i).
Proof.
  intros Hg H0 Hi. unfold GetInput, GetInputs. rewrite Hg.
  rewrite inputs_from_app, (inputs_from_none _ _ _ H0), app_nil_l.
  rewrite inputs_from_app, inputs_from_slots. cbn [Nat.add].
  rewrite lookup_app_l by (rewrite length_seq; exact Hi).
  now apply lookup_seq_lt.
Qed.

Lemma edge_source_slot g edges0 n srcs extra i s :
  g_edges g = edges0 ++ slot_edges n srcs ++ extra ->
  srcs !! i = Some s ->
  edge_source g (length edges0 + i) = Some s.
Proof.
  intros Hg Hs. unfold edge_source. rewrite Hg.
  rewrite lookup_app_r by lia. replace (length edges0 + i - length edges0) with i by lia.
  rewrite lookup_app_l by (rewrite length_slot_edges; eapply lookup_lt_Some; exact Hs).
  unfold slot_edges. rewrite list_lookup_fmap, Hs. reflexivity.
Qed.

(** [input_sources] lists what [GetInputs] and the sources of the edges give. *)
Lemma input_sources_from pre l d :
  omap (fun e => e_src <$> (pre ++ l) !! e) (inputs_from (length pre) l d)
  = e_src <$> filter (fun e => e_dst e = d) l.
Proof.
  revert pre. induction l as [|e l IH]; intros pre; [reflexivity|].
  cbn [inputs_from]. specialize (IH (pre ++ [e])).
  rewrite <- app_assoc, length_app, Nat.add_1_r in IH. cbn [app] in IH.
  destruct (Nat.eqb_spec (e_dst e) d) as [E|E].
  - rewrite filter_cons_True by exact E. cbn [omap list_omap fmap list_fmap].
    rewrite list_lookup_middle by reflexivity. cbn. f_equal. exact IH.
  - rewrite filter_cons_False by exact E. exact IH.
Qed.

Lemma input_sources_eq g d :
  input_sources g d = omap (edge_source g) (GetInputs g d).
Proof.
  unfold input_sources, GetInputs, edge_source. symmetry.
  apply (input_sources_from [] (g_edges g) d).
Qed.

Lemma filter_dst_none (l : list Edge) d :
  Forall (fun e => e_dst e <> d) l -> filter (fun e => e_dst e = d) l = [].
Proof.
  induction 1 as [|e l He Hl IH]; [reflexivity|].
  now rewrite filter_cons_False.
Qed.

Lemma filter_dst_slots n srcs :
  filter (fun e => e_dst e = n) (slot_edges n srcs) = slot_edges n srcs.
Proof.
  induction srcs as [|s srcs IH]; [reflexivity|].
  cbn [slot_edges map]. rewrite filter_cons_True by reflexivity. f_equal. exact IH.
Qed.

Lemma slot_edges_dst n srcs d :
  d <> n -> Forall (fun e => e_dst e <> d) (slot_edges n srcs).
Proof.
  intros H. unfold slot_edges. apply Forall_forall. intros e He.
  apply list_elem_of_fmap in He as (s & -> & _). cbn. congruence.
Qed.

Lemma input_sources_slots g edges0 n srcs extra :
  g_edges g = edges0 ++ slot_edges n srcs ++ extra ->
  Forall (fun e => e_dst e <> n) edges0 ->
  Forall (fun e => e_dst e <> n) extra ->
  input_sources g n = srcs.
Proof.
  intros Hg H0 Hx. unfold input_sources. rewrite Hg, !filter_app.
  rewrite (filter_dst_none _ _ H0), (filter_dst_none _ _ Hx), filter_dst_slots.
  rewrite app_nil_l, app_nil_r. unfold slot_edges. rewrite <- list_fmap_compose.
  cbn. apply list_fmap_id.
Qed.

(** ** One splice, and all of them *)

Lemma split_slot g edges0 n done s rest extra m :
  g_edges g = edges0 ++ slot_edges n (done ++ s :: rest) ++ extra ->
  graph_split_edge (length edges0 + length done) m g
  = Some (MkGraph (g_nodes g)
                  (edges0 ++ slot_edges n ((done ++ [m]) ++ rest)
                     ++ extra ++ [MkEdge s m])).
Proof.
  intros Hg. unfold graph_split_edge.
  assert (Hl : g_edges g !! (length edges0 + length done) = Some (MkEdge s n)).
  { rewrite Hg, lookup_app_r by lia.
    replace (length edges0 + length done - length edges0) with (length done) by lia.
    unfold slot_edges. rewrite map_app. cbn [map]. rewrite <- app_assoc. cbn [app].
    apply list_lookup_middle. now rewrite length_map. }
  rewrite Hl. cbn [e_dst e_src]. f_equal. f_equal.
  rewrite Hg, insert_app_r. unfold slot_edges. rewrite !map_app. cbn [map].
  rewrite <- !app_assoc. cbn [app].
  rewrite <- (length_map (fun s0 => MkEdge s0 n) done) at 1.
  rewrite insert_app_r_alt by lia. rewrite Nat.sub_diag. cbn [insert list_insert].
  rewrite <- !app_assoc. cbn [app]. rewrite <- !app_assoc. reflexivity.
Qed.

Lemma splice_all_eq edges0 n : forall assigned srcs done extra c,
  length assigned = length srcs ->
  g_edges (m_Graph c) = edges0 ++ slot_edges n (done ++ srcs) ++ extra ->
  splice_all (plan_of (length edges0 + length done) assigned) c
  = Ok tt (set_graph
             (MkGraph (g_nodes (m_Graph c))
                      (edges0 ++ slot_edges n (done ++ spliced_srcs assigned srcs)
                         ++ extra ++ spliced_edges assigned srcs)) c).
Proof.
  induction assigned as [|a assigned IH]; intros srcs done extra c Hlen Hg.
  - destruct srcs; [|discriminate]. cbn. rewrite (app_nil_r extra), <- Hg.
    now destruct c as [[ns es] m em cp].
  - destruct srcs as [|s srcs]; [discriminate|]. injection Hlen as Hlen.
    destruct a as [m|]; cbn [plan_of spliced_srcs spliced_edges default].
    + unfold splice_all. cbn [for_each fst snd]. unfold bind at 1.
      unfold on_graph at 1, SplitEdge at 1.
      rewrite (split_slot _ _ _ _ _ _ _ m Hg).
      fold (splice_all (plan_of (S (length edges0 + length done)) assigned)).
      replace (S (length edges0 + length done))
        with (length edges0 + length (done ++ [m])) by (rewrite length_app; cbn; lia).
      rewrite (IH srcs (done ++ [m]) (extra ++ [MkEdge s m])); [|exact Hlen|reflexivity].
      cbn [set_graph m_Graph g_nodes g_edges m_OperandToNode m_EstimationMode m_Capabilities].
      rewrite <- !app_assoc. reflexivity.
    + replace (S (length edges0 + length done))
        with (length edges0 + length (done ++ [s])) by (rewrite length_app; cbn; lia).
      rewrite (IH srcs (done ++ [s]) extra); [|exact Hlen|now rewrite <- app_assoc].
      rewrite <- !app_assoc. reflexivity.
Qed.

End Splices.

Section Collect.
Local Open Scope nat_scope.

(** ** The collecting loops *)

Lemma needs_conversion_app nodes more format srcs :
  Forall (fun s => s < length nodes) srcs ->
  needs_conversion (nodes ++ more) format srcs = needs_conversion nodes format srcs.
Proof.
  intros H. unfold needs_conversion. apply map_ext_Forall.
  eapply Forall_impl; [exact H|]. intros s Hs. cbn. now rewrite lookup_app_l.
Qed.

Lemma needs_requantize_app nodes more q srcs :
  Forall (fun s => s < length nodes) srcs ->
  needs_requantize (nodes ++ more) q srcs = needs_requantize nodes q srcs.
Proof.
  intros H. unfold needs_requantize. apply map_ext_Forall.
  eapply Forall_impl; [exact H|]. intros s Hs. cbn. now rewrite lookup_app_l.
Qed.

Lemma slot_reads g edges0 n done s srcs extra nd :
  g_edges g = edges0 ++ slot_edges n (done ++ s :: srcs) ++ extra ->
  Forall (fun e => e_dst e <> n) edges0 ->
  g_nodes g !! s = Some nd ->
  GetInput g n (length done) = Some (length edges0 + length done) /\
  GetInputFormat g n (length done) = Some (n_format nd) /\
  GetInputQuantizationInfo g n (length done) = Some (n_quant nd).
Proof.
  intros Hg H0 Hnd.
  assert (Hi : GetInput g n (length done) = Some (length edges0 + length done)).
  { apply (GetInput_slot g edges0 n (done ++ s :: srcs) extra); [exact Hg|exact H0|].
    rewrite length_app. cbn. lia. }
  assert (Hs : edge_source g (length edges0 + length done) = Some s).
  { apply (edge_source_slot g edges0 n (done ++ s :: srcs) extra); [exact Hg|].
    now apply list_lookup_middle. }
  split; [exact Hi|].
  unfold GetInputFormat, GetInputQuantizationInfo. rewrite Hi. cbn [mbind option_bind].
  rewrite Hs. cbn [mbind option_bind]. rewrite Hnd. split; reflexivity.
Qed.

Lemma collect_conversions_eq n format id edges0 : forall rest srcs done extra c,
  g_edges (m_Graph c) = edges0 ++ slot_edges n (done ++ srcs) ++ extra ->
  Forall (fun e => e_dst e <> n) edges0 ->
  length srcs = length rest ->
  Forall (fun s => s < length (g_nodes (m_Graph c))) srcs ->
  collect_conversions n format id (length done) rest c
  = Ok (plan_of (length edges0 + length done)
          (assign (length (g_nodes (m_Graph c)))
             (needs_conversion (g_nodes (m_Graph c)) format srcs)))
       (set_graph
          (MkGraph (g_nodes (m_Graph c)
                      ++ selected (needs_conversion (g_nodes (m_Graph c)) format srcs)
                           (map (conversion_node format id) rest))
                   (g_edges (m_Graph c))) c).
Proof.
  induction rest as [|input rest IH]; intros srcs done extra c Hg H0 Hlen Hsrcs.
  - destruct srcs; [|discriminate]. cbn. rewrite app_nil_r.
    now destruct c as [[ns es] m em cp].
  - destruct srcs as [|s srcs]; [discriminate|]. injection Hlen as Hlen.
    apply Forall_cons in Hsrcs as [Hs Hsrcs].
    destruct (lookup_lt_is_Some_2 _ _ Hs) as [nd Hnd].
    destruct (slot_reads _ _ _ _ _ _ _ _ Hg H0 Hnd) as (Hi & Hf & _).
    cbn [collect_conversions]. unfold bind at 1. cbn [get_graph].
    unfold bind at 1. rewrite Hf. cbn [defined ret].
    cbn [needs_conversion map]. rewrite Hnd.
    fold (needs_conversion (g_nodes (m_Graph c)) format srcs).
    destruct (negb (CompilerDataFormat_eqb (n_format nd) format)).
    + unfold bind at 1. rewrite create_node_eq.
      unfold bind at 1. cbn [get_graph].
      unfold bind at 1.
      assert (Hi' : GetInput
                (m_Graph (set_graph
                   (MkGraph (g_nodes (m_Graph c)
                               ++ [MkNode FormatConversionNode (m_Dimensions (opd_info input))
                                          (m_QuantizationInfo (opd_info input)) format {[ id ]}])
                            (g_edges (m_Graph c))) c)) n (length done)
              = Some (length edges0 + length done)) by exact Hi.
      rewrite Hi'. cbn [defined ret]. unfold bind at 1.
      replace (S (length done)) with (length (done ++ [s])) by (rewrite length_app; cbn; lia).
      rewrite (IH srcs (done ++ [s]) extra).
      * cbn [ret set_graph m_Graph g_nodes g_edges m_OperandToNode m_EstimationMode
             m_Capabilities assign plan_of selected map].
        rewrite needs_conversion_app by exact Hsrcs.
        rewrite !length_app. cbn [length]. rewrite !Nat.add_1_r, <- app_assoc.
        rewrite <- Nat.add_succ_r. reflexivity.
      * cbn. now rewrite <- app_assoc.
      * exact H0.
      * exact Hlen.
      * cbn. rewrite length_app. eapply Forall_impl; [exact Hsrcs|]. cbn. intros; lia.
    + replace (S (length done)) with (length (done ++ [s])) by (rewrite length_app; cbn; lia).
      rewrite (IH srcs (done ++ [s]) extra); [|now rewrite <- app_assoc|exact H0|exact Hlen|exact Hsrcs].
      cbn [assign plan_of selected map]. rewrite length_app. cbn [length].
      rewrite Nat.add_1_r, <- Nat.add_succ_r. reflexivity.
Qed.

Lemma collect_requantizes_eq n format id q edges0 : forall rest srcs done extra c,
  g_edges (m_Graph c) = edges0 ++ slot_edges n (done ++ srcs) ++ extra ->
  Forall (fun e => e_dst e <> n) edges0 ->
  length srcs = length rest ->
  Forall (fun s => s < length (g_nodes (m_Graph c))) srcs ->
  collect_requantizes n format id q (length done) rest c
  = Ok (plan_of (length edges0 + length done)
          (assign (length (g_nodes (m_Graph c)))
             (needs_requantize (g_nodes (m_Graph c)) q srcs)))
       (set_graph
          (MkGraph (g_nodes (m_Graph c)
                      ++ selected (needs_requantize (g_nodes (m_Graph c)) q srcs)
                           (map (requantize_node format id q) rest))
                   (g_edges (m_Graph c))) c).
Proof.
  induction rest as [|input rest IH]; intros srcs done extra c Hg H0 Hlen Hsrcs.
  - destruct srcs; [|discriminate]. cbn. rewrite app_nil_r.
    now destruct c as [[ns es] m em cp].
  - destruct srcs as [|s srcs]; [discriminate|]. injection Hlen as Hlen.
    apply Forall_cons in Hsrcs as [Hs Hsrcs].
    destruct (lookup_lt_is_Some_2 _ _ Hs) as [nd Hnd].
    destruct (slot_reads _ _ _ _ _ _ _ _ Hg H0 Hnd) as (Hi & _ & Hq).
    cbn [collect_requantizes]. unfold bind at 1. cbn [get_graph].
    unfold bind at 1. rewrite Hq. cbn [defined ret].
    cbn [needs_requantize map]. rewrite Hnd.
    fold (needs_requantize (g_nodes (m_Graph c)) q srcs).
    destruct (negb (QuantizationInfo_eqb (n_quant nd) q)).
    + unfold bind at 1. rewrite create_node_eq.
      unfold bind at 1. cbn [get_graph].
      unfold bind at 1.
      assert (Hi' : GetInput
                (m_Graph (set_graph
                   (MkGraph (g_nodes (m_Graph c)
                               ++ [MkNode RequantizeNode (m_Dimensions (opd_info input))
                                          q format {[ id ]}])
                            (g_edges (m_Graph c))) c)) n (length done)
              = Some (length edges0 + length done)) by exact Hi.
      rewrite Hi'. cbn [defined ret]. unfold bind at 1.
      replace (S (length done)) with (length (done ++ [s])) by (rewrite length_app; cbn; lia).
      rewrite (IH srcs (done ++ [s]) extra).
      * cbn [ret set_graph m_Graph g_nodes g_edges m_OperandToNode m_EstimationMode
             m_Capabilities assign plan_of selected map].
        rewrite needs_requantize_app by exact Hsrcs.
        rewrite !length_app. cbn [length]. rewrite !Nat.add_1_r, <- app_assoc.
        rewrite <- Nat.add_succ_r. reflexivity.
      * cbn. now rewrite <- app_assoc.
      * exact H0.
      * exact Hlen.
      * cbn. rewrite length_app. eapply Forall_impl; [exact Hsrcs|]. cbn. intros; lia.
    + replace (S (length done)) with (length (done ++ [s])) by (rewrite length_app; cbn; lia).
      rewrite (IH srcs (done ++ [s]) extra); [|now rewrite <- app_assoc|exact H0|exact Hlen|exact Hsrcs].
      cbn [assign plan_of selected map]. rewrite length_app. cbn [length].
      rewrite Nat.add_1_r, <- Nat.add_succ_r. reflexivity.
Qed.

End Collect.

Section Plans.
Local Open Scope nat_scope.

(** ** The nodes and edges of a phase *)

Lemma count_true_cons b flags :
  count_true (b :: flags) = (if b then 1 else 0) + count_true flags.
Proof.
  unfold count_true. destruct b.
  - now rewrite filter_cons_True.
  - now rewrite filter_cons_False.
Qed.

Lemma length_assign next flags : length (assign next flags) = length flags.
Proof.
  revert next. induction flags as [|[] flags IH]; intros next; cbn; [|rewrite IH..]; reflexivity.
Qed.

Lemma assign_lookup_true flags : forall next i,
  flags !! i = Some true ->
  assign next flags !! i = Some (Some (next + count_true (take i flags))).
Proof.
  induction flags as [|b flags IH]; intros next i Hi; [inversion Hi|].
  destruct i as [|i].
  - cbn in Hi. injection Hi as ->. cbn. now rewrite Nat.add_0_r.
  - cbn in Hi. cbn [take]. rewrite count_true_cons.
    destruct b; cbn [assign lookup list_lookup]; rewrite (IH _ _ Hi); do 2 f_equal; lia.
Qed.

Lemma assign_lookup_false flags : forall next i,
  flags !! i = Some false -> assign next flags !! i = Some None.
Proof.
  induction flags as [|b flags IH]; intros next i Hi; [inversion Hi|].
  destruct i as [|i].
  - cbn in Hi. injection Hi as ->. reflexivity.
  - cbn in Hi. destruct b; cbn [assign lookup list_lookup]; now apply IH.
Qed.

Lemma count_true_take_le flags i : count_true (take i flags) <= count_true flags.
Proof.
  revert i. induction flags as [|b flags IH]; intros i; [now rewrite take_nil|].
  destruct i as [|i]; cbn [take]; rewrite ?count_true_cons; [cbn; lia|].
  specialize (IH i). lia.
Qed.

Lemma count_true_take_lt flags i :
  flags !! i = Some true -> count_true (take i flags) < count_true flags.
Proof.
  revert i. induction flags as [|b flags IH]; intros i Hi; [inversion Hi|].
  destruct i as [|i]; cbn in Hi.
  - injection Hi as ->. rewrite count_true_cons. cbn. lia.
  - cbn [take]. rewrite !count_true_cons. specialize (IH i Hi). lia.
Qed.

Lemma length_spliced_srcs assigned srcs :
  length (spliced_srcs assigned srcs) = length srcs.
Proof.
  revert srcs. induction assigned as [|a assigned IH]; intros [|s srcs]; cbn; auto.
Qed.

Lemma spliced_srcs_lookup assigned : forall srcs i a s,
  assigned !! i = Some a -> srcs !! i = Some s ->
  spliced_srcs assigned srcs !! i = Some (default s a).
Proof.
  induction assigned as [|a0 assigned IH]; intros srcs i a s Ha Hs; [inversion Ha|].
  destruct srcs as [|s0 srcs]; [inversion Hs|].
  destruct i as [|i]; cbn in Ha, Hs.
  - injection Ha as ->. injection Hs as ->. reflexivity.
  - cbn. now apply IH.
Qed.

Lemma spliced_edges_dst flags : forall next srcs,
  Forall (fun e => next <= e_dst e < next + count_true flags)
         (spliced_edges (assign next flags) srcs).
Proof.
  induction flags as [|b flags IH]; intros next srcs; [constructor|].
  destruct srcs as [|s srcs]; [destruct b; constructor|].
  rewrite count_true_cons. destruct b; cbn [assign spliced_edges].
  - constructor; [cbn; lia|].
    eapply Forall_impl; [apply (IH (S next) srcs)|]. cbn. intros; lia.
  - eapply Forall_impl; [apply (IH next srcs)|]. cbn. intros; lia.
Qed.

(** The node a flagged input gets has one edge into it, from the source
    the input had. *)
Lemma spliced_edges_into flags : forall next srcs i s,
  length flags = length srcs ->
  flags !! i = Some true -> srcs !! i = Some s ->
  filter (fun e => e_dst e = next + count_true (take i flags))
         (spliced_edges (assign next flags) srcs)
  = [MkEdge s (next + count_true (take i flags))].
Proof.
  induction flags as [|b flags IH]; intros next srcs i s Hlen Hi Hs; [inversion Hi|].
  destruct srcs as [|s0 srcs]; [inversion Hs|]. injection Hlen as Hlen.
  destruct i as [|i]; cbn in Hi, Hs.
  - injection Hi as ->. injection Hs as ->. cbn [take assign spliced_edges].
    change (count_true []) with 0. rewrite Nat.add_0_r.
    rewrite filter_cons_True by reflexivity. f_equal.
    apply filter_dst_none.
    eapply Forall_impl; [apply (spliced_edges_dst flags (S next) srcs)|]. cbn. intros; lia.
  - cbn [take]. rewrite count_true_cons. destruct b; cbn [assign spliced_edges].
    + rewrite filter_cons_False by (cbn; lia).
      replace (next + (1 + count_true (take i flags)))
        with (S next + count_true (take i flags)) by lia.
      now apply IH.
    + now apply IH.
Qed.

Lemma selected_lookup {A} (flags : list bool) : forall (l : list A) i x,
  flags !! i = Some true -> l !! i = Some x ->
  selected flags l !! count_true (take i flags) = Some x.
Proof.
  induction flags as [|b flags IH]; intros l i x Hi Hx; [inversion Hi|].
  destruct l as [|x0 l]; [inversion Hx|].
  destruct i as [|i]; cbn in Hi, Hx.
  - injection Hi as ->. injection Hx as ->. reflexivity.
  - cbn [take]. rewrite count_true_cons. destruct b; cbn [selected].
    + cbn. now apply IH.
    + now apply IH.
Qed.

Lemma length_selected {A} (flags : list bool) : forall (l : list A),
  length flags = length l -> length (selected flags l) = count_true flags.
Proof.
  induction flags as [|b flags IH]; intros [|x l] Hlen; try discriminate; [reflexivity|].
  injection Hlen as Hlen. rewrite count_true_cons.
  destruct b; cbn [selected length]; rewrite (IH l Hlen); lia.
Qed.

End Plans.

Section Phase.
Local Open Scope nat_scope.

(** ** A phase, seen from the nodes *)

(** The node spliced onto a flagged input has that input's old source as
    its only source. *)
Lemma phase_new_node ns edges0 n srcs' extra flags srcs N i s :
  Forall (fun e => e_dst e < N) edges0 ->
  Forall (fun e => e_dst e < N) extra ->
  n < N ->
  length flags = length srcs ->
  flags !! i = Some true -> srcs !! i = Some s ->
  input_sources
    (MkGraph ns (edges0 ++ slot_edges n srcs' ++ extra
                   ++ spliced_edges (assign N flags) srcs))
    (N + count_true (take i flags))
  = [s].
Proof.
  intros H0 Hx Hn Hlen Hi Hs. unfold input_sources. cbn [g_edges].
  rewrite !filter_app.
  rewrite (filter_dst_none edges0)
    by (eapply Forall_impl; [exact H0|]; cbn; intros; lia).
  rewrite (filter_dst_none (slot_edges n srcs')) by (apply slot_edges_dst; lia).
  rewrite (filter_dst_none extra)
    by (eapply Forall_impl; [exact Hx|]; cbn; intros; lia).
  rewrite (spliced_edges_into flags N srcs i s Hlen Hi Hs). reflexivity.
Qed.

(** A phase does not change the sources of the nodes that were there. *)
Lemma phase_frame ns ns' edges0 n srcs srcs' extra flags N x :
  x < N -> x <> n ->
  input_sources
    (MkGraph ns' (edges0 ++ slot_edges n srcs' ++ extra
                    ++ spliced_edges (assign N flags) srcs)) x
  = input_sources (MkGraph ns (edges0 ++ slot_edges n srcs ++ extra)) x.
Proof.
  intros Hx Hn. unfold input_sources. cbn [g_edges]. rewrite !filter_app.
  rewrite !(filter_dst_none (slot_edges n _)) by (apply slot_edges_dst; exact Hn).
  rewrite (filter_dst_none (spliced_edges _ _)); [now rewrite app_nil_r|].
  eapply Forall_impl; [apply (spliced_edges_dst flags N srcs)|]. cbn. intros; lia.
Qed.

End Phase.

(** ** The layout *)

Lemma shape_get_Some s axis : 0 <= axis <= 3 -> exists d, shape_get s axis = Some d.
Proof. intros H. destruct (axis_cases axis H) as [->|[->|[->| ->]]]; eexists; reflexivity. Qed.

Lemma choose_format_spec axis bg infos b :
  0 <= axis <= 3 -> shape_get bg axis = Some b -> b <> 0 ->
  exists format,
    choose_format axis bg infos = Some format /\
    (format = NHWCB <-> all_multiples axis b infos).
Proof.
  intros Hax Hb Hb0. induction infos as [|t infos IH].
  - exists NHWCB. split; [reflexivity|]. split; [|reflexivity].
    intros _ t Ht. inversion Ht.
  - destruct (shape_get_Some (m_Dimensions t) axis Hax) as [d Hd].
    cbn [choose_format]. rewrite Hd, Hb.
    apply Z.eqb_neq in Hb0. rewrite Hb0.
    destruct (d mod b =? 0) eqn:Em; cbn [negb].
    + apply Z.eqb_eq in Em. destruct IH as (format & Hf & Hiff).
      exists format. split; [exact Hf|]. rewrite Hiff. split.
      * intros H t' Ht'. apply elem_of_cons in Ht' as [->|Ht']; [eauto | now apply H].
      * intros H t' Ht'. apply H. now constructor.
    + apply Z.eqb_neq in Em. exists NHWC. split; [reflexivity|]. split; [discriminate|].
      intros H. destruct (H t) as (d' & Hd' & Hm); [constructor|]. congruence.
Qed.

Lemma spliced_srcs_bound flags : forall N srcs,
  Forall (fun s => (s < N)%nat) srcs ->
  length flags = length srcs ->
  Forall (fun s => (s < N + count_true flags)%nat) (spliced_srcs (assign N flags) srcs).
Proof.
  induction flags as [|b flags IH]; intros N srcs Hs Hlen.
  - destruct srcs; [constructor|discriminate].
  - destruct srcs as [|s srcs]; [discriminate|]. injection Hlen as Hlen.
    apply Forall_cons in Hs as [Hs Hsrcs]. rewrite count_true_cons.
    destruct b; cbn [assign spliced_srcs default].
    + constructor; [cbn; lia|].
      eapply Forall_impl; [apply (IH (S N) srcs)|]; [|exact Hlen|cbn; intros; lia].
      eapply Forall_impl; [exact Hsrcs|]. cbn. intros; lia.
    + constructor; [cbn; lia|].
      eapply Forall_impl; [apply (IH N srcs Hsrcs Hlen)|]. cbn. intros; lia.
Qed.

Lemma producers_of_length m inputs ps :
  producers_of m inputs = Some ps -> length ps = length inputs.
Proof.
  revert ps. induction inputs as [|o inputs IH]; intros ps H; cbn in H.
  - now injection H as <-.
  - destruct (m !! operand_key o); [|discriminate].
    destruct (producers_of m inputs) as [ps'|]; [|discriminate].
    injection H as <-. cbn. f_equal. now apply IH.
Qed.

Lemma length_needs_conversion nodes format srcs :
  length (needs_conversion nodes format srcs) = length srcs.
Proof. unfold needs_conversion. apply length_map. Qed.

Lemma length_needs_requantize nodes q srcs :
  length (needs_requantize nodes q srcs) = length srcs.
Proof. unfold needs_requantize. apply length_map. Qed.

(** The two passes of the rule, from the state in which the concat node
    is connected: each pass first collects its (edge, node) pairs, creating
    nodes but leaving every edge as it is, and then splices them. *)
Lemma concat_trace cat c oi ps format :
  graph_wf (m_Graph c) ->
  Forall (fun p => (p < length (g_nodes (m_Graph c)))%nat) ps ->
  length ps = length (op_inputs (cat_op cat)) ->
  let c1 := concat_connected c cat oi format ps in
  let n := length (g_nodes (m_Graph c)) in
  let id := op_id (cat_op cat) in
  exists L1 c2 c3 L2 c4,
    collect_conversions n format id 0 (op_inputs (cat_op cat)) c1 = Ok L1 c2 /\
    g_edges (m_Graph c2) = g_edges (m_Graph c1) /\
    splice_all L1 c2 = Ok tt c3 /\
    collect_requantizes n format id (m_QuantizationInfo oi) 0 (op_inputs (cat_op cat)) c3
    = Ok L2 c4 /\
    g_edges (m_Graph c4) = g_edges (m_Graph c3) /\
    splice_all L2 c4
    = Ok tt (MkConverter (concat_graph (m_Graph c) cat oi format ps)
                         (m_OperandToNode c1) (m_EstimationMode c) (m_Capabilities c)).
Proof.
  intros Hwf Hlt Hlen c1 n id.
  set (concat := MkNode (ConcatNode (ci_Axis (cat_info cat))) (m_Dimensions oi)
                        (ci_OutputQuantizationInfo (cat_info cat)) format {[ id ]}).
  assert (H0 : Forall (fun e => e_dst e <> n) (g_edges (m_Graph c))).
  { eapply Forall_impl; [exact Hwf|]. cbn. subst n. intros; lia. }
  set (nodes1 := g_nodes (m_Graph c) ++ [concat]).
  set (flags1 := needs_conversion nodes1 format ps).
  set (a1 := assign (length nodes1) flags1).
  set (srcs1 := spliced_srcs a1 ps).
  set (nodes2 := nodes1 ++ selected flags1
                   (map (conversion_node format id) (op_inputs (cat_op cat)))).
  set (flags2 := needs_requantize nodes2 (m_QuantizationInfo oi) srcs1).
  set (a2 := assign (length nodes2) flags2).
  assert (Hl1 : length flags1 = length ps) by apply length_needs_conversion.
  assert (Hl2 : length flags2 = length srcs1) by apply length_needs_requantize.
  assert (Hls : length srcs1 = length ps) by apply length_spliced_srcs.
  (* first pass *)
  assert (E1 := collect_conversions_eq n format id (g_edges (m_Graph c))
                  (op_inputs (cat_op cat)) ps [] [] c1).
  cbn [length] in E1. rewrite Nat.add_0_r in E1.
  specialize (E1 ltac:(cbn; now rewrite app_nil_r) H0 Hlen).
  specialize (E1 ltac:(cbn; rewrite length_app; eapply Forall_impl;
                       [exact Hlt|]; cbn; intros; lia)).
  match type of E1 with _ = Ok ?L ?c' => set (L1 := L) in E1; set (c2 := c') in E1 end.
  assert (E2 := splice_all_eq (g_edges (m_Graph c)) n a1 ps [] [] c2).
  cbn [length] in E2. rewrite Nat.add_0_r in E2.
  specialize (E2 ltac:(subst a1; now rewrite length_assign)
                 ltac:(cbn; now rewrite app_nil_r)).
  match type of E2 with _ = Ok _ ?c' => set (c3 := c') in E2 end.
  (* second pass *)
  assert (E3 := collect_requantizes_eq n format id (m_QuantizationInfo oi)
                  (g_edges (m_Graph c)) (op_inputs (cat_op cat)) srcs1 []
                  (spliced_edges a1 ps) c3).
  cbn [length] in E3. rewrite Nat.add_0_r in E3.
  specialize (E3 ltac:(reflexivity) H0 ltac:(congruence)).
  assert (Hlt2 : Forall (fun s => (s < length (g_nodes (m_Graph c3)))%nat) srcs1).
  { cbn. fold concat. fold nodes1. fold flags1. fold nodes2.
    subst nodes2. rewrite length_app, length_selected
      by (rewrite length_map, length_needs_conversion; exact Hlen).
    apply spliced_srcs_bound; [|exact Hl1].
    subst nodes1. rewrite length_app. eapply Forall_impl; [exact Hlt|]. cbn. intros; lia. }
  specialize (E3 Hlt2).
  match type of E3 with _ = Ok ?L ?c' => set (L2 := L) in E3; set (c4 := c') in E3 end.
  assert (E4 := splice_all_eq (g_edges (m_Graph c)) n a2 srcs1 [] (spliced_edges a1 ps) c4).
  cbn [length] in E4. rewrite Nat.add_0_r in E4.
  specialize (E4 ltac:(subst a2; now rewrite length_assign) ltac:(reflexivity)).
  exists L1, c2, c3, L2, c4.
  split; [exact E1|]. split; [reflexivity|]. split; [exact E2|].
  split; [exact E3|]. split; [reflexivity|]. exact E4.
Qed.

(** The rule for a supported concatenation, evaluated. *)
Lemma Visit_Concatenation_eq IsConcatenationSupported cat c oi ps format :
  IsConcatenationSupported (map opd_info (op_inputs (cat_op cat))) (cat_info cat)
  = Supported ->
  m_EstimationMode c = true \/ ~ has_shared_input (cat_op cat) ->
  op_outputs (cat_op cat) = [oi] ->
  producers_of (m_OperandToNode c) (op_inputs (cat_op cat)) = Some ps ->
  graph_wf (m_Graph c) ->
  Forall (fun p => (p < length (g_nodes (m_Graph c)))%nat) ps ->
  choose_format (ci_Axis (cat_info cat)) (GetBrickGroupShape (m_Capabilities c))
                (map opd_info (op_inputs (cat_op cat))) = Some format ->
  Visit_Concatenation IsConcatenationSupported cat c
  = Ok tt (MkConverter (concat_graph (m_Graph c) cat oi format ps)
                       (<[output_key (cat_op cat) 0 := length (g_nodes (m_Graph c))]>
                          (m_OperandToNode c))
                       (m_EstimationMode c) (m_Capabilities c)).
Proof.
  intros Hsup Hshared Hout Hps Hwf Hlt Hfmt.
  pose proof (producers_of_length _ _ _ Hps) as Hlen.
  destruct (concat_trace cat c oi ps format Hwf Hlt Hlen)
    as (L1 & c2 & c3 & L2 & c4 & E1 & _ & E2 & E3 & _ & E4).
  rewrite Visit_Concatenation_unfold.
  rewrite (bind_Ok _ _ c tt c).
  2:{ apply reject_shared_inputs_passes. destruct Hshared as [H|H]; [now left|right].
      intros it Hit. apply Nat.nlt_ge. intros Hl. apply H. now exists it. }
  rewrite Hsup. unfold bind at 1. cbn [get_capabilities].
  unfold bind at 1. rewrite Hfmt. cbn [defined ret].
  unfold bind at 1. unfold GetOutputInfo. rewrite Hout. cbn [lookup list_lookup defined ret].
  unfold bind at 1. rewrite create_node_eq.
  unfold bind at 1. unfold ConnectNode.
  erewrite ConnectNodeChain_eq with (ps := ps);
    [|rewrite Hout; cbn; lia|reflexivity|reflexivity|exact Hps].
  unfold chain_connected. rewrite Hout.
  cbn [length Nat.ltb Nat.leb set_graph m_Graph g_nodes g_edges m_OperandToNode
       m_EstimationMode m_Capabilities successive_edges app].
  fold (slot_edges (length (g_nodes (m_Graph c))) ps).
  fold (concat_connected c cat oi format ps).
  unfold bind at 1. rewrite E1. unfold bind at 1. rewrite E2.
  unfold bind at 1. rewrite E3. exact E4.
Qed.

Section Chains.
Local Open Scope nat_scope.

(** ** What lies on an input of the concat node *)

Lemma walk_back_old g limit fuel p :
  p < limit -> walk_back g limit (S fuel) p = Some ([], p).
Proof. intros H. cbn [walk_back]. apply Nat.ltb_lt in H. now rewrite H. Qed.

Lemma walk_back_step g limit fuel s nd s' l p :
  limit <= s ->
  g_nodes g !! s = Some nd ->
  input_sources g s = [s'] ->
  walk_back g limit fuel s' = Some (l, p) ->
  walk_back g limit (S fuel) s = Some (nd :: l, p).
Proof.
  intros Hs Hnd Hsrc Hrest. cbn [walk_back]. apply Nat.ltb_ge in Hs.
  now rewrite Hs, Hnd, Hsrc, Hrest.
Qed.

Lemma needs_conversion_lookup nodes format srcs i s nd :
  srcs !! i = Some s -> nodes !! s = Some nd ->
  needs_conversion nodes format srcs !! i
  = Some (negb (CompilerDataFormat_eqb (n_format nd) format)).
Proof.
  intros Hs Hnd. unfold needs_conversion.
  change (map ?f ?l) with (f <$> l). rewrite list_lookup_fmap, Hs. cbn. now rewrite Hnd.
Qed.

Lemma needs_requantize_lookup nodes q srcs i s nd :
  srcs !! i = Some s -> nodes !! s = Some nd ->
  needs_requantize nodes q srcs !! i
  = Some (negb (QuantizationInfo_eqb (n_quant nd) q)).
Proof.
  intros Hs Hnd. unfold needs_requantize.
  change (map ?f ?l) with (f <$> l). rewrite list_lookup_fmap, Hs. cbn. now rewrite Hnd.
Qed.

Lemma concat_graph_chain g cat oi format ps i input p pn :
  graph_wf g ->
  Forall (fun p => p < length (g_nodes g)) ps ->
  length ps = length (op_inputs (cat_op cat)) ->
  op_inputs (cat_op cat) !! i = Some input ->
  ps !! i = Some p ->
  g_nodes g !! p = Some pn ->
  n_quant pn = m_QuantizationInfo (opd_info input) ->
  input_chain (concat_graph g cat oi format ps) (length (g_nodes g)) i
  = Some ((if negb (QuantizationInfo_eqb (m_QuantizationInfo (opd_info input))
                                         (m_QuantizationInfo oi))
           then [requantize_node format (op_id (cat_op cat)) (m_QuantizationInfo oi) input]
           else [])
          ++ (if negb (CompilerDataFormat_eqb (n_format pn) format)
              then [conversion_node format (op_id (cat_op cat)) input]
              else []),
          p).
Proof.
  intros Hwf Hlt Hlen Hinput Hp Hpn Hq.
  unfold concat_graph.
  set (n := length (g_nodes g)).
  set (concat := MkNode (ConcatNode (ci_Axis (cat_info cat))) (m_Dimensions oi)
                        (ci_OutputQuantizationInfo (cat_info cat)) format
                        {[ op_id (cat_op cat) ]}).
  set (nodes1 := g_nodes g ++ [concat]).
  set (flags1 := needs_conversion nodes1 format ps).
  set (a1 := assign (length nodes1) flags1).
  set (srcs1 := spliced_srcs a1 ps).
  set (cvs := map (conversion_node format (op_id (cat_op cat))) (op_inputs (cat_op cat))).
  set (nodes2 := nodes1 ++ selected flags1 cvs).
  set (outQ := m_QuantizationInfo oi).
  set (flags2 := needs_requantize nodes2 outQ srcs1).
  set (a2 := assign (length nodes2) flags2).
  set (rqs := map (requantize_node format (op_id (cat_op cat)) outQ) (op_inputs (cat_op cat))).
  set (nodes3 := nodes2 ++ selected flags2 rqs).
  set (edges3 := g_edges g ++ slot_edges n (spliced_srcs a2 srcs1)
                   ++ spliced_edges a1 ps ++ spliced_edges a2 srcs1).
  set (conv := negb (CompilerDataFormat_eqb (n_format pn) format)).
  set (req := negb (QuantizationInfo_eqb (m_QuantizationInfo (opd_info input)) outQ)).
  assert (Hpn0 : p < n) by (eapply lookup_lt_Some; exact Hpn).
  assert (Hn1 : length nodes1 = S n) by (subst nodes1; rewrite length_app; cbn; lia).
  assert (Hl1 : length flags1 = length ps) by apply length_needs_conversion.
  assert (Hlcv : length cvs = length ps) by (subst cvs; rewrite length_map; congruence).
  assert (Hlrq : length rqs = length ps) by (subst rqs; rewrite length_map; congruence).
  assert (Hn2 : length nodes2 = S n + count_true flags1).
  { subst nodes2. rewrite length_app, length_selected by congruence. lia. }
  assert (Hls : length srcs1 = length ps) by apply length_spliced_srcs.
  assert (Hl2 : length flags2 = length srcs1) by apply length_needs_requantize.
  (* the edges that were there, and those of the first phase *)
  assert (He0 : Forall (fun e => e_dst e < n) (g_edges g)) by exact Hwf.
  assert (He1 : Forall (fun e => S n <= e_dst e < length nodes2) (spliced_edges a1 ps)).
  { rewrite Hn2, <- Hn1. apply spliced_edges_dst. }
  assert (He2 : Forall (fun e => length nodes2 <= e_dst e) (spliced_edges a2 srcs1)).
  { eapply Forall_impl; [apply (spliced_edges_dst flags2 (length nodes2) srcs1)|].
    cbn. intros; lia. }
  (* first phase *)
  assert (Hf1 : flags1 !! i = Some conv).
  { apply (needs_conversion_lookup nodes1 format ps i p pn Hp).
    subst nodes1. now rewrite lookup_app_l. }
  set (m1 := length nodes1 + count_true (take i flags1)).
  assert (Hs1 : srcs1 !! i = Some (if conv then m1 else p)).
  { destruct conv.
    - apply (spliced_srcs_lookup a1 ps i (Some m1) p); [|exact Hp].
      now apply assign_lookup_true.
    - apply (spliced_srcs_lookup a1 ps i None p); [|exact Hp].
      now apply assign_lookup_false. }
  assert (Hm1 : conv = true -> S n <= m1 < length nodes2).
  { intros Hc. rewrite Hc in Hf1. pose proof (count_true_take_lt _ _ Hf1). lia. }
  assert (Hcv : cvs !! i = Some (conversion_node format (op_id (cat_op cat)) input)).
  { subst cvs. change (map ?f ?l) with (f <$> l). now rewrite list_lookup_fmap, Hinput. }
  assert (Hnode1 : exists nd1,
            nodes2 !! (if conv then m1 else p) = Some nd1 /\
            n_quant nd1 = m_QuantizationInfo (opd_info input) /\
            nd1 = (if conv then conversion_node format (op_id (cat_op cat)) input else pn)).
  { destruct conv eqn:Hc.
    - exists (conversion_node format (op_id (cat_op cat)) input).
      split; [|split; reflexivity].
      subst nodes2. rewrite lookup_app_r by lia.
      replace (m1 - length nodes1) with (count_true (take i flags1)) by lia.
      now apply selected_lookup.
    - exists pn. split; [|split; [exact Hq | reflexivity]].
      subst nodes2 nodes1. rewrite <- app_assoc. now rewrite lookup_app_l. }
  destruct Hnode1 as (nd1 & Hnd1 & Hq1 & End1).
  (* second phase *)
  assert (Hf2 : flags2 !! i = Some req).
  { subst req. rewrite <- Hq1.
    apply (needs_requantize_lookup nodes2 outQ srcs1 i (if conv then m1 else p) nd1 Hs1 Hnd1). }
  set (m2 := length nodes2 + count_true (take i flags2)).
  assert (Hs2 : spliced_srcs a2 srcs1 !! i = Some (if req then m2 else if conv then m1 else p)).
  { destruct req.
    - apply (spliced_srcs_lookup a2 srcs1 i (Some m2) (if conv then m1 else p)); [|exact Hs1].
      now apply assign_lookup_true.
    - apply (spliced_srcs_lookup a2 srcs1 i None (if conv then m1 else p)); [|exact Hs1].
      now apply assign_lookup_false. }
  (* the sources of the concat node *)
  assert (Hsrc : input_sources (MkGraph nodes3 edges3) n = spliced_srcs a2 srcs1).
  { apply (input_sources_slots _ (g_edges g) n _
             (spliced_edges a1 ps ++ spliced_edges a2 srcs1)); [reflexivity| |].
    - eapply Forall_impl; [exact He0|]. cbn. intros; lia.
    - apply Forall_app. split.
      + eapply Forall_impl; [exact He1|]. cbn. intros; lia.
      + eapply Forall_impl; [exact He2|]. cbn. intros; lia. }
  (* walking back from the source after the first phase *)
  assert (Hwalk1 : forall fuel,
            walk_back (MkGraph nodes3 edges3) n (S (S fuel)) (if conv then m1 else p)
            = Some (if conv then [conversion_node format (op_id (cat_op cat)) input] else [],
                    p)).
  { intros fuel. destruct conv eqn:Hc.
    - destruct (Hm1 eq_refl) as [Hm1a Hm1b].
      apply (walk_back_step _ n _ m1 _ p); [lia| | |now apply walk_back_old].
      + cbn [g_nodes]. subst nodes3. rewrite lookup_app_l by lia. now rewrite Hnd1, End1.
      + etransitivity;
          [exact (phase_frame nodes2 nodes3 (g_edges g) n srcs1 (spliced_srcs a2 srcs1)
                    (spliced_edges a1 ps) flags2 (length nodes2) m1
                    ltac:(lia) ltac:(lia))|].
        apply (phase_new_node nodes2 (g_edges g) n srcs1 [] flags1 ps (length nodes1) i p);
          [|constructor|lia|exact Hl1|exact Hf1|exact Hp].
        eapply Forall_impl; [exact He0|]. cbn. intros; lia.
    - now apply walk_back_old. }
  unfold input_chain. rewrite Hsrc, Hs2.
  destruct req eqn:Hr.
  - cbn [app].
    assert (Hm2 : length nodes2 <= m2) by (subst m2; lia).
    apply (walk_back_step _ n _ m2 _ (if conv then m1 else p)); [lia| | |apply Hwalk1].
    + cbn [g_nodes]. subst nodes3. rewrite lookup_app_r by lia.
      replace (m2 - length nodes2) with (count_true (take i flags2)) by lia.
      apply selected_lookup; [exact Hf2|].
      subst rqs. change (map ?f ?l) with (f <$> l). now rewrite list_lookup_fmap, Hinput.
    + subst edges3.
      apply (phase_new_node nodes3 (g_edges g) n (spliced_srcs a2 srcs1)
               (spliced_edges a1 ps) flags2 srcs1 (length nodes2) i);
        [| |lia|exact Hl2|exact Hf2|exact Hs1].
      * eapply Forall_impl; [exact He0|]. cbn. intros; lia.
      * eapply Forall_impl; [exact He1|]. cbn. intros; lia.
  - cbn [app]. apply Hwalk1.
Qed.

End Chains.

Lemma concat_graph_sources g cat oi format ps :
  graph_wf g ->
  length (input_sources (concat_graph g cat oi format ps) (length (g_nodes g)))
  = length ps.
Proof.
  intros Hwf. unfold concat_graph, input_sources. cbn [g_edges].
  rewrite !filter_app.
  rewrite (filter_dst_none (g_edges g))
    by (eapply Forall_impl; [exact Hwf|]; cbn; intros; lia).
  rewrite filter_dst_slots.
  rewrite (filter_dst_none (spliced_edges _ ps)).
  2:{ eapply Forall_impl; [apply spliced_edges_dst|]. cbn. intros e He.
      rewrite length_app in He. cbn in He. lia. }
  rewrite (filter_dst_none (spliced_edges _ _)).
  2:{ eapply Forall_impl; [apply spliced_edges_dst|]. cbn. intros e He.
      rewrite !length_app in He. cbn in He. lia. }
  rewrite app_nil_l, !app_nil_r, length_fmap, length_slot_edges.
  now rewrite !length_spliced_srcs.
Qed.

(** C6: for a supported concatenation along [axis], the layout of the
    concat node is NHWCB exactly when the extent of every input along the
    axis is a multiple of the brick group's, and NHWC otherwise. Once the
    concat node is connected to the producers of its inputs, a first pass
    collects one FormatConversion node for each input whose producer has
    another layout, leaving the edges as they are, and then splices them;
    a second pass does the same with one Requantize node, to the output
    quantization, for each input whose quantization is not the output's.
    In the resulting graph the input [i] of the concat node carries exactly
    those nodes: the Requantize node (if any) next to the concat node, the
    FormatConversion node (if any) behind it, then the producer. *)
Theorem concat_layout_and_splices IsConcatenationSupported cat c oi ps b :
  let op := cat_op cat in
  let axis := ci_Axis (cat_info cat) in
  let n := length (g_nodes (m_Graph c)) in
  IsConcatenationSupported (map opd_info (op_inputs op)) (cat_info cat) = Supported ->
  m_EstimationMode c = true \/ ~ has_shared_input op ->
  op_outputs op = [oi] ->
  producers_of (m_OperandToNode c) (op_inputs op) = Some ps ->
  graph_wf (m_Graph c) ->
  (forall i input p, op_inputs op !! i = Some input -> ps !! i = Some p ->
     producer_matches (m_Graph c) input p) ->
  0 <= axis <= 3 ->
  shape_get (GetBrickGroupShape (m_Capabilities c)) axis = Some b ->
  b <> 0 ->
  exists c' format,
    Visit_Concatenation IsConcatenationSupported cat c = Ok tt c' /\
    (* the layout *)
    (format = NHWCB <-> all_multiples axis b (map opd_info (op_inputs op))) /\
    (format = NHWCB \/ format = NHWC) /\
    (* the concat node *)
    m_OperandToNode c' !! output_key op 0 = Some n /\
    g_nodes (m_Graph c') !! n
    = Some (MkNode (ConcatNode axis) (m_Dimensions oi)
                   (ci_OutputQuantizationInfo (cat_info cat)) format {[ op_id op ]}) /\
    length (input_sources (m_Graph c') n) = length (op_inputs op) /\
    (* what is spliced onto each input *)
    (forall i input p pn,
       op_inputs op !! i = Some input -> ps !! i = Some p ->
       g_nodes (m_Graph c) !! p = Some pn ->
       input_chain (m_Graph c') n i = Some (expected_splices cat oi format input pn, p)) /\
    (* the two passes *)
    (exists L1 c2 c3 L2 c4,
       let c1 := concat_connected c cat oi format ps in
       input_sources (m_Graph c1) n = ps /\
       collect_conversions n format (op_id op) 0 (op_inputs op) c1 = Ok L1 c2 /\
       g_edges (m_Graph c2) = g_edges (m_Graph c1) /\
       splice_all L1 c2 = Ok tt c3 /\
       collect_requantizes n format (op_id op) (m_QuantizationInfo oi) 0 (op_inputs op) c3
       = Ok L2 c4 /\
       g_edges (m_Graph c4) = g_edges (m_Graph c3) /\
       splice_all L2 c4 = Ok tt c').
Proof.
  intros op axis n Hsup Hshared Hout Hps Hwf Hprod Hax Hb Hb0.
  pose proof (producers_of_length _ _ _ Hps) as Hlen.
  assert (Hlt : Forall (fun p => (p < length (g_nodes (m_Graph c)))%nat) ps).
  { apply Forall_lookup. intros i p Hp.
    destruct (lookup_lt_is_Some_2 (op_inputs op) i) as [input Hinput].
    { rewrite <- Hlen. eapply lookup_lt_Some. exact Hp. }
    destruct (Hprod i input p Hinput Hp) as (pn & Hpn & _).
    eapply lookup_lt_Some. exact Hpn. }
  destruct (choose_format_spec axis (GetBrickGroupShape (m_Capabilities c))
              (map opd_info (op_inputs op)) b Hax Hb Hb0) as (format & Hfmt & Hiff).
  pose proof (Visit_Concatenation_eq IsConcatenationSupported cat c oi ps format
                Hsup Hshared Hout Hps Hwf Hlt Hfmt) as Hrun.
  destruct (concat_trace cat c oi ps format Hwf Hlt Hlen)
    as (L1 & c2 & c3 & L2 & c4 & E1 & Ee1 & E2 & E3 & Ee2 & E4).
  eexists _, format. split; [exact Hrun|].
  split; [exact Hiff|].
  split; [destruct format; auto|].
  split; [apply lookup_insert_eq|].
  split.
  { cbn [m_Graph]. unfold concat_graph. cbn [g_nodes].
    rewrite <- !app_assoc. now apply list_lookup_middle. }
  split.
  { cbn [m_Graph]. etransitivity; [|exact Hlen].
    exact (concat_graph_sources _ cat oi format ps Hwf). }
  split.
  { intros i input p pn Hinput Hp Hpn.
    destruct (Hprod i input p Hinput Hp) as (pn' & Hpn' & Hq).
    assert (pn' = pn) by congruence. subst pn'.
    apply (concat_graph_chain (m_Graph c) cat oi format ps i input p pn
             Hwf Hlt Hlen Hinput Hp Hpn Hq). }
  exists L1, c2, c3, L2, c4. cbn zeta.
  split.
  { apply (input_sources_slots _ (g_edges (m_Graph c)) n ps []).
    - cbn. now rewrite app_nil_r.
    - eapply Forall_impl; [exact Hwf|]. cbn. subst n. intros; lia.
    - constructor. }
  split; [exact E1|]. split; [exact Ee1|]. split; [exact E2|].
  split; [exact E3|]. split; [exact Ee2|]. exact E4.
Qed.

Lemma concat_layout_and_splices_witness :
  exists c' format,
    Visit_Concatenation (fun _ _ => Supported) concat_3_5 after_two_inputs = Ok tt c' /\
    (format = NHWCB <-> all_multiples 3 16 (map opd_info concat_inputs)) /\
    m_OperandToNode c' !! output_key (cat_op concat_3_5) 0 = Some 2%nat /\
    (forall i input p pn,
       concat_inputs !! i = Some input -> [0%nat; 1%nat] !! i = Some p ->
       g_nodes (m_Graph after_two_inputs) !! p = Some pn ->
       input_chain (m_Graph c') 2 i
       = Some (expected_splices concat_3_5 (tinfo (Shape 1 8 8 8)) format input pn, p)).
Proof.
  assert (Hshared : m_EstimationMode after_two_inputs = true \/
                    ~ has_shared_input (cat_op concat_3_5)).
  { right. intros (it & Hin & Hlt). cbn in Hin.
    apply elem_of_cons in Hin as [->|Hin]; [cbn in Hlt; lia|].
    apply elem_of_cons in Hin as [->|Hin]; [cbn in Hlt; lia|]. inversion Hin. }
  assert (Hps : producers_of (m_OperandToNode after_two_inputs)
                  (op_inputs (cat_op concat_3_5)) = Some [0%nat; 1%nat])
    by (vm_compute; reflexivity).
  assert (Hwf : graph_wf (m_Graph after_two_inputs)) by constructor.
  assert (Hprod : forall i input p,
            op_inputs (cat_op concat_3_5) !! i = Some input ->
            [0%nat; 1%nat] !! i = Some p ->
            producer_matches (m_Graph after_two_inputs) input p).
  { intros [|[|i]] input p Hi Hp; cbn in Hi, Hp; try discriminate.
    - injection Hi as <-. injection Hp as <-. eexists. split; reflexivity.
    - injection Hi as <-. injection Hp as <-. eexists. split; reflexivity. }
  destruct (concat_layout_and_splices (fun _ _ => Supported) concat_3_5 after_two_inputs
              (tinfo (Shape 1 8 8 8)) [0%nat; 1%nat] 16
              eq_refl Hshared eq_refl Hps Hwf Hprod ltac:(cbn; lia) eq_refl ltac:(lia))
    as (c' & format & Hrun & Hiff & _ & Hbound & _ & _ & Hchain & _).
  exists c', format. split; [exact Hrun|]. split; [exact Hiff|].
  split; [exact Hbound|exact Hchain].
Defined.

(** Scenario S5 of the specification: inputs of 3 and 5 channels, brick
    groups of 16 channels, producers in NHWCB. The layout is NHWC, both
    inputs get a format conversion (nodes 3 and 4) and the second one, whose
    scale is not the output's, a requantize node (node 5) after it. *)
Example concat_3_5_graph :
  Visit_Concatenation (fun _ _ => Supported) concat_3_5 after_two_inputs
  = Ok tt (MkConverter
             (MkGraph [MkNode InputNode (Shape 1 8 8 3) q_unit NHWCB {[ 1 ]};
                       MkNode InputNode (Shape 1 8 8 5) q_half NHWCB {[ 2 ]};
                       MkNode (ConcatNode 3) (Shape 1 8 8 8) q_unit NHWC {[ 9 ]};
                       MkNode FormatConversionNode (Shape 1 8 8 3) q_unit NHWC {[ 9 ]};
                       MkNode FormatConversionNode (Shape 1 8 8 5) q_half NHWC {[ 9 ]};
                       MkNode RequantizeNode (Shape 1 8 8 5) q_unit NHWC {[ 9 ]}]
                      [MkEdge 3 2; MkEdge 5 2; MkEdge 0 3; MkEdge 1 4; MkEdge 4 5])
             (<[ (9, 0%nat) := 2%nat ]>
                (<[ (2, 0%nat) := 1%nat ]> {[ (1, 0%nat) := 0%nat ]}))
             false (MkCapabilities (Shape 1 8 8 16))).
Proof. vm_compute. reflexivity. Qed.

Example concat_3_5_chains :
  let g := MkGraph [MkNode InputNode (Shape 1 8 8 3) q_unit NHWCB {[ 1 ]};
                    MkNode InputNode (Shape 1 8 8 5) q_half NHWCB {[ 2 ]};
                    MkNode (ConcatNode 3) (Shape 1 8 8 8) q_unit NHWC {[ 9 ]};
                    MkNode FormatConversionNode (Shape 1 8 8 3) q_unit NHWC {[ 9 ]};
                    MkNode FormatConversionNode (Shape 1 8 8 5) q_half NHWC {[ 9 ]};
                    MkNode RequantizeNode (Shape 1 8 8 5) q_unit NHWC {[ 9 ]}]
                   [MkEdge 3 2; MkEdge 5 2; MkEdge 0 3; MkEdge 1 4; MkEdge 4 5] in
  (fst <$> input_chain g 2 0) = Some [MkNode FormatConversionNode (Shape 1 8 8 3) q_unit NHWC {[ 9 ]}] /\
  (fst <$> input_chain g 2 1)
  = Some [MkNode RequantizeNode (Shape 1 8 8 5) q_unit NHWC {[ 9 ]};
          MkNode FormatConversionNode (Shape 1 8 8 5) q_half NHWC {[ 9 ]}].
Proof. split; vm_compute; reflexivity. Qed.

(* ================================================================== *)
(** * The chain connector *)

Lemma last_seq n k : last (seq n (S k)) = Some (n + k)%nat.
Proof.
  rewrite seq_S, last_snoc. reflexivity.
Qed.

(** Nodes appended by a rule and connected as a chain. *)
Lemma chain_lowered_eq c op new ps :
  new <> [] ->
  (length (op_outputs op) <= 1)%nat ->
  producers_of (m_OperandToNode c) (op_inputs op) = Some ps ->
  ConnectNodeChain op (seq (length (g_nodes (m_Graph c))) (length new))
    (set_graph (MkGraph (g_nodes (m_Graph c) ++ new) (g_edges (m_Graph c))) c)
  = Ok tt (chain_lowered c op new ps).
Proof.
  intros Hne Hout Hps. destruct new as [|nd rest]; [contradiction|].
  erewrite ConnectNodeChain_eq;
    [|exact Hout|reflexivity|apply last_seq|destruct c; exact Hps].
  unfold chain_connected, chain_lowered. destruct c as [[ns es] m em cp].
  cbn [m_Graph g_nodes g_edges set_graph m_OperandToNode m_EstimationMode m_Capabilities length].
  replace (length ns + S (length rest) - 1)%nat with (length ns + length rest)%nat by lia.
  reflexivity.
Qed.

Lemma seq_snoc_refs {A} n (l : list A) x :
  seq n (length l) ++ [(length l + n)%nat] = seq n (length (l ++ [x])).
Proof. rewrite length_app, seq_app. cbn. now rewrite Nat.add_comm. Qed.

Lemma successive_edges_lookup nodes : forall i a b,
  nodes !! i = Some a -> nodes !! S i = Some b ->
  successive_edges nodes !! i = Some (MkEdge a b).
Proof.
  induction nodes as [|x [|y rest] IH]; intros i a b Ha Hb.
  - now rewrite lookup_nil in Ha.
  - apply lookup_lt_Some in Hb. cbn in Hb. lia.
  - change (successive_edges (x :: y :: rest))
      with (MkEdge x y :: successive_edges (y :: rest)).
    destruct i as [|i].
    + cbn in Ha, Hb. injection Ha as <-. injection Hb as <-. reflexivity.
    + cbn [lookup list_lookup]. apply IH; assumption.
Qed.

Lemma successive_edges_length nodes :
  length (successive_edges nodes) = (length nodes - 1)%nat.
Proof.
  induction nodes as [|x [|y rest] IH]; try reflexivity.
  change (successive_edges (x :: y :: rest))
    with (MkEdge x y :: successive_edges (y :: rest)).
  cbn [length] in *. lia.
Qed.

Lemma connect_inputs_unbound front inputs : forall c,
  producers_of (m_OperandToNode c) inputs = None ->
  for_each inputs (fun o =>
    let* p := operand_node_at (operand_key o) in on_graph (Connect p front)) c
  = Throw OutOfRange
      (set_graph (MkGraph (g_nodes (m_Graph c))
                          (g_edges (m_Graph c)
                             ++ map (fun p => MkEdge p front)
                                    (producers_until_unbound (m_OperandToNode c) inputs))) c).
Proof.
  induction inputs as [|o rest IH]; intros c Hps; [discriminate|].
  cbn [producers_of producers_until_unbound] in *.
  cbn [for_each]. unfold bind at 1. unfold bind at 1. unfold operand_node_at at 1.
  destruct (m_OperandToNode c !! operand_key o) as [p|] eqn:Hp.
  - rewrite connect_eq.
    destruct (producers_of (m_OperandToNode c) rest) as [ps'|] eqn:Hr; [discriminate|].
    rewrite IH by (destruct c; exact Hr).
    destruct c as [[ns es] m em cp]. cbn. now rewrite <- app_assoc.
  - destruct c as [[ns es] m em cp]. cbn. now rewrite app_nil_r.
Qed.

(** X1: the chain connector. With at most one declared output, a chain
    that has a first and a last node, and every input operand bound to a
    node, it succeeds; it creates no node, appends one edge between each
    two successive nodes of the chain, then one edge from the producer of
    each input, in the order of the inputs, to the first node of the chain,
    and binds the output, if there is one, to the last node of the chain. *)
Theorem connect_node_chain_effect op nodes front back ps c :
  (length (op_outputs op) <= 1)%nat ->
  head nodes = Some front ->
  last nodes = Some back ->
  producers_of (m_OperandToNode c) (op_inputs op) = Some ps ->
  exists c',
    ConnectNodeChain op nodes c = Ok tt c' /\
    g_nodes (m_Graph c') = g_nodes (m_Graph c) /\
    g_edges (m_Graph c')
    = g_edges (m_Graph c) ++ successive_edges nodes ++ map (fun p => MkEdge p front) ps /\
    length (successive_edges nodes) = (length nodes - 1)%nat /\
    (forall i a b, nodes !! i = Some a -> nodes !! S i = Some b ->
       successive_edges nodes !! i = Some (MkEdge a b)) /\
    length ps = length (op_inputs op) /\
    (forall i o, op_inputs op !! i = Some o ->
       m_OperandToNode c !! operand_key o = ps !! i) /\
    m_OperandToNode c'
    = match op_outputs op with
      | [] => m_OperandToNode c
      | _ :: _ => <[output_key op 0 := back]> (m_OperandToNode c)
      end /\
    m_EstimationMode c' = m_EstimationMode c /\
    m_Capabilities c' = m_Capabilities c.
Proof.
  intros Hout Hf Hb Hps.
  exists (chain_connected op nodes front back ps c).
  split; [now apply ConnectNodeChain_eq|].
  split; [reflexivity|]. split; [reflexivity|].
  split; [apply successive_edges_length|].
  split; [apply successive_edges_lookup|].
  split; [now apply (producers_of_length (m_OperandToNode c))|].
  split.
  - clear Hout. revert ps Hps. generalize (m_OperandToNode c) as m.
    induction (op_inputs op) as [|o' rest IH]; intros m ps Hps i o Hi; [discriminate|].
    cbn [producers_of] in Hps.
    destruct (m !! operand_key o') as [p|] eqn:Hp; [|discriminate].
    destruct (producers_of m rest) as [ps'|] eqn:Hr; [|discriminate].
    injection Hps as <-. destruct i as [|i].
    + cbn in Hi. injection Hi as <-. exact Hp.
    + cbn [lookup list_lookup] in *. now apply (IH m ps').
  - unfold chain_connected. cbn [m_OperandToNode m_EstimationMode m_Capabilities].
    split; [|split; reflexivity]. now destruct (op_outputs op).
Qed.

Lemma connect_node_chain_effect_witness :
  exists c',
    ConnectNodeChain (MkOperation 5 [input_operand (Shape 1 4 4 1) [5]] [tinfo (Shape 1 4 4 1)])
                     [1; 2; 3]%nat (after_input (Shape 1 4 4 1) NHWCB false) = Ok tt c' /\
    g_edges (m_Graph c') = [MkEdge 1 2; MkEdge 2 3; MkEdge 0 1] /\
    m_OperandToNode c' !! (5, 0%nat) = Some 3%nat.
Proof.
  destruct (connect_node_chain_effect
              (MkOperation 5 [input_operand (Shape 1 4 4 1) [5]] [tinfo (Shape 1 4 4 1)])
              [1; 2; 3]%nat 1%nat 3%nat [0%nat] (after_input (Shape 1 4 4 1) NHWCB false))
    as (c' & Hrun & _ & He & _ & _ & _ & _ & Hm & _).
  - cbn. lia.
  - reflexivity.
  - reflexivity.
  - reflexivity.
  - exists c'. split; [exact Hrun|]. split; [exact He|].
    rewrite Hm. apply lookup_insert_eq.
Defined.

(** X2: the ways the chain connector fails. An operation with more than
    one declared output fails the assertion before anything is changed.
    When some input operand has no node, [at] throws the out-of-range
    exception only after the edges of the chain, and the edges from the
    producers of the inputs before the first unbound one, have been added;
    the output is not bound. *)
Theorem connect_node_chain_failures op nodes c :
  ((1 < length (op_outputs op))%nat ->
   ConnectNodeChain op nodes c
   = Throw (AssertionFailure "operation.GetOutputs().size() <= 1") c) /\
  (forall front,
     (length (op_outputs op) <= 1)%nat ->
     head nodes = Some front ->
     producers_of (m_OperandToNode c) (op_inputs op) = None ->
     ConnectNodeChain op nodes c
     = Throw OutOfRange
         (set_graph
            (MkGraph (g_nodes (m_Graph c))
                     (g_edges (m_Graph c) ++ successive_edges nodes
                        ++ map (fun p => MkEdge p front)
                               (producers_until_unbound (m_OperandToNode c) (op_inputs op))))
            c)).
Proof.
  split.
  - intros Hout. unfold ConnectNodeChain.
    assert (Hle : Nat.leb (length (op_outputs op)) 1 = false) by (apply Nat.leb_gt; lia).
    rewrite Hle. reflexivity.
  - intros front Hout Hf Hps. unfold ConnectNodeChain.
    assert (Hle : Nat.leb (length (op_outputs op)) 1 = true) by now apply Nat.leb_le.
    rewrite Hle, Hf. cbn [assert].
    assert (Hl : exists back, last nodes = Some back).
    { destruct nodes as [|x rest]; [discriminate|].
      destruct (last (x :: rest)) eqn:E; [eauto|].
      apply last_None in E. discriminate. }
    destruct Hl as (back & Hl). rewrite Hl. cbn [defined].
    unfold bind at 1. cbn [ret]. unfold bind at 1. cbn [ret]. unfold bind at 1. cbn [ret].
    unfold bind at 1. erewrite on_graph_Ok by apply connect_successive_eq.
    unfold bind at 1. rewrite connect_inputs_unbound by (destruct c; exact Hps).
    destruct c as [[ns es] m em cp]. cbn. now rewrite <- app_assoc.
Qed.

Lemma connect_node_chain_failures_witness :
  ConnectNodeChain (MkOperation 5 [] [tinfo (Shape 1 1 1 1); tinfo (Shape 1 1 1 1)])
                   [0%nat] (after_input (Shape 1 4 4 1) NHWCB false)
  = Throw (AssertionFailure "operation.GetOutputs().size() <= 1")
          (after_input (Shape 1 4 4 1) NHWCB false) /\
  final_state
    (ConnectNodeChain
       (MkOperation 5 [input_operand (Shape 1 4 4 1) [5];
                       MkOperand 2 0 (tinfo (Shape 1 4 4 1)) [5]] [tinfo (Shape 1 4 4 1)])
       [0; 0]%nat (after_input (Shape 1 4 4 1) NHWCB false))
  = MkConverter (MkGraph [MkNode InputNode (Shape 1 4 4 1) q_unit NHWCB {[ 1 ]}]
                         [MkEdge 0 0; MkEdge 0 0])
                {[ (1, 0%nat) := 0%nat ]} false (MkCapabilities (Shape 1 8 8 16)).
Proof.
  split.
  - apply (proj1 (connect_node_chain_failures _ _ _)). cbn. lia.
  - rewrite (proj2 (connect_node_chain_failures _ _ _) 0%nat);
      [reflexivity|cbn; lia|reflexivity|reflexivity].
Defined.

(* ================================================================== *)
(** * Rules that lower to one chain *)

Lemma chain_lowered_output c op new ps nd oi :
  op_outputs op = [oi] ->
  last new = Some nd ->
  node_of_operand (chain_lowered c op new ps) (output_key op 0) = Some nd.
Proof.
  intros Hout Hl. unfold node_of_operand, chain_lowered. rewrite Hout.
  cbn [length Nat.ltb Nat.leb m_OperandToNode m_Graph g_nodes].
  rewrite lookup_insert_eq. cbn [mbind option_bind].
  destruct new as [|x rest _] using rev_ind; [discriminate|].
  rewrite last_snoc in Hl. injection Hl as ->.
  rewrite length_app. cbn [length].
  replace (length (g_nodes (m_Graph c)) + (length rest + 1) - 1)%nat
    with (length (g_nodes (m_Graph c) ++ rest) + 0)%nat by (rewrite length_app; lia).
  rewrite app_assoc. rewrite lookup_app_r by lia.
  now replace (length (g_nodes (m_Graph c) ++ rest) + 0 - length (g_nodes (m_Graph c) ++ rest))%nat
    with 0%nat by lia.
Qed.

Lemma create_more nd c new :
  on_graph (CreateAndAddNode nd)
    (set_graph (MkGraph (g_nodes (m_Graph c) ++ new) (g_edges (m_Graph c))) c)
  = Ok (length new + length (g_nodes (m_Graph c)))%nat
       (set_graph (MkGraph (g_nodes (m_Graph c) ++ (new ++ [nd])) (g_edges (m_Graph c))) c).
Proof.
  rewrite create_node_eq. destruct c as [[ns es] m em cp]. cbn.
  now rewrite length_app, <- app_assoc, Nat.add_comm.
Qed.

(** Run the next step of a rule on a converter it can be evaluated on. *)
Ltac run_step :=
  first [ rewrite create_more
        | rewrite create_node_eq
        | progress cbn [ret defined assert get_capabilities get_graph
                        get_estimation_mode lookup list_lookup]
        | unfold bind at 1 ].

(** The last step of a rule that connects the chain it has created. *)
Ltac finish_chain Hin Hout :=
  match goal with
  | |- _ = Ok tt (chain_lowered ?c ?op ?new ?ps) =>
      eapply (chain_lowered_eq c op new ps);
      [ first [discriminate | apply not_eq_sym, app_cons_not_nil]
      | rewrite Hout; cbn; lia
      | rewrite ?Hin; cbn; repeat match goal with H : _ !! _ = Some _ |- _ => rewrite H end;
        reflexivity ]
  end.

(** X3: a reshape of an input bound to a node in the layout NHWC becomes
    a Reinterpret node in NHWC followed by a FormatConversion to NHWCB;
    when the producer is in another layout a FormatConversion to NHWC, with
    the shape and quantization of the input, comes first. The nodes form one
    chain fed by the producer, and the output is bound to the final
    conversion, which has the declared shape and quantization. *)
Theorem reshape_chain reshape c input oi p pn :
  op_inputs reshape = [input] ->
  op_outputs reshape = [oi] ->
  m_OperandToNode c !! operand_key input = Some p ->
  g_nodes (m_Graph c) !! p = Some pn ->
  let id := op_id reshape in
  let back := MkNode FormatConversionNode (m_Dimensions oi) (m_QuantizationInfo oi)
                     NHWCB {[ id ]} in
  let chain :=
    (if CompilerDataFormat_eqb (n_format pn) NHWC then []
     else [MkNode FormatConversionNode (m_Dimensions (opd_info input))
                  (m_QuantizationInfo (opd_info input)) NHWC {[ id ]}])
    ++ [MkNode ReinterpretNode (m_Dimensions oi) (m_QuantizationInfo oi) NHWC {[ id ]};
        back] in
  Visit_Reshape reshape c = Ok tt (chain_lowered c reshape chain [p]) /\
  node_of_operand (chain_lowered c reshape chain [p]) (output_key reshape 0) = Some back.
Proof.
  intros Hin Hout Hp Hpn id back chain.
  split; [|apply (chain_lowered_output _ _ _ _ _ oi Hout); subst chain; now rewrite last_app].
  unfold Visit_Reshape, GetInputOperand, GetOutputInfo.
  rewrite Hin, Hout. repeat run_step.
  unfold operand_node at 1. rewrite Hp. repeat run_step.
  unfold GetFormat at 1. rewrite Hpn.
  cbn [fmap option_fmap option_map]. repeat run_step.
  subst chain. destruct (CompilerDataFormat_eqb (n_format pn) NHWC); cbn [negb app];
    repeat run_step; finish_chain Hin Hout.
Qed.

Lemma reshape_chain_witness :
  exists c',
    Visit_Reshape (unary_op 5 (Shape 1 4 4 1) (Shape 1 2 8 1))
                  (after_input (Shape 1 4 4 1) NHWCB false) = Ok tt c' /\
    g_nodes (m_Graph c')
    = [the_input_node (Shape 1 4 4 1) NHWCB;
       MkNode FormatConversionNode (Shape 1 4 4 1) q_unit NHWC {[ 5 ]};
       MkNode ReinterpretNode (Shape 1 2 8 1) q_unit NHWC {[ 5 ]};
       MkNode FormatConversionNode (Shape 1 2 8 1) q_unit NHWCB {[ 5 ]}] /\
    g_edges (m_Graph c') = [MkEdge 1 2; MkEdge 2 3; MkEdge 0 1].
Proof.
  eexists. split.
  - apply (reshape_chain (unary_op 5 (Shape 1 4 4 1) (Shape 1 2 8 1))
                         (after_input (Shape 1 4 4 1) NHWCB false)
                         (input_operand (Shape 1 4 4 1) [5]) (tinfo (Shape 1 2 8 1))
                         0%nat (the_input_node (Shape 1 4 4 1) NHWCB));
      reflexivity.
  - split; reflexivity.
Defined.

Lemma create_connect_eq op nd c oi ps :
  op_outputs op = [oi] ->
  producers_of (m_OperandToNode c) (op_inputs op) = Some ps ->
  (let* n := on_graph (CreateAndAddNode nd) in ConnectNode op n) c
  = Ok tt (chain_lowered c op [nd] ps).
Proof.
  intros Hout Hps. unfold ConnectNode. repeat run_step.
  eapply (chain_lowered_eq c op [nd] ps); [discriminate|rewrite Hout; cbn; lia|exact Hps].
Qed.

Lemma lower_estimate_only_eq op c oi ps :
  op_outputs op = [oi] ->
  producers_of (m_OperandToNode c) (op_inputs op) = Some ps ->
  lower_estimate_only op c
  = Ok tt (chain_lowered c op [estimate_only_node (op_id op) oi] ps).
Proof.
  intros Hout Hps. unfold lower_estimate_only, GetOutputInfo. rewrite Hout.
  repeat run_step. now apply create_connect_eq with (oi := oi).
Qed.

(* ================================================================== *)
(** * Convolution and depthwise convolution *)

Section Strided.

Variable GetNumSubmapChannels : Z -> Z -> Z -> Capabilities -> Z.

Lemma strided_head_unit op convInfo inputInfo c :
  ~ is_strided (ci_Stride convInfo) ->
  strided_head GetNumSubmapChannels op convInfo inputInfo c = Ok [] c.
Proof.
  intros Hs. unfold strided_head, is_strided in *.
  destruct (1 <? m_X (ci_Stride convInfo)) eqn:Ex; [apply Z.ltb_lt in Ex; tauto|].
  destruct (1 <? m_Y (ci_Stride convInfo)) eqn:Ey; [apply Z.ltb_lt in Ey; tauto|].
  reflexivity.
Qed.

Lemma strided_head_2x2 op convInfo inputInfo c :
  ci_Stride convInfo = MkStride 2 2 ->
  strided_head GetNumSubmapChannels op convInfo inputInfo c
  = Ok [length (g_nodes (m_Graph c))]
       (set_graph
          (MkGraph (g_nodes (m_Graph c)
                      ++ [interleave_node
                            (GetNumSubmapChannels (dim3 (m_Dimensions inputInfo)) 2 2
                                                  (m_Capabilities c))
                            (op_id op) (MkStride 2 2) inputInfo])
                   (g_edges (m_Graph c))) c).
Proof.
  intros Hs. unfold strided_head. rewrite Hs. cbn [m_X m_Y Z.ltb Z.compare orb Z.eqb andb].
  repeat run_step. reflexivity.
Qed.

Lemma strided_head_assert op convInfo inputInfo c :
  is_strided (ci_Stride convInfo) ->
  ci_Stride convInfo <> MkStride 2 2 ->
  strided_head GetNumSubmapChannels op convInfo inputInfo c
  = Throw (AssertionFailure "convInfo.m_Stride.m_X == 2 && convInfo.m_Stride.m_Y == 2") c.
Proof.
  intros Hs Hne. unfold strided_head, is_strided in *.
  assert (E : (1 <? m_X (ci_Stride convInfo)) || (1 <? m_Y (ci_Stride convInfo)) = true).
  { apply orb_true_iff. rewrite !Z.ltb_lt. exact Hs. }
  rewrite E.
  assert (E2 : (m_X (ci_Stride convInfo) =? 2) && (m_Y (ci_Stride convInfo) =? 2) = false).
  { apply andb_false_iff. rewrite !Z.eqb_neq.
    destruct (ci_Stride convInfo) as [x y]. cbn in *.
    destruct (Z.eq_dec x 2) as [->|]; [|tauto].
    destruct (Z.eq_dec y 2) as [->|]; [|tauto]. now contradict Hne. }
  rewrite E2. reflexivity.
Qed.

End Strided.

(** X4: a convolution the support query does not mark for estimation.
    With no stride above one it becomes a single MceOperation(CONVOLUTION)
    with the weights and bias as they are, the stride of the operation,
    upscale factor 1 and the top and left padding of the operation; with
    stride (2,2) an INTERLEAVE_2X2_2_2 node of shape
    (N, ceil(H/2), ceil(W/2), submap channels) comes first, and the
    convolution node still records the shape of the operation's input as its
    input shape; any other stride above one fails the assertion and leaves
    the converter as it was. *)
Theorem convolution_lowering IsConvolutionSupported GetNumSubmapChannels conv c input oi p :
  let op := conv_op conv in
  let info := conv_info conv in
  let w := conv_weights conv in
  IsConvolutionSupported (conv_biasInfo conv) (c_info w) info (opd_info input)
    <> EstimateOnly ->
  op_inputs op = [input] ->
  op_outputs op = [oi] ->
  m_OperandToNode c !! operand_key input = Some p ->
  let mce := convolution_node op input oi (c_info w) (c_data w) (conv_biasInfo conv)
                              (conv_biasData conv) info CONVOLUTION in
  let head := interleave_node
                (GetNumSubmapChannels (dim3 (m_Dimensions (opd_info input))) 2 2
                                      (m_Capabilities c))
                (op_id op) (MkStride 2 2) (opd_info input) in
  let result := Visit_Convolution IsConvolutionSupported GetNumSubmapChannels conv c in
  (~ is_strided (ci_Stride info) -> result = Ok tt (chain_lowered c op [mce] [p])) /\
  (ci_Stride info = MkStride 2 2 -> result = Ok tt (chain_lowered c op [head; mce] [p])) /\
  (is_strided (ci_Stride info) -> ci_Stride info <> MkStride 2 2 ->
   result
   = Throw (AssertionFailure "convInfo.m_Stride.m_X == 2 && convInfo.m_Stride.m_Y == 2") c).
Proof.
  intros op info w Hsup Hin Hout Hp mce head result.
  assert (Hrun : result
    = (let* nodes := strided_head GetNumSubmapChannels op info (opd_info input) in
       let* outInfo := GetOutputInfo op 0 in
       let* convNode :=
         on_graph (CreateAndAddNode
           (convolution_node op input outInfo (c_info w) (c_data w) (conv_biasInfo conv)
                             (conv_biasData conv) info CONVOLUTION)) in
       ConnectNodeChain op (nodes ++ [convNode])) c).
  { subst result. unfold Visit_Convolution, GetInputOperand. fold op info w.
    rewrite Hin. repeat run_step.
    destruct (IsConvolutionSupported _ _ _ _); [reflexivity|contradiction|reflexivity]. }
  rewrite Hrun. unfold GetOutputInfo. rewrite Hout. split; [|split].
  - intros Hs. unfold bind at 1. rewrite strided_head_unit by exact Hs.
    repeat run_step. cbn [app]. finish_chain Hin Hout.
  - intros Hs. unfold bind at 1. rewrite strided_head_2x2 by exact Hs.
    repeat run_step. cbn [app]. finish_chain Hin Hout.
  - intros Hs Hne. unfold bind at 1. now rewrite strided_head_assert.
Qed.

Lemma convolution_lowering_witness :
  (exists c',
     Visit_Convolution (always Supported) four_submaps (convolution_3x3 (MkStride 2 2))
                       (after_input (Shape 1 8 8 16) NHWCB false) = Ok tt c' /\
     n_shape <$> g_nodes (m_Graph c')
     = [Shape 1 8 8 16; Shape 1 4 4 64; Shape 1 8 8 32] /\
     g_edges (m_Graph c') = [MkEdge 1 2; MkEdge 0 1]) /\
  (exists c',
     Visit_Convolution (always Supported) four_submaps (convolution_3x3 (MkStride 1 1))
                       (after_input (Shape 1 8 8 16) NHWCB false) = Ok tt c' /\
     length (g_nodes (m_Graph c')) = 2%nat) /\
  Visit_Convolution (always Supported) four_submaps (convolution_3x3 (MkStride 3 3))
                    (after_input (Shape 1 8 8 16) NHWCB false)
  = Throw (AssertionFailure "convInfo.m_Stride.m_X == 2 && convInfo.m_Stride.m_Y == 2")
          (after_input (Shape 1 8 8 16) NHWCB false).
Proof.
  assert (H : forall stride,
    convolution_3x3 stride = convolution_3x3 stride ->
    always Supported (conv_biasInfo (convolution_3x3 stride))
           (c_info (conv_weights (convolution_3x3 stride)))
           (conv_info (convolution_3x3 stride))
           (opd_info (input_operand (Shape 1 8 8 16) [12])) <> EstimateOnly)
    by discriminate.
  pose proof (fun stride =>
    convolution_lowering (always Supported) four_submaps
      (convolution_3x3 stride) (after_input (Shape 1 8 8 16) NHWCB false)
      (input_operand (Shape 1 8 8 16) [12]) (tinfo (Shape 1 8 8 32)) 0%nat
      (H stride eq_refl) eq_refl eq_refl eq_refl) as L.
  split; [|split].
  - eexists. split; [apply (proj1 (proj2 (L (MkStride 2 2)))); reflexivity|].
    split; reflexivity.
  - eexists. split; [apply (proj1 (L (MkStride 1 1)))|reflexivity].
    intros [H1|H1]; vm_compute in H1; discriminate H1.
  - apply (proj2 (proj2 (L (MkStride 3 3)))); [left; reflexivity|discriminate].
Defined.

Lemma with_nodes_nil c : with_nodes c [] = c.
Proof. destruct c as [[ns es] m em cp]. unfold with_nodes. cbn. now rewrite app_nil_r. Qed.

Lemma strided_head_ok GetNumSubmapChannels op convInfo inputInfo c :
  stride_accepted (ci_Stride convInfo) ->
  let head :=
    strided_head_nodes
      (GetNumSubmapChannels (dim3 (m_Dimensions inputInfo)) (m_X (ci_Stride convInfo))
                            (m_Y (ci_Stride convInfo)) (m_Capabilities c))
      (op_id op) (ci_Stride convInfo) inputInfo in
  strided_head GetNumSubmapChannels op convInfo inputInfo c
  = Ok (seq (length (g_nodes (m_Graph c))) (length head)) (with_nodes c head).
Proof.
  intros [Hs|Hs] head.
  - rewrite strided_head_unit by exact Hs. subst head. unfold strided_head_nodes.
    unfold is_strided in Hs.
    destruct (1 <? m_X (ci_Stride convInfo)) eqn:Ex; [apply Z.ltb_lt in Ex; tauto|].
    destruct (1 <? m_Y (ci_Stride convInfo)) eqn:Ey; [apply Z.ltb_lt in Ey; tauto|].
    cbn [orb length seq]. now rewrite with_nodes_nil.
  - rewrite strided_head_2x2 by exact Hs. subst head. rewrite Hs. reflexivity.
Qed.

(** X5: a depthwise convolution the support query does not mark for
    estimation, with a stride the rule accepts. After the strided head, if
    any, the rule emits one MCE node: DEPTHWISE_CONVOLUTION with the weights
    as they are when the channel multiplier (dimension 3 of the weights) is
    at most one; CONVOLUTION with the same weights relabelled HWIO when the
    multiplier is above one and there is one input channel. With a
    multiplier above one and another number of input channels the assertion
    fails, after the strided head has already been added to the graph. *)
Theorem depthwise_convolution_lowering IsDepthwiseConvolutionSupported GetNumSubmapChannels
    dw c input oi p :
  let op := dw_op dw in
  let info := dw_info dw in
  let w := dw_weights dw in
  let wdims := m_Dimensions (c_info w) in
  IsDepthwiseConvolutionSupported (dw_biasInfo dw) (c_info w) info (opd_info input)
    <> EstimateOnly ->
  op_inputs op = [input] ->
  op_outputs op = [oi] ->
  m_OperandToNode c !! operand_key input = Some p ->
  stride_accepted (ci_Stride info) ->
  let head :=
    strided_head_nodes
      (GetNumSubmapChannels (dim3 (m_Dimensions (opd_info input))) (m_X (ci_Stride info))
                            (m_Y (ci_Stride info)) (m_Capabilities c))
      (op_id op) (ci_Stride info) (opd_info input) in
  let mce weightInfo operation :=
    convolution_node op input oi weightInfo (c_data w) (dw_biasInfo dw) (dw_biasData dw)
                     info operation in
  let relabelled :=
    TInfo wdims (m_DataType (c_info w)) DF_HWIO (m_QuantizationInfo (c_info w)) in
  let result :=
    Visit_DepthwiseConvolution IsDepthwiseConvolutionSupported GetNumSubmapChannels dw c in
  (dim3 wdims <= 1 ->
   result = Ok tt (chain_lowered c op (head ++ [mce (c_info w) DEPTHWISE_CONVOLUTION]) [p])) /\
  (1 < dim3 wdims -> dim2 wdims = 1 ->
   result = Ok tt (chain_lowered c op (head ++ [mce relabelled CONVOLUTION]) [p])) /\
  (1 < dim3 wdims -> dim2 wdims <> 1 ->
   result
   = Throw (AssertionFailure "GetWeights().GetTensorInfo().m_Dimensions[2] == 1")
           (with_nodes c head)).
Proof.
  intros op info w wdims Hsup Hin Hout Hp Hstride head mce relabelled result.
  assert (Hrun : result
    = (let* nodes := strided_head GetNumSubmapChannels op info (opd_info input) in
       let* selected :=
         (if 1 <? dim3 wdims then
            assert (dim2 wdims =? 1) "GetWeights().GetTensorInfo().m_Dimensions[2] == 1" ;;
            ret (relabelled, CONVOLUTION)
          else ret (c_info w, DEPTHWISE_CONVOLUTION)) in
       let '(weightInfo, operation) := selected in
       let* outInfo := GetOutputInfo op 0 in
       let* convNode :=
         on_graph (CreateAndAddNode
           (convolution_node op input outInfo weightInfo (c_data w) (dw_biasInfo dw)
                             (dw_biasData dw) info operation)) in
       ConnectNodeChain op (nodes ++ [convNode])) c).
  { subst result. unfold Visit_DepthwiseConvolution, GetInputOperand. fold op info w.
    rewrite Hin. repeat run_step.
    destruct (IsDepthwiseConvolutionSupported _ _ _ _);
      [reflexivity|contradiction|reflexivity]. }
  rewrite Hrun. unfold GetOutputInfo. rewrite Hout.
  split; [|split]; intros Hd; [|intros H1..];
    unfold bind at 1; rewrite strided_head_ok by exact Hstride; fold head.
  - assert (E : (1 <? dim3 wdims) = false) by (apply Z.ltb_ge; lia).
    rewrite E. unfold with_nodes. repeat run_step.
    rewrite (seq_snoc_refs _ head (mce (c_info w) DEPTHWISE_CONVOLUTION)).
    finish_chain Hin Hout.
  - assert (E : (1 <? dim3 wdims) = true) by (apply Z.ltb_lt; lia).
    rewrite E, H1. change (1 =? 1) with true. unfold with_nodes. repeat run_step.
    rewrite (seq_snoc_refs _ head (mce relabelled CONVOLUTION)).
    finish_chain Hin Hout.
  - assert (E : (1 <? dim3 wdims) = true) by (apply Z.ltb_lt; lia).
    assert (E1 : (dim2 wdims =? 1) = false) by now apply Z.eqb_neq.
    rewrite E, E1. reflexivity.
Qed.

Lemma depthwise_convolution_lowering_witness :
  (exists c' d,
     Visit_DepthwiseConvolution (always Supported) four_submaps
       (depthwise_3x3 (Shape 3 3 16 1) (MkStride 1 1))
       (after_input (Shape 1 8 8 16) NHWCB false) = Ok tt c' /\
     n_kind <$> g_nodes (m_Graph c') !! 1%nat = Some (MceOperationNode d) /\
     mce_operation d = DEPTHWISE_CONVOLUTION) /\
  (exists c' d,
     Visit_DepthwiseConvolution (always Supported) four_submaps
       (depthwise_3x3 (Shape 3 3 1 4) (MkStride 1 1))
       (after_input (Shape 1 8 8 16) NHWCB false) = Ok tt c' /\
     n_kind <$> g_nodes (m_Graph c') !! 1%nat = Some (MceOperationNode d) /\
     mce_operation d = CONVOLUTION /\
     m_DataFormat (mce_weightsInfo d) = DF_HWIO) /\
  (exists c',
     Visit_DepthwiseConvolution (always Supported) four_submaps
       (depthwise_3x3 (Shape 3 3 16 4) (MkStride 2 2))
       (after_input (Shape 1 8 8 16) NHWCB false)
     = Throw (AssertionFailure "GetWeights().GetTensorInfo().m_Dimensions[2] == 1") c' /\
     length (g_nodes (m_Graph c')) = 2%nat).
Proof.
  assert (H : forall ws stride,
    always Supported (dw_biasInfo (depthwise_3x3 ws stride))
           (c_info (dw_weights (depthwise_3x3 ws stride)))
           (dw_info (depthwise_3x3 ws stride))
           (opd_info (input_operand (Shape 1 8 8 16) [13])) <> EstimateOnly)
    by discriminate.
  assert (Hs1 : stride_accepted (MkStride 1 1)).
  { left. intros [H1|H1]; vm_compute in H1; discriminate H1. }
  assert (Hs2 : stride_accepted (MkStride 2 2)) by now right.
  pose proof (fun ws stride =>
    depthwise_convolution_lowering (always Supported) four_submaps
      (depthwise_3x3 ws stride) (after_input (Shape 1 8 8 16) NHWCB false)
      (input_operand (Shape 1 8 8 16) [13]) (tinfo (Shape 1 8 8 16)) 0%nat
      (H ws stride) eq_refl eq_refl eq_refl) as L.
  split; [|split].
  - eexists _, _. split.
    + apply (proj1 (L (Shape 3 3 16 1) (MkStride 1 1) Hs1)). discriminate.
    + split; reflexivity.
  - eexists _, _. split.
    + apply (proj1 (proj2 (L (Shape 3 3 1 4) (MkStride 1 1) Hs1))); reflexivity.
    + repeat split; reflexivity.
  - eexists. split.
    + apply (proj2 (proj2 (L (Shape 3 3 16 4) (MkStride 2 2) Hs2)));
        [reflexivity|discriminate].
    + reflexivity.
Defined.

(* ================================================================== *)
(** * The verdict EstimateOnly *)

(** X6: whichever rule consults a support query, the verdict EstimateOnly
    makes it emit one EstimateOnly node with the declared shape and
    quantization of the output, in the layout NHWCB, fed by the producers of
    all inputs and bound to the output; nothing of the operation's own
    lowering happens. For a concatenation this needs the check of shared
    inputs to pass. A softmax is lowered in no other way. *)
Theorem estimate_only_verdict op c input oi ps :
  op_inputs op !! 0%nat = Some input ->
  op_outputs op = [oi] ->
  producers_of (m_OperandToNode c) (op_inputs op) = Some ps ->
  let placeholder := Ok tt (chain_lowered c op [estimate_only_node (op_id op) oi] ps) in
  (forall query tc, tc_op tc = op ->
     query (tc_biasInfo tc) (c_info (tc_weights tc)) (tc_info tc) (opd_info input)
     = EstimateOnly ->
     Visit_TransposeConvolution query tc c = placeholder) /\
  (forall query p, pool_op p = op ->
     query (pool_info p) (opd_info input) = EstimateOnly ->
     Visit_Pooling query p c = placeholder) /\
  (forall query cat, cat_op cat = op ->
     query (map opd_info (op_inputs op)) (cat_info cat) = EstimateOnly ->
     m_EstimationMode c = true \/
     (forall it, it ∈ op_inputs op -> (length (opd_consumers it) <= 1)%nat) ->
     Visit_Concatenation query cat c = placeholder) /\
  (forall query, query (opd_info input) = EstimateOnly ->
     Visit_Softmax query op c = placeholder) /\
  (forall query input1, op_inputs op !! 1%nat = Some input1 ->
     query (opd_info input) (opd_info input1) (m_QuantizationInfo oi) = EstimateOnly ->
     Visit_Addition query op c = placeholder) /\
  (forall query submap conv, conv_op conv = op ->
     query (conv_biasInfo conv) (c_info (conv_weights conv)) (conv_info conv)
           (opd_info input) = EstimateOnly ->
     Visit_Convolution query submap conv c = placeholder) /\
  (forall query submap dw, dw_op dw = op ->
     query (dw_biasInfo dw) (c_info (dw_weights dw)) (dw_info dw) (opd_info input)
     = EstimateOnly ->
     Visit_DepthwiseConvolution query submap dw c = placeholder) /\
  (forall query, query (opd_info input) <> EstimateOnly ->
     Visit_Softmax query op c = Throw (AssertionFailure "Not implemented") c).
Proof.
  intros Hin Hout Hps placeholder.
  pose proof (lower_estimate_only_eq op c oi ps Hout Hps) as Hlow. fold placeholder in Hlow.
  repeat split.
  - intros query tc <- Hq.
    unfold Visit_TransposeConvolution, GetInputOperand, GetOutputInfo.
    rewrite Hin, Hout. repeat run_step. now rewrite Hq.
  - intros query p <- Hq. unfold Visit_Pooling, GetInputOperand.
    rewrite Hin. repeat run_step. now rewrite Hq.
  - intros query cat <- Hq Hshared. rewrite Visit_Concatenation_unfold.
    unfold bind at 1. rewrite reject_shared_inputs_passes by exact Hshared.
    now rewrite Hq.
  - intros query Hq. unfold Visit_Softmax, GetInputOperand.
    rewrite Hin. repeat run_step. now rewrite Hq.
  - intros query input1 Hin1 Hq. unfold Visit_Addition, GetInputOperand, GetOutputInfo.
    rewrite Hin, Hin1, Hout. repeat run_step. now rewrite Hq.
  - intros query submap conv <- Hq. unfold Visit_Convolution, GetInputOperand.
    rewrite Hin. repeat run_step. now rewrite Hq.
  - intros query submap dw <- Hq. unfold Visit_DepthwiseConvolution, GetInputOperand.
    rewrite Hin. repeat run_step. now rewrite Hq.
  - intros query Hq. unfold Visit_Softmax, GetInputOperand.
    rewrite Hin. repeat run_step.
    destruct (query (opd_info input)); [reflexivity|contradiction|reflexivity].
Qed.

Lemma estimate_only_verdict_witness :
  exists c',
    Visit_Pooling (fun _ _ => EstimateOnly) (pooling_of (Shape 1 8 8 16)
                     (MkPoolingInfo 5 5 1 1 (MkPadding 0 0 0 0) MAX))
                  (after_input (Shape 1 8 8 16) NHWCB false) = Ok tt c' /\
    g_nodes (m_Graph c')
    = [the_input_node (Shape 1 8 8 16) NHWCB;
       MkNode EstimateOnlyNode (Shape 1 1 1 16) q_unit NHWCB {[ 8 ]}] /\
    g_edges (m_Graph c') = [MkEdge 0 1] /\
    Visit_Softmax (fun _ => Supported) (unary_op 8 (Shape 1 8 8 16) (Shape 1 1 1 16))
                  (after_input (Shape 1 8 8 16) NHWCB false)
    = Throw (AssertionFailure "Not implemented") (after_input (Shape 1 8 8 16) NHWCB false).
Proof.
  pose proof (estimate_only_verdict (unary_op 8 (Shape 1 8 8 16) (Shape 1 1 1 16))
                (after_input (Shape 1 8 8 16) NHWCB false)
                (input_operand (Shape 1 8 8 16) [8]) (tinfo (Shape 1 1 1 16)) [0%nat]
                eq_refl eq_refl eq_refl) as (_ & Hpool & _ & _ & _ & _ & _ & Hsoft).
  eexists. split; [|split; [|split]].
  - apply (Hpool (fun _ _ => EstimateOnly)
                 (pooling_of (Shape 1 8 8 16) (MkPoolingInfo 5 5 1 1 (MkPadding 0 0 0 0) MAX)));
      reflexivity.
  - reflexivity.
  - reflexivity.
  - apply (Hsoft (fun _ => Supported)). discriminate.
Defined.

(* ================================================================== *)
(** * Addition, input, output and the rules with a single node *)

(** X7: an addition the support query does not mark for estimation
    becomes one StandalonePleOperation node fed by the producers of its two
    inputs, in their order; the kernel is ADDITION exactly when the
    quantization of the first input compares equal to that of the second
    input and to that of the output, and ADDITION_RESCALE otherwise. *)
Theorem addition_lowering IsAdditionSupported addition c input0 input1 oi p0 p1 :
  op_inputs addition = [input0; input1] ->
  op_outputs addition = [oi] ->
  m_OperandToNode c !! operand_key input0 = Some p0 ->
  m_OperandToNode c !! operand_key input1 = Some p1 ->
  IsAdditionSupported (opd_info input0) (opd_info input1) (m_QuantizationInfo oi)
    <> EstimateOnly ->
  let q0 := m_QuantizationInfo (opd_info input0) in
  let q1 := m_QuantizationInfo (opd_info input1) in
  exists pleOp,
    Visit_Addition IsAdditionSupported addition c
    = Ok tt (chain_lowered c addition
               [MkNode (StandalonePleOperationNode pleOp) (m_Dimensions oi)
                       (m_QuantizationInfo oi) NHWCB {[ op_id addition ]}]
               [p0; p1]) /\
    (pleOp = ADDITION <->
       QuantizationInfo_eqb q0 q1 = true /\
       QuantizationInfo_eqb q0 (m_QuantizationInfo oi) = true) /\
    (pleOp = ADDITION \/ pleOp = ADDITION_RESCALE).
Proof.
  intros Hin Hout Hp0 Hp1 Hsup q0 q1.
  exists (if QuantizationInfo_eqb q0 q1 && QuantizationInfo_eqb q0 (m_QuantizationInfo oi)
          then ADDITION else ADDITION_RESCALE).
  split; [|split].
  - unfold Visit_Addition, GetInputOperand, GetOutputInfo.
    rewrite Hin, Hout. repeat run_step. fold q0 q1.
    assert (Hps : producers_of (m_OperandToNode c) (op_inputs addition) = Some [p0; p1]).
    { rewrite Hin. cbn. now rewrite Hp0, Hp1. }
    destruct (IsAdditionSupported _ _ _); [|contradiction|];
      now apply create_connect_eq with (oi := oi).
  - rewrite <- andb_true_iff.
    destruct (QuantizationInfo_eqb q0 q1 && QuantizationInfo_eqb q0 (m_QuantizationInfo oi));
      split; congruence.
  - destruct (QuantizationInfo_eqb q0 q1 && QuantizationInfo_eqb q0 (m_QuantizationInfo oi));
      tauto.
Qed.

Lemma addition_lowering_witness :
  exists c',
    Visit_Addition (fun _ _ _ => Supported) addition_3_5 after_two_inputs = Ok tt c' /\
    g_nodes (m_Graph c') !! 2%nat
    = Some (MkNode (StandalonePleOperationNode ADDITION_RESCALE) (Shape 1 8 8 8) q_unit
                   NHWCB {[ 14 ]}) /\
    g_edges (m_Graph c') = [MkEdge 0 2; MkEdge 1 2].
Proof.
  destruct (addition_lowering (fun _ _ _ => Supported) addition_3_5 after_two_inputs
              (MkOperand 1 0 (tinfo (Shape 1 8 8 3)) [9])
              (MkOperand 2 0 (TInfo (Shape 1 8 8 5) UINT8_QUANTIZED DF_NHWC q_half) [9])
              (tinfo (Shape 1 8 8 8)) 0%nat 1%nat eq_refl eq_refl eq_refl eq_refl
              ltac:(discriminate))
    as (pleOp & Hrun & Hiff & Hcases).
  assert (Hple : pleOp = ADDITION_RESCALE).
  { destruct Hcases as [-> | ->]; [|reflexivity].
    destruct (proj1 Hiff eq_refl) as [H _]. vm_compute in H. discriminate H. }
  subst pleOp. eexists. split; [exact Hrun|]. split; reflexivity.
Defined.

Section Boundary.

Variable ConvertExternalToCompilerDataFormat : DataFormat -> CompilerDataFormat.
Variable OutputNode_shape : TensorShape.
Variable OutputNode_quant : QuantizationInfo.
Variable OutputNode_format : CompilerDataFormat.

Lemma CompilerDataFormat_eqb_eq a b : CompilerDataFormat_eqb a b = true <-> a = b.
Proof. destruct a, b; cbn; split; congruence. Qed.

(** X8: a network input becomes an Input node with the shape, the
    quantization and the layout of its tensor info, followed, when that
    layout is not NHWCB, by a FormatConversion to NHWCB; no edge enters the
    chain, and the node bound to the output is always in the layout NHWCB. *)
Theorem input_lowering input c oi :
  op_inputs (input_op input) = [] ->
  op_outputs (input_op input) = [oi] ->
  let op := input_op input in
  let first := input_node ConvertExternalToCompilerDataFormat (input_info input) (op_id op) in
  let chain :=
    first :: (if CompilerDataFormat_eqb (n_format first) NHWCB then []
              else [MkNode FormatConversionNode (m_Dimensions oi) (m_QuantizationInfo oi)
                           NHWCB {[ op_id op ]}]) in
  exists back,
    Visit_Input ConvertExternalToCompilerDataFormat input c
    = Ok tt (chain_lowered c op chain []) /\
    node_of_operand (chain_lowered c op chain []) (output_key op 0) = Some back /\
    n_format back = NHWCB /\
    last chain = Some back.
Proof.
  intros Hin Hout op first chain. subst op.
  assert (Hrun : Visit_Input ConvertExternalToCompilerDataFormat input c
                 = Ok tt (chain_lowered c (input_op input) chain [])).
  { unfold Visit_Input, GetOutputInfo. fold first. repeat run_step.
    unfold GetFormat at 1.
    cbn [m_Graph set_graph g_nodes]. rewrite list_lookup_middle by reflexivity.
    cbn [fmap option_fmap option_map]. repeat run_step.
    subst chain. destruct (CompilerDataFormat_eqb (n_format first) NHWCB); cbn [negb].
    - repeat run_step. finish_chain Hin Hout.
    - rewrite Hout. repeat run_step. cbn [app]. finish_chain Hin Hout. }
  assert (Hlast : exists back, last chain = Some back /\ n_format back = NHWCB).
  { subst chain. destruct (CompilerDataFormat_eqb (n_format first) NHWCB) eqn:E.
    - exists first. split; [reflexivity|]. now apply CompilerDataFormat_eqb_eq.
    - eexists. split; reflexivity. }
  destruct Hlast as (back & Hlast & Hfmt). exists back.
  split; [exact Hrun|]. split; [|split; assumption].
  now apply (chain_lowered_output _ _ _ _ _ oi Hout).
Qed.

(** X9: a network output whose operand is bound to a node becomes an
    Output node that records the output index of the producer, preceded,
    when the layout of the producing node is not the layout the output asks
    for, by a FormatConversion to that layout with the shape and
    quantization of the output. Every node of the chain carries the id of
    the producing operation, not the id of the output operation, and the
    operand map is left as it was. *)
Theorem output_lowering output c input p pn :
  let op := output_op output in
  let info := output_info output in
  op_inputs op = [input] ->
  op_outputs op = [] ->
  m_OperandToNode c !! operand_key input = Some p ->
  g_nodes (m_Graph c) !! p = Some pn ->
  let format := ConvertExternalToCompilerDataFormat (m_DataFormat info) in
  let chain :=
    (if CompilerDataFormat_eqb (n_format pn) format then []
     else [MkNode FormatConversionNode (m_Dimensions info) (m_QuantizationInfo info)
                  format {[ opd_producer input ]}])
    ++ [MkNode (OutputNode (Z.of_nat (opd_producerOutputIndex input)))
               OutputNode_shape OutputNode_quant OutputNode_format
               {[ opd_producer input ]}] in
  Visit_Output ConvertExternalToCompilerDataFormat OutputNode_shape OutputNode_quant
               OutputNode_format output c
  = Ok tt (chain_lowered c op chain [p]) /\
  Forall (fun nd => n_ids nd = {[ opd_producer input ]}) chain /\
  m_OperandToNode (chain_lowered c op chain [p]) = m_OperandToNode c.
Proof.
  intros op info Hin Hout Hp Hpn format chain. split; [|split].
  - unfold Visit_Output, GetInputOperand. fold op info format.
    rewrite Hin. repeat run_step.
    unfold operand_node at 1. rewrite Hp. repeat run_step.
    unfold GetFormat at 1. rewrite Hpn.
    cbn [fmap option_fmap option_map]. repeat run_step.
    subst chain. destruct (CompilerDataFormat_eqb (n_format pn) format); cbn [negb app];
      repeat run_step; finish_chain Hin Hout.
  - subst chain. destruct (CompilerDataFormat_eqb (n_format pn) format);
      repeat constructor.
  - unfold chain_lowered. fold op. now rewrite Hout.
Qed.

(** X10: the rules with a single node. A relu becomes a
    McePostProcessOperation with the bounds of the operation, a sigmoid a
    FuseOnlyPleOperation(SIGMOID) with the identity shape multiplier, both
    with the declared output and the layout NHWCB; a constant becomes a
    Constant node carrying its tensor info and bytes. Each node is fed by
    the producers of the inputs of the operation and bound to its output. *)
Theorem single_node_rules op c oi ps :
  op_outputs op = [oi] ->
  producers_of (m_OperandToNode c) (op_inputs op) = Some ps ->
  let declared kind :=
    MkNode kind (m_Dimensions oi) (m_QuantizationInfo oi) NHWCB {[ op_id op ]} in
  (forall relu, relu_op relu = op ->
     Visit_Relu relu c
     = Ok tt (chain_lowered c op
                [declared (McePostProcessOperationNode (m_LowerBound (relu_info relu))
                                                       (m_UpperBound (relu_info relu)))]
                ps)) /\
  Visit_Sigmoid op c
  = Ok tt (chain_lowered c op
             [declared (FuseOnlyPleOperationNode SIGMOID (MkShapeMultiplier (1, 1) (1, 1) 1))]
             ps) /\
  (forall constant,
     Visit_Constant ConvertExternalToCompilerDataFormat op constant c
     = Ok tt (chain_lowered c op
                [MkNode (ConstantNode (c_info constant) (c_data constant))
                        (m_Dimensions (c_info constant))
                        (m_QuantizationInfo (c_info constant))
                        (ConvertExternalToCompilerDataFormat (m_DataFormat (c_info constant)))
                        {[ op_id op ]}]
                ps)).
Proof.
  intros Hout Hps declared. split; [|split].
  - intros relu <-. unfold Visit_Relu, GetOutputInfo. rewrite Hout. repeat run_step.
    now apply create_connect_eq with (oi := oi).
  - unfold Visit_Sigmoid, GetOutputInfo. rewrite Hout. repeat run_step.
    now apply create_connect_eq with (oi := oi).
  - intros constant. unfold Visit_Constant.
    now apply create_connect_eq with (oi := oi).
Qed.

End Boundary.

Lemma input_lowering_witness :
  exists c',
    Visit_Input external_layout (network_input DF_NHWC) empty_converter = Ok tt c' /\
    n_format <$> g_nodes (m_Graph c') = [NHWC; NHWCB] /\
    g_edges (m_Graph c') = [MkEdge 0 1] /\
    m_OperandToNode c' !! (1, 0%nat) = Some 1%nat.
Proof.
  destruct (input_lowering external_layout (network_input DF_NHWC) empty_converter
              (TInfo (Shape 1 8 8 16) UINT8_QUANTIZED DF_NHWC q_unit) eq_refl eq_refl)
    as (back & Hrun & _).
  eexists. split; [exact Hrun|]. repeat split; reflexivity.
Defined.

Lemma output_lowering_witness :
  exists c',
    Visit_Output external_layout (Shape 0 0 0 0) q_unit NHWC network_output
                 (after_input (Shape 1 8 8 16) NHWCB false) = Ok tt c' /\
    n_kind <$> g_nodes (m_Graph c') = [InputNode; FormatConversionNode; OutputNode 0] /\
    n_ids <$> g_nodes (m_Graph c') = [{[ 1 ]}; {[ 1 ]}; {[ 1 ]}] /\
    g_edges (m_Graph c') = [MkEdge 1 2; MkEdge 0 1].
Proof.
  eexists. split.
  - apply (output_lowering external_layout (Shape 0 0 0 0) q_unit NHWC network_output
             (after_input (Shape 1 8 8 16) NHWCB false)
             (input_operand (Shape 1 8 8 16) [20]) 0%nat
             (the_input_node (Shape 1 8 8 16) NHWCB) eq_refl eq_refl eq_refl eq_refl).
  - repeat split; reflexivity.
Defined.

Lemma single_node_rules_witness :
  exists c',
    Visit_Relu (MkRelu (unary_op 21 (Shape 1 8 8 16) (Shape 1 8 8 16)) (MkReluInfo 0 255))
               (after_input (Shape 1 8 8 16) NHWCB false) = Ok tt c' /\
    g_nodes (m_Graph c') !! 1%nat
    = Some (MkNode (McePostProcessOperationNode 0 255) (Shape 1 8 8 16) q_unit NHWCB
                   {[ 21 ]}) /\
    g_edges (m_Graph c') = [MkEdge 0 1].
Proof.
  eexists. split.
  - exact (proj1 (single_node_rules external_layout
                    (unary_op 21 (Shape 1 8 8 16) (Shape 1 8 8 16))
                    (after_input (Shape 1 8 8 16) NHWCB false) (tinfo (Shape 1 8 8 16))
                    [0%nat] eq_refl eq_refl)
                 (MkRelu (unary_op 21 (Shape 1 8 8 16) (Shape 1 8 8 16)) (MkReluInfo 0 255))
                 eq_refl).
  - split; reflexivity.
Defined.

(* ================================================================== *)
(** * The chain of a fully connected layer *)

(** X11: a fully connected layer whose input is bound to a node in the
    layout NHWC becomes a Reinterpret node, with the packed shape of the
    linear-shape packer and the quantization of the input, in the layout
    NHWCB, followed by the MceOperation(FULLY_CONNECTED) whose recorded input
    shape is still the shape of the operation's input; when the producer is
    in another layout a FormatConversion to NHWC comes first. The nodes form
    one chain fed by the producer. *)
Theorem fully_connected_chain fc c input oi p pn shape :
  let op := fc_op fc in
  op_inputs op = [input] ->
  op_outputs op = [oi] ->
  m_OperandToNode c !! operand_key input = Some p ->
  g_nodes (m_Graph c) !! p = Some pn ->
  GetShapeContainingLinearElements (GetBrickGroupShape (m_Capabilities c))
    (dim3 (m_Dimensions (opd_info input))) = Some shape ->
  let inInfo := opd_info input in
  let chain :=
    (if CompilerDataFormat_eqb (n_format pn) NHWC then []
     else [MkNode FormatConversionNode (m_Dimensions inInfo) (m_QuantizationInfo inInfo)
                  NHWC {[ op_id op ]}])
    ++ [MkNode ReinterpretNode shape (m_QuantizationInfo inInfo) NHWCB {[ op_id op ]};
        MkNode (MceOperationNode
                  (MkMce (m_Dimensions inInfo) (fst (fc_padded_weights (fc_weights fc)))
                         (snd (fc_padded_weights (fc_weights fc)))
                         (fc_biasInfo fc) (fc_biasData fc) Stride_default 1 0 0
                         FULLY_CONNECTED))
               (m_Dimensions oi) (m_QuantizationInfo oi) NHWCB {[ op_id op ]}] in
  Visit_FullyConnected fc c = Ok tt (chain_lowered c op chain [p]).
Proof.
  intros op Hin Hout Hp Hpn Hshape inInfo chain.
  unfold Visit_FullyConnected, GetInputOperand, GetOutputInfo. fold op.
  rewrite Hin, Hout. repeat run_step.
  unfold operand_node at 1. rewrite Hp. repeat run_step.
  unfold GetFormat at 1. rewrite Hpn.
  cbn [fmap option_fmap option_map]. repeat run_step.
  subst chain. destruct (fc_padded_weights (fc_weights fc)) as [wi' wd'].
  cbn [fst snd].
  destruct (CompilerDataFormat_eqb (n_format pn) NHWC); cbn [app].
  - repeat run_step. rewrite Hshape. repeat run_step. finish_chain Hin Hout.
  - repeat run_step. cbn [m_Capabilities set_graph]. rewrite Hshape.
    repeat run_step. finish_chain Hin Hout.
Qed.

Lemma fully_connected_chain_witness :
  exists c',
    Visit_FullyConnected fully_connected_1024 (after_input (Shape 1 1 1 3) NHWCB false)
    = Ok tt c' /\
    n_kind <$> (g_nodes (m_Graph c') !! 1%nat) = Some FormatConversionNode /\
    (g_nodes (m_Graph c') !! 2%nat)
    = Some (MkNode ReinterpretNode (Shape 1 4 4 1) q_unit NHWCB {[ 7 ]}) /\
    g_edges (m_Graph c') = [MkEdge 1 2; MkEdge 2 3; MkEdge 0 1].
Proof.
  eexists. split.
  - apply (fully_connected_chain fully_connected_1024
             (after_input (Shape 1 1 1 3) NHWCB false) (input_operand (Shape 1 1 1 3) [7])
             (tinfo (Shape 1 1 1 2)) 0%nat (the_input_node (Shape 1 1 1 3) NHWCB)
             (Shape 1 4 4 1) eq_refl eq_refl eq_refl eq_refl eq_refl).
  - repeat split; reflexivity.
Defined.

(* ================================================================== *)
(** * Operations with several outputs *)

Lemma producers_of_insert m inputs k v :
  Forall (fun o => operand_key o <> k) inputs ->
  producers_of (<[k := v]> m) inputs = producers_of m inputs.
Proof.
  induction 1 as [|o rest Ho _ IH]; [reflexivity|].
  cbn [producers_of]. rewrite lookup_insert_ne by congruence. now rewrite IH.
Qed.

Lemma no_self_input_keys op idx :
  no_self_input op -> Forall (fun o => operand_key o <> output_key op idx) (op_inputs op).
Proof.
  unfold no_self_input. intros H. eapply Forall_impl; [exact H|].
  intros o Ho E. apply Ho. unfold operand_key, output_key in E. congruence.
Qed.

Lemma fan_in_length ps first count :
  length (fan_in ps first count) = (count * length ps)%nat.
Proof.
  revert first. induction count as [|k IH]; intros first; [reflexivity|].
  cbn [fan_in]. rewrite length_app, length_map, IH. lia.
Qed.

Lemma fan_in_lookup ps : forall count first i j p,
  (i < count)%nat -> ps !! j = Some p ->
  fan_in ps first count !! (i * length ps + j)%nat = Some (MkEdge p (first + i)).
Proof.
  induction count as [|k IH]; intros first i j p Hi Hj; [lia|].
  cbn [fan_in]. destruct i as [|i].
  - rewrite lookup_app_l by (rewrite length_map; now apply lookup_lt_Some in Hj).
    cbn [Nat.mul Nat.add]. rewrite list_lookup_fmap, Hj. cbn. now rewrite Nat.add_0_r.
  - rewrite lookup_app_r by (rewrite length_map; lia).
    rewrite length_map.
    replace (S i * length ps + j - length ps)%nat with (i * length ps + j)%nat by lia.
    rewrite (IH (S first) i j p) by (lia || assumption).
    do 2 f_equal. lia.
Qed.

Lemma bind_outputs_lookup op : forall count idx first m i,
  (i < count)%nat ->
  bind_outputs op idx first count m !! output_key op (idx + i) = Some (first + i)%nat.
Proof.
  assert (Hother : forall count idx first m key,
    (forall i, (i < count)%nat -> key <> output_key op (idx + i)) ->
    bind_outputs op idx first count m !! key = m !! key).
  { induction count as [|k IH]; intros idx first m key Hkey; [reflexivity|].
    cbn [bind_outputs]. rewrite IH.
    - apply lookup_insert_ne. specialize (Hkey 0%nat ltac:(lia)).
      rewrite Nat.add_0_r in Hkey. congruence.
    - intros i Hi. specialize (Hkey (S i) ltac:(lia)).
      now replace (S idx + i)%nat with (idx + S i)%nat by lia. }
  induction count as [|k IH]; intros idx first m i Hi; [lia|].
  cbn [bind_outputs]. destruct i as [|i].
  - rewrite Hother.
    + rewrite !Nat.add_0_r. apply lookup_insert_eq.
    + intros i Hi'. unfold output_key. intros E. injection E. lia.
  - replace (idx + S i)%nat with (S idx + i)%nat by lia.
    replace (first + S i)%nat with (S first + i)%nat by lia.
    apply IH. lia.
Qed.

Lemma bind_outputs_other op : forall count idx first m key,
  (key.1 <> op_id op \/ (key.2 < idx)%nat \/ (idx + count <= key.2)%nat) ->
  bind_outputs op idx first count m !! key = m !! key.
Proof.
  induction count as [|k IH]; intros idx first m key Hkey; [reflexivity|].
  cbn [bind_outputs]. rewrite IH by lia.
  apply lookup_insert_ne. unfold output_key. destruct key as [a b]. cbn in Hkey.
  intros E. injection E as <- <-. lia.
Qed.

Lemma connect_operand_nodes_eq target inputs : forall c ps,
  producers_of (m_OperandToNode c) inputs = Some ps ->
  for_each inputs (fun input =>
    let* inputNode := operand_node (operand_key input) in
    on_graph (Connect inputNode target)) c
  = Ok tt (set_graph (MkGraph (g_nodes (m_Graph c))
                              (g_edges (m_Graph c) ++ map (fun p => MkEdge p target) ps)) c).
Proof.
  induction inputs as [|o rest IH]; intros c ps Hps.
  - injection Hps as <-. destruct c as [[ns es] m em cp]. cbn. now rewrite app_nil_r.
  - cbn [producers_of] in Hps.
    destruct (m_OperandToNode c !! operand_key o) as [p|] eqn:Hp; [|discriminate].
    destruct (producers_of (m_OperandToNode c) rest) as [ps'|] eqn:Hr; [|discriminate].
    injection Hps as <-.
    cbn [for_each]. unfold bind at 1. unfold bind at 1.
    unfold operand_node at 1. rewrite Hp. cbn [defined ret]. rewrite connect_eq.
    rewrite (IH _ ps') by (destruct c; exact Hr).
    destruct c as [[ns es] m em cp]. cbn. now rewrite <- app_assoc.
Qed.

Lemma estimate_only_outputs_eq op ps : no_self_input op -> forall outputs idx c,
  producers_of (m_OperandToNode c) (op_inputs op) = Some ps ->
  estimate_only_outputs op idx outputs c
  = Ok tt (MkConverter
             (MkGraph (g_nodes (m_Graph c) ++ map (estimate_only_node (op_id op)) outputs)
                      (g_edges (m_Graph c)
                         ++ fan_in ps (length (g_nodes (m_Graph c))) (length outputs)))
             (bind_outputs op idx (length (g_nodes (m_Graph c))) (length outputs)
                           (m_OperandToNode c))
             (m_EstimationMode c) (m_Capabilities c)).
Proof.
  intros Hself. induction outputs as [|t rest IH]; intros idx c Hps.
  - destruct c as [[ns es] m em cp]. cbn. now rewrite !app_nil_r.
  - cbn [estimate_only_outputs]. unfold bind at 1. rewrite create_node_eq.
    unfold bind at 1. unfold bind_operand at 1.
    unfold bind at 1.
    rewrite (connect_operand_nodes_eq _ _ _ ps).
    2:{ destruct c as [[ns es] m em cp]. cbn.
        rewrite producers_of_insert; [exact Hps|]. now apply no_self_input_keys. }
    rewrite IH.
    2:{ destruct c as [[ns es] m em cp]. cbn.
        rewrite producers_of_insert; [exact Hps|]. now apply no_self_input_keys. }
    destruct c as [[ns es] m em cp].
    cbn [m_Graph g_nodes g_edges set_graph set_operand m_OperandToNode m_EstimationMode
         m_Capabilities length map fan_in bind_outputs].
    rewrite length_app. cbn [length]. rewrite Nat.add_1_r, <- !app_assoc. reflexivity.
Qed.

(** X12: an estimate-only operation with k outputs, whose inputs are all
    bound and none of which is one of its own outputs, becomes k
    EstimateOnly nodes, one per output and with that output's shape and
    quantization, in the layout NHWCB. Output i is bound to node i; every
    node receives one edge from the producer of every input, node by node
    and in the order of the inputs, so that k times the number of inputs
    edges are added. Other bindings are left as they were. *)
Theorem estimate_only_operation op c ps :
  no_self_input op ->
  producers_of (m_OperandToNode c) (op_inputs op) = Some ps ->
  let n := length (g_nodes (m_Graph c)) in
  let k := length (op_outputs op) in
  exists c',
    Visit_EstimateOnly op c = Ok tt c' /\
    g_nodes (m_Graph c')
    = g_nodes (m_Graph c) ++ map (estimate_only_node (op_id op)) (op_outputs op) /\
    (exists added,
       g_edges (m_Graph c') = g_edges (m_Graph c) ++ added /\
       length added = (k * length ps)%nat /\
       forall i j p, (i < k)%nat -> ps !! j = Some p ->
         added !! (i * length ps + j)%nat = Some (MkEdge p (n + i))) /\
    (forall i, (i < k)%nat -> m_OperandToNode c' !! output_key op i = Some (n + i)%nat) /\
    (forall key, key.1 <> op_id op \/ (k <= key.2)%nat ->
       m_OperandToNode c' !! key = m_OperandToNode c !! key).
Proof.
  intros Hself Hps n k. eexists. split.
  - unfold Visit_EstimateOnly. apply estimate_only_outputs_eq with (ps := ps); assumption.
  - cbn [m_Graph g_nodes g_edges m_OperandToNode]. split; [reflexivity|]. split; [|split].
    + eexists. split; [reflexivity|]. split; [apply fan_in_length|].
      intros i j p Hi Hj. now apply fan_in_lookup.
    + intros i Hi. apply (bind_outputs_lookup op k 0%nat n _ i Hi).
    + intros key Hkey. apply bind_outputs_other. cbn. tauto.
Qed.

Lemma estimate_only_operation_witness :
  exists c',
    Visit_EstimateOnly estimate_only_2x2 after_two_inputs = Ok tt c' /\
    n_shape <$> g_nodes (m_Graph c')
    = [Shape 1 8 8 3; Shape 1 8 8 5; Shape 1 8 8 8; Shape 1 4 4 8] /\
    g_edges (m_Graph c') = [MkEdge 0 2; MkEdge 1 2; MkEdge 0 3; MkEdge 1 3] /\
    m_OperandToNode c' !! (15, 1%nat) = Some 3%nat.
Proof.
  assert (Hself : no_self_input estimate_only_2x2) by (repeat constructor; discriminate).
  destruct (estimate_only_operation estimate_only_2x2 after_two_inputs [0; 1]%nat
              Hself eq_refl) as (c' & Hrun & Hn & (added & He & Hlen & Hadd) & Hb & _).
  exists c'. split; [exact Hrun|]. split; [rewrite Hn; reflexivity|]. split.
  - rewrite He. destruct added as [|e0 [|e1 [|e2 [|e3 [|e4 rest]]]]]; try discriminate Hlen.
    pose proof (Hadd 0 0 0 ltac:(cbn; lia) eq_refl)%nat as H0.
    pose proof (Hadd 0 1 1 ltac:(cbn; lia) eq_refl)%nat as H1.
    pose proof (Hadd 1 0 0 ltac:(cbn; lia) eq_refl)%nat as H2.
    pose proof (Hadd 1 1 1 ltac:(cbn; lia) eq_refl)%nat as H3.
    vm_compute in H0, H1, H2, H3. injection H0 as ->. injection H1 as ->.
    injection H2 as ->. injection H3 as ->. reflexivity.
  - apply (Hb 1%nat). cbn. lia.
Defined.

Lemma bind_subtensors_eq op inputNode : forall count idx first c,
  bind_subtensors op inputNode idx (seq first count) c
  = Ok tt (MkConverter
             (MkGraph (g_nodes (m_Graph c))
                      (g_edges (m_Graph c) ++ map (MkEdge inputNode) (seq first count)))
             (bind_outputs op idx first count (m_OperandToNode c))
             (m_EstimationMode c) (m_Capabilities c)).
Proof.
  induction count as [|k IH]; intros idx first c.
  - destruct c as [[ns es] m em cp]. cbn. now rewrite app_nil_r.
  - cbn [seq bind_subtensors]. unfold bind at 1. rewrite connect_eq.
    unfold bind at 1. unfold bind_operand at 1. rewrite IH.
    destruct c as [[ns es] m em cp]. cbn. now rewrite <- app_assoc.
Qed.

Lemma split_estimate_only_eq op inputNode : forall outputs idx c,
  split_estimate_only op inputNode idx outputs c
  = Ok tt (MkConverter
             (MkGraph (g_nodes (m_Graph c) ++ map (estimate_only_node (op_id op)) outputs)
                      (g_edges (m_Graph c)
                         ++ map (MkEdge inputNode)
                                (seq (length (g_nodes (m_Graph c))) (length outputs))))
             (bind_outputs op idx (length (g_nodes (m_Graph c))) (length outputs)
                           (m_OperandToNode c))
             (m_EstimationMode c) (m_Capabilities c)).
Proof.
  induction outputs as [|t rest IH]; intros idx c.
  - destruct c as [[ns es] m em cp]. cbn. now rewrite !app_nil_r.
  - cbn [split_estimate_only]. unfold bind at 1. rewrite create_node_eq.
    unfold bind at 1. unfold bind_operand at 1.
    unfold bind at 1. rewrite connect_eq. rewrite IH.
    destruct c as [[ns es] m em cp].
    cbn [m_Graph g_nodes g_edges set_graph set_operand m_OperandToNode m_EstimationMode
         m_Capabilities length map seq bind_outputs].
    rewrite length_app. cbn [length]. rewrite Nat.add_1_r, <- !app_assoc. reflexivity.
Qed.

(** X13: the wiring of a supported split. A FormatConversion to the
    chosen layout, with the shape and quantization of the input, is inserted
    exactly when the node that produces the input is in another layout; it
    is fed by the producer. Every ExtractSubtensor node receives exactly one
    edge, from the conversion when there is one and from the producer
    otherwise, in the order of the outputs. *)
Theorem split_wiring IsSplitSupported sp c input p pn format :
  IsSplitSupported (opd_info input) (split_info sp) <> EstimateOnly ->
  op_inputs (split_op sp) = [input] ->
  m_OperandToNode c !! operand_key input = Some p ->
  g_nodes (m_Graph c) !! p = Some pn ->
  choose_format (si_Axis (split_info sp)) (GetBrickGroupShape (m_Capabilities c))
                (op_outputs (split_op sp)) = Some format ->
  split_wf sp input ->
  let op := split_op sp in
  let info := opd_info input in
  let n := length (g_nodes (m_Graph c)) in
  let k := length (op_outputs op) in
  let converted := negb (CompilerDataFormat_eqb (n_format pn) format) in
  let conv :=
    if converted
    then [MkNode FormatConversionNode (m_Dimensions info) (m_QuantizationInfo info)
                 format {[ op_id op ]}]
    else [] in
  let source := if converted then n else p in
  exists c',
    Visit_Split IsSplitSupported sp c = Ok tt c' /\
    g_nodes (m_Graph c')
    = g_nodes (m_Graph c) ++ conv
        ++ subtensor_nodes (op_id op) info (si_Axis (split_info sp)) format
                           (si_Sizes (split_info sp)) 0 /\
    g_edges (m_Graph c')
    = g_edges (m_Graph c) ++ (if converted then [MkEdge p n] else [])
        ++ map (MkEdge source) (seq (n + length conv) k) /\
    m_OperandToNode c' = bind_outputs op 0 (n + length conv) k (m_OperandToNode c).
Proof.
  intros Hsup Hin Hp Hpn Hfmt (Hax & Hlen & Hpos & Hsum & Hlt) op info n k converted conv
    source.
  assert (Hcreate : forall c0,
    create_subtensors (op_id op) info (split_info sp) format
                      (seq 0 (length (op_outputs op))) (Shape 0 0 0 0) c0
    = Ok (seq (length (g_nodes (m_Graph c0))) k)
         (set_graph
            (MkGraph (g_nodes (m_Graph c0)
                        ++ subtensor_nodes (op_id op) info (si_Axis (split_info sp)) format
                                           (si_Sizes (split_info sp)) 0)
                     (g_edges (m_Graph c0))) c0)).
  { intros c0. subst k. fold op in Hlen. rewrite Hlen, <- (offset_along_0 _ Hax).
    apply (create_subtensors_eq (op_id op) info (split_info sp) format _ [] c0);
      [exact Hax|reflexivity|exact Hpos|exact Hlt]. }
  assert (Hrun : Visit_Split IsSplitSupported sp c
    = (let* inputNode :=
         (if converted then
            let* conversionNode :=
              on_graph (CreateAndAddNode
                (MkNode FormatConversionNode (m_Dimensions info) (m_QuantizationInfo info)
                        format {[ op_id op ]})) in
            on_graph (Connect p conversionNode) ;;
            ret conversionNode
          else ret p) in
       let* extractSubtensorNodes :=
         create_subtensors (op_id op) info (split_info sp) format
                           (seq 0 (length (op_outputs op))) (Shape 0 0 0 0) in
       bind_subtensors op inputNode 0 extractSubtensorNodes) c).
  { unfold Visit_Split, GetInputOperand. rewrite Hin.
    cbn [lookup list_lookup defined]. unfold bind at 1. cbn [ret]. fold op info.
    assert (Hv : forall (A : Type) (x y : A),
               match IsSplitSupported info (split_info sp) with
               | EstimateOnly => x
               | _ => y
               end = y).
    { intros A x y. destruct (IsSplitSupported info (split_info sp)) eqn:E;
        [reflexivity|exfalso; apply Hsup; exact E|reflexivity]. }
    rewrite Hv.
    unfold bind at 1. cbn [get_capabilities].
    unfold bind at 1. fold op in Hfmt. rewrite Hfmt. cbn [defined ret].
    unfold bind at 1. unfold operand_node at 1. rewrite Hp. cbn [defined ret].
    unfold bind at 1. unfold GetFormat at 1. rewrite Hpn.
    cbn [fmap option_fmap option_map defined ret]. reflexivity. }
  rewrite Hrun. subst conv source. destruct converted.
  - unfold bind at 1. unfold bind at 1. rewrite create_node_eq.
    unfold bind at 1. rewrite connect_eq. cbn [ret].
    unfold bind at 1. rewrite Hcreate. rewrite bind_subtensors_eq.
    eexists. split; [reflexivity|].
    destruct c as [[ns es] m em cp].
    cbn [m_Graph g_nodes g_edges set_graph m_OperandToNode length] in *.
    rewrite length_app. cbn [length]. subst n. rewrite <- !app_assoc.
    repeat split; reflexivity.
  - unfold bind at 1. cbn [ret]. unfold bind at 1. rewrite Hcreate.
    rewrite bind_subtensors_eq.
    eexists. split; [reflexivity|].
    destruct c as [[ns es] m em cp].
    cbn [m_Graph g_nodes g_edges set_graph m_OperandToNode length app] in *.
    subst n. rewrite Nat.add_0_r. repeat split; reflexivity.
Qed.

Lemma split_wiring_witness :
  exists c',
    Visit_Split (fun _ _ => Supported) split_3_5 (after_input (Shape 1 8 8 8) NHWCB false)
    = Ok tt c' /\
    n_kind <$> g_nodes (m_Graph c')
    = [InputNode; FormatConversionNode; ExtractSubtensorNode (Shape 0 0 0 0);
       ExtractSubtensorNode (Shape 0 0 0 3)] /\
    g_edges (m_Graph c') = [MkEdge 0 1; MkEdge 1 2; MkEdge 1 3].
Proof.
  assert (Hwf : split_wf split_3_5 (input_operand (Shape 1 8 8 8) [11])).
  { unfold split_wf. cbn. repeat split; try lia; try reflexivity.
    repeat constructor; lia. }
  destruct (split_wiring (fun _ _ => Supported) split_3_5
              (after_input (Shape 1 8 8 8) NHWCB false) (input_operand (Shape 1 8 8 8) [11])
              0%nat (the_input_node (Shape 1 8 8 8) NHWCB) NHWC
              ltac:(discriminate) eq_refl eq_refl eq_refl eq_refl Hwf)
    as (c' & Hrun & Hn & He & _).
  exists c'. split; [exact Hrun|]. split; [rewrite Hn|rewrite He]; reflexivity.
Defined.

(** X14: a split the support query marks for estimation becomes one
    EstimateOnly node per declared output, with that output's shape and
    quantization and the layout NHWCB; each is fed directly by the node that
    produces the input, whatever its layout, and output i is bound to node
    i. No conversion and no subtensor node is created. *)
Theorem split_estimate_only_branch IsSplitSupported sp c input p :
  IsSplitSupported (opd_info input) (split_info sp) = EstimateOnly ->
  op_inputs (split_op sp) !! 0%nat = Some input ->
  m_OperandToNode c !! operand_key input = Some p ->
  let op := split_op sp in
  let n := length (g_nodes (m_Graph c)) in
  let k := length (op_outputs op) in
  exists c',
    Visit_Split IsSplitSupported sp c = Ok tt c' /\
    g_nodes (m_Graph c')
    = g_nodes (m_Graph c) ++ map (estimate_only_node (op_id op)) (op_outputs op) /\
    g_edges (m_Graph c') = g_edges (m_Graph c) ++ map (MkEdge p) (seq n k) /\
    (forall i, (i < k)%nat -> m_OperandToNode c' !! output_key op i = Some (n + i)%nat) /\
    (forall key, key.1 <> op_id op \/ (k <= key.2)%nat ->
       m_OperandToNode c' !! key = m_OperandToNode c !! key).
Proof.
  intros Hsup Hin Hp op n k. eexists. split.
  - unfold Visit_Split, GetInputOperand. rewrite Hin.
    cbn [defined]. unfold bind at 1. cbn [ret]. rewrite Hsup.
    unfold bind at 1. unfold operand_node at 1. rewrite Hp. cbn [defined ret].
    apply split_estimate_only_eq.
  - cbn [m_Graph g_nodes g_edges m_OperandToNode]. split; [reflexivity|].
    split; [reflexivity|]. split.
    + intros i Hi. apply (bind_outputs_lookup (split_op sp) k 0%nat n _ i Hi).
    + intros key Hkey. apply bind_outputs_other. cbn. tauto.
Qed.

Lemma split_estimate_only_branch_witness :
  exists c',
    Visit_Split (fun _ _ => EstimateOnly) split_3_5 (after_input (Shape 1 8 8 8) NHWC false)
    = Ok tt c' /\
    g_nodes (m_Graph c')
    = [the_input_node (Shape 1 8 8 8) NHWC;
       MkNode EstimateOnlyNode (Shape 1 8 8 3) q_unit NHWCB {[ 11 ]};
       MkNode EstimateOnlyNode (Shape 1 8 8 5) q_unit NHWCB {[ 11 ]}] /\
    g_edges (m_Graph c') = [MkEdge 0 1; MkEdge 0 2].
Proof.
  destruct (split_estimate_only_branch (fun _ _ => EstimateOnly) split_3_5
              (after_input (Shape 1 8 8 8) NHWC false) (input_operand (Shape 1 8 8 8) [11])
              0%nat eq_refl eq_refl eq_refl)
    as (c' & Hrun & Hn & He & _).
  exists c'. split; [exact Hrun|]. split; [rewrite Hn|rewrite He]; reflexivity.
Defined.

(* ================================================================== *)
(** * Assertions of the upscaling rules *)

(** X15: the assertions of the two rules built on the transpose
    convolution. A transpose convolution that is not marked for estimation
    and whose stride is not square fails the assertion of the builder before
    any node is created; a depth-to-space whose block size is not 2 fails
    its assertion at once. In both cases the converter is left as it was. A
    depth-to-space always hands a square stride to the builder. *)
Theorem upscaling_assertions c :
  (forall query tc input oi,
     op_inputs (tc_op tc) !! 0%nat = Some input ->
     op_outputs (tc_op tc) !! 0%nat = Some oi ->
     query (tc_biasInfo tc) (c_info (tc_weights tc)) (tc_info tc) (opd_info input)
       <> EstimateOnly ->
     m_X (ci_Stride (tc_info tc)) <> m_Y (ci_Stride (tc_info tc)) ->
     Visit_TransposeConvolution query tc c
     = Throw (AssertionFailure "stride.m_X == stride.m_Y") c) /\
  (forall d, d2s_BlockSize d <> 2 ->
     Visit_DepthToSpace d c = Throw (AssertionFailure "blockSize == 2") c) /\
  (forall d e c', Visit_DepthToSpace d c = Throw e c' ->
     e <> AssertionFailure "stride.m_X == stride.m_Y").
Proof.
  split; [|split].
  - intros query tc input oi Hin Hout Hq Hs.
    unfold Visit_TransposeConvolution, GetInputOperand, GetOutputInfo.
    rewrite Hin, Hout. repeat run_step.
    assert (Hrun : forall wi wd bi bd pad ii oi' id,
      on_graph (CreateTransposeConv (ci_Stride (tc_info tc)) wi wd bi bd pad ii oi' id) c
      = Throw (AssertionFailure "stride.m_X == stride.m_Y") c).
    { intros. unfold on_graph, CreateTransposeConv.
      apply Z.eqb_neq in Hs. unfold bind at 1. rewrite Hs. cbn [assert throw].
      now destruct c as [[ns es] m em cp]. }
    destruct (query _ _ _ _); [|contradiction|]; now rewrite Hrun.
  - intros d Hb. unfold Visit_DepthToSpace. apply Z.eqb_neq in Hb.
    unfold bind at 1. now rewrite Hb.
  - intros d e c' Hrun. unfold Visit_DepthToSpace in Hrun.
    unfold bind at 1 in Hrun.
    destruct (d2s_BlockSize d =? 2) eqn:Eb; cbn [assert ret throw] in Hrun;
      [|injection Hrun as <- _; discriminate].
    unfold GetInputOperand, GetOutputInfo in Hrun.
    unfold bind at 1 in Hrun.
    destruct (op_inputs (d2s_op d) !! 0%nat) as [input|]; cbn [defined ret throw] in Hrun;
      [|injection Hrun as <- _; discriminate].
    unfold bind at 1 in Hrun.
    destruct (op_outputs (d2s_op d) !! 0%nat) as [oi|]; cbn [defined ret throw] in Hrun;
      [|injection Hrun as <- _; discriminate].
    destruct (d2s_weights _ _ _ _) as [wi [wd|]];
      unfold bind at 1 in Hrun; cbn [defined ret throw] in Hrun;
      [|injection Hrun as <- _; discriminate].
    unfold bind at 1 in Hrun.
    match type of Hrun with
    | match on_graph ?m c with _ => _ end = _ => destruct (on_graph m c) as [ns g|e1 g] eqn:Eb1
    end.
    + intros ->.
      unfold ConnectNodeChain in Hrun.
      unfold bind at 1 in Hrun.
      destruct (Nat.leb (length (op_outputs (d2s_op d))) 1); cbn [assert ret throw] in Hrun;
        [|discriminate].
      unfold bind at 1 in Hrun.
      destruct (head ns); cbn [defined ret throw] in Hrun; [|discriminate].
      unfold bind at 1 in Hrun.
      destruct (last ns); cbn [defined ret throw] in Hrun; [|discriminate].
      unfold bind at 1 in Hrun.
      erewrite on_graph_Ok in Hrun by apply connect_successive_eq.
      unfold bind at 1 in Hrun.
      match type of Hrun with
      | match ?x with _ => _ end = _ => destruct x as [? s1|e2 s1] eqn:E2
      end.
      * destruct (Nat.ltb 0 (length (op_outputs (d2s_op d)))); discriminate.
      * injection Hrun as -> _.
        assert (Hoor : forall inputs front s e s',
          for_each inputs (fun o =>
            let* p := operand_node_at (operand_key o) in on_graph (Connect p front)) s
          = Throw e s' -> e = OutOfRange).
        { induction inputs as [|o rest IH]; intros front s e s' H; [discriminate|].
          cbn [for_each] in H. unfold bind at 1 in H. unfold bind at 1 in H.
          unfold operand_node_at at 1 in H.
          destruct (m_OperandToNode s !! operand_key o).
          - rewrite connect_eq in H. now apply IH in H.
          - now injection H as <- _. }
        apply Hoor in E2. discriminate.
    + injection Hrun as -> _. intros ->.
      unfold on_graph in Eb1.
      match type of Eb1 with
      | match ?x with _ => _ end = _ => destruct x as [? g1|e2 g1] eqn:E2
      end; [discriminate|]. injection Eb1 as -> _.
      unfold CreateTransposeConv in E2. cbn [m_X m_Y] in E2.
      rewrite Z.eqb_refl in E2. cbn [assert] in E2.
      unfold bind at 1 in E2. cbn [ret] in E2.
      unfold bind at 1 in E2.
      match type of E2 with
      | match ?x with _ => _ end = _ => destruct x as [[[a b] s0] g2|e3 g2] eqn:E3
      end.
      * unfold bind at 1 in E2.
        destruct (rotate_weights _ _); cbn [defined ret throw] in E2; discriminate.
      * injection E2 as -> _.
        destruct ((7 <? _) || (7 <? _)) in E3; discriminate.
Qed.

Lemma upscaling_assertions_witness :
  Visit_TransposeConvolution (always Supported)
    (MkTransposeConvolution (unary_op 5 (Shape 1 4 4 1) (Shape 1 8 8 1)) weights_2x2 bias_1
                            [0] (MkConvolutionInfo (Padding2 0 0) (MkStride 2 3)))
    (after_input (Shape 1 4 4 1) NHWCB false)
  = Throw (AssertionFailure "stride.m_X == stride.m_Y")
          (after_input (Shape 1 4 4 1) NHWCB false) /\
  Visit_DepthToSpace (MkDepthToSpace (unary_op 6 (Shape 1 4 4 4) (Shape 1 8 8 1)) 3)
                     (after_input (Shape 1 4 4 4) NHWCB false)
  = Throw (AssertionFailure "blockSize == 2") (after_input (Shape 1 4 4 4) NHWCB false).
Proof.
  split.
  - apply (proj1 (upscaling_assertions (after_input (Shape 1 4 4 1) NHWCB false))
                 (always Supported) _ (input_operand (Shape 1 4 4 1) [5])
                 (tinfo (Shape 1 8 8 1)));
      [reflexivity|reflexivity|discriminate|discriminate].
  - apply (proj1 (proj2 (upscaling_assertions (after_input (Shape 1 4 4 4) NHWCB false)))).
    discriminate.
Defined.

(* ================================================================== *)
(** * More on the fully connected layer *)

(** X16: the shape the linear-shape packer returns can hold the data:
    counted in 4x4 patches, its height times its width times its channels
    is at least the number of patches of the elements, so that sixteen times
    that product is at least the number of elements. *)
Theorem linear_shape_capacity BH BW BC N shape :
  is_u32 BH -> is_u32 BW -> is_u32 BC -> is_u32 N ->
  0 < (BH / 4) * (BW / 4) * BC < 2 ^ 32 ->
  GetShapeContainingLinearElements (Shape 1 BH BW BC) N = Some shape ->
  let patches := (dim1 shape / 4) * (dim2 shape / 4) * dim3 shape in
  DivRoundUp N 16 <= patches /\ N <= 16 * patches.
Proof.
  intros HBH HBW HBC HN Hp Hshape patches. unfold is_u32 in *.
  set (ppbg := (BH / 4) * (BW / 4) * BC) in *.
  set (np := DivRoundUp N 16).
  pose proof (DivRoundUp_ceil N 16 ltac:(lia) ltac:(lia)) as Hc. fold np in Hc.
  assert (Hh : 0 <= BH / 4) by (apply Z.div_pos; lia).
  assert (Hw : 0 <= BW / 4) by (apply Z.div_pos; lia).
  assert (Hh1 : 1 <= BH / 4) by (subst ppbg; nia).
  assert (Hw1 : 1 <= BW / 4) by (subst ppbg; nia).
  assert (Hc1 : 1 <= BC) by (subst ppbg; nia).
  assert (HBH4 : 4 <= BH).
  { pose proof (Z.div_mod BH 4 ltac:(lia)). pose proof (Z.mod_pos_bound BH 4 ltac:(lia)). lia. }
  assert (HBW4 : 4 <= BW).
  { pose proof (Z.div_mod BW 4 ltac:(lia)). pose proof (Z.mod_pos_bound BW 4 ltac:(lia)). lia. }
  assert (E1 : mul32 (BH / 4) (BW / 4) = BH / 4 * (BW / 4)).
  { unfold mul32, u32. apply Z.mod_small. subst ppbg. nia. }
  assert (E2 : mul32 (mul32 (BH / 4) (BW / 4)) BC = ppbg).
  { rewrite E1. unfold mul32, u32. apply Z.mod_small. subst ppbg. lia. }
  assert (E3 : mul32 BC (BH / 4) = BC * (BH / 4)).
  { unfold mul32, u32. apply Z.mod_small. subst ppbg. nia. }
  pose proof (Z.div_mod np ppbg ltac:(lia)) as Hdm.
  pose proof (Z.mod_pos_bound np ppbg ltac:(lia)) as Hmod.
  assert (Hq : 0 <= np / ppbg) by (apply Z.div_pos; lia).
  set (q := np / ppbg) in *. set (r := np mod ppbg) in *.
  assert (Hpb : BC <= ppbg).
  { assert (1 <= BH / 4 * (BW / 4)) by nia. subst ppbg. nia. }
  assert (Hbq : BC * q <= np).
  { pose proof (Z.mul_le_mono_nonneg_r BC ppbg q Hq Hpb). lia. }
  assert (E4 : mul32 BC q = BC * q).
  { unfold mul32, u32. apply Z.mod_small. lia. }
  assert (Hmin : 0 <= Z.min BC r <= r) by lia.
  assert (E5 : add32 (BC * q) (Z.min BC r) = BC * q + Z.min BC r).
  { unfold add32, u32. apply Z.mod_small. lia. }
  unfold GetShapeContainingLinearElements in Hshape. cbn [dim1 dim2 dim3] in Hshape.
  change (mul32 4 4) with 16 in Hshape. fold np in Hshape.
  rewrite E2, E3 in Hshape. fold q r in Hshape. rewrite E4, E5 in Hshape.
  assert (Hz : (ppbg =? 0) = false) by (apply Z.eqb_neq; lia).
  rewrite Hz in Hshape. injection Hshape as <-. subst patches. cbn [dim1 dim2 dim3].
  assert (H44 : 4 / 4 = 1) by reflexivity.
  assert (Hgoal : np <=
    ((if np <=? BC then 4 else BH) / 4) * ((if np <=? BC * (BH / 4) then 4 else BW) / 4)
      * (BC * q + Z.min BC r)).
  { assert (Hhw : 1 <= BH / 4 * (BW / 4)) by (clear - Hh1 Hw1; nia).
    assert (Hqq : 1 <= q -> BC <= BC * q) by (clear - Hc1; intros; nia).
    destruct (Z.leb_spec np BC) as [Ha|Ha].
    - assert (Hb : np <= BC * (BH / 4)) by (clear - Ha Hh1 Hc1; nia).
      apply Z.leb_le in Hb. rewrite Hb, H44.
      destruct (Z.eq_dec q 0) as [Eq|Eq].
      + rewrite Eq in *. assert (r = np) by lia. lia.
      + specialize (Hqq ltac:(lia)). lia.
    - destruct (Z.leb_spec np (BC * (BH / 4))) as [Hb|Hb].
      + rewrite H44.
        assert (Hcap : BC <= BC * q + Z.min BC r).
        { destruct (Z.eq_dec q 0) as [Eq|Eq].
          - rewrite Eq in *. assert (r = np) by lia. lia.
          - specialize (Hqq ltac:(lia)). lia. }
        pose proof (Z.mul_le_mono_nonneg_l _ _ (BH / 4) Hh Hcap) as Hm.
        replace (BH / 4 * 1 * (BC * q + Z.min BC r))
          with (BH / 4 * (BC * q + Z.min BC r)) by ring.
        lia.
      + destruct (Z.min_spec BC r) as [[Hlt ->]|[Hge ->]].
        * assert (BH / 4 * (BW / 4) * (BC * q + BC) = ppbg * q + ppbg)
            by (subst ppbg; ring).
          lia.
        * assert (BH / 4 * (BW / 4) * (BC * q + r) = ppbg * q + BH / 4 * (BW / 4) * r)
            by (subst ppbg; ring).
          pose proof (Z.mul_le_mono_nonneg_r 1 (BH / 4 * (BW / 4)) r ltac:(lia) Hhw).
          lia. }
  split; [exact Hgoal|]. lia.
Qed.

Lemma linear_shape_capacity_witness :
  GetShapeContainingLinearElements (Shape 1 8 8 16) 1040 = Some (Shape 1 8 8 17) /\
  1040 <= 16 * ((8 / 4) * (8 / 4) * 17).
Proof.
  split; [reflexivity|].
  apply (linear_shape_capacity 8 8 16 1040 (Shape 1 8 8 17)); unfold is_u32; try lia.
  - change (0 < 64 < 2 ^ 32). lia.
  - reflexivity.
Defined.

Lemma Pad_length input newSize padValue : length (Pad input newSize padValue) = newSize.
Proof. unfold Pad. rewrite length_app, length_take, length_replicate. lia. Qed.

Lemma Pad_lookup_data input newSize padValue i :
  (i < newSize)%nat -> (i < length input)%nat ->
  Pad input newSize padValue !! i = input !! i.
Proof.
  intros H1 H2. unfold Pad.
  rewrite lookup_app_l by (rewrite length_take; lia). now rewrite lookup_take_lt.
Qed.

Lemma Pad_lookup_pad input newSize padValue i :
  (length input <= i < newSize)%nat ->
  Pad input newSize padValue !! i = Some padValue.
Proof.
  intros H. unfold Pad.
  rewrite take_ge by lia. rewrite lookup_app_r by lia.
  apply lookup_replicate_2. lia.
Qed.

(** X17: the bytes the fully connected rule hands on, for any weights
    constant. There are exactly as many as the padded tensor info says, also
    when the constant came with more bytes than that, in which case the
    surplus is dropped; the bytes kept are those of the constant, and every
    byte added is the zero point of the weights reduced modulo 256. Only
    dimension 2 of the weights differs from the constant's. *)
Theorem fc_weights_resized w :
  let info := fst (fc_padded_weights w) in
  let data := snd (fc_padded_weights w) in
  let size := Z.to_nat (TotalSizeBytes info) in
  length data = size /\
  (forall i, (i < size)%nat -> (i < length (c_data w))%nat -> data !! i = c_data w !! i) /\
  (forall i, (length (c_data w) <= i < size)%nat ->
     data !! i = Some (m_ZeroPoint (m_QuantizationInfo (c_info w)) mod 256)) /\
  dim0 (m_Dimensions info) = dim0 (m_Dimensions (c_info w)) /\
  dim1 (m_Dimensions info) = dim1 (m_Dimensions (c_info w)) /\
  dim3 (m_Dimensions info) = dim3 (m_Dimensions (c_info w)) /\
  m_QuantizationInfo info = m_QuantizationInfo (c_info w).
Proof.
  intros info data size. subst info data size. unfold fc_padded_weights. cbn [fst snd].
  split; [apply Pad_length|]. split; [|split].
  - intros i H1 H2. now apply Pad_lookup_data.
  - intros i H. rewrite Pad_lookup_pad by exact H. reflexivity.
  - repeat split; reflexivity.
Qed.

(* ================================================================== *)
(** * What every rule keeps *)

Lemma edges_kept_refl es : edges_kept es es.
Proof. intros i e H. eauto. Qed.

Lemma edges_kept_trans es1 es2 es3 :
  edges_kept es1 es2 -> edges_kept es2 es3 -> edges_kept es1 es3.
Proof.
  intros H12 H23 i e H. destruct (H12 i e H) as (e2 & H2 & E2).
  destruct (H23 i e2 H2) as (e3 & H3 & E3). exists e3. split; [exact H3|congruence].
Qed.

Lemma edges_kept_app es more : edges_kept es (es ++ more).
Proof. intros i e H. exists e. split; [|reflexivity]. now apply lookup_app_l_Some. Qed.

Lemma grows_refl id c : grows id c c.
Proof.
  unfold grows. split; [reflexivity|]. split; [apply edges_kept_refl|]. tauto.
Qed.

Lemma grows_trans id c1 c2 c3 : grows id c1 c2 -> grows id c2 c3 -> grows id c1 c3.
Proof.
  intros (N1 & E1 & F1 & D1 & M1 & C1) (N2 & E2 & F2 & D2 & M2 & C2).
  split; [now transitivity (g_nodes (m_Graph c2))|].
  split; [now apply edges_kept_trans with (g_edges (m_Graph c2))|].
  split; [intros k Hk; now rewrite F2, F1|].
  split; [intros k Hk; auto|]. split; congruence.
Qed.

Lemma has_node_grows id c c' r nd : grows id c c' -> has_node r nd c -> has_node r nd c'.
Proof. intros (N & _) H. unfold has_node in *. now apply (prefix_lookup_Some _ _ _ _ H). Qed.

Lemma valid_grows id c c' r : grows id c c' -> valid r c -> valid r c'.
Proof. intros (N & _) H. unfold valid in *. apply prefix_length in N. lia. Qed.

Lemma has_node_valid c r nd : has_node r nd c -> valid r c.
Proof. unfold has_node, valid. apply lookup_lt_Some. Qed.

Lemma grows_with_nodes id c new : grows id c (with_nodes c new).
Proof.
  unfold grows, with_nodes. cbn. split; [now apply prefix_app_r|].
  split; [apply edges_kept_refl|]. tauto.
Qed.

Lemma grows_connect id c s d : grows id c (set_graph (graph_connect s d (m_Graph c)) c).
Proof.
  unfold grows. cbn. split; [reflexivity|]. split; [apply edges_kept_app|]. tauto.
Qed.

Lemma grows_split id c e m g' :
  graph_split_edge e m (m_Graph c) = Some g' -> grows id c (set_graph g' c).
Proof.
  unfold graph_split_edge. intros H.
  destruct (g_edges (m_Graph c) !! e) as [ed|] eqn:Ee; [|discriminate].
  injection H as <-. unfold grows. cbn. split; [reflexivity|]. split; [|tauto].
  intros i x Hi. destruct (decide (i = e)) as [->|Hne].
  - exists (MkEdge m (e_dst ed)). split; [|cbn; congruence].
    apply lookup_app_l_Some. apply list_lookup_insert_eq. now apply lookup_lt_Some in Ee.
  - exists x. split; [|reflexivity]. apply lookup_app_l_Some.
    now rewrite list_lookup_insert_ne.
Qed.

Lemma grows_bind id c k r : k.1 = id -> grows id c (set_operand k r c).
Proof.
  intros Hk. unfold grows. cbn. split; [reflexivity|]. split; [apply edges_kept_refl|].
  split; [intros k' Hk'; apply lookup_insert_ne; congruence|].
  split; [|tauto]. intros k' Hk'. destruct (decide (k = k')) as [->|Hne].
  - rewrite lookup_insert_eq. eauto.
  - now rewrite lookup_insert_ne.
Qed.

Lemma with_nodes_app c l1 l2 : with_nodes (with_nodes c l1) l2 = with_nodes c (l1 ++ l2).
Proof. destruct c as [[ns es] m em cp]. unfold with_nodes. cbn. now rewrite <- app_assoc. Qed.

(** The builder of the transpose convolution only appends nodes, all
    with the id it was given; when it returns, the last one has the declared
    output. *)
Lemma CreateTransposeConv_cases stride wi wd bi bd pad ii oi sid g :
  match CreateTransposeConv stride wi wd bi bd pad ii oi sid g with
  | Ok nodes g' =>
      exists new nd,
        g' = MkGraph (g_nodes g ++ new) (g_edges g) /\
        nodes = seq (length (g_nodes g)) (length new) /\
        last new = Some nd /\ declared oi nd /\
        Forall (fun x => n_ids x = {[ sid ]}) new
  | Throw e g' =>
      exists new,
        g' = MkGraph (g_nodes g ++ new) (g_edges g) /\
        Forall (fun x => n_ids x = {[ sid ]}) new
  end.
Proof.
  unfold CreateTransposeConv. unfold bind at 1.
  destruct (m_X stride =? m_Y stride); cbn [assert ret throw].
  2:{ exists []. rewrite app_nil_r. split; [now destruct g|constructor]. }
  unfold bind at 1.
  destruct ((7 <? dim0 (m_Dimensions wi)) || (7 <? dim1 (m_Dimensions wi))).
  - unfold bind at 1. cbn [CreateAndAddNode graph_add_node ret].
    unfold bind at 1.
    destruct (rotate_weights (m_Dimensions wi) wd) as [flipped|]; cbn [defined ret throw].
    + unfold bind at 1. cbn [CreateAndAddNode graph_add_node ret g_nodes g_edges].
      eexists [_; _], _. rewrite <- app_assoc. cbn [app length seq].
      rewrite length_app. cbn [length]. rewrite Nat.add_1_r.
      repeat split; repeat constructor.
    + eexists [_]. split; [reflexivity|]. repeat constructor.
  - cbn [ret]. unfold bind at 1.
    destruct (rotate_weights (m_Dimensions wi) wd) as [flipped|]; cbn [defined ret throw].
    + unfold bind at 1. cbn [CreateAndAddNode graph_add_node ret g_nodes g_edges].
      eexists [_], _. cbn [app length seq].
      repeat split; repeat constructor.
    + exists []. rewrite app_nil_r. split; [now destruct g|constructor].
Qed.

Section InvariantLogic.

Context (I : Converter -> Prop) (V : nat -> Converter -> Prop) (id pid : Z).
Context (Hinv : Invariant pid I V).

Lemma V_grows c c' r : grows id c c' -> V r c -> V r c'.
Proof. apply (inv_V_grows _ _ _ Hinv). Qed.

Lemma all_good_grows c c' l : grows id c c' -> all_good V l c -> all_good V l c'.
Proof. intros G H. eapply Forall_impl; [exact H|]. intros r. now apply V_grows. Qed.

Lemma V_has_node c r nd : has_node r nd c -> V r c.
Proof. apply (inv_V_node _ _ _ Hinv). Qed.

(** ** The rules of the logic *)

Lemma t_post {A} c0 (m : M Converter A) (Q Q' : A -> Converter -> Prop) :
  triple I id c0 m Q ->
  (forall a c, grows id c0 c -> Q a c -> Q' a c) ->
  triple I id c0 m Q'.
Proof.
  intros Hm HQ c Hc G. specialize (Hm c Hc G). unfold post in *.
  destruct (m c); [|exact Hm]. destruct Hm as (H1 & H2 & H3). eauto.
Qed.

Lemma t_bind {A B} c0 (m : M Converter A) (k : A -> M Converter B) Q Q' :
  triple I id c0 m Q ->
  (forall a c1, grows id c0 c1 -> Q a c1 -> triple I id c1 (k a) Q') ->
  triple I id c0 (bind m k) Q'.
Proof.
  intros Hm Hk c Hc G. specialize (Hm c Hc G). unfold bind, post in *.
  destruct (m c) as [a c1|e c1]; [|exact Hm]. destruct Hm as (I1 & G1 & Q1).
  specialize (Hk a c1 G1 Q1 c1 I1 (grows_refl id c1)).
  destruct (k a c1) as [b c2|e c2].
  - destruct Hk as (I2 & G2 & Q2). split; [exact I2|]. split; [|exact Q2].
    now apply grows_trans with c1.
  - destruct Hk as (I2 & G2). split; [exact I2|]. now apply grows_trans with c1.
Qed.

Lemma t_ret {A} c0 (a : A) (Q : A -> Converter -> Prop) :
  (forall c, grows id c0 c -> Q a c) -> triple I id c0 (ret a) Q.
Proof. intros HQ c Hc G. cbn. auto. Qed.

Lemma t_throw {A} c0 e (Q : A -> Converter -> Prop) : triple I id c0 (throw e) Q.
Proof. intros c Hc G. cbn. auto. Qed.

Lemma t_defined {A} c0 (o : option A) :
  triple I id c0 (defined o) (fun a _ => o = Some a).
Proof. intros c Hc G. destruct o; cbn; auto. Qed.

Lemma t_assert c0 b msg : triple I id c0 (assert b msg) (fun _ _ => b = true).
Proof. intros c Hc G. destruct b; cbn; auto. Qed.

Lemma t_get_capabilities c0 : triple I id c0 get_capabilities (fun _ _ => True).
Proof. intros c Hc G. cbn. auto. Qed.

Lemma t_get_estimation_mode c0 : triple I id c0 get_estimation_mode (fun _ _ => True).
Proof. intros c Hc G. cbn. auto. Qed.

Lemma t_get_graph c0 : triple I id c0 get_graph (fun g c => g = m_Graph c).
Proof. intros c Hc G. cbn. auto. Qed.

Lemma t_create c0 nd :
  n_ids nd = {[ pid ]} ->
  triple I id c0 (on_graph (CreateAndAddNode nd)) (fun r c => has_node r nd c).
Proof.
  intros Hids c Hc G. rewrite create_node_eq. cbn [post].
  split; [apply (inv_add _ _ _ Hinv c nd Hids Hc)|]. split.
  - apply grows_trans with c; [exact G|apply (grows_with_nodes id c [nd])].
  - unfold has_node. cbn. now apply list_lookup_middle.
Qed.

Lemma t_connect c0 s d :
  V s c0 -> V d c0 -> triple I id c0 (on_graph (Connect s d)) (fun _ _ => True).
Proof.
  intros Hs Hd c Hc G. rewrite connect_eq. cbn [post].
  split; [|split; [|exact Logic.I]].
  - apply (inv_connect _ _ _ Hinv c s d); [now apply (V_grows c0)..|exact Hc].
  - apply grows_trans with c; [exact G|apply (grows_connect id c s d)].
Qed.

Lemma t_split c0 e m :
  V m c0 -> triple I id c0 (on_graph (SplitEdge e m)) (fun _ _ => True).
Proof.
  intros Hm c Hc G. unfold on_graph, SplitEdge.
  destruct (graph_split_edge e m (m_Graph c)) as [g'|] eqn:E; cbn [post].
  - split; [|split; [|exact Logic.I]].
    + apply (inv_split _ _ _ Hinv c e m g'); [now apply (V_grows c0)|exact E|exact Hc].
    + apply grows_trans with c; [exact G|now apply (grows_split id c e m)].
  - replace (set_graph (m_Graph c) c) with c by now destruct c as [[ns es] mp em cp].
    auto.
Qed.

Lemma t_bind_operand c0 k r :
  k.1 = id -> V r c0 ->
  triple I id c0 (bind_operand k r) (fun _ c => m_OperandToNode c !! k = Some r).
Proof.
  intros Hk Hr c Hc G. cbn [bind_operand post].
  split; [|split].
  - apply (inv_bind _ _ _ Hinv); [now apply (V_grows c0)|exact Hc].
  - apply grows_trans with c; [exact G|now apply grows_bind].
  - cbn. apply lookup_insert_eq.
Qed.

Lemma t_operand_node c0 k : triple I id c0 (operand_node k) (fun r c => V r c).
Proof.
  intros c Hc G. unfold operand_node.
  destruct (m_OperandToNode c !! k) as [r|] eqn:E; cbn; [|auto].
  split; [exact Hc|]. split; [exact G|]. now apply (inv_V_bound _ _ _ Hinv c k r).
Qed.

Lemma t_operand_node_at c0 k : triple I id c0 (operand_node_at k) (fun r c => V r c).
Proof.
  intros c Hc G. unfold operand_node_at.
  destruct (m_OperandToNode c !! k) as [r|] eqn:E; cbn; [|auto].
  split; [exact Hc|]. split; [exact G|]. now apply (inv_V_bound _ _ _ Hinv c k r).
Qed.

Lemma t_GetFormat c0 r :
  triple I id c0 (GetFormat r) (fun f c => exists nd, has_node r nd c /\ n_format nd = f).
Proof.
  intros c Hc G. unfold GetFormat.
  destruct (g_nodes (m_Graph c) !! r) as [nd|] eqn:E; cbn; [|auto].
  split; [exact Hc|]. split; [exact G|]. exists nd. split; [exact E|reflexivity].
Qed.

Lemma t_for_each {A} c0 (l : list A) (body : A -> M Converter unit) :
  (forall a c1, a ∈ l -> grows id c0 c1 -> triple I id c1 (body a) (fun _ _ => True)) ->
  triple I id c0 (for_each l body) (fun _ _ => True).
Proof.
  intros Hb. revert c0 Hb. induction l as [|a l IH]; intros c0 Hb; cbn [for_each].
  - now apply t_ret.
  - eapply t_bind; [apply Hb; [constructor|apply grows_refl]|]. intros _ c1 G1 _. apply IH.
    intros a' c2 Ha' G2. apply Hb; [now constructor|]. now apply grows_trans with c1.
Qed.

Lemma t_ext {A} c0 (m m' : M Converter A) Q :
  (forall c, m c = m' c) -> triple I id c0 m' Q -> triple I id c0 m Q.
Proof. intros E H c Hc G. rewrite E. now apply H. Qed.

Lemma t_connect_successive c0 nodes :
  all_good V nodes c0 ->
  triple I id c0 (on_graph (connect_successive nodes)) (fun _ _ => True).
Proof.
  revert c0. induction nodes as [|a [|b rest] IH]; intros c0 Hn.
  - apply t_ext with (m' := ret tt); [|now apply t_ret].
    intros c. now destruct c as [[ns es] mp em cp].
  - apply t_ext with (m' := ret tt); [|now apply t_ret].
    intros c. now destruct c as [[ns es] mp em cp].
  - apply t_ext with (m' := on_graph (Connect a b) ;; on_graph (connect_successive (b :: rest))).
    { intros c. change (connect_successive (a :: b :: rest))
        with (Connect a b ;; connect_successive (b :: rest)).
      unfold on_graph, bind. cbn [Connect m_Graph set_graph].
      destruct (connect_successive (b :: rest) _); now destruct c as [[ns es] mp em cp]. }
    apply Forall_cons in Hn as [Ha Hn]. pose proof Hn as Hn'.
    apply Forall_cons in Hn' as [Hb _].
    eapply t_bind; [now apply t_connect|]. intros _ c1 G1 _. apply IH.
    now apply (all_good_grows c0).
Qed.

(** Move what is known of an earlier converter to the current one. *)
Ltac advance :=
  repeat match goal with
  | G : grows ?i ?c ?c', H : has_node _ _ ?c |- _ => apply (has_node_grows i c c' _ _ G) in H
  | G : grows _ ?c ?c', H : V _ ?c |- _ => apply (V_grows c c' _ G) in H
  | G : grows _ ?c ?c', H : all_good V _ ?c |- _ => apply (all_good_grows c c' _ G) in H
  end.

(** A good reference, or a list of them, from what is known. *)
Ltac good :=
  unfold all_good;
  repeat first [ apply Forall_nil_2 | apply Forall_cons_2 | apply Forall_app_2 ];
  first [ assumption
        | eapply V_has_node; eassumption
        | match goal with H : all_good V _ _ |- _ => exact H end ].

(** Enter the continuation of a bind: the result, the converter it was
    produced in and what is known of it. *)
Tactic Notation "t_in" simple_intropattern(a) simple_intropattern(c) simple_intropattern(H) :=
  let G := fresh "G" in
  intros a c G H; cbn beta in *; advance; clear G.

Lemma t_ConnectNodeChain c0 op nodes :
  op_id op = id ->
  all_good V nodes c0 ->
  triple I id c0 (ConnectNodeChain op nodes)
    (fun _ c => forall back oi, last nodes = Some back -> op_outputs op !! 0%nat = Some oi ->
                  m_OperandToNode c !! output_key op 0 = Some back).
Proof.
  intros Hid Hn. unfold ConnectNodeChain.
  eapply t_bind; [apply t_assert|]. t_in ? c1 ?.
  eapply t_bind; [apply t_defined|]. t_in front c2 Hf.
  eapply t_bind; [apply t_defined|]. t_in back c3 Hb.
  eapply t_bind; [now apply t_connect_successive|]. t_in ? c4 ?.
  assert (Vf : V front c4).
  { destruct nodes as [|x rest]; [discriminate|]. injection Hf as <-.
    now apply Forall_cons in Hn as [Hx _]. }
  assert (Vb : V back c4).
  { apply last_Some in Hb as (l' & ->). apply Forall_app in Hn as [_ Hx].
    now apply Forall_cons in Hx as [Hx _]. }
  eapply t_bind.
  { apply t_for_each. intros o c5 _ G5. advance.
    eapply t_bind; [apply t_operand_node_at|]. t_in p c6 Hp.
    now apply t_connect. }
  t_in ? c5 ?.
  destruct (Nat.ltb 0 (length (op_outputs op))) eqn:El.
  - eapply t_post; [apply t_bind_operand; [exact Hid|exact Vb]|].
    intros u c G Hm back' oi Hb' Ho. cbn beta in Hm.
    rewrite Hb in Hb'. injection Hb' as <-. exact Hm.
  - apply t_ret. intros c G back' oi _ Ho. apply lookup_lt_Some in Ho.
    apply Nat.ltb_ge in El. lia.
Qed.

(** One step of a rule: a primitive, then its continuation. *)
Ltac t_prim :=
  first [ apply t_defined | apply t_operand_node | apply t_operand_node_at
        | apply t_GetFormat | apply t_assert | apply t_get_capabilities
        | apply t_get_graph | apply t_get_estimation_mode
        | apply t_create; cbn [n_ids]; congruence ].

Ltac t_step := eapply t_bind; [t_prim|]; t_in ? ? ?.

(** The declared output is the one the rule has read. *)
Ltac same_output :=
  let oi := fresh "oi" in
  let H := fresh "H" in
  intros oi H;
  repeat match goal with
         | H' : op_outputs _ !! 0%nat = Some _ |- _ => rewrite H in H'; injection H' as <-
         end;
  repeat split.

Lemma t_finish c0 op nodes back nd (good : TensorInfo -> Node -> Prop) :
  op_id op = id ->
  all_good V nodes c0 ->
  last nodes = Some back ->
  has_node back nd c0 ->
  (forall oi, op_outputs op !! 0%nat = Some oi -> good oi nd) ->
  triple I id c0 (ConnectNodeChain op nodes) (fun _ c => output_bound op good c).
Proof.
  intros Hid Hn Hl Hb Hgood.
  eapply t_post; [now apply t_ConnectNodeChain|].
  intros u c G Hm oi Ho. exists nd. split; [|now apply Hgood].
  unfold node_of_operand. rewrite (Hm back oi Hl Ho). cbn.
  now apply (has_node_grows id c0 c).
Qed.

Lemma t_lower_estimate_only c0 op :
  op_id op = id -> op_id op = pid ->
  triple I id c0 (lower_estimate_only op) (fun _ c => output_bound op declared c).
Proof.
  intros Hid Hpid. unfold lower_estimate_only, GetOutputInfo, ConnectNode.
  do 2 t_step.
  eapply t_finish; [exact Hid|good|reflexivity|eassumption|same_output].
Qed.

Lemma t_Visit_Reshape c0 op :
  op_id op = id -> op_id op = pid ->
  triple I id c0 (Visit_Reshape op) (fun _ c => output_bound op declared c).
Proof.
  intros Hid Hpid. unfold Visit_Reshape, GetInputOperand, GetOutputInfo.
  do 3 t_step.
  eapply t_bind with (Q := fun nodes c => all_good V nodes c).
  { destruct (negb _); [|now apply t_ret; constructor].
    t_step. apply t_ret. intros c G. advance. good. }
  t_in nodes ? Hn. do 3 t_step.
  eapply t_finish; [exact Hid|good|now rewrite last_app|eassumption|same_output].
Qed.

Lemma t_Visit_Sigmoid c0 op :
  op_id op = id -> op_id op = pid ->
  triple I id c0 (Visit_Sigmoid op) (fun _ c => output_bound op declared c).
Proof.
  intros Hid Hpid. unfold Visit_Sigmoid, GetOutputInfo, ConnectNode.
  do 2 t_step.
  eapply t_finish; [exact Hid|good|reflexivity|eassumption|same_output].
Qed.

Lemma t_Visit_Relu c0 relu :
  op_id (relu_op relu) = id -> op_id (relu_op relu) = pid ->
  triple I id c0 (Visit_Relu relu) (fun _ c => output_bound (relu_op relu) declared c).
Proof.
  intros Hid Hpid. unfold Visit_Relu, GetOutputInfo, ConnectNode.
  do 2 t_step.
  eapply t_finish; [exact Hid|good|reflexivity|eassumption|same_output].
Qed.

Lemma t_Visit_Softmax c0 query op :
  op_id op = id -> op_id op = pid ->
  triple I id c0 (Visit_Softmax query op) (fun _ c => output_bound op declared c).
Proof.
  intros Hid Hpid. unfold Visit_Softmax, GetInputOperand.
  t_step. destruct (query _); [apply t_throw|now apply t_lower_estimate_only|apply t_throw].
Qed.

Lemma t_Visit_Addition c0 query op :
  op_id op = id -> op_id op = pid ->
  triple I id c0 (Visit_Addition query op) (fun _ c => output_bound op declared c).
Proof.
  intros Hid Hpid. unfold Visit_Addition, GetInputOperand, GetOutputInfo, ConnectNode.
  do 3 t_step.
  destruct (query _ _ _); [|now apply t_lower_estimate_only|];
    t_step; (eapply t_finish; [exact Hid|good|reflexivity|eassumption|same_output]).
Qed.

Lemma t_Visit_Constant c0 convert op constant :
  op_id op = id -> op_id op = pid ->
  triple I id c0 (Visit_Constant convert op constant) (fun _ _ => True).
Proof.
  intros Hid Hpid. unfold Visit_Constant, ConnectNode, constant_node.
  t_step. eapply t_post; [apply t_ConnectNodeChain; [exact Hid|good]|]. auto.
Qed.

Lemma t_strided_head c0 submap op convInfo inputInfo :
  op_id op = pid ->
  triple I id c0 (strided_head submap op convInfo inputInfo)
         (fun nodes c => all_good V nodes c).
Proof.
  intros Hpid. unfold strided_head.
  destruct (_ || _); [|now apply t_ret; constructor].
  do 3 t_step. apply t_ret. intros c G. advance. good.
Qed.

Lemma t_Visit_Convolution c0 query submap conv :
  op_id (conv_op conv) = id -> op_id (conv_op conv) = pid ->
  triple I id c0 (Visit_Convolution query submap conv)
         (fun _ c => output_bound (conv_op conv) declared c).
Proof.
  intros Hid Hpid. unfold Visit_Convolution, GetInputOperand, GetOutputInfo.
  t_step. destruct (query _ _ _ _); [|now apply t_lower_estimate_only|];
    (eapply t_bind; [now apply t_strided_head|]; t_in nodes ? Hn; do 2 t_step;
     eapply t_finish; [exact Hid|good|now rewrite last_app|eassumption|same_output]).
Qed.

Lemma t_Visit_DepthwiseConvolution c0 query submap dw :
  op_id (dw_op dw) = id -> op_id (dw_op dw) = pid ->
  triple I id c0 (Visit_DepthwiseConvolution query submap dw)
         (fun _ c => output_bound (dw_op dw) declared c).
Proof.
  intros Hid Hpid. unfold Visit_DepthwiseConvolution, GetInputOperand, GetOutputInfo.
  t_step. destruct (query _ _ _ _); [|now apply t_lower_estimate_only|];
    (eapply t_bind; [now apply t_strided_head|]; t_in nodes ? Hn;
     eapply t_bind with (Q := fun _ _ => True);
     [destruct (1 <? _); [t_step; now apply t_ret|now apply t_ret]|];
     t_in [weightInfo operation] ? ?; do 2 t_step;
     eapply t_finish; [exact Hid|good|now rewrite last_app|eassumption|same_output]).
Qed.

Lemma t_Visit_Pooling c0 query p :
  op_id (pool_op p) = id -> op_id (pool_op p) = pid ->
  triple I id c0 (Visit_Pooling query p) (fun _ c => output_bound (pool_op p) declared c).
Proof.
  intros Hid Hpid.
  assert (Hnode : forall c1 (m : M Converter nat),
    (m = throw (AssertionFailure "Unsupported") \/
     exists kind,
       m = (let* outInfo := GetOutputInfo (pool_op p) 0 in
            on_graph (CreateAndAddNode
              (MkNode kind (m_Dimensions outInfo) (m_QuantizationInfo outInfo) NHWCB
                      {[ op_id (pool_op p) ]})))) ->
    triple I id c1 (let* n := m in ConnectNode (pool_op p) n)
           (fun _ c => output_bound (pool_op p) declared c)).
  { intros c1 m [->|(kind & ->)].
    - eapply t_bind with (Q := fun _ _ => False); [apply t_throw|]. intros ? ? ? [].
    - unfold GetOutputInfo, ConnectNode.
      eapply t_bind with (Q := fun r c => exists oi, op_outputs (pool_op p) !! 0%nat = Some oi /\
        has_node r (MkNode kind (m_Dimensions oi) (m_QuantizationInfo oi) NHWCB
                           {[ op_id (pool_op p) ]}) c).
      { t_step. eapply t_post; [t_prim|]. intros r c G Hr. eauto. }
      t_in r ? [oi [Ho Hr]].
      eapply t_finish; [exact Hid|good|reflexivity|eassumption|same_output]. }
  unfold Visit_Pooling, GetInputOperand. t_step.
  destruct (query _ _); [|now apply t_lower_estimate_only|];
    (apply Hnode; unfold createFuseOnlyPleNode, createStandalonePleNode;
     repeat match goal with |- context [if ?b then _ else _] => destruct b end;
     first [now left | right; eexists; reflexivity]).
Qed.

Lemma t_Visit_FullyConnected c0 fc :
  op_id (fc_op fc) = id -> op_id (fc_op fc) = pid ->
  triple I id c0 (Visit_FullyConnected fc) (fun _ c => output_bound (fc_op fc) declared c).
Proof.
  intros Hid Hpid. unfold Visit_FullyConnected, GetInputOperand, GetOutputInfo.
  do 3 t_step.
  eapply t_bind with (Q := fun nodes c => all_good V nodes c).
  { destruct (CompilerDataFormat_eqb _ _); [now apply t_ret; constructor|].
    t_step. apply t_ret. intros c G. advance. good. }
  t_in nodes ? Hn. do 3 t_step.
  destruct (fc_padded_weights (fc_weights fc)) as [weightsInfo paddedWeightsData].
  do 2 t_step.
  eapply t_finish; [exact Hid|good|now rewrite last_app|eassumption|same_output].
Qed.

Lemma t_Visit_Input c0 convert input :
  op_id (input_op input) = id -> op_id (input_op input) = pid ->
  triple I id c0 (Visit_Input convert input)
         (fun _ c => output_bound (input_op input) (fun _ nd => n_format nd = NHWCB) c).
Proof.
  intros Hid Hpid. unfold Visit_Input, GetOutputInfo, input_node.
  t_step. eapply t_bind; [apply t_GetFormat|]. t_in f ? [nd [Hnd Hf]].
  assert (nd = MkNode InputNode (m_Dimensions (input_info input))
                      (m_QuantizationInfo (input_info input))
                      (convert (m_DataFormat (input_info input)))
                      {[ op_id (input_op input) ]}) as ->.
  { unfold has_node in *. congruence. }
  cbn [n_format] in Hf. subst f.
  destruct (CompilerDataFormat_eqb _ NHWCB) eqn:E; cbn [negb].
  - eapply t_bind with (Q := fun nodes _ => nodes = [a]); [now apply t_ret|].
    t_in nodes ? ->.
    eapply t_finish; [exact Hid|good|reflexivity|eassumption|].
    intros oi _. cbn. now apply CompilerDataFormat_eqb_eq.
  - eapply t_bind with (Q := fun nodes c => exists r nd',
      nodes = [a; r] /\ has_node r nd' c /\ n_format nd' = NHWCB).
    { do 2 t_step. apply t_ret. intros c G. advance. eauto. }
    t_in nodes ? [r [nd' [-> [Hr Hf]]]].
    eapply t_finish; [exact Hid|good|reflexivity|eassumption|]. auto.
Qed.

Lemma t_Visit_Output c0 convert shape quant format output :
  op_id (output_op output) = id ->
  (forall input, op_inputs (output_op output) !! 0%nat = Some input ->
     opd_producer input = pid) ->
  triple I id c0 (Visit_Output convert shape quant format output) (fun _ _ => True).
Proof.
  intros Hid Hpid. unfold Visit_Output, GetInputOperand.
  eapply t_bind; [apply t_defined|]. t_in input ? Hin. apply Hpid in Hin.
  do 2 t_step.
  eapply t_bind with (Q := fun nodes c => all_good V nodes c).
  { destruct (negb _); [|now apply t_ret; constructor].
    t_step. apply t_ret. intros c G. advance. good. }
  t_in nodes ? Hn. t_step.
  eapply t_post; [apply t_ConnectNodeChain; [exact Hid|good]|]. auto.
Qed.

Lemma inv_add_list c new :
  Forall (fun x => n_ids x = {[ pid ]}) new -> I c -> I (with_nodes c new).
Proof.
  induction new as [|x rest IH] using rev_ind; intros Hids Hc.
  - now rewrite with_nodes_nil.
  - apply Forall_app in Hids as [Hr Hx]. apply Forall_cons in Hx as [Hx _].
    rewrite <- with_nodes_app. apply (inv_add _ _ _ Hinv); [exact Hx|]. now apply IH.
Qed.

Lemma t_CreateTransposeConv c0 stride wi wd bi bd pad ii oi sid :
  sid = pid ->
  triple I id c0 (on_graph (CreateTransposeConv stride wi wd bi bd pad ii oi sid))
    (fun nodes c => all_good V nodes c /\
                    exists back nd, last nodes = Some back /\ has_node back nd c /\
                                    declared oi nd).
Proof.
  intros -> c Hc G. unfold on_graph.
  pose proof (CreateTransposeConv_cases stride wi wd bi bd pad ii oi pid (m_Graph c)) as H.
  destruct (CreateTransposeConv _ _ _ _ _ _ _ _ _ _) as [nodes g'|e g'].
  - destruct H as (new & nd & -> & -> & Hl & Hd & Hids). cbn [post].
    change (set_graph _ c) with (with_nodes c new).
    split; [now apply inv_add_list|].
    split; [apply grows_trans with c; [exact G|apply grows_with_nodes]|].
    split.
    + apply Forall_forall. intros r Hr. apply elem_of_seq in Hr.
      destruct (new !! (r - length (g_nodes (m_Graph c)))%nat) as [x|] eqn:Ex.
      * apply (V_has_node _ r x). unfold has_node, with_nodes. cbn.
        rewrite lookup_app_r by lia. exact Ex.
      * apply lookup_ge_None in Ex. lia.
    + apply last_Some in Hl as (l' & ->).
      exists (length (g_nodes (m_Graph c)) + length l')%nat, nd.
      split; [|split; [|exact Hd]].
      * rewrite length_app. cbn [length]. rewrite Nat.add_1_r. apply last_seq.
      * unfold has_node, with_nodes. cbn. rewrite app_assoc.
        rewrite <- length_app. now apply list_lookup_middle.
  - destruct H as (new & -> & Hids). cbn [post].
    change (set_graph _ c) with (with_nodes c new).
    split; [now apply inv_add_list|].
    apply grows_trans with c; [exact G|apply grows_with_nodes].
Qed.

Lemma t_finish_builder c0 op nodes oi :
  op_id op = id ->
  op_outputs op !! 0%nat = Some oi ->
  (all_good V nodes c0 /\
   exists back nd, last nodes = Some back /\ has_node back nd c0 /\ declared oi nd) ->
  triple I id c0 (ConnectNodeChain op nodes) (fun _ c => output_bound op declared c).
Proof.
  intros Hid Ho (Hn & back & nd & Hl & Hb & Hd).
  eapply t_finish; [exact Hid|exact Hn|exact Hl|exact Hb|].
  intros oi' Ho'. rewrite Ho in Ho'. now injection Ho' as <-.
Qed.

Lemma t_Visit_TransposeConvolution c0 query tc :
  op_id (tc_op tc) = id -> op_id (tc_op tc) = pid ->
  triple I id c0 (Visit_TransposeConvolution query tc)
         (fun _ c => output_bound (tc_op tc) declared c).
Proof.
  intros Hid Hpid. unfold Visit_TransposeConvolution, GetInputOperand, GetOutputInfo.
  do 2 t_step. destruct (query _ _ _ _); [|now apply t_lower_estimate_only|];
    (eapply t_bind; [now apply t_CreateTransposeConv|]; t_in nodes ? Hn;
     now apply t_finish_builder with (oi := a0)).
Qed.

Lemma t_Visit_DepthToSpace c0 d :
  op_id (d2s_op d) = id -> op_id (d2s_op d) = pid ->
  triple I id c0 (Visit_DepthToSpace d) (fun _ c => output_bound (d2s_op d) declared c).
Proof.
  intros Hid Hpid. unfold Visit_DepthToSpace, GetInputOperand, GetOutputInfo.
  do 3 t_step. destruct (d2s_weights _ _ _ _) as [weightsInfo weights]. t_step.
  eapply t_bind; [now apply t_CreateTransposeConv|]. t_in nodes ? Hn.
  now apply t_finish_builder with (oi := a1).
Qed.

(** ** Concatenation *)

Lemma t_splice_all c0 edges :
  all_good V (map snd edges) c0 ->
  triple I id c0 (splice_all edges) (fun _ _ => True).
Proof.
  intros He. unfold splice_all. apply t_for_each. intros en c1 Hen G1. advance.
  apply t_split. unfold all_good in He. rewrite Forall_forall in He. apply He.
  apply list_elem_of_fmap. eauto.
Qed.

Lemma t_collect_conversions n format sid inputs : sid = pid -> forall i c0,
  triple I id c0 (collect_conversions n format sid i inputs)
         (fun l c => all_good V (map snd l) c).
Proof.
  intros ->. induction inputs as [|input rest IH]; intros i c0; cbn [collect_conversions].
  - apply t_ret. constructor.
  - do 2 t_step. destruct (negb _); [|apply IH].
    do 3 t_step. eapply t_bind; [apply IH|]. t_in more ? Hm.
    apply t_ret. intros c G. advance. cbn [map snd]. good.
Qed.

Lemma t_collect_requantizes n format sid q inputs : sid = pid -> forall i c0,
  triple I id c0 (collect_requantizes n format sid q i inputs)
         (fun l c => all_good V (map snd l) c).
Proof.
  intros ->. induction inputs as [|input rest IH]; intros i c0; cbn [collect_requantizes].
  - apply t_ret. constructor.
  - do 2 t_step. destruct (negb _); [|apply IH].
    do 3 t_step. eapply t_bind; [apply IH|]. t_in more ? Hm.
    apply t_ret. intros c G. advance. cbn [map snd]. good.
Qed.

Lemma t_Visit_Concatenation c0 query cat :
  op_id (cat_op cat) = id -> op_id (cat_op cat) = pid ->
  triple I id c0 (Visit_Concatenation query cat) (fun _ _ => True).
Proof.
  intros Hid Hpid. unfold Visit_Concatenation.
  eapply t_bind.
  { apply t_for_each. intros it c1 _ G1. t_step.
    destruct (_ && _); [apply t_throw|now apply t_ret]. }
  t_in ? ? ?.
  assert (Hest : forall c', triple I id c' (lower_estimate_only (cat_op cat))
                                   (fun _ _ => True)).
  { intros c'. eapply t_post; [now apply t_lower_estimate_only|]. auto. }
  destruct (query _ _); [|apply Hest|];
    (unfold GetOutputInfo, ConnectNode; do 4 t_step;
     eapply t_bind; [apply t_ConnectNodeChain; [exact Hid|good]|]; t_in ? ? ?;
     eapply t_bind; [now apply t_collect_conversions|]; t_in ? ? ?;
     eapply t_bind; [now apply t_splice_all|]; t_in ? ? ?;
     eapply t_bind; [now apply t_collect_requantizes|]; t_in ? ? ?;
     now apply t_splice_all).
Qed.

(** ** Split and EstimateOnly *)

Lemma t_create_subtensors sid info sinfo format idxs : sid = pid -> forall offset c0,
  triple I id c0 (create_subtensors sid info sinfo format idxs offset)
         (fun l c => all_good V l c).
Proof.
  intros ->. induction idxs as [|idx rest IH]; intros offset c0; cbn [create_subtensors].
  - apply t_ret. constructor.
  - do 5 t_step. eapply t_bind; [apply IH|]. t_in more ? Hm.
    apply t_ret. intros c G. advance. good.
Qed.

Lemma t_bind_subtensors op inputNode nodes : op_id op = id -> forall idx c0,
  V inputNode c0 -> all_good V nodes c0 ->
  triple I id c0 (bind_subtensors op inputNode idx nodes) (fun _ _ => True).
Proof.
  intros Hid. induction nodes as [|node rest IH]; intros idx c0 Hi Hn;
    cbn [bind_subtensors].
  - now apply t_ret.
  - apply Forall_cons in Hn as [Hnode Hrest]. change (all_good V rest c0) in Hrest.
    eapply t_bind; [now apply t_connect|]. t_in ? ? ?.
    eapply t_bind; [now apply t_bind_operand|]. t_in ? ? ?.
    now apply IH.
Qed.

Lemma t_split_estimate_only op inputNode outputs :
  op_id op = id -> op_id op = pid -> forall idx c0,
  V inputNode c0 ->
  triple I id c0 (split_estimate_only op inputNode idx outputs) (fun _ _ => True).
Proof.
  intros Hid Hpid. induction outputs as [|t rest IH]; intros idx c0 Hi;
    cbn [split_estimate_only].
  - now apply t_ret.
  - t_step.
    eapply t_bind; [apply t_bind_operand; [exact Hid|good]|]. t_in ? ? ?.
    eapply t_bind; [apply t_connect; good|]. t_in ? ? ?.
    now apply IH.
Qed.

Lemma t_Visit_Split c0 query sp :
  op_id (split_op sp) = id -> op_id (split_op sp) = pid ->
  triple I id c0 (Visit_Split query sp) (fun _ _ => True).
Proof.
  intros Hid Hpid. unfold Visit_Split, GetInputOperand. t_step.
  assert (Hrest : forall c',
    triple I id c'
      (let* caps := get_capabilities in
       let* format :=
         defined (choose_format (si_Axis (split_info sp)) (GetBrickGroupShape caps)
                                (op_outputs (split_op sp))) in
       let* inputNode := operand_node (operand_key a) in
       let* inputFormat := GetFormat inputNode in
       let* inputNode :=
         (if negb (CompilerDataFormat_eqb inputFormat format) then
            let* conversionNode :=
              on_graph (CreateAndAddNode
                (MkNode FormatConversionNode (m_Dimensions (opd_info a))
                        (m_QuantizationInfo (opd_info a)) format
                        {[ op_id (split_op sp) ]})) in
            on_graph (Connect inputNode conversionNode) ;;
            ret conversionNode
          else ret inputNode) in
       let* extractSubtensorNodes :=
         create_subtensors (op_id (split_op sp)) (opd_info a) (split_info sp) format
                           (seq 0 (length (op_outputs (split_op sp)))) (Shape 0 0 0 0) in
       bind_subtensors (split_op sp) inputNode 0 extractSubtensorNodes)
      (fun _ _ => True)).
  { intros c'. do 4 t_step.
    eapply t_bind with (Q := fun r c => V r c).
    { destruct (negb _); [|apply t_ret; intros c G; advance; good].
      t_step. eapply t_bind; [apply t_connect; good|]. t_in ? ? ?.
      apply t_ret. intros c G. advance. good. }
    t_in inputNode ? Hi.
    eapply t_bind; [now apply t_create_subtensors|]. t_in nodes ? Hn.
    now apply t_bind_subtensors. }
  destruct (query _ _); [apply Hrest| |apply Hrest].
  t_step. now apply t_split_estimate_only.
Qed.

Lemma t_estimate_only_outputs op outputs :
  op_id op = id -> op_id op = pid -> forall idx c0,
  triple I id c0 (estimate_only_outputs op idx outputs) (fun _ _ => True).
Proof.
  intros Hid Hpid. induction outputs as [|t rest IH]; intros idx c0;
    cbn [estimate_only_outputs].
  - now apply t_ret.
  - t_step.
    eapply t_bind; [apply t_bind_operand; [exact Hid|good]|]. t_in ? ? ?.
    eapply t_bind.
    { apply t_for_each. intros input c1' _ G1. advance. t_step. apply t_connect; good. }
    t_in ? ? ?. apply IH.
Qed.

End InvariantLogic.

(** ** Three invariants *)

Lemma trivial_invariant pid : Invariant pid (fun _ => True) (fun _ _ => True).
Proof. constructor; auto. Qed.

Lemma closed_invariant pid : Invariant pid closed valid.
Proof.
  constructor.
  - intros id c c' r. apply valid_grows.
  - intros c r nd. apply has_node_valid.
  - intros c k r [_ Hm] Hk. exact (Hm k r Hk).
  - intros c nd _ [He Hm]. pose proof (grows_with_nodes 0 c [nd]) as G. split.
    + eapply Forall_impl; [exact He|]. intros e [H1 H2].
      split; now apply (valid_grows 0 c).
    + intros k r Hk. apply (valid_grows 0 c); [exact G|]. exact (Hm k r Hk).
  - intros c s d Hs Hd [He Hm]. split.
    + cbn. apply Forall_app. split; [exact He|]. constructor; [|constructor].
      split; assumption.
    + exact Hm.
  - intros c e m g' Hv Hsplit [He Hm]. unfold graph_split_edge in Hsplit.
    destruct (g_edges (m_Graph c) !! e) as [ed|] eqn:Ee; [|discriminate].
    injection Hsplit as <-.
    assert (Hed : valid (e_src ed) c /\ valid (e_dst ed) c).
    { rewrite Forall_forall in He. apply He. now apply list_elem_of_lookup_2 in Ee. }
    split; [|exact Hm]. cbn. apply Forall_app. split.
    + apply Forall_insert; [exact He|]. cbn. tauto.
    + constructor; [|constructor]. cbn. tauto.
  - intros c k r Hr [He Hm]. split; [exact He|]. cbn.
    apply map_Forall_insert_2; assumption.
Qed.

Lemma provenance_invariant pid n0 : Invariant pid (provenance pid n0) (fun _ _ => True).
Proof.
  constructor; try (intros; exact Logic.I).
  - intros c nd Hids Hc r x Hr Hx. unfold has_node, with_nodes in Hx. cbn in Hx.
    apply lookup_app_Some in Hx as [Hx|[_ Hx]].
    + now apply (Hc r x).
    + apply list_lookup_singleton_Some in Hx as [_ <-]. exact Hids.
  - intros c s d Hs Hd Hc. exact Hc.
  - intros c e m g' Hm Hsplit Hc. unfold graph_split_edge in Hsplit.
    destruct (g_edges (m_Graph c) !! e); [|discriminate]. injection Hsplit as <-.
    exact Hc.
  - intros c k r Hr Hc. exact Hc.
Qed.

(** Every overload of [Visit], in the logic. *)
Lemma t_Visit I V env o c0 :
  Invariant (provenance_id o) I V ->
  triple I (op_id (operation_of o)) c0 (Visit env o) (fun _ _ => True).
Proof.
  intros Hinv.
  destruct o; cbn [Visit operation_of provenance_id] in *;
    try (eapply t_post; [|intros; exact Logic.I]).
  - eapply t_Visit_Reshape; [exact Hinv|reflexivity|reflexivity].
  - eapply t_Visit_Pooling; [exact Hinv|reflexivity|reflexivity].
  - eapply t_Visit_Sigmoid; [exact Hinv|reflexivity|reflexivity].
  - eapply t_Visit_Softmax; [exact Hinv|reflexivity|reflexivity].
  - eapply t_Visit_Relu; [exact Hinv|reflexivity|reflexivity].
  - eapply t_Visit_FullyConnected; [exact Hinv|reflexivity|reflexivity].
  - eapply t_Visit_Addition; [exact Hinv|reflexivity|reflexivity].
  - eapply t_Visit_Concatenation; [exact Hinv|reflexivity|reflexivity].
  - eapply t_Visit_Split; [exact Hinv|reflexivity|reflexivity].
  - eapply t_Visit_Constant; [exact Hinv|reflexivity|reflexivity].
  - eapply t_Visit_DepthwiseConvolution; [exact Hinv|reflexivity|reflexivity].
  - eapply t_Visit_Convolution; [exact Hinv|reflexivity|reflexivity].
  - eapply t_Visit_TransposeConvolution; [exact Hinv|reflexivity|reflexivity].
  - eapply t_Visit_Output; [exact Hinv|reflexivity|].
    intros input Hin. now rewrite Hin.
  - eapply t_Visit_Input; [exact Hinv|reflexivity|reflexivity].
  - eapply t_Visit_DepthToSpace; [exact Hinv|reflexivity|reflexivity].
  - unfold Visit_EstimateOnly.
    eapply t_estimate_only_outputs; [exact Hinv|reflexivity|reflexivity].
Qed.

Lemma Visit_grows env o c :
  grows (op_id (operation_of o)) c (final_state (Visit env o c)).
Proof.
  pose proof (t_Visit _ _ env o c (trivial_invariant (provenance_id o)) c Logic.I
                      (grows_refl _ c)) as H.
  unfold post in H. destruct (Visit env o c); cbn [final_state]; tauto.
Qed.

(** X18: no rule ever removes or changes a node, removes an edge or
    moves the end of an edge: whether it returns or throws, the nodes the
    graph had are a prefix of the nodes it has afterwards, every edge is
    still at its position and still ends in the same node, and the
    estimation mode and the hardware capabilities are untouched. *)
Theorem rules_only_append env o c :
  let c' := final_state (Visit env o c) in
  g_nodes (m_Graph c) `prefix_of` g_nodes (m_Graph c') /\
  (forall i e, g_edges (m_Graph c) !! i = Some e ->
     exists e', g_edges (m_Graph c') !! i = Some e' /\ e_dst e' = e_dst e) /\
  (length (g_edges (m_Graph c)) <= length (g_edges (m_Graph c')))%nat /\
  m_EstimationMode c' = m_EstimationMode c /\
  m_Capabilities c' = m_Capabilities c.
Proof.
  intros c'. destruct (Visit_grows env o c) as (N & E & _ & _ & M & C). fold c' in N, E, M, C.
  split; [exact N|]. split; [exact E|]. split; [|tauto].
  destruct (g_edges (m_Graph c)) as [|e0 es] eqn:Ees using rev_ind; [cbn; lia|].
  destruct (E (length es) e0) as (e' & He' & _); [now apply list_lookup_middle|].
  apply lookup_lt_Some in He'. rewrite length_app. cbn. lia.
Qed.

(** X19: a rule binds operands of its own operation only: whether it
    returns or throws, the binding of every operand produced by another
    operation is as it was, and no operand loses its binding. *)
Theorem rules_bind_own_outputs env o c :
  let c' := final_state (Visit env o c) in
  (forall producer idx, producer <> op_id (operation_of o) ->
     m_OperandToNode c' !! (producer, idx) = m_OperandToNode c !! (producer, idx)) /\
  (forall k, is_Some (m_OperandToNode c !! k) -> is_Some (m_OperandToNode c' !! k)).
Proof.
  intros c'. destruct (Visit_grows env o c) as (_ & _ & F & D & _). fold c' in F, D.
  split; [|exact D]. intros producer idx Hp. now apply F.
Qed.

(** X20: no rule leaves a dangling reference. If every edge of the graph
    joins two of its nodes and every operand is bound to one of its nodes,
    the same holds after any rule, whether it returns or throws. *)
Theorem rules_keep_closed env o c :
  closed c -> closed (final_state (Visit env o c)).
Proof.
  intros Hc.
  pose proof (t_Visit _ _ env o c (closed_invariant (provenance_id o)) c Hc
                      (grows_refl _ c)) as H.
  unfold post in H. destruct (Visit env o c); cbn [final_state]; tauto.
Qed.

Lemma rules_keep_closed_witness :
  closed (after_input (Shape 1 8 8 16) NHWCB false) /\
  closed (final_state
            (Visit example_environment (OpConvolution (convolution_3x3 (MkStride 2 2)))
                   (after_input (Shape 1 8 8 16) NHWCB false))).
Proof.
  assert (H : closed (after_input (Shape 1 8 8 16) NHWCB false)).
  { split; [constructor|]. apply map_Forall_singleton. unfold valid. cbn. lia. }
  split; [exact H|]. apply rules_keep_closed. exact H.
Defined.

(** X21: the provenance of the nodes a rule adds. Whether the rule
    returns or throws, every node it has added carries exactly one id: that
    of the operation being lowered, except for a network output, whose nodes
    carry the id of the operation that produces its input. *)
Theorem rules_provenance env o c r nd :
  (length (g_nodes (m_Graph c)) <= r)%nat ->
  g_nodes (m_Graph (final_state (Visit env o c))) !! r = Some nd ->
  n_ids nd = {[ provenance_id o ]}.
Proof.
  intros Hr Hnd.
  assert (H0 : provenance (provenance_id o) (length (g_nodes (m_Graph c))) c).
  { intros r' nd' Hr' Hnd'. apply lookup_lt_Some in Hnd'. lia. }
  pose proof (t_Visit _ _ env o c
                (provenance_invariant (provenance_id o) (length (g_nodes (m_Graph c))))
                c H0 (grows_refl _ c)) as H.
  unfold post in H.
  destruct (Visit env o c) as [u c'|e c']; cbn [final_state] in *;
    destruct H as [H _]; exact (H r nd Hr Hnd).
Qed.

Lemma rules_provenance_witness :
  n_ids (MkNode (OutputNode 0) (Shape 0 0 0 0) q_unit NHWC {[ 1 ]})
  = {[ provenance_id (OpOutput network_output) ]}.
Proof.
  apply (rules_provenance example_environment (OpOutput network_output)
                          (after_input (Shape 1 8 8 16) NHWCB false) 2%nat).
  - cbn. lia.
  - reflexivity.
Defined.

(** X22: the binding of the output by the rules that lower to one
    chain. When such a rule returns, the output of the operation, if it
    declares one, is bound to a node of the graph whose shape and
    quantization are the declared ones and whose layout is NHWCB. A network
    input is bound to a node in the layout NHWCB. *)
Theorem declared_outputs env o c c' :
  Visit env o c = Ok tt c' ->
  (lowers_to_declared_chain o = true -> output_bound (operation_of o) declared c') /\
  (forall input, o = OpInput input ->
     output_bound (input_op input) (fun _ nd => n_format nd = NHWCB) c').
Proof.
  intros Hrun.
  pose proof (trivial_invariant (op_id (operation_of o))) as Hinv.
  assert (Hpost : forall Q,
    triple (fun _ => True) (op_id (operation_of o)) c (Visit env o) Q -> Q tt c').
  { intros Q H. specialize (H c Logic.I (grows_refl _ c)). rewrite Hrun in H.
    now destruct H as (_ & _ & H). }
  split.
  - intros Hkind.
    apply (Hpost (fun _ c1 => output_bound (operation_of o) declared c1)).
    destruct o; try discriminate; cbn [Visit operation_of] in *.
    + eapply t_Visit_Reshape; [exact Hinv|reflexivity|reflexivity].
    + eapply t_Visit_Pooling; [exact Hinv|reflexivity|reflexivity].
    + eapply t_Visit_Sigmoid; [exact Hinv|reflexivity|reflexivity].
    + eapply t_Visit_Softmax; [exact Hinv|reflexivity|reflexivity].
    + eapply t_Visit_Relu; [exact Hinv|reflexivity|reflexivity].
    + eapply t_Visit_FullyConnected; [exact Hinv|reflexivity|reflexivity].
    + eapply t_Visit_Addition; [exact Hinv|reflexivity|reflexivity].
    + eapply t_Visit_DepthwiseConvolution; [exact Hinv|reflexivity|reflexivity].
    + eapply t_Visit_Convolution; [exact Hinv|reflexivity|reflexivity].
    + eapply t_Visit_TransposeConvolution; [exact Hinv|reflexivity|reflexivity].
    + eapply t_Visit_DepthToSpace; [exact Hinv|reflexivity|reflexivity].
  - intros input ->. apply (Hpost (fun _ c1 =>
      output_bound (input_op input) (fun _ nd => n_format nd = NHWCB) c1)).
    cbn [Visit operation_of] in *.
    eapply t_Visit_Input; [exact Hinv|reflexivity|reflexivity].
Qed.

Lemma declared_outputs_witness :
  exists c',
    Visit example_environment (OpReshape (unary_op 5 (Shape 1 4 4 1) (Shape 1 2 8 1)))
          (after_input (Shape 1 4 4 1) NHWCB false) = Ok tt c' /\
    output_bound (unary_op 5 (Shape 1 4 4 1) (Shape 1 2 8 1)) declared c'.
Proof.
  eexists. split; [vm_compute; reflexivity|].
  apply (proj1 (declared_outputs example_environment
                  (OpReshape (unary_op 5 (Shape 1 4 4 1) (Shape 1 2 8 1)))
                  (after_input (Shape 1 4 4 1) NHWCB false) _ eq_refl)).
  reflexivity.
Defined.

(* ================================================================== *)
(** * The selectors of depth-to-space *)

Lemma written_length x ps : forall d, length (written x ps d) = length d.
Proof.
  induction ps as [|p ps IH]; intros d; [reflexivity|].
  cbn [written foldl]. fold (written x ps (<[p := x]> d)). now rewrite IH, length_insert.
Qed.

Lemma written_lookup x ps : forall d j,
  (j < length d)%nat ->
  written x ps d !! j = if decide (j ∈ ps) then Some x else d !! j.
Proof.
  induction ps as [|p ps IH]; intros d j Hj.
  - cbn. destruct (decide (j ∈ [])) as [H|_]; [inversion H|reflexivity].
  - cbn [written foldl]. fold (written x ps (<[p := x]> d)).
    rewrite IH by now rewrite length_insert.
    destruct (decide (j ∈ ps)) as [Hin|Hnin].
    + rewrite decide_True by now constructor. reflexivity.
    + destruct (decide (j = p)) as [->|Hne].
      * rewrite decide_True by constructor. now apply list_lookup_insert_eq.
      * rewrite decide_False by (intros H; apply elem_of_cons in H as [?|?]; tauto).
        now apply list_lookup_insert_ne.
Qed.

Lemma iterate_writes x (ps : list nat) : forall d,
  Forall (fun p => (p < length d)%nat) ps ->
  iterate ps (fun p d' => if Nat.ltb p (length d') then Some (<[p := x]> d') else None) d
  = Some (written x ps d).
Proof.
  induction ps as [|p ps IH]; intros d Hps; [reflexivity|].
  apply Forall_cons in Hps as [Hp Hps]. cbn [iterate].
  apply Nat.ltb_lt in Hp. rewrite Hp. rewrite IH; [reflexivity|].
  eapply Forall_impl; [exact Hps|]. intros q Hq. now rewrite length_insert.
Qed.

(** Row-major offsets tell the coordinates apart. *)
Lemma element_offset_inj D1 D2 D3 a b c d a' b' c' d' :
  (b < D1)%nat -> (c < D2)%nat -> (d < D3)%nat ->
  (b' < D1)%nat -> (c' < D2)%nat -> (d' < D3)%nat ->
  (((a * D1 + b) * D2 + c) * D3 + d = ((a' * D1 + b') * D2 + c') * D3 + d')%nat ->
  a = a' /\ b = b' /\ c = c' /\ d = d'.
Proof.
  intros Hb Hc Hd Hb' Hc' Hd' E.
  assert (Hstep : forall n x y x' y', (y < n)%nat -> (y' < n)%nat ->
            (x * n + y = x' * n + y')%nat -> x = x' /\ y = y').
  { clear. intros n x y x' y' Hy Hy' E.
    assert (x = x') by nia. subst. split; [reflexivity|lia]. }
  apply Hstep in E as [E ->]; [|assumption..].
  apply Hstep in E as [E ->]; [|assumption..].
  apply Hstep in E as [-> ->]; [|assumption..].
  tauto.
Qed.

(** X23: the weights depth-to-space synthesises, for any number of output
    channels OC and 4 * OC input channels. The buffer of the 2x2 kernel is
    written in full range, and the byte at kernel position (v, u), input
    channel i and output channel o is 2, that is 1 / 0.5, when i is the
    channel o + (2 v + u) * OC, and 0 otherwise: each (v, u, o) selects
    exactly one input channel. *)
Theorem depth_to_space_selectors inShape outShape :
  0 <= dim3 outShape ->
  dim3 inShape = 4 * dim3 outShape ->
  4 * dim3 inShape * dim3 outShape < 2 ^ 32 ->
  let IC := Z.to_nat (dim3 inShape) in
  let OC := Z.to_nat (dim3 outShape) in
  let dims := Shape 2 2 (dim3 inShape) (dim3 outShape) in
  exists data,
    snd (d2s_weights 2 inShape outShape f32_half) = Some data /\
    length data = (4 * IC * OC)%nat /\
    forall v u i o, (v < 2)%nat -> (u < 2)%nat -> (i < IC)%nat -> (o < OC)%nat ->
      data !! element_offset dims v u i o
      = Some (if decide (i = selected_channel OC v u o) then 2 else 0).
Proof.
  intros Hout Hin Hsz IC OC dims.
  assert (HIC : IC = (4 * OC)%nat) by (subst IC OC; lia).
  assert (Enum : Z.to_nat (GetNumElements dims) = (4 * IC * OC)%nat).
  { unfold GetNumElements, mul32, u32, dims. cbn [dim0 dim1 dim2 dim3].
    rewrite (Z.mod_small (2 * 2)) by lia.
    rewrite (Z.mod_small (2 * 2 * dim3 inShape)) by nia.
    rewrite Z.mod_small by nia. subst IC OC. nia. }
  assert (Eoff : forall a b c d,
    element_offset dims a b c d = (((a * 2 + b) * IC + c) * OC + d)%nat) by reflexivity.
  set (W := fun (p : nat) (d' : list Z) =>
              if Nat.ltb p (length d') then Some (<[p := 2]> d') else None).
  set (init := replicate (Z.to_nat (GetNumElements dims)) 0).
  assert (Hrun : snd (d2s_weights 2 inShape outShape f32_half)
                 = iterate (selector_positions dims OC) W init).
  { unfold d2s_weights. cbn [snd m_Dimensions]. fold dims init.
    change (Z.to_nat 2) with 2%nat. fold OC.
    unfold selector_positions. rewrite iterate_map.
    etransitivity;
      [|exact (iterate_nested (seq 0 OC) (list_prod (seq 0 2) (seq 0 2))
                 (fun o q => W (element_offset dims (fst q) (snd q)
                                  (selected_channel OC (fst q) (snd q) o) o)) init)].
    apply iterate_ext. intros o s Ho. apply list_elem_of_In, in_seq in Ho.
    etransitivity;
      [|exact (iterate_nested (seq 0 2) (seq 0 2)
                 (fun v u => W (element_offset dims v u (selected_channel OC v u o) o)) s)].
    apply iterate_ext. intros v s' Hv. apply list_elem_of_In, in_seq in Hv.
    apply iterate_ext. intros u s'' Hu. apply list_elem_of_In, in_seq in Hu.
    cbn [fst snd]. unfold SetElement, W.
    assert (E4 : mul32 2 2 = 4) by reflexivity. rewrite E4.
    assert (Ediv : dim3 inShape / 4 = dim3 outShape).
    { rewrite Hin, Z.mul_comm. apply Z.div_mul. lia. }
    rewrite Ediv.
    set (w := Z.of_nat v * 2 + Z.of_nat u).
    assert (Hw : 0 <= w <= 3) by (subst w; lia).
    assert (Ew : add32 (mul32 (Z.of_nat v) 2) (Z.of_nat u) = w).
    { unfold add32, mul32, u32. rewrite (Z.mod_small (Z.of_nat v * 2)) by lia.
      rewrite Z.mod_small by lia. reflexivity. }
    rewrite Ew.
    assert (Eidx : Z.to_nat (add32 (Z.of_nat o) (mul32 w (dim3 outShape)))
                   = selected_channel OC v u o).
    { unfold add32, mul32, u32. rewrite (Z.mod_small (w * dim3 outShape)) by nia.
      rewrite Z.mod_small by nia. unfold selected_channel. subst w OC. nia. }
    rewrite Eidx. reflexivity. }
  assert (Hpos : forall p, p ∈ selector_positions dims OC <->
    exists o v u, (o < OC)%nat /\ (v < 2)%nat /\ (u < 2)%nat /\
                  p = element_offset dims v u (selected_channel OC v u o) o).
  { intros p. unfold selector_positions. rewrite list_elem_of_fmap. split.
    - intros ([o [v u]] & -> & Ht). cbn [fst snd].
      apply list_elem_of_In, in_prod_iff in Ht as [Ho Hvu].
      apply in_prod_iff in Hvu as [Hv Hu].
      apply in_seq in Ho, Hv, Hu. exists o, v, u. repeat split; lia.
    - intros (o & v & u & Ho & Hv & Hu & ->). exists (o, (v, u)). split; [reflexivity|].
      apply list_elem_of_In, in_prod_iff. split; [apply in_seq; lia|].
      apply in_prod_iff. split; apply in_seq; lia. }
  assert (Hrange : forall o v u, (o < OC)%nat -> (v < 2)%nat -> (u < 2)%nat ->
            (selected_channel OC v u o < IC)%nat).
  { intros o v u Ho Hv Hu. unfold selected_channel. nia. }
  assert (Hbound : forall v u i o, (v < 2)%nat -> (u < 2)%nat -> (i < IC)%nat ->
            (o < OC)%nat -> (element_offset dims v u i o < length init)%nat).
  { intros v u i o Hv Hu Hi Ho. subst init. rewrite length_replicate, Enum, Eoff.
    assert ((v * 2 + u) * IC + i < 4 * IC)%nat by nia. nia. }
  exists (written 2 (selector_positions dims OC) init).
  split; [|split].
  - rewrite Hrun. apply iterate_writes. apply Forall_forall. intros p Hp.
    apply Hpos in Hp as (o & v & u & Ho & Hv & Hu & ->).
    apply Hbound; auto.
  - rewrite written_length. subst init. now rewrite length_replicate.
  - intros v u i o Hv Hu Hi Ho. rewrite written_lookup by now apply Hbound.
    destruct (decide (i = selected_channel OC v u o)) as [->|Hne].
    + rewrite decide_True; [reflexivity|]. apply Hpos. exists o, v, u. tauto.
    + rewrite decide_False.
      * pose proof (Hbound v u i o Hv Hu Hi Ho) as Hb. subst init.
        rewrite length_replicate in Hb. now apply lookup_replicate_2.
      * intros Hin'. apply Hpos in Hin' as (o' & v' & u' & Ho' & Hv' & Hu' & E).
        rewrite !Eoff in E.
        apply element_offset_inj in E as (-> & -> & E & ->); auto.
Qed.

Lemma depth_to_space_selectors_witness :
  exists data,
    snd (d2s_weights 2 (Shape 1 4 4 8) (Shape 1 8 8 2) f32_half) = Some data /\
    length data = 64%nat /\
    data !! element_offset (Shape 2 2 8 2) 1 0 5 1 = Some 2 /\
    data !! element_offset (Shape 2 2 8 2) 1 0 4 1 = Some 0.
Proof.
  destruct (depth_to_space_selectors (Shape 1 4 4 8) (Shape 1 8 8 2))
    as (data & Hrun & Hlen & Hsel); [cbn; lia|reflexivity|cbn; lia|].
  exists data. split; [exact Hrun|]. split; [exact Hlen|]. split.
  - apply (Hsel 1 0 5 1)%nat; cbn; lia.
  - apply (Hsel 1 0 4 1)%nat; cbn; lia.
Defined.

(* ================================================================== *)
(** ** The only rule that rejects a network *)

Lemma nns_throw {S A} e : is_not_supported e = false -> never_not_supported (@throw S A e).
Proof. intros He s e' s' [= <- _]. exact He. Qed.

Lemma nns_get_estimation_mode : never_not_supported get_estimation_mode.
Proof. intros c e c' [=]. Qed.

Lemma nns_operand_node k : never_not_supported (operand_node k).
Proof.
  intros c e c'. unfold operand_node. destruct (m_OperandToNode c !! k); cbn; [discriminate|].
  now intros [= <- _].
Qed.

Lemma nns_GetFormat r : never_not_supported (GetFormat r).
Proof.
  intros c e c'. unfold GetFormat. destruct (g_nodes (m_Graph c) !! r); cbn; [discriminate|].
  now intros [= <- _].
Qed.

#[global] Hint Resolve nns_get_estimation_mode nns_operand_node nns_GetFormat : nns.

Ltac nns_rule :=
  repeat first
    [ solve [auto with nns]
    | apply nns_throw; reflexivity
    | apply nns_bind; [|intros ?]
    | apply nns_for_each; intros ?
    | match goal with
      | |- never_not_supported (match ?x with _ => _ end) => destruct x
      | |- never_not_supported (GetOutputInfo _ _) => unfold GetOutputInfo
      | |- never_not_supported (GetInputOperand _ _) => unfold GetInputOperand
      | |- never_not_supported (ConnectNode _ _) => unfold ConnectNode
      end ].

Lemma nns_Visit_Reshape op : never_not_supported (Visit_Reshape op).
Proof. unfold Visit_Reshape. nns_rule. Qed.
Lemma nns_Visit_Sigmoid op : never_not_supported (Visit_Sigmoid op).
Proof. unfold Visit_Sigmoid. nns_rule. Qed.
Lemma nns_Visit_Softmax q op : never_not_supported (Visit_Softmax q op).
Proof. unfold Visit_Softmax. nns_rule. Qed.
Lemma nns_Visit_Relu r : never_not_supported (Visit_Relu r).
Proof. unfold Visit_Relu. nns_rule. Qed.
Lemma nns_Visit_Addition q op : never_not_supported (Visit_Addition q op).
Proof. unfold Visit_Addition. nns_rule. Qed.
Lemma nns_Visit_Constant f op k : never_not_supported (Visit_Constant f op k).
Proof. unfold Visit_Constant. nns_rule. Qed.
Lemma nns_Visit_Pooling q p : never_not_supported (Visit_Pooling q p).
Proof. unfold Visit_Pooling. nns_rule. Qed.
Lemma nns_Visit_FullyConnected fc : never_not_supported (Visit_FullyConnected fc).
Proof. unfold Visit_FullyConnected. nns_rule. Qed.
Lemma nns_Visit_Input f i : never_not_supported (Visit_Input f i).
Proof. unfold Visit_Input. nns_rule. Qed.
Lemma nns_Visit_Output f a b c o : never_not_supported (Visit_Output f a b c o).
Proof. unfold Visit_Output. nns_rule. Qed.

Lemma nns_CreateTransposeConv stride wi wd bi bd padding ii oi id :
  never_not_supported (CreateTransposeConv stride wi wd bi bd padding ii oi id).
Proof.
  unfold CreateTransposeConv. nns_rule.
Qed.

#[global] Hint Resolve nns_CreateTransposeConv : nns.

Lemma nns_Visit_TransposeConvolution q tc :
  never_not_supported (Visit_TransposeConvolution q tc).
Proof. unfold Visit_TransposeConvolution. nns_rule. Qed.

Lemma nns_Visit_DepthToSpace d : never_not_supported (Visit_DepthToSpace d).
Proof.
  unfold Visit_DepthToSpace. nns_rule.
Qed.

Lemma nns_strided_head q op convInfo inputInfo :
  never_not_supported (strided_head q op convInfo inputInfo).
Proof. unfold strided_head. nns_rule. Qed.

#[global] Hint Resolve nns_strided_head : nns.

Lemma nns_Visit_Convolution q n conv : never_not_supported (Visit_Convolution q n conv).
Proof. unfold Visit_Convolution. nns_rule. Qed.

Lemma nns_Visit_DepthwiseConvolution q n dw :
  never_not_supported (Visit_DepthwiseConvolution q n dw).
Proof. unfold Visit_DepthwiseConvolution. nns_rule. Qed.

Lemma nns_estimate_only_outputs op outs :
  forall idx, never_not_supported (estimate_only_outputs op idx outs).
Proof.
  induction outs as [|o outs IH]; intros idx; cbn [estimate_only_outputs]; [apply nns_ret|].
  pose proof (IH (S idx)). nns_rule.
Qed.

#[global] Hint Resolve nns_estimate_only_outputs : nns.

Lemma nns_Visit_EstimateOnly op : never_not_supported (Visit_EstimateOnly op).
Proof. unfold Visit_EstimateOnly. nns_rule. Qed.

Lemma nns_create_subtensors id info si format idxs :
  forall off, never_not_supported (create_subtensors id info si format idxs off).
Proof.
  induction idxs as [|i idxs IH]; intros off; cbn [create_subtensors]; [apply nns_ret|].
  nns_rule.
Qed.

Lemma nns_bind_subtensors op inputNode nodes :
  forall idx, never_not_supported (bind_subtensors op inputNode idx nodes).
Proof.
  induction nodes as [|n nodes IH]; intros idx; cbn [bind_subtensors]; [apply nns_ret|].
  pose proof (IH (S idx)). nns_rule.
Qed.

Lemma nns_split_estimate_only op inputNode outs :
  forall idx, never_not_supported (split_estimate_only op inputNode idx outs).
Proof.
  induction outs as [|o outs IH]; intros idx; cbn [split_estimate_only]; [apply nns_ret|].
  pose proof (IH (S idx)). nns_rule.
Qed.

#[global] Hint Resolve nns_create_subtensors nns_bind_subtensors nns_split_estimate_only : nns.

Lemma nns_Visit_Split q sp : never_not_supported (Visit_Split q sp).
Proof. unfold Visit_Split. nns_rule. Qed.

(** X24: the rule of the concatenation is the only one that can raise a
    NotSupportedException. Whatever the converter holds and whatever the
    support queries answer, the rule of any other operation either succeeds
    or fails with another exception (a failed assertion, an operand without
    a node). *)
Theorem only_concatenation_rejects env o :
  (forall cat, o <> OpConcatenation cat) ->
  forall c e c', Visit env o c = Throw e c' -> is_not_supported e = false.
Proof.
  intros Hcat. change (never_not_supported (Visit env o)).
  destruct o; cbn [Visit];
    first [ now destruct (Hcat concatenation)
          | apply nns_Visit_Reshape | apply nns_Visit_Pooling | apply nns_Visit_Sigmoid
          | apply nns_Visit_Softmax | apply nns_Visit_Relu | apply nns_Visit_FullyConnected
          | apply nns_Visit_Addition | apply nns_Visit_Split | apply nns_Visit_Constant
          | apply nns_Visit_DepthwiseConvolution | apply nns_Visit_Convolution
          | apply nns_Visit_TransposeConvolution | apply nns_Visit_Output
          | apply nns_Visit_Input | apply nns_Visit_DepthToSpace
          | apply nns_Visit_EstimateOnly ].
Qed.

Lemma only_concatenation_rejects_witness :
  (forall cat, OpOutput network_output <> OpConcatenation cat) /\
  exists e c',
    Visit example_environment (OpOutput network_output) empty_converter = Throw e c' /\
    is_not_supported e = false.
Proof.
  assert (H : forall cat, OpOutput network_output <> OpConcatenation cat) by discriminate.
  split; [exact H|].
  exists UndefinedBehaviour, empty_converter.
  assert (E : Visit example_environment (OpOutput network_output) empty_converter
              = Throw UndefinedBehaviour empty_converter) by (vm_compute; reflexivity).
  split; [exact E|].
  exact (only_concatenation_rejects example_environment (OpOutput network_output) H
           empty_converter UndefinedBehaviour empty_converter E).
Defined.
